(* ===== verification/_CoqProject ===== *)
-Q . S2P
Prelude.v
GoLang.v
GoStrings.v
Md5.v
Compute.v
Utils.v
Namer.v
Annotations.v
Storage.v
ConfigMaps.v
HealthChecks.v
Instances.v
InstancesSync.v
Firewalls.v
Backends.v
BackendsSpec.v
LoadBalancers.v
Frames.v
BackendsFake.v
LoadBalancersFake.v
LoadBalancersSpec.v
LoadBalancersSync.v
LoadBalancersExample.v
K8s.v
Translator.v
TaskQueue.v
ClusterManager.v
Tls.v
Controller.v
ControllerSpec.v
NegSyncer.v
NegSyncerSM.v
NegSyncerSpec.v
NegFakes.v
NegManager.v
NegManagerSpec.v
NegManagerExample.v
NegController.v
NegControllerSpec.v
SharedContext.v
TranslatorSpec.v
CheckpointSpec.v
ShutdownSpec.v
SyncSpec.v
CheckpointExample.v
SyncExample.v
FakeCluster.v
Glbc.v
