(* ===== verification/Prelude.v ===== *)
(** * The GCE ingress controller, verified

    This library models the GCE ingress controller (GLBC, package
    k8s.io/ingress-gce) and proves what makes its parts correct.

    ** The program

    The controller watches ingresses, services and nodes of a Kubernetes cluster
    and makes GCE's HTTP load balancers follow them. An ingress key goes through
    the task queue to [sync] (pkg/controller/controller.go), which translates the
    ingresses to node ports and url maps (pkg/controller/utils.go) and asks the
    cluster manager (cluster_manager.go) for a checkpoint and a garbage collection.
    The cluster manager runs the pools in order: instance groups
    (pkg/instances), backend services (pkg/backends) with their health checks
    (pkg/healthchecks), load balancers (pkg/loadbalancers) and the firewall rule
    (pkg/firewalls). All objects get their names from the namer (pkg/utils/namer.go),
    which carries the uid of the cluster that main (cmd/glbc) keeps in a config map
    (pkg/storage). Next to it a second controller (pkg/networkendpointgroup) keeps,
    for services that ask for it, a syncer per service port, each with a goroutine
    that makes network endpoint groups follow the endpoints of the service.

    ** How Go is modelled

    - [GoLang]: a call is a function of a world [W], with result [Ok], [Err] or
      [Panic] and the new world, so that the effects of a call that failed stay
      (type [M]); [wp] is its weakest precondition, [keeps] its frame. Early returns
      are the monad's bind, [try] inspects an error, and pointers are lenses into
      the world. Nil dereferences, writes to nil maps, slices out of range and failed
      type assertions are [Panic], and a [wp] excludes them.
    - Go's nondeterminism is a parameter of the definitions and the theorems hold
      for each value: the order of ranging over a map ([MapRange], [KeyRange]), the
      element [PopAny] takes, the order in which concurrent cloud operations run
      ([Schedule]), sort's freedom on equal pods.
    - Goroutines and locks are step functions with a reachability relation: the
      task queue over client-go's work queue ([TaskQueue], [K8s]), a syncer with its
      goroutine, channel and retry timer ([NegSyncerSM]) and the manager with
      concurrent callers ([NegManager], [NegManagerSpec]).
    - Strings are byte strings; ports are in [Z]; the retry delay wraps at 64 bits.
      [GoStrings] has the functions of strings, strconv and sort that are used, [Md5]
      has RFC 1321's digest (with its test vectors), which names path matchers.
    - Cloud and API server are type classes with one member per call
      ([HealthCheckProvider], [InstanceGroups], [BackendServices], [LoadBalancers],
      [FirewallCloud], [NEGCloud], [ConfigMapStore], [ConfigMapClient],
      [IngressClient], ...). What is relied on is a class of laws for each
      ([HealthCheckProviderLaws], [GroupLaws], [FirewallLaws], [BackendLaws],
      [LBLaws], [L7sLaws], [NEGLaws], [NEGGroupLaws], [ConfigMapStoreLaws],
      [GlbcLaws]): a write that succeeds stores the object, a failed call changes
      nothing or what it says, any call may fail at any time. The repository's
      fakes are modelled as instances, and the witnesses instantiate the theorems
      with them. Between components the interfaces are the source's ([NodePool],
      [HealthChecker], [BackendPool], [LoadBalancerPool], [SingleFirewallPool]).
    - Log lines, events and metrics are dropped. JSON texts and the gcloud commands
      in messages are parameters. Mutexes that guard one method each are dropped.

    ** Files

    - [GoLang], [GoStrings], [Md5]: the language and its library. [Compute],
      [K8s]: the objects of GCE and Kubernetes, the informers' stores, the work queue.
    - [Utils], [Namer]: pkg/utils; [Annotations]: pkg/annotations; [Storage],
      [ConfigMaps]: pkg/storage; [Tls]: pkg/tls.
    - [HealthChecks]; [Instances], [InstancesSync]; [Firewalls]; [Backends],
      [BackendsSpec], [BackendsFake]; [LoadBalancers], [LoadBalancersFake],
      [LoadBalancersSpec], [LoadBalancersSync], [LoadBalancersExample]: the packages
      of these names, with theorems in the files in -Spec and -Sync and instances in
      -Fake and -Example. [Frames]: what the operations of each pool leave alone.
    - [Translator], [TranslatorSpec], [TaskQueue]: controller/utils.go;
      [ClusterManager], [CheckpointSpec], [ShutdownSpec], [CheckpointExample]:
      cluster_manager.go, with the theorems that put the pools together;
      [Controller], [ControllerSpec], [SyncSpec] (a whole sync, from the ingress to
      the cloud), [SyncExample]: controller.go; [FakeCluster]: fakes.go of the
      controller.
    - [NegSyncer], [NegSyncerSpec] (what a sync does), [NegSyncerSM] (when it runs):
      syncer.go; [NegManager], [NegManagerSpec], [NegManagerExample]: manager.go;
      [NegController], [NegControllerSpec]: controller.go; [NegFakes]: fakes.go, all
      of pkg/networkendpointgroup.
    - [SharedContext]: pkg/context, the constructors of both controllers, [Run] of
      the second one and how main starts them; [Glbc]: the rest of
      cmd/glbc/main.go.

    Definitions have the names of the source, with the receiver's type first
    ([L7_edgeHop] is the method edgeHop of L7).

    ** What is proved

    - A whole sync, end to end ([sync_spec]): when [sync] of an ingress returns no
      error, over any cloud that keeps the laws of the pools and with a firewall that
      is the controller's to change, then the url map of its load balancer routes each
      host and path to the backend of the service that the rules name, the
      checkpoint's objects are all as wanted, for all the ingresses, the backends
      are linked to the groups of all zones or to their network endpoint groups, and
      what no ingress asks for has been collected. It
      puts the stages of a sync ([sync_stages]) together with the theorems of the
      translator, the pools, the checkpoint and the collection.
    - The checkpoint of the cluster manager, over any cloud that keeps the laws of
      the pools ([Checkpoint_spec]): when it reports no error, instance groups with
      their named ports and members, backend services with the links to the health
      checks of their ports and to the groups of all zones ([zone_groups]), load
      balancers and the firewall rule are all as wanted at its end. The pools'
      theorems are composed by their frames ([ClusterFrames]): a call on one kind of
      object leaves the other kinds alone. The garbage collection that follows undoes
      nothing of it, even when it fails half way, and when it succeeds the load
      balancers and backends that nothing asks for are gone ([Checkpoint_GC_spec]).
      The shutdown takes away load balancers, firewall and backends, or can be tried
      again; when a shared network refuses to delete the rule it reports success and
      leaves firewall and backends ([cluster_shutdown_spec]). The instance groups are
      always left, and so are the certificates that [Cleanup_spec] names.
    - Load balancers: a successful edgeHop leaves the chain from the forwarding
      rules to the url map as the ingress asks ([edgeHop_spec]); the written url map
      routes every host and path as the rules say ([UpdateUrlMap_spec]); cleanup
      deletes the rules, address, proxies, url map and current certificate that the
      load balancer recorded, in an order that can be resumed after a failure, and
      leaves an old certificate ([Cleanup_spec]); garbage collection spares what is
      in use ([LB_GC_spec]).
    - Backends, health checks, instance groups and the firewall rule: the object in
      the cloud is the wanted one after success, user settings survive, other
      objects are untouched, and errors leave the documented state
      ([ensureBackendService_spec], [Link_spec], [GC_spec], [Sync_spec],
      [EnsureInstanceGroups_spec], [Sync_converges], [FirewallSync_spec]); the stored
      health checks keep the child that their type asks for ([health_checks_typed]).
    - Controller: the url map of an ingress against a declarative reading of its
      rules ([toURLMap_spec]); every port a url map refers to is among the ports that
      the checkpoint ensures and garbage collection spares ([ports_agree]); no queued
      key is lost, and a worker that had started stops, while a stop that comes
      before the start never returns ([taskQueue_progress]). [FakeCluster] evaluates whole syncs (create,
      again, delete) on the fakes.
    - Endpoint groups: after a sync that succeeds the groups hold exactly the
      endpoints of the service ([sync_converges]), in batches that terminate and cover
      everything ([batches_spec]); a syncer never sends on a closed channel, has at
      most one goroutine and serves every request ([syncer_lifecycle],
      [syncer_progress]); the manager keeps its maps and syncers consistent under
      concurrent calls ([manager_safe]) and collects only what nobody wants, all of
      it unless a group could not be read ([manager_GC_spec]); the running syncers are those the ingresses need
      ([processService_spec]), and no event of an ingress is lost
      ([ingress_event_queues]); before its informers are synced the controller does
      nothing ([negRun_waits]).
    - Start: main starts exactly the informers that the controllers wait for, with
      or without network endpoint groups ([startControllers_spec]).
    - Names: round trips, isolation of clusters, lengths ([BackendPort_Backend],
      [ParseName_derived], [cluster_isolation], [names_fit],
      [trimFieldsEvenly_spec], [LoadBalancer_idempotent]); the recorded names survive
      a restart ([newNamer_stable], over [Vault_Put_spec]); the caches
      ([ReplenishPool_spec]).
    - Where the code does not do what it means to, the theorem says what it does:
      the properties of kind error, parts of [taskQueue_progress],
      [manager_GC_spec], [FirewallSync_spec] and [names_fit], [FirewallRule_too_long], [worker_never_returns],
      [IsNEG_not_exclusive], [LoadBalancer_collision], [Vault_panics], and in [Glbc]
      [empty_uid_forgotten], [poll_undoes_flag] and [dry_run_fatal].

    ** Bounds and fuel

    The only loops that are not structural are the batches of a syncer, whose fuel
    is the size of the set, proved enough by [batches_spec]; the polls of [Glbc],
    whose number of rounds is an argument (a timeout in the source, unbounded for the
    cloud client); and the go routines, which are step relations. MD5 runs a fixed
    number of rounds per block.

    ** Not modelled

    The informers of client-go (only their stores, whether they are synced and the
    registered handlers are seen) and its event recorder; the go routine of a
    CloudListingPool, each tick of which is one modelled call; in main the parsing
    of flags and the HTTP server (the calls that make the clients are parameters);
    build/e2e.go and examples, which are tools and programs of their own; vendored
    code.

    ** Open

    Not proved in general: that a second sync after a successful one makes no change
    in any cloud that keeps the laws (it is proved per pool and evaluated for one
    ingress in [FakeCluster]). *)

From stdpp Require Export prelude strings gmap list sorting pretty.
From Stdlib Require Export Ascii.

#[export] Set Warnings "-clear-no-such-hyp,-level-tolerance".
Create HintDb glbc discriminated.

(** ** Tactics *)

(** Case analysis on every [match] and [if] of the goal, closing the
    contradictory cases. *)
Ltac case_all :=
  repeat (case_match; simplify_eq/=; try done).

(** Split a hypothesis made of conjunctions and existentials. *)
Ltac destr_ex :=
  repeat match goal with
  | H : _ ∧ _ |- _ => destruct H
  | H : ∃ _, _ |- _ => destruct H
  end.

(** ** Lists *)

Lemma last_Some_app {A} (l : list A) x :
  last l = Some x → ∃ l', l = l' ++ [x].
Proof.
  destruct l as [|y l] using rev_ind; simpl; [done|].
  rewrite last_snoc. intros [= ->]. by eexists.
Qed.
