(* ===== verification/GoLang.v ===== *)
(** * GoLang: the fragment of Go the controller is written in

    - [error], [outcome], [M]: a Go call that reads and writes a shared world
      [W] and returns a value, an error or panics.  The world survives an
      error, as Go's heap and the cloud do.
    - [wp]: weakest preconditions for [M], with the rules the components use.
    - the functions of [strings], [strconv] and [sort] that the sources call,
      on byte strings. *)

From S2P Require Import Prelude.

(** ** Errors

    [GoogleAPIError] is [googleapi.Error] with its [Code] and [Message].
    [Errorf] keeps the format, the string arguments and the error arguments
    of [fmt.Errorf]; [Aggregate] is [utilerrors.NewAggregate]. The last three
    constructors are the error types the repository declares. *)
#[warnings="-register-all"]
Inductive error :=
  | GoogleAPIError (code : Z) (message : string)
  | Errorf (format : string) (args : list string) (wrapped : list error)
  | Aggregate (errs : list error)
  | FirewallSyncErr (internal : error) (message : string)
  | NodePortNotFoundErr (backend : string) (origErr : error)
  | SvcAppProtosParsingErr (svc : string) (origErr : error).

(** [net/http] status codes used by the sources. *)
Definition StatusBadRequest : Z := 400.
Definition StatusForbidden : Z := 403.
Definition StatusNotFound : Z := 404.
Definition StatusConflict : Z := 409.

(** ** Calls *)

(** How a Go call ends: [Ok v] for [(v, nil)], [Err e] for a non-nil error,
    [Panic] for a run-time panic (nil dereference, index out of range). *)
Inductive outcome (A : Type) :=
  | Ok (a : A)
  | Err (e : error)
  | Panic.
Arguments Ok {A} a.
Arguments Err {A} e.
Arguments Panic {A}.

Definition M (W A : Type) : Type := W → outcome A * W.

Global Instance M_ret {W} : MRet (M W) := λ A a w, (Ok a, w).
(** Sequencing with the early return of [if err != nil { return err }]. *)
Global Instance M_bind {W} : MBind (M W) := λ A B f m w,
  match m w with
  | (Ok a, w') => f a w'
  | (Err e, w') => (Err e, w')
  | (Panic, w') => (Panic, w')
  end.
Definition throw {W A} (e : error) : M W A := λ w, (Err e, w).
Definition panic {W A} : M W A := λ w, (Panic, w).
(** [x, err := m]: both results are inspected by the caller. *)
Definition try {W A} (m : M W A) : M W (error + A) := λ w,
  match m w with
  | (Ok a, w') => (Ok (inr a), w')
  | (Err e, w') => (Ok (inl e), w')
  | (Panic, w') => (Panic, w')
  end.
(** [x, _ := m]: the error is dropped and [x] is nil when there was one. *)
Definition ignoreErr {W A} (m : M W (option A)) : M W (option A) :=
  r ← try m;
  match r with inl _ => mret None | inr x => mret x end.
(** [defer d] around a body: [d] runs after the body, whatever it returned. *)
Definition defer {W A} (d : W → W) (m : M W A) : M W A := λ w,
  let (r, w') := m w in (r, d w').
(** Return a computed [error] value, nil or not. *)
Definition retErr {W} (e : option error) : M W unit :=
  match e with None => mret tt | Some e => throw e end.
(** A pure function that may panic. *)
Definition ofOption {W A} (o : option A) : M W A :=
  match o with Some a => mret a | None => panic end.
Definition getW {W A} (f : W → A) : M W A := λ w, (Ok (f w), w).
Definition modW {W} (f : W → W) : M W unit := λ w, (Ok tt, f w).

(** [for _, x := range l { if err := f(x); err != nil { return err } }] *)
Fixpoint forEach {W A} (f : A → M W unit) (l : list A) : M W unit :=
  match l with
  | [] => mret tt
  | x :: l => _ ← f x; forEach f l
  end.
(** The loop that collects a value per element. *)
Fixpoint forCollect {W A B} (f : A → M W B) (l : list A) : M W (list B) :=
  match l with
  | [] => mret []
  | x :: l => y ← f x; ys ← forCollect f l; mret (y :: ys)
  end.
(** The loop that goes on after an error and collects the errors. *)
Fixpoint forErrs {W A} (f : A → M W unit) (l : list A) : M W (list error) :=
  match l with
  | [] => mret []
  | x :: l =>
      r ← try (f x);
      es ← forErrs f l;
      mret (match r with inl e => e :: es | inr _ => es end)
  end.

(** [for k, v := range m]: Go ranges over a map in an order of its choice. The
    order is a parameter of everything that ranges over a map, and what is
    proved holds for each. *)
Class MapRange := {
  range : ∀ {V : Type}, gmap string V → list (string * V);
  range_perm : ∀ {V} (m : gmap string V), range m ≡ₚ map_to_list m;
}.
Lemma range_keys `{MapRange} {V} (m : gmap string V) k : k ∈ (range m).*1 ↔ is_Some (m !! k).
Proof.
  rewrite range_perm, list_elem_of_fmap. split.
  - intros ([k' v]&->&Hin%elem_of_map_to_list). by eexists.
  - intros [v Hv]. exists (k, v). split; [done|]. by apply elem_of_map_to_list.
Qed.
Lemma range_NoDup `{MapRange} {V} (m : gmap string V) : NoDup (range m).*1.
Proof. rewrite range_perm. apply NoDup_fst_map_to_list. Qed.
Lemma range_lookup `{MapRange} {V} (m : gmap string V) k v : (k, v) ∈ range m ↔ m !! k = Some v.
Proof. rewrite range_perm. apply elem_of_map_to_list. Qed.
(** The element at hand was not visited before. *)
Lemma range_fresh `{MapRange} {V} (m : gmap string V) d k v :
  d ++ [(k, v)] `prefix_of` range m → k ∉ d.*1 ∧ m !! k = Some v.
Proof.
  intros [r Hpre]. split.
  - pose proof (range_NoDup m) as Hnd. rewrite Hpre, !fmap_app in Hnd.
    apply NoDup_app in Hnd as [Hnd _]. apply NoDup_app in Hnd as (_&Hd&_).
    intros Hin. apply (Hd k Hin). set_solver.
  - apply range_lookup. rewrite Hpre. set_solver.
Qed.
Lemma list_to_map_range `{MapRange} {V} (m : gmap string V) : list_to_map (range m) = m.
Proof.
  rewrite <-(list_to_map_to_list m) at 2. apply list_to_map_proper; [apply range_NoDup|apply range_perm].
Qed.
Definition sortedRange : MapRange :=
  {| range := λ V m, map_to_list m; range_perm := λ V m, reflexivity _ |}.

(** The same for maps with other keys. *)
Class KeyRange (K : Type) `{Countable K} := {
  krange : ∀ {V : Type}, gmap K V → list (K * V);
  krange_perm : ∀ {V} (m : gmap K V), krange m ≡ₚ map_to_list m;
}.
Lemma krange_lookup {K} `{KeyRange K} {V} (m : gmap K V) k v : (k, v) ∈ krange m ↔ m !! k = Some v.
Proof. rewrite krange_perm. apply elem_of_map_to_list. Qed.

Definition listRange (K : Type) `{Countable K} : KeyRange K :=
  {| krange := λ V m, map_to_list m; krange_perm := λ V m, reflexivity _ |}.

(** ** References into the world *)

(** A pointer to a struct of type [F] that lives in the world [W]. *)
Record lens (W F : Type) := Lens {
  lget : W → F;
  lset : F → W → W;
}.
Arguments Lens {W F} _ _.
Arguments lget {W F} _ _.
Arguments lset {W F} _ _ _.

Class LensLaws {W F} (l : lens W F) := {
  lens_get_set : ∀ f w, lget l (lset l f w) = f;
  lens_set_get : ∀ w, lset l (lget l w) w = w;
  lens_set_set : ∀ f g w, lset l f (lset l g w) = lset l f w;
}.

(** Run a call on the struct a pointer refers to. *)
Definition zoom {W F A} (l : lens W F) (m : M F A) : M W A := λ w,
  let (r, f) := m (lget l w) in (r, lset l f w).

Definition lens_id {W} : lens W W := Lens (λ w, w) (λ f _, f).
Global Instance lens_id_laws {W} : LensLaws (@lens_id W).
Proof. by split. Qed.

(** The two halves of a pair, as pointers. *)
Definition lens_fst {A B} : lens (A * B) A := Lens fst (λ a w, (a, w.2)).
Definition lens_snd {A B} : lens (A * B) B := Lens snd (λ b w, (w.1, b)).
Global Instance lens_fst_laws {A B} : LensLaws (@lens_fst A B).
Proof. by split; [|intros []|]. Qed.
Global Instance lens_snd_laws {A B} : LensLaws (@lens_snd A B).
Proof. by split; [|intros []|]. Qed.
(** A pointer behind a pointer. *)
Definition lens_comp {A B C} (l : lens A B) (k : lens B C) : lens A C :=
  Lens (λ a, lget k (lget l a)) (λ c a, lset l (lset k c (lget l a)) a).
Global Instance lens_comp_laws {A B C} (l : lens A B) (k : lens B C) `{!LensLaws l, !LensLaws k} : LensLaws (lens_comp l k).
Proof. split; intros; simpl; by rewrite ?lens_get_set, ?lens_set_get, ?lens_set_set. Qed.

(** ** Weakest preconditions *)

Definition wp {W A} (m : M W A) (Q : A → W → Prop) (E : error → W → Prop)
    (w : W) : Prop :=
  match m w with
  | (Ok a, w') => Q a w'
  | (Err e, w') => E e w'
  | (Panic, _) => False
  end.

Section wp.
Context {W : Type}.

Lemma wp_mono {A} (m : M W A) (Q Q' : A → W → Prop) (E E' : error → W → Prop) w :
  wp m Q E w → (∀ a w', Q a w' → Q' a w') → (∀ e w', E e w' → E' e w') →
  wp m Q' E' w.
Proof. unfold wp. destruct (m w) as [[] ?]; naive_solver. Qed.

Lemma wp_and {A} (m : M W A) (Q Q' : A → W → Prop) (E E' : error → W → Prop) w :
  wp m Q E w → wp m Q' E' w →
  wp m (λ a w', Q a w' ∧ Q' a w') (λ e w', E e w' ∧ E' e w') w.
Proof. unfold wp. destruct (m w) as [[] ?]; naive_solver. Qed.

Lemma wp_ret {A} (a : A) (Q : A → W → Prop) E w : Q a w → wp (mret a) Q E w.
Proof. done. Qed.

Lemma wp_throw {A} e (Q : A → W → Prop) (E : error → W → Prop) w :
  E e w → wp (throw e) Q E w.
Proof. done. Qed.

Lemma wp_bind {A B} (m : M W A) (f : A → M W B) Q E w :
  wp m (λ a, wp (f a) Q E) E w → wp (m ≫= f) Q E w.
Proof. unfold wp, mbind, M_bind. destruct (m w) as [[] ?]; naive_solver. Qed.

Lemma wp_unbind {A B} (m : M W A) (f : A → M W B) Q E w :
  wp (m ≫= f) Q E w → wp m (λ a, wp (f a) Q E) E w.
Proof. unfold wp, mbind, M_bind. destruct (m w) as [[] ?]; naive_solver. Qed.

Lemma wp_try {A} (m : M W A) (Q : error + A → W → Prop) E w :
  wp m (λ a, Q (inr a)) (λ e, Q (inl e)) w → wp (try m) Q E w.
Proof. unfold wp, try. destruct (m w) as [[] ?]; naive_solver. Qed.

Lemma wp_ignoreErr {A} (m : M W (option A)) (Q : option A → W → Prop) E w :
  wp m Q (λ _, Q None) w → wp (ignoreErr m) Q E w.
Proof.
  intros H. apply wp_bind, wp_try. eapply wp_mono; [exact H|..]; naive_solver.
Qed.

Lemma wp_retErr o (Q : unit → W → Prop) (E : error → W → Prop) w :
  match o with None => Q tt w | Some e => E e w end → wp (retErr o) Q E w.
Proof. by destruct o. Qed.

Lemma wp_ofOption {A} (o : option A) a (Q : A → W → Prop) E w :
  o = Some a → Q a w → wp (ofOption o) Q E w.
Proof. by intros ->. Qed.

Lemma wp_getW {A} (f : W → A) (Q : A → W → Prop) E w :
  Q (f w) w → wp (getW f) Q E w.
Proof. done. Qed.

Lemma wp_modW (f : W → W) (Q : unit → W → Prop) E w :
  Q tt (f w) → wp (modW f) Q E w.
Proof. done. Qed.

Lemma wp_defer {A} d (m : M W A) Q E w :
  wp m (λ a w', Q a (d w')) (λ e w', E e (d w')) w → wp (defer d m) Q E w.
Proof. unfold wp, defer. destruct (m w) as [[] ?]; naive_solver. Qed.

Lemma wp_zoom {F A} (l : lens W F) (m : M F A) Q E w :
  wp m (λ a f, Q a (lset l f w)) (λ e f, E e (lset l f w)) (lget l w) →
  wp (zoom l m) Q E w.
Proof. unfold wp, zoom. destruct (m (lget l w)) as [[] ?]; naive_solver. Qed.

(** A loop that returns at the first error, by an invariant indexed by the
    elements already visited. *)
Lemma wp_forEach {A} (f : A → M W unit) (l : list A)
    (I : list A → W → Prop) (E : error → W → Prop) w :
  I [] w →
  (∀ done x w', done ++ [x] `prefix_of` l → I done w' →
    wp (f x) (λ _, I (done ++ [x])) E w') →
  wp (forEach f l) (λ _, I l) E w.
Proof.
  intros H0 Hstep.
  enough (∀ rest done w', done ++ rest = l → I done w' →
    wp (forEach f rest) (λ _, I l) E w') as HG by (by apply (HG l [])).
  induction rest as [|x rest IH]; intros d w' Hl Hd; simpl.
  { rewrite app_nil_r in Hl. subst. by apply wp_ret. }
  apply wp_bind. eapply wp_mono; [apply Hstep, Hd|..]; [|simpl|done].
  - subst. exists rest. by rewrite <-app_assoc.
  - intros _ w'' HI. eapply IH, HI. by rewrite <-app_assoc.
Qed.

(** The same rule with an invariant that does not track progress. *)
Lemma wp_forEach_inv {A} (f : A → M W unit) (l : list A)
    (I : W → Prop) (E : error → W → Prop) w :
  I w → (∀ x w', x ∈ l → I w' → wp (f x) (λ _, I) E w') →
  wp (forEach f l) (λ _, I) E w.
Proof.
  intros H0 Hstep. apply (wp_forEach f l (λ _, I)); [done|].
  intros d x w' [r ->] HI. apply Hstep; [set_solver|done].
Qed.

Lemma wp_forErrs {A} (f : A → M W unit) (l : list A)
    (I : W → Prop) (E : error → W → Prop) w :
  I w → (∀ x w', x ∈ l → I w' → wp (f x) (λ _, I) (λ _, I) w') →
  wp (forErrs f l) (λ _, I) E w.
Proof.
  revert w. induction l as [|x l IH]; intros w H0 Hstep; simpl.
  { by apply wp_ret. }
  apply wp_bind, wp_try. eapply wp_mono; [apply Hstep; [set_solver|done]|..].
  all: intros a w' HI; apply wp_bind; eapply wp_mono;
    [apply IH; [done|set_solver]|by intros; apply wp_ret|done].
Qed.

(** A loop that goes on after errors: [J] holds throughout, and [I] tracks the
    elements done as long as none failed. *)
Lemma wp_forErrs_progress {A} (f : A → M W unit) (l : list A)
    (I : list A → W → Prop) (J : W → Prop) (E : error → W → Prop) w :
  I [] w → J w →
  (∀ done x w', done ++ [x] `prefix_of` l → J w' →
    wp (f x) (λ _ w'', J w'' ∧ (I done w' → I (done ++ [x]) w'')) (λ _, J) w') →
  wp (forErrs f l) (λ es w', J w' ∧ (es = [] → I l w')) E w.
Proof.
  intros HI HJ Hstep.
  enough (∀ rest done w', done ++ rest = l → J w' →
    wp (forErrs f rest) (λ es w'', J w'' ∧ (es = [] → I done w' → I l w'')) E w') as HG.
  { eapply wp_mono; [apply (HG l []); done| |done]. naive_solver. }
  induction rest as [|x rest IH]; intros d w' Hl Hd; simpl.
  { rewrite app_nil_r in Hl. subst. by apply wp_ret. }
  assert (d ++ [x] `prefix_of` l) as Hp by (subst; exists rest; by rewrite <-app_assoc).
  apply wp_bind, wp_try. eapply wp_mono; [by apply Hstep|..].
  - intros _ w'' [HJ' HI']. apply wp_bind. eapply wp_mono; [apply (IH (d ++ [x]))|..].
    + by rewrite <-app_assoc.
    + done.
    + intros es w3 [? HI3]. apply wp_ret. split; [done|]. auto.
    + done.
  - intros e w'' HJ'. apply wp_bind. eapply wp_mono; [apply (IH (d ++ [x]))|..].
    + by rewrite <-app_assoc.
    + done.
    + intros es w3 [? _]. by apply wp_ret.
    + done.
Qed.

Lemma wp_forCollect {A B} (f : A → M W B) (l : list A)
    (I : list A → list B → W → Prop) (E : error → W → Prop) w :
  I [] [] w →
  (∀ done x ys w', done ++ [x] `prefix_of` l → I done ys w' →
    wp (f x) (λ y, I (done ++ [x]) (ys ++ [y])) E w') →
  wp (forCollect f l) (λ ys, I l ys) E w.
Proof.
  intros H0 Hstep.
  enough (∀ rest done ys w', done ++ rest = l → I done ys w' →
    wp (forCollect f rest) (λ zs, I l (ys ++ zs)) E w') as HG
    by (by apply (HG l [] [])).
  induction rest as [|x rest IH]; intros d ys w' Hl Hd; simpl.
  { rewrite app_nil_r in Hl. subst. apply wp_ret. by rewrite app_nil_r. }
  apply wp_bind. eapply wp_mono; [apply Hstep, Hd|..]; [|simpl|done].
  { subst. exists rest. by rewrite <-app_assoc. }
  intros y w'' HI. apply wp_bind. eapply wp_mono; [eapply IH, HI|..].
  - by rewrite <-app_assoc.
  - intros zs w3 H3. apply wp_ret. cbv beta in H3. by rewrite <-app_assoc in H3.
  - done.
Qed.

End wp.

(** Read a [wp] fact back as a fact about the call's result. *)
Lemma wp_run {W A} (m : M W A) Q E (w : W) :
  wp m Q E w ↔
  (∃ a w', m w = (Ok a, w') ∧ Q a w') ∨ (∃ e w', m w = (Err e, w') ∧ E e w').
Proof.
  unfold wp. destruct (m w) as [[a|e|] w'] eqn:Hm; split.
  all: try (intros [(?&?&?&?)|(?&?&?&?)]; by simplify_eq).
  - intros H. left. by exists a, w'.
  - intros H. right. by exists e, w'.
  - done.
Qed.

(** ** Frames: a call that never changes a part of the world, even if it
    panics *)

Definition keeps {W A F} (f : W → F) (m : M W A) : Prop := ∀ w, f (m w).2 = f w.

Section keeps.
Context {W F : Type} (f : W → F).

Lemma keeps_ret {A} (a : A) : keeps f (mret a).
Proof. done. Qed.
Lemma keeps_throw {A} e : keeps f (@throw W A e).
Proof. done. Qed.
Lemma keeps_panic {A} : keeps f (@panic W A).
Proof. done. Qed.
Lemma keeps_getW {A} (g : W → A) : keeps f (getW g).
Proof. done. Qed.
Lemma keeps_modW (g : W → W) : (∀ w, f (g w) = f w) → keeps f (modW g).
Proof. intros Hg w. apply Hg. Qed.
Lemma keeps_bind {A B} (m : M W A) (k : A → M W B) :
  keeps f m → (∀ a, keeps f (k a)) → keeps f (m ≫= k).
Proof.
  intros Hm Hk w. unfold mbind, M_bind. specialize (Hm w).
  destruct (m w) as [[a|e|] w']; simpl in *; [|done..]. by rewrite Hk.
Qed.
Lemma keeps_try {A} (m : M W A) : keeps f m → keeps f (try m).
Proof. intros Hm w. unfold try. specialize (Hm w). by destruct (m w) as [[] ?]. Qed.
Lemma keeps_ofOption {A} (o : option A) : keeps f (ofOption o).
Proof. by destruct o. Qed.

Lemma keeps_forEach {A} (g : A → M W unit) l : (∀ x, keeps f (g x)) → keeps f (forEach g l).
Proof. intros Hg. induction l; simpl; [apply keeps_ret|by apply keeps_bind]. Qed.

Lemma wp_keeps {A} (m : M W A) Q E w :
  keeps f m → wp m Q E w →
  wp m (λ a w', Q a w' ∧ f w' = f w) (λ e w', E e w' ∧ f w' = f w) w.
Proof. intros Hm. specialize (Hm w). unfold wp. by destruct (m w) as [[] ?]. Qed.
End keeps.

Create HintDb keeps discriminated.
#[export] Hint Resolve keeps_ret keeps_throw keeps_panic keeps_getW keeps_modW keeps_bind
  keeps_try keeps_ofOption : keeps.

#[export] Hint Resolve wp_ret wp_throw : glbc.

(** One symbolic step through a call. *)
Ltac wp_step :=
  match goal with
  | |- wp (mret _) _ _ _ => apply wp_ret
  | |- wp (throw _) _ _ _ => apply wp_throw
  | |- wp (mbind _ _) _ _ _ => apply wp_bind
  | |- wp (try _) _ _ _ => apply wp_try
  | |- wp (ignoreErr _) _ _ _ => apply wp_ignoreErr
  | |- wp (defer _ _) _ _ _ => apply wp_defer
  | |- wp (retErr _) _ _ _ => apply wp_retErr
  | |- wp (getW _) _ _ _ => apply wp_getW
  | |- wp (modW _) _ _ _ => apply wp_modW
  | |- wp (zoom _ _) _ _ _ => apply wp_zoom
  | |- wp (if ?b then _ else _) _ _ _ => destruct b eqn:?
  end.
Ltac wp_steps := repeat (wp_step; simpl).
(** Run through a body of reads, writes and case distinctions. *)
Ltac wp_auto :=
  repeat first
    [ wp_step; cbv beta
    | match goal with |- wp (match ?x with _ => _ end) _ _ _ => destruct x eqn:? end ].
(** Use a specification of the call at the head. *)
Tactic Notation "wp_use" uconstr(H) := eapply wp_mono; [eapply H; try typeclasses eauto|..].
