(* ===== verification/GoStrings.v ===== *)
(** * GoStrings: Go's [strings], [strconv], [fmt] and [sort] on byte strings

    A Go string is a sequence of bytes; [string] is a list of [ascii] bytes.
    [Itoa] is the decimal rendering of [%d], [%v] and [strconv.Itoa]. *)

From S2P Require Import Prelude GoLang.


(** ** Definitions *)

(** [strings.HasPrefix(s, p)] *)
Fixpoint HasPrefix (s p : string) : bool :=
  match p, s with
  | "", _ => true
  | String c p', String d s' => Ascii.eqb c d && HasPrefix s' p'
  | String _ _, "" => false
  end.

(** [strings.Contains(s, sub)] *)
Fixpoint Contains (s sub : string) : bool :=
  HasPrefix s sub || match s with "" => false | String _ s' => Contains s' sub end.

(** [strings.Split(s, sep)] for a non-empty [sep]: cut at each leftmost,
    non-overlapping occurrence.  [skip] counts the bytes of an occurrence
    still to be passed over. *)
Fixpoint split_go (sep : string) (skip : nat) (s : string) : list string :=
  match s with
  | "" => [""]
  | String c s' =>
      match skip with
      | S k => split_go sep k s'
      | O =>
          if HasPrefix s sep then "" :: split_go sep (String.length sep - 1) s'
          else match split_go sep 0 s' with
               | t :: ts => String c t :: ts
               | [] => [String c ""]
               end
      end
  end.
Definition Split (s sep : string) : list string := split_go sep 0 s.

(** [strings.Join(l, sep)] *)
Fixpoint Join (l : list string) (sep : string) : string :=
  match l with
  | [] => ""
  | [x] => x
  | x :: l => x +:+ sep +:+ Join l sep
  end.

(** [strings.Replace(s, old, new, -1)] for a non-empty [old] *)
Definition ReplaceAll (s old new : string) : string := Join (Split s old) new.

(** [s[:n]] when [n] is in range. *)
Fixpoint str_take (n : nat) (s : string) : string :=
  match n, s with
  | S n, String c s => String c (str_take n s)
  | _, _ => ""
  end.
Fixpoint str_drop (n : nat) (s : string) : string :=
  match n, s with
  | S n, String _ s => str_drop n s
  | _, _ => s
  end.
(** [s[:n]] with Go's bounds check: [None] is the panic. *)
Definition slice_to (s : string) (n : Z) : option string :=
  if decide (0 ≤ n ≤ Z.of_nat (String.length s))%Z
  then Some (str_take (Z.to_nat n) s) else None.

(** [parts[len(parts)-1]] *)
Definition last_token (l : list string) : option string := last l.
(** The last component of a link: [strings.Split(url, "/")[len-1]]. *)
Definition last_component (url : string) : string :=
  default "" (last (Split url "/")).

(** [%d], [strconv.Itoa], [strconv.FormatInt(_, 10)] *)
Definition Itoa (n : Z) : string := pretty n.

Definition is_digit (c : ascii) : bool :=
  (48 <=? N_of_ascii c)%N && (N_of_ascii c <=? 57)%N.
Definition digit_val (c : ascii) : Z := Z.of_N (N_of_ascii c) - 48.
(** The value of a run of decimal digits; [None] if a byte is not a digit. *)
Fixpoint digits_val (acc : Z) (s : string) : option Z :=
  match s with
  | "" => Some acc
  | String c s' => if is_digit c then digits_val (10 * acc + digit_val c) s' else None
  end.
Definition parse_digits (s : string) : option Z :=
  match s with "" => None | _ => digits_val 0 s end.

(** [strconv.Atoi]: an optional sign and decimal digits, within int64. *)
Definition Atoi (s : string) : option Z :=
  let r := match s with
           | String "+" s' => parse_digits s'
           | String "-" s' => Z.opp <$> parse_digits s'
           | _ => parse_digits s
           end in
  v ← r; if decide (- 2 ^ 63 ≤ v < 2 ^ 63)%Z then Some v else None.

(** [strconv.ParseUint(s, 10, 16)] *)
Definition ParseUint16 (s : string) : option Z :=
  v ← parse_digits s; if decide (v < 2 ^ 16)%Z then Some v else None.

(** [strconv.ParseBool] *)
Definition ParseBool (s : string) : option bool :=
  if decide (s ∈ ["1"; "t"; "T"; "true"; "TRUE"; "True"]) then Some true
  else if decide (s ∈ ["0"; "f"; "F"; "false"; "FALSE"; "False"]) then Some false
  else None.

(** [sort.Strings(l)] *)
Definition sort_Strings (l : list string) : list string := merge_sort String.le l.
(** [sets.String.List()]: the elements in increasing order. *)
Definition sets_List (s : gset string) : list string := sort_Strings (elements s).

(** [c] does not occur in [s]. *)
Fixpoint lacks (c : ascii) (s : string) : bool :=
  match s with "" => true | String d s' => negb (Ascii.eqb c d) && lacks c s' end.
(** [s] does not end with [c]. *)
Fixpoint not_ending (c : ascii) (s : string) : bool :=
  match s with
  | "" => true
  | String d "" => negb (Ascii.eqb c d)
  | String _ s' => not_ending c s'
  end.
Fixpoint str_forallb (f : ascii → bool) (s : string) : bool :=
  match s with "" => true | String c s' => f c && str_forallb f s' end.

(** ** Strings as sequences *)

Lemma str_app_cons c a b : String c a +:+ b = String c (a +:+ b).
Proof. done. Qed.
Lemma str_app_nil_l b : "" +:+ b = b.
Proof. done. Qed.
Lemma str_app_nil_r s : s +:+ "" = s.
Proof. induction s as [|c s IH]; [done|]. by rewrite str_app_cons, IH. Qed.
Lemma str_app_assoc a b c : (a +:+ b) +:+ c = a +:+ (b +:+ c).
Proof. induction a as [|d a IH]; [done|]. by rewrite !str_app_cons, IH. Qed.
Lemma str_length_app a b :
  String.length (a +:+ b) = String.length a + String.length b.
Proof.
  induction a as [|d a IH]; [done|]. rewrite str_app_cons. simpl. by rewrite IH.
Qed.
Lemma str_app_eq_nil a b : a +:+ b = "" → a = "" ∧ b = "".
Proof. destruct a; [done|]. discriminate. Qed.
Lemma str_app_inj_tail a a' b :
  a +:+ b = a' +:+ b → a = a'.
Proof.
  intros H. assert (String.length a = String.length a') as Hl.
  { apply (f_equal String.length) in H. rewrite !str_length_app in H. lia. }
  revert a' H Hl. induction a as [|c a IH]; intros [|c' a'] H Hl; simpl in *;
    try done. rewrite !str_app_cons in H. simplify_eq. f_equal. by apply IH.
Qed.

Create Rewrite HintDb go_str.
#[export] Hint Rewrite str_app_nil_r str_app_assoc str_app_cons str_app_nil_l : go_str.

Lemma str_take_length n s :
  String.length (str_take n s) = n `min` String.length s.
Proof. revert s. induction n; intros [|c s]; simpl; auto. Qed.
Lemma str_take_ge n s : String.length s ≤ n → str_take n s = s.
Proof.
  revert s. induction n; intros [|c s] H; simpl in *; try done; [lia|].
  f_equal. apply IHn. lia.
Qed.
Lemma str_take_drop n s : str_take n s +:+ str_drop n s = s.
Proof.
  revert s. induction n; intros [|c s]; try done.
  cbn [str_take str_drop]. rewrite str_app_cons. by f_equal.
Qed.
Lemma str_take_app n a b :
  n ≤ String.length a → str_take n (a +:+ b) = str_take n a.
Proof.
  revert a. induction n; intros [|c a] H; simpl in *; try done; [lia|].
  f_equal. apply IHn. lia.
Qed.
Lemma str_take_app_ge n a b :
  String.length a ≤ n → str_take n (a +:+ b) = a +:+ str_take (n - String.length a) b.
Proof.
  revert n. induction a as [|c a IH]; intros n H; simpl in *.
  { by rewrite Nat.sub_0_r. }
  destruct n as [|n]; [lia|]. rewrite !str_app_cons. simpl. f_equal. apply IH. lia.
Qed.
Lemma str_take_app_length a b : str_take (String.length a) (a +:+ b) = a.
Proof. rewrite str_take_app by done. by apply str_take_ge. Qed.
Lemma str_drop_app_length a b : str_drop (String.length a) (a +:+ b) = b.
Proof. induction a; [by destruct b|done]. Qed.

Lemma str_app_inj_l a b c : a +:+ b = a +:+ c → b = c.
Proof.
  intros H. apply (f_equal (str_drop (String.length a))) in H.
  by rewrite !str_drop_app_length in H.
Qed.

Lemma slice_to_Some s n t :
  slice_to s n = Some t → Z.of_nat (String.length t) = n ∧ ∃ u, s = t +:+ u.
Proof.
  unfold slice_to. case_decide as Hn; [|done]. intros [= <-].
  rewrite str_take_length. split; [lia|].
  eexists. symmetry. apply str_take_drop.
Qed.

(** ** Prefixes and occurrences *)

Lemma HasPrefix_spec s p : HasPrefix s p = true ↔ ∃ t, s = p +:+ t.
Proof.
  revert s. induction p as [|c p IH]; intros s; simpl.
  { destruct s; naive_solver. }
  destruct s as [|d s]; simpl.
  { split; [done|]. intros [t Ht]. discriminate. }
  rewrite andb_true_iff, Ascii.eqb_eq, IH. split.
  - intros [-> [t ->]]. by exists t.
  - intros [t Ht]. rewrite str_app_cons in Ht. simplify_eq. eauto.
Qed.
Lemma HasPrefix_app p t : HasPrefix (p +:+ t) p = true.
Proof. apply HasPrefix_spec. eauto. Qed.
Lemma HasPrefix_app_l s p t : HasPrefix s p = true → HasPrefix (s +:+ t) p = true.
Proof.
  rewrite !HasPrefix_spec. intros [u ->]. exists (u +:+ t).
  by rewrite str_app_assoc.
Qed.
Lemma HasPrefix_app_long s t p :
  String.length p ≤ String.length s → HasPrefix (s +:+ t) p = HasPrefix s p.
Proof.
  revert s. induction p as [|c p IH]; intros [|d s] H; simpl in *; try done; try lia.
  { by destruct t. }
  rewrite IH by lia. done.
Qed.
Lemma HasPrefix_length s p :
  HasPrefix s p = true → String.length p ≤ String.length s.
Proof. rewrite HasPrefix_spec. intros [t ->]. rewrite str_length_app. lia. Qed.

Lemma Contains_spec s sub :
  Contains s sub = true ↔ ∃ a b, s = a +:+ sub +:+ b.
Proof.
  induction s as [|c s IH]; cbn [Contains]; rewrite orb_true_iff, HasPrefix_spec.
  - split.
    + intros [[t Ht]|]; [|done]. exists "", t. done.
    + intros (a&b&H). symmetry in H. apply str_app_eq_nil in H as [-> H].
      left. exists b. done.
  - rewrite IH. split.
    + intros [[t Ht]|(a&b&->)]; [by exists "", t|by exists (String c a), b].
    + intros ([|d a]&b&H); [left; by exists b|right].
      rewrite str_app_cons in H. simplify_eq. eauto.
Qed.

Lemma lacks_spec c s : lacks c s = true → ∀ a b, s ≠ a +:+ String c b.
Proof.
  induction s as [|d s IH]; intros H a b Heq; simpl in *.
  { destruct a; discriminate. }
  apply andb_true_iff in H as [H1 H2]. destruct a as [|e a].
  - injection Heq as -> ->. by rewrite Ascii.eqb_refl in H1.
  - rewrite str_app_cons in Heq. simplify_eq. by apply (IH H2 a b).
Qed.
Lemma lacks_app c a b : lacks c (a +:+ b) = lacks c a && lacks c b.
Proof.
  induction a as [|d a IH]; [done|]. rewrite str_app_cons. cbn [lacks].
  rewrite IH. by rewrite andb_assoc.
Qed.
Lemma lacks_not_contains c s t :
  lacks c s = true → Contains s (String c t) = false.
Proof.
  intros H. apply not_true_iff_false. rewrite Contains_spec.
  intros (a&b&Heq). rewrite str_app_cons in Heq. by apply (lacks_spec c s H) in Heq.
Qed.
Lemma lacks_not_ending c s : lacks c s = true → not_ending c s = true.
Proof.
  induction s as [|d s IH]; [done|]. simpl. rewrite andb_true_iff.
  intros [H1 H2]. destruct s; [done|auto].
Qed.

(** ** Split and Join *)

Lemma split_go_nonempty sep k s : split_go sep k s ≠ [].
Proof.
  revert k. induction s as [|c s IH]; intros k; simpl; [done|].
  destruct k; [|apply IH]. case_match; [done|].
  destruct (split_go sep 0 s); done.
Qed.
Lemma Split_nonempty s sep : Split s sep ≠ [].
Proof. apply split_go_nonempty. Qed.
Lemma Split_last s sep : ∃ l t, Split s sep = l ++ [t].
Proof.
  destruct (exists_last (Split_nonempty s sep)) as (l&t&H). eauto.
Qed.

Lemma Join_cons x l sep : l ≠ [] → Join (x :: l) sep = x +:+ sep +:+ Join l sep.
Proof. by destruct l. Qed.

(** Joining the pieces with the separator restores the string. *)
Lemma Join_split_go sep k s :
  sep ≠ "" → k ≤ String.length s → Join (split_go sep k s) sep = str_drop k s.
Proof.
  intros Hsep. revert k. induction s as [|c s IH]; intros k Hk.
  { by destruct k. }
  destruct k as [|k]; cbn [split_go str_drop String.length] in *; [|apply IH; lia].
  destruct (HasPrefix (String c s) sep) eqn:Hp.
  - rewrite Join_cons by apply split_go_nonempty. rewrite str_app_nil_l.
    apply HasPrefix_spec in Hp as [t Ht].
    destruct sep as [|d sep]; [done|]. rewrite str_app_cons in *. simplify_eq.
    simpl. rewrite Nat.sub_0_r, IH by (rewrite str_length_app; lia).
    by rewrite str_drop_app_length.
  - destruct (split_go sep 0 s) as [|t ts] eqn:Hs.
    { by destruct (split_go_nonempty sep 0 s). }
    assert (Join (t :: ts) sep = s) as <-.
    { rewrite <-Hs, IH by lia. done. }
    destruct ts; done.
Qed.
Lemma Join_Split s sep : sep ≠ "" → Join (Split s sep) sep = s.
Proof. intros. unfold Split. rewrite Join_split_go by (done || lia). done. Qed.

Lemma Split_no_sep s sep : Contains s sep = false → Split s sep = [s].
Proof.
  unfold Split. induction s as [|c s IH]; [done|].
  cbn [Contains split_go]. rewrite orb_false_iff. intros [-> H].
  by rewrite IH.
Qed.

(** No occurrence of [sep] starts inside [a] and ends beyond it. *)
Definition no_overlap (sep a rest : string) : Prop :=
  ∀ a1 a2, a = a1 +:+ a2 → a2 ≠ "" → HasPrefix (a2 +:+ rest) sep = HasPrefix a2 sep.

Lemma no_overlap_tail sep c a rest :
  no_overlap sep (String c a) rest → no_overlap sep a rest.
Proof. intros H a1 a2 ->. apply (H (String c a1)). done. Qed.

Lemma split_go_app sep k a b :
  sep ≠ "" → no_overlap sep a (sep +:+ b) → k ≤ String.length a →
  split_go sep k (a +:+ sep +:+ b) = split_go sep k a ++ split_go sep 0 b.
Proof.
  intros Hsep. revert k. induction a as [|c a IH]; intros k Hno Hk.
  - rewrite str_app_nil_l. destruct sep as [|d sep]; [done|]. simpl in Hk.
    assert (k = 0) as -> by lia.
    assert (HasPrefix (String d sep +:+ b) (String d sep) = true) as Hp
      by apply HasPrefix_app.
    rewrite str_app_cons in *. cbn [split_go]. rewrite Hp.
    cbn [app]. f_equal. simpl. rewrite Nat.sub_0_r. generalize (String d sep). intros sep'.
    clear. induction sep as [|e sep IH]; [done|]. rewrite str_app_cons. simpl. apply IH.
  - rewrite str_app_cons. destruct k as [|k]; cbn [split_go].
    + rewrite <-str_app_cons. rewrite (Hno "" (String c a)) by done.
      destruct (HasPrefix (String c a) sep) eqn:Hp.
      * cbn [app]. f_equal. apply IH; [by eapply no_overlap_tail|].
        apply HasPrefix_length in Hp. simpl in Hp. lia.
      * rewrite IH by (by eapply no_overlap_tail || lia).
        destruct (split_go sep 0 a) as [|t ts] eqn:Ha; [|done].
        by destruct (split_go_nonempty sep 0 a).
    + apply IH; [by eapply no_overlap_tail|]. simpl in Hk. lia.
Qed.
Lemma Split_app sep a b :
  sep ≠ "" → no_overlap sep a (sep +:+ b) →
  Split (a +:+ sep +:+ b) sep = Split a sep ++ Split b sep.
Proof. intros. unfold Split. apply split_go_app; [done..|lia]. Qed.

Lemma no_overlap_1 c a rest : no_overlap (String c "") a rest.
Proof. intros a1 [|d a2] _ ?; [done|]. rewrite str_app_cons. simpl.
  by destruct (a2 +:+ rest), a2. Qed.
Lemma not_ending_app c a1 a2 :
  a2 ≠ "" → not_ending c (a1 +:+ a2) = not_ending c a2.
Proof.
  intros H2. induction a1 as [|d a1 IH]; [done|]. rewrite str_app_cons.
  simpl. rewrite <-IH. destruct (a1 +:+ a2) eqn:E; [|done].
  apply str_app_eq_nil in E as [??]. done.
Qed.
Lemma no_overlap_2 c a rest :
  not_ending c a = true → no_overlap (String c (String c "")) a rest.
Proof.
  intros Hne a1 a2 -> H2. rewrite not_ending_app in Hne by done.
  destruct a2 as [|d [|e a2]]; [done|..].
  - simpl in Hne. apply negb_true_iff in Hne. rewrite str_app_cons. simpl.
    by rewrite Hne.
  - apply HasPrefix_app_long. simpl. lia.
Qed.

(** Splitting at a one-byte separator distributes over concatenation. *)
Lemma Split_app_1 c a b :
  Split (a +:+ String c b) (String c "") = Split a (String c "") ++ Split b (String c "").
Proof. apply (Split_app (String c "")); [done|]. apply no_overlap_1. Qed.
Lemma Split_app_2 c a b :
  not_ending c a = true →
  Split (a +:+ String c (String c b)) (String c (String c "")) =
  Split a (String c (String c "")) ++ Split b (String c (String c "")).
Proof.
  intros. apply (Split_app (String c (String c ""))); [done|]. by apply no_overlap_2.
Qed.

(** ** Decimal numbers *)

Lemma is_digit_pretty (x : N) :
  (x < 10)%N → is_digit (pretty_N_char x) = true ∧ digit_val (pretty_N_char x) = Z.of_N x.
Proof.
  intros Hx. destruct x as [|p]; [done|].
  do 4 (destruct p as [p|p|]; try done); lia.
Qed.

Lemma digits_val_pretty_go x s :
  digits_val 0 (pretty_N_go x s) = digits_val (Z.of_N x) s.
Proof.
  revert s. induction (N.lt_wf_0 x) as [x _ IH]; intros s.
  destruct (decide (0 < x)%N) as [Hx|]; [|by replace x with 0%N by lia].
  rewrite pretty_N_go_step, IH by (done || by apply N.div_lt). simpl.
  destruct (is_digit_pretty (x `mod` 10)) as [-> ->]; [by apply N.mod_lt|].
  f_equal. rewrite N2Z.inj_div, N2Z.inj_mod.
  symmetry. apply Z.div_mod. done.
Qed.
Lemma digits_pretty_go x s :
  str_forallb is_digit (pretty_N_go x s) = str_forallb is_digit s.
Proof.
  revert s. induction (N.lt_wf_0 x) as [x _ IH]; intros s.
  destruct (decide (0 < x)%N) as [Hx|]; [|by replace x with 0%N by lia].
  rewrite pretty_N_go_step, IH by (done || by apply N.div_lt). simpl.
  by destruct (is_digit_pretty (x `mod` 10)) as [-> _]; [by apply N.mod_lt|].
Qed.
Lemma length_pretty_go x s k :
  (x < 10 ^ N.of_nat k)%N →
  String.length (pretty_N_go x s) ≤ k + String.length s.
Proof.
  revert x s. induction k as [|k IH]; intros x s Hx.
  { replace x with 0%N by (simpl in Hx; lia). by rewrite pretty_N_go_0. }
  destruct (decide (0 < x)%N) as [Hx0|]; [|replace x with 0%N by lia].
  - rewrite pretty_N_go_step by done. etrans; [apply IH|simpl; lia].
    apply N.Div0.div_lt_upper_bound.
    by rewrite Nat2N.inj_succ, N.pow_succ_r' in Hx.
  - rewrite pretty_N_go_0. lia.
Qed.
Lemma pretty_go_nonempty x s : s ≠ "" → pretty_N_go x s ≠ "".
Proof.
  revert s. induction (N.lt_wf_0 x) as [x _ IH]; intros s Hs.
  destruct (decide (0 < x)%N) as [Hx|]; [|by replace x with 0%N by lia].
  rewrite pretty_N_go_step by done. apply IH; [by apply N.div_lt|done].
Qed.

Lemma Itoa_nonneg n :
  (0 ≤ n)%Z →
  Itoa n = if decide (n = 0)%Z then "0" else pretty_N_go (Z.to_N n) "".
Proof.
  intros Hn. destruct n as [|p|p]; [done| |done].
  rewrite decide_False by done. unfold Itoa, pretty, pretty_Z, pretty, pretty_positive.
  unfold pretty, pretty_N. by rewrite decide_False.
Qed.
Lemma Itoa_digits n : (0 ≤ n)%Z → str_forallb is_digit (Itoa n) = true.
Proof.
  intros Hn. rewrite Itoa_nonneg by done. case_decide; [done|].
  by rewrite digits_pretty_go.
Qed.
Lemma Itoa_nonempty n : (0 ≤ n)%Z → Itoa n ≠ "".
Proof.
  intros Hn. rewrite Itoa_nonneg by done. case_decide; [done|].
  rewrite pretty_N_go_step by lia. by apply pretty_go_nonempty.
Qed.
Lemma Itoa_length n k :
  0 < k → (0 ≤ n < 10 ^ Z.of_nat k)%Z → String.length (Itoa n) ≤ k.
Proof.
  intros Hk [Hn Hlt]. rewrite Itoa_nonneg by done. case_decide; [simpl; lia|].
  etrans; [apply (length_pretty_go _ _ k)|simpl; lia].
  apply N2Z.inj_lt. rewrite Z2N.id by done. rewrite N2Z.inj_pow. by rewrite nat_N_Z.
Qed.
Lemma parse_digits_Itoa n : (0 ≤ n)%Z → parse_digits (Itoa n) = Some n.
Proof.
  intros Hn. assert (digits_val 0 (Itoa n) = Some n) as Hd.
  { rewrite Itoa_nonneg by done. case_decide; [by subst|].
    rewrite digits_val_pretty_go. simpl. by rewrite Z2N.id. }
  pose proof (Itoa_nonempty n Hn). unfold parse_digits. by destruct (Itoa n).
Qed.
Lemma Itoa_inj n m : Itoa n = Itoa m → n = m.
Proof. apply (inj pretty). Qed.

Lemma digits_head s c s' :
  str_forallb is_digit s = true → s = String c s' → is_digit c = true.
Proof. intros H ->. simpl in H. by apply andb_true_iff in H as [? _]. Qed.
Lemma digits_lacks c s :
  is_digit c = false → str_forallb is_digit s = true → lacks c s = true.
Proof.
  intros Hc. induction s as [|d s IH]; [done|]. simpl.
  rewrite !andb_true_iff. intros [Hd Hs]. split; [|auto].
  apply negb_true_iff. apply not_true_iff_false. rewrite Ascii.eqb_eq.
  intros ->. by rewrite Hd in Hc.
Qed.
Lemma Itoa_lacks c n : (0 ≤ n)%Z → is_digit c = false → lacks c (Itoa n) = true.
Proof. intros. apply digits_lacks; [done|]. by apply Itoa_digits. Qed.

(** [Atoi] of digits is the value of the digits, within range. *)
Lemma Atoi_digits s :
  str_forallb is_digit s = true →
  Atoi s = v ← parse_digits s; if decide (- 2 ^ 63 ≤ v < 2 ^ 63)%Z then Some v else None.
Proof.
  intros Hd. unfold Atoi. destruct s as [|c s]; [done|].
  pose proof (digits_head _ _ _ Hd eq_refl) as Hc.
  destruct c as [[] [] [] [] [] [] [] []]; done.
Qed.
Lemma Atoi_Itoa n : (0 ≤ n < 2 ^ 63)%Z → Atoi (Itoa n) = Some n.
Proof.
  intros Hn. rewrite Atoi_digits by (apply Itoa_digits; lia).
  rewrite parse_digits_Itoa by lia. cbn [mbind option_bind]. rewrite decide_True; [done|lia].
Qed.
Lemma ParseUint16_Itoa n : (0 ≤ n < 2 ^ 16)%Z → ParseUint16 (Itoa n) = Some n.
Proof.
  intros Hn. unfold ParseUint16. rewrite parse_digits_Itoa by lia. simpl.
  by rewrite decide_True by lia.
Qed.
Lemma digits_val_lower acc s v : digits_val acc s = Some v → (0 ≤ acc → 0 ≤ v)%Z.
Proof.
  revert acc. induction s as [|c s IH]; intros acc; simpl; [by intros [= ->]|].
  case_match eqn:Hd; [|done]. intros H Hacc. apply IH in H; [done|].
  apply andb_true_iff in Hd as [?%N.leb_le _]. unfold digit_val. lia.
Qed.
Lemma ParseUint16_range s v : ParseUint16 s = Some v → (0 ≤ v < 2 ^ 16)%Z.
Proof.
  unfold ParseUint16, parse_digits. destruct s as [|c s]; [done|].
  intros (x&Hx&H)%bind_Some. case_decide; [|done]. simplify_eq.
  split; [|done]. by eapply digits_val_lower in Hx.
Qed.

(** ** Sorting *)

Lemma elem_of_sort_Strings x l : x ∈ sort_Strings l ↔ x ∈ l.
Proof. unfold sort_Strings. by rewrite merge_sort_Permutation. Qed.
Lemma elem_of_sets_List x s : x ∈ sets_List s ↔ x ∈ s.
Proof. unfold sets_List. by rewrite elem_of_sort_Strings, elem_of_elements. Qed.
Lemma NoDup_sets_List s : NoDup (sets_List s).
Proof.
  unfold sets_List, sort_Strings. rewrite merge_sort_Permutation. apply NoDup_elements.
Qed.
Lemma sort_Strings_Sorted l : Sorted String.le (sort_Strings l).
Proof. apply Sorted_merge_sort. apply _. Qed.
Lemma length_sort_Strings l : length (sort_Strings l) = length l.
Proof. unfold sort_Strings. by rewrite merge_sort_Permutation. Qed.

(** A doubled byte that occurs in neither part, one of which lacks the byte,
    does not occur in their concatenation. *)
Lemma Contains_app_lacks c a b :
  Contains a (String c (String c "")) = false → lacks c b = true →
  Contains (a +:+ b) (String c (String c "")) = false.
Proof.
  intros Ha Hb. induction a as [|d a IH]; [by apply lacks_not_contains|].
  rewrite str_app_cons. cbn [Contains] in *. apply orb_false_iff in Ha as [Hp Ha].
  apply orb_false_iff. split; [|auto]. destruct a as [|e a];
    [|rewrite <-str_app_cons, HasPrefix_app_long by (simpl; lia); exact Hp].
  rewrite str_app_nil_l. destruct b as [|e b]; [exact Hp|]. cbn [HasPrefix lacks] in *.
  apply andb_true_iff in Hb as [Hb _]. apply negb_true_iff in Hb. rewrite Hb.
  by rewrite andb_false_r.
Qed.

(** ** More on Split *)

(** Concatenation of two strings that no occurrence of the separator
    straddles: the last piece of the first and the first piece of the second
    are joined. *)
Fixpoint glue (l k : list string) : list string :=
  match l with
  | [] => k
  | [t] => match k with [] => [t] | u :: us => (t +:+ u) :: us end
  | t :: l => t :: glue l k
  end.
Lemma glue_cons t l k : l ≠ [] → glue (t :: l) k = t :: glue l k.
Proof. by destruct l. Qed.
Lemma glue_nonempty l k : k ≠ [] → glue l k ≠ [].
Proof. by destruct l as [|? []], k. Qed.
Lemma glue_head c t l k :
  k ≠ [] → glue (String c t :: l) k =
  match glue (t :: l) k with u :: us => String c u :: us | [] => [] end.
Proof. destruct l, k; done. Qed.
Lemma last_glue l k : 2 ≤ length k → last (glue l k) = last k.
Proof.
  intros Hk. induction l as [|t l IH]; [done|].
  destruct l as [|u l].
  - destruct k as [|u [|v k]]; simpl in *; try lia. done.
  - rewrite glue_cons by done. rewrite <-IH.
    destruct (glue (u :: l) k) eqn:E; [|done].
    by destruct (glue_nonempty (u :: l) k); [destruct k; simpl in *; [lia|done]|].
Qed.
Lemma length_glue l k : length k ≤ length (glue l k).
Proof. induction l as [|t [|u l] IH]; [done|destruct k; simpl; lia|]. rewrite glue_cons by done. simpl in *. lia. Qed.
Lemma last_glue_1 l t b : glue (l ++ [t]) [b] = l ++ [t +:+ b].
Proof.
  induction l as [|u l IH]; [done|]. simpl app.
  rewrite glue_cons by (by destruct l). by rewrite IH.
Qed.

Lemma split_go_glue sep k a b :
  sep ≠ "" → no_overlap sep a b → k ≤ String.length a →
  split_go sep k (a +:+ b) = glue (split_go sep k a) (split_go sep 0 b).
Proof.
  intros Hsep. revert k. induction a as [|c a IH]; intros k Hno Hk.
  - rewrite str_app_nil_l. simpl in Hk. assert (k = 0) as -> by lia.
    simpl. destruct (split_go sep 0 b) eqn:E; [|done].
    by destruct (split_go_nonempty sep 0 b).
  - rewrite str_app_cons. destruct k as [|k]; cbn [split_go].
    + rewrite <-str_app_cons. rewrite (Hno "" (String c a)) by done.
      destruct (HasPrefix (String c a) sep) eqn:Hp.
      * rewrite glue_cons by apply split_go_nonempty. f_equal.
        apply IH; [by eapply no_overlap_tail|].
        apply HasPrefix_length in Hp. simpl in Hp. lia.
      * rewrite IH by (by eapply no_overlap_tail || lia).
        destruct (split_go sep 0 a) as [|t ts] eqn:Ha.
        { by destruct (split_go_nonempty sep 0 a). }
        rewrite glue_head by apply split_go_nonempty.
        destruct (glue (t :: ts) _) eqn:E; [|done].
        destruct (glue_nonempty (t :: ts) (split_go sep 0 b)); [|done].
        apply split_go_nonempty.
    + apply IH; [by eapply no_overlap_tail|]. simpl in Hk. lia.
Qed.
Lemma Split_glue sep a b :
  sep ≠ "" → no_overlap sep a b → Split (a +:+ b) sep = glue (Split a sep) (Split b sep).
Proof. intros. unfold Split. apply split_go_glue; [done..|lia]. Qed.

(** [strings.Replace] of one byte by another acts bytewise. *)
Definition replace_byte (old new c : ascii) : ascii := if Ascii.eqb old c then new else c.
Fixpoint str_map (f : ascii → ascii) (s : string) : string :=
  match s with "" => "" | String c s' => String (f c) (str_map f s') end.
Lemma ReplaceAll_byte old new s :
  ReplaceAll s (String old "") (String new "") = str_map (replace_byte old new) s.
Proof.
  unfold ReplaceAll, Split. induction s as [|c s IH]; [done|].
  cbn [split_go HasPrefix str_map]. unfold replace_byte at 1. rewrite <-IH.
  assert (HasPrefix s "" = true) as -> by (by destruct s). rewrite andb_true_r.
  destruct (Ascii.eqb old c).
  - rewrite Join_cons by apply split_go_nonempty. simpl. by rewrite str_app_nil_l.
  - destruct (split_go (String old "") 0 s) as [|t [|u ts]] eqn:E; [|done..].
    by destruct (split_go_nonempty (String old "") 0 s).
Qed.
Lemma str_map_length f s : String.length (str_map f s) = String.length s.
Proof. induction s as [|c s IH]; [done|]. simpl. by rewrite IH. Qed.
Lemma str_map_app f a b : str_map f (a +:+ b) = str_map f a +:+ str_map f b.
Proof.
  induction a as [|c a IH]; [done|]. rewrite str_app_cons. cbn [str_map].
  by rewrite IH, str_app_cons.
Qed.
Lemma str_map_lacks old new s :
  lacks old s = true → str_map (replace_byte old new) s = s.
Proof.
  induction s as [|c s IH]; [done|]. cbn [lacks str_map]. rewrite andb_true_iff, negb_true_iff.
  intros [H1 H2]. unfold replace_byte at 1. rewrite H1. by rewrite IH.
Qed.
Lemma lacks_str_map old new s :
  old ≠ new → lacks old (str_map (replace_byte old new) s) = true.
Proof.
  intros Hne. induction s as [|c s IH]; [done|]. cbn [lacks str_map]. rewrite IH, andb_true_r.
  apply negb_true_iff. apply Ascii.eqb_neq. unfold replace_byte.
  destruct (Ascii.eqb_spec old c); congruence.
Qed.
Lemma lacks_str_take c n s : lacks c s = true → lacks c (str_take n s) = true.
Proof.
  revert n. induction s as [|d s IH]; intros [|n]; try done. simpl.
  rewrite !andb_true_iff. intros [??]. auto.
Qed.
