(* ===== verification/Md5.v ===== *)
(** * Md5: Go's [crypto/md5] and [encoding/hex]

    The digest of RFC 1321 on 32-bit words kept as [N] modulo 2^32, and its
    lower-case hexadecimal form, as [fmt.Sprintf("%x", md5.Sum(b))] and
    [hex.EncodeToString(hasher.Sum(nil))] print it.  The RFC's test vectors
    are checked by computation. *)

From S2P Require Import Prelude GoLang GoStrings.

Local Open Scope N_scope.

Definition w32 (x : N) : N := N.land x 4294967295.
Definition rotl32 (x s : N) : N :=
  w32 (N.lor (N.shiftl x s) (N.shiftr x (32 - s))).
Definition not32 (x : N) : N := N.lxor x 4294967295.

Definition md5_s : list N :=
  [7; 12; 17; 22; 7; 12; 17; 22; 7; 12; 17; 22; 7; 12; 17; 22;
   5; 9; 14; 20; 5; 9; 14; 20; 5; 9; 14; 20; 5; 9; 14; 20;
   4; 11; 16; 23; 4; 11; 16; 23; 4; 11; 16; 23; 4; 11; 16; 23;
   6; 10; 15; 21; 6; 10; 15; 21; 6; 10; 15; 21; 6; 10; 15; 21].
Definition md5_k : list N :=
  [3614090360; 3905402710; 606105819; 3250441966;
   4118548399; 1200080426; 2821735955; 4249261313;
   1770035416; 2336552879; 4294925233; 2304563134;
   1804603682; 4254626195; 2792965006; 1236535329;
   4129170786; 3225465664; 643717713; 3921069994;
   3593408605; 38016083; 3634488961; 3889429448;
   568446438; 3275163606; 4107603335; 1163531501;
   2850285829; 4243563512; 1735328473; 2368359562;
   4294588738; 2272392833; 1839030562; 4259657740;
   2763975236; 1272893353; 4139469664; 3200236656;
   681279174; 3936430074; 3572445317; 76029189;
   3654602809; 3873151461; 530742520; 3299628645;
   4096336452; 1126891415; 2878612391; 4237533241;
   1700485571; 2399980690; 4293915773; 2240044497;
   1873313359; 4264355552; 2734768916; 1309151649;
   4149444226; 3174756917; 718787259; 3951481745].

Definition md5_state : Type := N * N * N * N.

(** One of the 64 operations; [i] is its index, [m] the block's words. *)
Definition md5_round (m : list N) (st : md5_state) (i : nat) : md5_state :=
  let '(a, b, c, d) := st in
  let '(f, g) :=
    if (i <? 16)%nat then (N.lor (N.land b c) (N.land (not32 b) d), i)
    else if (i <? 32)%nat then
      (N.lor (N.land d b) (N.land (not32 d) c), ((5 * i + 1) mod 16)%nat)
    else if (i <? 48)%nat then
      (N.lxor b (N.lxor c d), ((3 * i + 5) mod 16)%nat)
    else (N.lxor c (N.lor b (not32 d)), ((7 * i) mod 16)%nat) in
  let f := w32 (f + a + nth i md5_k 0 + nth g m 0) in
  (d, w32 (b + rotl32 f (nth i md5_s 0)), b, c).

Definition md5_block (st : md5_state) (m : list N) : md5_state :=
  let '(a, b, c, d) := fold_left (md5_round m) (seq 0 64) st in
  let '(a0, b0, c0, d0) := st in
  (w32 (a0 + a), w32 (b0 + b), w32 (c0 + c), w32 (d0 + d)).

(** Little-endian words of a byte sequence. *)
Fixpoint le_words (bs : list N) : list N :=
  match bs with
  | b0 :: b1 :: b2 :: b3 :: bs =>
      (b0 + 256 * (b1 + 256 * (b2 + 256 * b3))) :: le_words bs
  | _ => []
  end.
Definition le_bytes (k : nat) (x : N) : list N :=
  map (λ i, N.land (N.shiftr x (8 * N.of_nat i)) 255) (seq 0 k).

Definition md5_pad (bs : list N) : list N :=
  let n := length bs in
  bs ++ [128] ++ replicate ((119 - n mod 64) mod 64)%nat 0
     ++ le_bytes 8 (8 * N.of_nat n).

Fixpoint md5_blocks (fuel : nat) (st : md5_state) (ws : list N) : md5_state :=
  match fuel, ws with
  | S fuel, _ :: _ => md5_blocks fuel (md5_block st (take 16 ws)) (drop 16 ws)
  | _, _ => st
  end.

Fixpoint str_bytes (s : string) : list N :=
  match s with EmptyString => [] | String c s' => N_of_ascii c :: str_bytes s' end.

Definition md5_init : md5_state := (1732584193, 4023233417, 2562383102, 271733878).

(** The 16 bytes of the digest.  The number of words bounds the number of
    blocks, so the fuel is never exhausted. *)
Definition md5_Sum (s : string) : list N :=
  let ws := le_words (md5_pad (str_bytes s)) in
  let '(a, b, c, d) := md5_blocks (length ws) md5_init ws in
  le_bytes 4 a ++ le_bytes 4 b ++ le_bytes 4 c ++ le_bytes 4 d.

Definition hex_digit (x : N) : ascii :=
  ascii_of_N (if (x <? 10)%N then 48 + x else 87 + x).
Fixpoint hex_EncodeToString (bs : list N) : string :=
  match bs with
  | [] => ""
  | b :: bs => String (hex_digit (N.shiftr b 4))
                 (String (hex_digit (N.land b 15)) (hex_EncodeToString bs))
  end.
Definition md5_hex (s : string) : string := hex_EncodeToString (md5_Sum s).

Example md5_empty : md5_hex "" = "d41d8cd98f00b204e9800998ecf8427e".
Proof. vm_compute. reflexivity. Qed.
Example md5_abc : md5_hex "abc" = "900150983cd24fb0d6963f7d28e17f72".
Proof. vm_compute. reflexivity. Qed.
Example md5_long :
  md5_hex "12345678901234567890123456789012345678901234567890123456789012345678901234567890"
  = "57edf4a22be3c955ac49da2e2107b67a".
Proof. vm_compute. reflexivity. Qed.

Lemma length_hex bs : String.length (hex_EncodeToString bs) = (2 * length bs)%nat.
Proof. induction bs as [|b bs IH]; [done|]. simpl. rewrite IH. lia. Qed.
Lemma length_md5_Sum s : length (md5_Sum s) = 16%nat.
Proof.
  unfold md5_Sum. destruct (md5_blocks _ _ _) as [[[a b] c] d].
  rewrite !length_app. unfold le_bytes. by rewrite !length_map, !length_seq.
Qed.
Lemma length_md5_hex s : String.length (md5_hex s) = 32%nat.
Proof. unfold md5_hex. by rewrite length_hex, length_md5_Sum. Qed.
