(* ===== verification/Compute.v ===== *)
(** * Compute: the GCE and Kubernetes API objects the controller exchanges

    One record per API type, with the fields the sources read or write.
    A field the sources never touch is left out; an object read from the
    cloud is a value, because the API client decodes every answer into a
    fresh object. *)

From S2P Require Import Prelude.

(** ** compute/v1 *)

Record NamedPort := MkNamedPort { np_Name : string; np_Port : Z }.
Global Instance NamedPort_eq_dec : EqDecision NamedPort.
Proof. solve_decision. Defined.

Record InstanceGroup := MkInstanceGroup {
  ig_Name : string;
  ig_Zone : string;
  ig_SelfLink : string;
  ig_NamedPorts : list NamedPort;
}.
Global Instance InstanceGroup_eq_dec : EqDecision InstanceGroup.
Proof. solve_decision. Defined.

Record Backend := MkBackend {
  bk_Group : string;
  bk_BalancingMode : string;
  bk_MaxRatePerInstance : Z;
}.
Global Instance Backend_eq_dec : EqDecision Backend.
Proof. solve_decision. Defined.

Record BackendService := MkBackendService {
  bs_Name : string;
  bs_Description : string;
  bs_Protocol : string;
  bs_HealthChecks : list string;
  bs_Port : Z;
  bs_PortName : string;
  bs_Backends : list Backend;
  bs_SelfLink : string;
}.
Global Instance BackendService_eq_dec : EqDecision BackendService.
Proof. solve_decision. Defined.

(** [compute.HttpHealthCheck], the legacy health check. *)
Record HttpHealthCheck := MkHttpHealthCheck {
  hhc_Name : string;
  hhc_Description : string;
  hhc_CheckIntervalSec : Z;
  hhc_HealthyThreshold : Z;
  hhc_Host : string;
  hhc_Port : Z;
  hhc_RequestPath : string;
  hhc_TimeoutSec : Z;
  hhc_UnhealthyThreshold : Z;
  hhc_SelfLink : string;
}.

Record HostRule := MkHostRule {
  hr_Description : string; hr_Hosts : list string; hr_PathMatcher : string }.
Record PathRule := MkPathRule { pr_Paths : list string; pr_Service : string }.
Record PathMatcher := MkPathMatcher {
  pm_DefaultService : string;
  pm_Description : string;
  pm_Name : string;
  pm_PathRules : list PathRule;
}.
Record UrlMap := MkUrlMap {
  um_Name : string;
  um_SelfLink : string;
  um_DefaultService : string;
  um_HostRules : list HostRule;
  um_PathMatchers : list PathMatcher;
}.

Record TargetHttpProxy := MkTargetHttpProxy {
  tp_Name : string; tp_SelfLink : string; tp_UrlMap : string }.
Record TargetHttpsProxy := MkTargetHttpsProxy {
  tps_Name : string; tps_SelfLink : string; tps_UrlMap : string;
  tps_SslCertificates : list string }.
Record ForwardingRule := MkForwardingRule {
  fw_Name : string; fw_IPAddress : string; fw_Target : string;
  fw_PortRange : string; fw_IPProtocol : string; fw_SelfLink : string }.
Record SslCertificate := MkSslCertificate {
  sc_Name : string; sc_Certificate : string; sc_PrivateKey : string;
  sc_SelfLink : string }.
Record Address := MkAddress { ad_Name : string; ad_Address : string }.

Record FirewallAllowed := MkFirewallAllowed {
  fa_IPProtocol : string; fa_Ports : list string }.
Record Firewall := MkFirewall {
  fl_Name : string;
  fl_Description : string;
  fl_SourceRanges : list string;
  fl_Network : string;
  fl_Allowed : list FirewallAllowed;
  fl_TargetTags : list string;
}.

(** ** compute/v0.alpha *)

(** [computealpha.HTTPHealthCheck] and [HTTPSHealthCheck] (same fields). *)
Record HTTPHealthCheck := MkHTTPHealthCheck {
  http_Host : string;
  http_Port : Z;
  http_PortSpecification : string;
  http_RequestPath : string;
}.
(** The v1 counterpart has no port specification. *)
Record V1HTTPHealthCheck := MkV1HTTPHealthCheck {
  v1http_Host : string;
  v1http_Port : Z;
  v1http_RequestPath : string;
}.
(** The settings [computealpha.HealthCheck] and [compute.HealthCheck] share. *)
Record HCSettings := MkHCSettings {
  hcs_Name : string;
  hcs_Description : string;
  hcs_CheckIntervalSec : Z;
  hcs_TimeoutSec : Z;
  hcs_HealthyThreshold : Z;
  hcs_UnhealthyThreshold : Z;
  hcs_Type : string;
  hcs_SelfLink : string;
}.
Record AlphaHealthCheck := MkAlphaHealthCheck {
  ahc_Settings : HCSettings;
  ahc_HttpHealthCheck : option HTTPHealthCheck;
  ahc_HttpsHealthCheck : option HTTPHealthCheck;
}.
Record V1HealthCheck := MkV1HealthCheck {
  v1hc_Settings : HCSettings;
  v1hc_HttpHealthCheck : option V1HTTPHealthCheck;
  v1hc_HttpsHealthCheck : option V1HTTPHealthCheck;
}.

Record AlphaBackend := MkAlphaBackend {
  abk_Group : string;
  abk_BalancingMode : string;
  abk_MaxRatePerInstance : Z;
  abk_MaxRatePerEndpoint : Z;
}.
Record AlphaBackendService := MkAlphaBackendService {
  abs_Name : string;
  abs_Description : string;
  abs_Protocol : string;
  abs_HealthChecks : list string;
  abs_Port : Z;
  abs_PortName : string;
  abs_Backends : list AlphaBackend;
  abs_SelfLink : string;
}.

Record NetworkEndpoint := MkNetworkEndpoint {
  ne_Instance : string; ne_IpAddress : string; ne_Port : Z }.
Global Instance NetworkEndpoint_eq_dec : EqDecision NetworkEndpoint.
Proof. solve_decision. Defined.
Global Instance NetworkEndpoint_countable : Countable NetworkEndpoint.
Proof.
  refine (inj_countable' (λ e, (ne_Instance e, ne_IpAddress e, ne_Port e))
    (λ '(i, a, p), MkNetworkEndpoint i a p) _). by intros [].
Defined.

Record NetworkEndpointGroup := MkNetworkEndpointGroup {
  neg_Name : string;
  neg_Type : string;
  neg_NetworkEndpointType : string;
  neg_Network : string;
  neg_Subnetwork : string;
  neg_SelfLink : string;
}.

(** ** k8s.io/api *)

(** [types.NamespacedName] *)
Record NamespacedName := MkNamespacedName { nn_Namespace : string; nn_Name : string }.
Global Instance NamespacedName_eq_dec : EqDecision NamespacedName.
Proof. solve_decision. Defined.
(** [intstr.IntOrString] *)
Inductive IntOrString := FromInt (i : Z) | FromString (s : string).
Global Instance IntOrString_eq_dec : EqDecision IntOrString.
Proof. solve_decision. Defined.
Definition IntOrString_String (x : IntOrString) : string :=
  match x with FromInt i => pretty i | FromString s => s end.

(** [v1.Probe] with its HTTP handler. *)
Record HTTPHeader := MkHTTPHeader { hh_Name : string; hh_Value : string }.
Record HTTPGetAction := MkHTTPGetAction {
  hg_Path : string;
  hg_Port : IntOrString;
  hg_Host : string;
  hg_Scheme : string;
  hg_HTTPHeaders : list HTTPHeader;
}.
Record Probe := MkProbe {
  pb_HTTPGet : option HTTPGetAction;
  pb_TimeoutSeconds : Z;
  pb_PeriodSeconds : Z;
}.
