(* ===== verification/Utils.v ===== *)
(** * Utils: pkg/utils/utils.go

    The url map passed from the controller to a load balancer, the error
    predicates on cloud errors, and the even truncation of name fields. *)

From S2P Require Import Prelude GoLang GoStrings Compute.

(** ** Operation codes recorded by the fakes *)
Inductive PoolOp :=
  | Op_Add | Op_Remove | Op_Sync | Op_Get | Op_Create | Op_Update | Op_Delete
  | Op_AddInstances | Op_RemoveInstances.

Definition ProtocolHTTP : string := "HTTP".
Definition ProtocolHTTPS : string := "HTTPS".
Definition K8sAnnotationPrefix : string := "ingress.kubernetes.io".

(** ** GCEURLMap *)

(** hostname -> path expression -> backend (possibly nil) *)
Abbreviation GCEURLMap := (gmap string (gmap string (option BackendService))).
Definition DefaultBackendKey : string := "DefaultBackend".

(** Destructive read of the default backend: the backend and the map left.
    The inner map is shared, but its entry leaves the outer map with it. *)
Definition GetDefaultBackend (g : GCEURLMap) : option BackendService * GCEURLMap :=
  match g !! DefaultBackendKey with
  | Some h => (mjoin (h !! DefaultBackendKey), delete DefaultBackendKey g)
  | None => (None, g)
  end.
Definition PutDefaultBackend (d : option BackendService) (g : GCEURLMap) : GCEURLMap :=
  <[DefaultBackendKey := {[DefaultBackendKey := d]}]> g.

(** ** Errors *)

Definition FakeGoogleAPIForbiddenErr : error := GoogleAPIError StatusForbidden "".
Definition FakeGoogleAPINotFoundErr : error := GoogleAPIError StatusNotFound "".

(** On a nil error the type assertion fails and the answer is false. *)
Definition IsHTTPErrorCode (err : error) (code : Z) : bool :=
  match err with GoogleAPIError c _ => (c =? code)%Z | _ => false end.
Definition IsHTTPErrorCode_opt (err : option error) (code : Z) : bool :=
  match err with Some e => IsHTTPErrorCode e code | None => false end.

Definition IgnoreHTTPNotFound (err : option error) : option error :=
  match err with
  | Some e => if IsHTTPErrorCode e StatusNotFound then None else Some e
  | None => None
  end.
Definition IsInUsedByError (err : error) : bool :=
  match err with
  | GoogleAPIError c msg =>
      if (c =? StatusBadRequest)%Z then Contains msg "being used by" else false
  | _ => false
  end.
Definition IsNotFoundError (err : error) : bool := IsHTTPErrorCode err StatusNotFound.
Definition IsForbiddenError (err : error) : bool := IsHTTPErrorCode err StatusForbidden.

(** [if err := utils.IgnoreHTTPNotFound(m); err != nil { return err }] *)
Definition ignoreNotFound {W} (m : M W unit) : M W unit :=
  r ← try m;
  retErr (IgnoreHTTPNotFound (match r with inl e => Some e | inr _ => None end)).

Definition CompareLinks (l1 l2 : string) : bool :=
  bool_decide (l1 = l2) && negb (bool_decide (l1 = "")).

(** ** trimFieldsEvenly *)

Definition slen (s : string) : Z := Z.of_nat (String.length s).
Definition sumZ (l : list Z) : Z := foldr Z.add 0%Z l.

(** [for i := 0; i < n; i++ { lengths[i]++ }], [None] past the end. *)
Fixpoint incr_first (n : nat) (lengths : list Z) : option (list Z) :=
  match n, lengths with
  | O, _ => Some lengths
  | S n, l :: ls => (λ r, (l + 1)%Z :: r) <$> incr_first n ls
  | S _, [] => None
  end.
(** [for i, l := range lengths { ret = append(ret, fields[i][:l]) }] *)
Fixpoint slice_fields (fields : list string) (lengths : list Z) : option (list string) :=
  match fields, lengths with
  | _, [] => Some []
  | f :: fs, l :: ls => t ← slice_to f l; ts ← slice_fields fs ls; Some (t :: ts)
  | [], _ :: _ => None
  end.

(** The lengths computed by the first loop. *)
Definition scaled_length (excess total : Z) (s : string) : Z :=
  slen s - (slen s * excess) `quot` total - 1.

(** [None] is a run-time panic (an index or a slice out of range). *)
Definition trimFieldsEvenly (max : Z) (fields : list string) : option (list string) :=
  if decide (max ≤ 0)%Z then Some fields else
  let total := sumZ (slen <$> fields) in
  if decide (total ≤ max)%Z then Some fields else
  let excess := (total - max)%Z in
  let lengths := scaled_length excess total <$> fields in
  let remaining := (max - sumZ lengths)%Z in
  lengths ← incr_first (Z.to_nat remaining) lengths;
  slice_fields fields lengths.

(** ** Properties of the default backend *)

(** Reading back the default backend returns what was put, and leaves the
    other hosts of the url map. *)
Lemma GetDefaultBackend_Put d g :
  GetDefaultBackend (PutDefaultBackend d g) = (d, delete DefaultBackendKey g).
Proof.
  unfold GetDefaultBackend, PutDefaultBackend.
  rewrite lookup_insert_eq, lookup_singleton_eq, delete_insert_eq. done.
Qed.
Lemma GetDefaultBackend_removed g : (GetDefaultBackend g).2 !! DefaultBackendKey = None.
Proof.
  unfold GetDefaultBackend. case_match eqn:H; simpl; [|done]. apply lookup_delete_eq.
Qed.

(** ** Properties of the error predicates *)

Lemma wp_ignoreNotFound {W} (m : M W unit) Q E w :
  wp m Q (λ e w', if IsHTTPErrorCode e StatusNotFound then Q tt w' else E e w') w →
  wp (ignoreNotFound m) Q E w.
Proof.
  intros H. unfold ignoreNotFound. apply wp_bind, wp_try.
  eapply wp_mono; [exact H|..].
  - intros [] w' HQ. by apply wp_retErr.
  - intros e w'. cbn. destruct (IsHTTPErrorCode e StatusNotFound); by intros.
Qed.

Lemma CompareLinks_true l1 l2 : CompareLinks l1 l2 = true ↔ l1 = l2 ∧ l1 ≠ "".
Proof.
  unfold CompareLinks. rewrite andb_true_iff, negb_true_iff.
  rewrite bool_decide_eq_true, bool_decide_eq_false. done.
Qed.

(** ** Properties of trimFieldsEvenly *)

Lemma sumZ_app l k : sumZ (l ++ k) = (sumZ l + sumZ k)%Z.
Proof. induction l as [|x l IH]; simpl; lia. Qed.

(** The sum of the rounded-down quotients misses the exact quotient of the
    sum by less than one unit per term. *)
Lemma sumZ_quot (ls : list Z) (ex t : Z) :
  (0 < t)%Z → (0 ≤ ex)%Z → Forall (λ l, 0 ≤ l)%Z ls →
  let q := sumZ ((λ l, (l * ex) `quot` t) <$> ls)%Z in
  (0 ≤ sumZ ls * ex - t * q ≤ (t - 1) * Z.of_nat (length ls))%Z.
Proof.
  intros Ht Hex. induction 1 as [|l ls Hl _ IH]; cbv zeta in *; csimpl; [lia|].
  rewrite Z.quot_div_nonneg by nia.
  pose proof (Z.div_mod (l * ex) t ltac:(lia)).
  pose proof (Z.mod_pos_bound (l * ex) t ltac:(lia)).
  rewrite Z.mul_add_distr_r, Z.mul_add_distr_l, Nat2Z.inj_succ, Z.mul_succ_r. lia.
Qed.

Lemma incr_first_spec n ls :
  n ≤ length ls →
  ∃ ls', incr_first n ls = Some ls' ∧
    Forall2 (λ l l', l ≤ l' ≤ l + 1)%Z ls ls' ∧ sumZ ls' = (sumZ ls + Z.of_nat n)%Z.
Proof.
  revert n. induction ls as [|l ls IH]; intros [|n] Hn; simpl in *; try lia.
  - exists []. by repeat split.
  - exists (l :: ls). split; [done|]. split; [|by simpl; rewrite Z.add_0_r].
    apply Forall2_same_length_lookup_2; [done|]. intros i x y Hx Hy. simplify_eq. lia.
  - destruct (IH n) as (ls'&->&HF&Hs); [lia|]. eexists. split; [done|].
    split; [constructor; [lia|done]|]. simpl. lia.
Qed.

Lemma slice_fields_spec fields ls :
  Forall2 (λ f l, 0 ≤ l ≤ slen f)%Z fields ls →
  ∃ ret, slice_fields fields ls = Some ret ∧
    Forall2 (λ f r, ∃ u, f = r +:+ u) fields ret ∧ slen <$> ret = ls.
Proof.
  induction 1 as [|f l fields ls Hl _ IH]; simpl; [by exists []|].
  destruct IH as (ret&->&HF&Hs).
  destruct (slice_to f l) as [r|] eqn:Hr; simpl.
  - apply slice_to_Some in Hr as [Hlen Hu]. exists (r :: ret). split; [done|].
    split; [by constructor|]. simpl. by f_equal.
  - unfold slice_to in Hr. case_decide as Hd; [done|]. by destruct Hd.
Qed.

Lemma scaled_length_bounds ex t s :
  (0 ≤ ex < t)%Z → s ≠ "" →
  (0 ≤ scaled_length ex t s ∧ scaled_length ex t s + 1 ≤ slen s)%Z.
Proof.
  intros Hex Hs. unfold scaled_length.
  assert (0 < slen s)%Z by (unfold slen; destruct s; simpl; [done|lia]).
  rewrite Z.quot_div_nonneg by nia.
  pose proof (Z.div_mod (slen s * ex) t ltac:(lia)).
  pose proof (Z.mod_pos_bound (slen s * ex) t ltac:(lia)).
  assert (0 ≤ (slen s * ex) `div` t)%Z by (apply Z.div_pos; nia).
  assert ((slen s * ex) `div` t < slen s)%Z by (apply Z.div_lt_upper_bound; nia).
  lia.
Qed.

Lemma sumZ_scaled ex t fields :
  sumZ (scaled_length ex t <$> fields) =
  (sumZ (slen <$> fields)
   - sumZ ((λ l, (l * ex) `quot` t) <$> (slen <$> fields))
   - Z.of_nat (length fields))%Z.
Proof.
  induction fields as [|f fs IH]; [done|]. csimpl. rewrite IH. unfold scaled_length. lia.
Qed.

(** The space left over by rounding is positive and at most one byte per field,
    so the second loop never indexes out of range. *)
Lemma remaining_bounds max fields :
  let t := sumZ (slen <$> fields) in
  (0 < max < t)%Z →
  let r := (max - sumZ (scaled_length (t - max) t <$> fields))%Z in
  (1 ≤ r ≤ Z.of_nat (length fields))%Z.
Proof.
  intros t Ht r. subst r. rewrite sumZ_scaled. fold t.
  pose proof (sumZ_quot (slen <$> fields) (t - max) t) as Hq.
  cbv zeta in Hq. fold t in Hq. rewrite length_fmap in Hq.
  destruct Hq as [Hq1 Hq2]; [lia..| |].
  { apply Forall_fmap, Forall_true. intros s. unfold slen. simpl. lia. }
  set (q := sumZ _) in *.
  assert (0 < Z.of_nat (length fields))%Z.
  { destruct fields; simpl in *; [|lia]. subst t. simpl in Ht. lia. }
  nia.
Qed.

Lemma Forall2_scaled ex t fields ls :
  (0 ≤ ex < t)%Z → Forall (λ f, f ≠ "") fields →
  Forall2 (λ l l', l ≤ l' ≤ l + 1)%Z (scaled_length ex t <$> fields) ls →
  Forall2 (λ f l, 0 ≤ l ≤ slen f ∧ scaled_length ex t f ≤ l ≤ scaled_length ex t f + 1)%Z
    fields ls.
Proof.
  intros Hex Hne HF. revert HF. generalize dependent ls.
  induction Hne as [|f fields Hf Hne IH]; intros ls HF; inv HF; constructor; [|auto].
  pose proof (scaled_length_bounds ex t f Hex Hf). lia.
Qed.

Lemma trimFieldsEvenly_long max fields :
  (0 < max < sumZ (slen <$> fields))%Z → Forall (λ f, f ≠ "") fields →
  ∃ ret, trimFieldsEvenly max fields = Some ret ∧
    Forall2 (λ f r, ∃ u, f = r +:+ u) fields ret ∧
    sumZ (slen <$> ret) = max ∧
    let t := sumZ (slen <$> fields) in
    Forall2 (λ f r, 0 ≤ slen f - slen r - (slen f * (t - max)) `quot` t ≤ 1)%Z fields ret.
Proof.
  intros Ht Hne. unfold trimFieldsEvenly. rewrite !decide_False by lia. cbv zeta.
  pose proof (remaining_bounds max fields Ht) as Hr. cbv zeta in Hr.
  set (t := sumZ (slen <$> fields)) in *.
  set (lengths := scaled_length (t - max) t <$> fields) in *.
  destruct (incr_first_spec (Z.to_nat (max - sumZ lengths)) lengths) as (ls&->&HF&Hsum).
  { assert (length lengths = length fields) by apply length_fmap. lia. }
  apply Forall2_scaled in HF; [|lia|done].
  destruct (slice_fields_spec fields ls) as (ret&Hret&Hpre&Hls).
  { eapply Forall2_impl; [exact HF|]. simpl. intros; lia. }
  exists ret. split; [exact Hret|]. split; [done|]. split; [rewrite Hls; lia|].
  rewrite <-Hls in HF. apply Forall2_fmap_r in HF. eapply Forall2_impl; [exact HF|].
  simpl. unfold scaled_length. intros; lia.
Qed.

Lemma trimFieldsEvenly_short max fields :
  (sumZ (slen <$> fields) ≤ max)%Z → trimFieldsEvenly max fields = Some fields.
Proof. intros. unfold trimFieldsEvenly. case_decide; [done|]. by case_decide. Qed.

Lemma prefixes_refl (fields : list string) : Forall2 (λ f r, ∃ u, f = r +:+ u) fields fields.
Proof.
  apply Forall2_same_length_lookup_2; [done|].
  intros i x y Hx Hy. simplify_eq. exists "". by rewrite str_app_nil_r.
Qed.

(** What every result satisfies: as many fields, each a prefix, within the
    limit. *)
Lemma trimFieldsEvenly_ok max fields :
  (0 < max)%Z → Forall (λ f, f ≠ "") fields →
  ∃ ret, trimFieldsEvenly max fields = Some ret ∧
    Forall2 (λ f r, ∃ u, f = r +:+ u) fields ret ∧ (sumZ (slen <$> ret) ≤ max)%Z.
Proof.
  intros Hmax Hne. destruct (decide (sumZ (slen <$> fields) ≤ max)%Z).
  - exists fields. rewrite trimFieldsEvenly_short by done. eauto using prefixes_refl.
  - destruct (trimFieldsEvenly_long max fields) as (ret&?&?&Hs&?); [lia|done|].
    exists ret. split_and!; [done..|lia].
Qed.

(** C33. [trimFieldsEvenly] on non-empty fields and a positive limit never
    panics; every result is a prefix of its field; the total length is exactly
    the limit when the fields exceed it, and the fields are returned unchanged
    otherwise; when it truncates, each field loses its proportional share
    [len*excess/total] rounded down, plus at most one byte. *)
Theorem trimFieldsEvenly_spec max fields :
  (0 < max)%Z → Forall (λ f, f ≠ "") fields →
  let t := sumZ (slen <$> fields) in
  ∃ ret, trimFieldsEvenly max fields = Some ret ∧
    Forall2 (λ f r, ∃ u, f = r +:+ u) fields ret ∧
    sumZ (slen <$> ret) = Z.min max t ∧
    ((t ≤ max)%Z → ret = fields) ∧
    ((max < t)%Z →
     Forall2 (λ f r, 0 ≤ slen f - slen r - (slen f * (t - max)) `quot` t ≤ 1)%Z fields ret).
Proof.
  intros Hmax Hne t. destruct (decide (t ≤ max)%Z) as [Hle|Hgt].
  - exists fields. rewrite trimFieldsEvenly_short by done.
    split; [done|]. split; [apply prefixes_refl|].
    split; [fold t; lia|]. split; [done|lia].
  - destruct (trimFieldsEvenly_long max fields) as (ret&?&?&Hs&?); [lia|done|].
    exists ret. split_and!; try done; rewrite Hs; lia.
Qed.

Lemma trimFieldsEvenly_spec_witness :
  ∃ ret, trimFieldsEvenly 4 ["abcd"; "xyz"] = Some ret ∧ sumZ (slen <$> ret) = 4%Z.
Proof.
  destruct (trimFieldsEvenly_spec 4 ["abcd"; "xyz"]) as (ret&Hr&_&Hs&_).
  - lia.
  - by repeat constructor.
  - exists ret. split; [exact Hr|]. rewrite Hs. reflexivity.
Defined.

(** An empty field can panic: when rounding leaves no spare byte for it,
    its computed length is -1 and the slice [fields[i][:l]] is out of range. *)
Theorem trimFieldsEvenly_empty_field_panics :
  trimFieldsEvenly 30 ["namespace-of-twenty--"; "name-of-twenty-bytes"; ""] = None.
Proof. vm_compute. reflexivity. Qed.
