(* ===== verification/Namer.v ===== *)
(** * Namer: pkg/utils/namer.go

    The naming policy of the GCE resources of a cluster.  The mutex only
    protects the two fields; an operation reads them as they are when it
    runs, so the state is a value and the setters return the new one. *)

From S2P Require Import Prelude GoLang GoStrings Md5 Compute Utils.

Definition targetHTTPProxyPrefix : string := "k8s-tp".
Definition targetHTTPSProxyPrefix : string := "k8s-tps".
Definition sslCertPrefix : string := "k8s-ssl".
Definition forwardingRulePrefix : string := "k8s-fw".
Definition httpsForwardingRulePrefix : string := "k8s-fws".
Definition urlMapPrefix : string := "k8s-um".
Definition backendPrefix : string := "k8s-be".
Definition igPrefix : string := "k8s-ig".
Definition globalFirewallSuffix : string := "l7".
Definition clusterNameDelimiter : string := "--".
Definition alphaNumericChar : string := "0".
Definition nameLenLimit : nat := 62.
Definition maxNEGDescriptiveLabel : Z := 30.
Definition schemaVersionV1 : string := "1".

(** [NamerProtocol]: the two declared constants, or any other string. *)
Inductive NamerProtocol := HTTPProtocol | HTTPSProtocol | OtherProtocol (s : string).

Record Namer := MkNamer { clusterName : string; firewallName : string }.
Record NameComponents := MkNameComponents {
  nc_ClusterName : string; nc_Resource : string; nc_Metadata : string }.

(** ** Operations *)

Definition Namer_SetUID (name : string) (n : Namer) : Namer :=
  let name :=
    if Contains name clusterNameDelimiter
    then default "" (last (Split name clusterNameDelimiter)) else name in
  MkNamer name (firewallName n).
Definition Namer_SetFirewall (name : string) (n : Namer) : Namer :=
  if decide (firewallName n ≠ name) then MkNamer (clusterName n) name else n.
Definition NewNamer (clusterName firewallName : string) : Namer :=
  Namer_SetFirewall firewallName (Namer_SetUID clusterName (MkNamer "" "")).

Definition Namer_UID (n : Namer) : string := clusterName n.
Definition Namer_Firewall (n : Namer) : string :=
  if decide (firewallName n = "") then clusterName n else firewallName n.

Definition truncate (key : string) : string :=
  if decide (nameLenLimit < String.length key)
  then str_take nameLenLimit key +:+ alphaNumericChar else key.

Definition Namer_decorateName (n : Namer) (name : string) : string :=
  let clusterName := Namer_UID n in
  if decide (clusterName = "") then name
  else truncate (name +:+ clusterNameDelimiter +:+ clusterName).

Definition Namer_ParseName (n : Namer) (name : string) : NameComponents :=
  let l := Split name clusterNameDelimiter in
  let uid := if decide (2 ≤ length l) then default "" (last l) else "" in
  let c := Split name "-" in
  let resource := if decide (2 ≤ length c) then default "" (c !! 1) else "" in
  MkNameComponents uid resource "".

Definition Namer_NameBelongsToCluster (n : Namer) (name : string) : bool :=
  if negb (HasPrefix name "k8s-") then false else
  let parts := Split name clusterNameDelimiter in
  let clusterName := Namer_UID n in
  if decide (length parts = 1) then bool_decide (clusterName = "")
  else if decide (2 < length parts) then false
  else bool_decide (parts !! 1 = Some clusterName).

Definition Namer_Backend (n : Namer) (port : Z) : string :=
  Namer_decorateName n (backendPrefix +:+ "-" +:+ Itoa port).

(** The leading run of digits of a string. *)
Fixpoint span_digits (s : string) : string :=
  match s with
  | String c s' => if is_digit c then String c (span_digits s') else ""
  | "" => ""
  end.
(** [FindStringSubmatch] of the regexp [k8s-be-([0-9]+).*]: the first capture
    of the leftmost match.  The digits are greedy and the rest of the pattern
    matches the empty string, so a match starts at the first place where the
    literal is followed by a digit. *)
Fixpoint backendRegex_submatch (s : string) : option string :=
  let here :=
    if HasPrefix s "k8s-be-" then
      match span_digits (str_drop 7 s) with "" => None | d => Some d end
    else None in
  match here with
  | Some d => Some d
  | None => match s with "" => None | String _ s' => backendRegex_submatch s' end
  end.

Definition Namer_BackendPort (n : Namer) (beName : string) : error + string :=
  match backendRegex_submatch beName with
  | None => inl (Errorf "unable to lookup port for %v" [beName] [])
  | Some m =>
      match Atoi m with
      | None => inl (Errorf "unexpected regex match: %v" [beName] [])
      | Some _ => inr m
      end
  end.

Definition Namer_InstanceGroup (n : Namer) : string := Namer_decorateName n igPrefix.

Definition Namer_firewallRuleSuffix (n : Namer) : string :=
  let firewallName := Namer_Firewall n in
  if decide (firewallName = "") then globalFirewallSuffix
  else truncate (globalFirewallSuffix +:+ clusterNameDelimiter +:+ firewallName).
Definition Namer_FirewallRule (n : Namer) : string :=
  "k8s-fw-" +:+ Namer_firewallRuleSuffix n.

Definition Namer_LoadBalancer (n : Namer) (key : string) : string :=
  let parts := Split key clusterNameDelimiter in
  let scrubbedName := ReplaceAll key "/" "-" in
  let clusterName := Namer_UID n in
  if decide (clusterName = "" ∨ last parts = Some clusterName) then scrubbedName
  else truncate (scrubbedName +:+ clusterNameDelimiter +:+ clusterName).

(** [None] is the [glog.Fatalf] on an unknown protocol: the process exits. *)
Definition Namer_TargetProxy (n : Namer) (lbName : string) (protocol : NamerProtocol) : option string :=
  match protocol with
  | HTTPProtocol => Some (truncate (targetHTTPProxyPrefix +:+ "-" +:+ lbName))
  | HTTPSProtocol => Some (truncate (targetHTTPSProxyPrefix +:+ "-" +:+ lbName))
  | OtherProtocol _ => None
  end.
Definition Namer_IsSSLCert (n : Namer) (name : string) : bool := HasPrefix name sslCertPrefix.
Definition Namer_SSLCert (n : Namer) (lbName : string) (isPrimary : bool) : string :=
  if isPrimary then truncate (sslCertPrefix +:+ "-" +:+ lbName)
  else truncate (sslCertPrefix +:+ "-" +:+ Itoa 1 +:+ "-" +:+ lbName).
Definition Namer_ForwardingRule (n : Namer) (lbName : string) (protocol : NamerProtocol) : option string :=
  match protocol with
  | HTTPProtocol => Some (truncate (forwardingRulePrefix +:+ "-" +:+ lbName))
  | HTTPSProtocol => Some (truncate (httpsForwardingRulePrefix +:+ "-" +:+ lbName))
  | OtherProtocol _ => None
  end.
Definition Namer_UrlMap (n : Namer) (lbName : string) : string :=
  truncate (urlMapPrefix +:+ "-" +:+ lbName).
Definition Namer_NamedPort (n : Namer) (port : Z) : string := "port" +:+ Itoa port.

Definition Namer_negPrefix (n : Namer) : string :=
  "k8s" +:+ schemaVersionV1 +:+ "-" +:+ Namer_UID n.
Definition negSuffix (namespace name port : string) : string :=
  str_take 8 (md5_hex (namespace +:+ name +:+ port)).
(** [None] is the panic of [trimFieldsEvenly] or of an index out of range. *)
Definition Namer_NEG (n : Namer) (namespace name port : string) : option string :=
  trimmedFields ← trimFieldsEvenly maxNEGDescriptiveLabel [namespace; name; port];
  trimedNamespace ← trimmedFields !! 0;
  trimedName ← trimmedFields !! 1;
  trimedPort ← trimmedFields !! 2;
  Some (Namer_negPrefix n +:+ "-" +:+ trimedNamespace +:+ "-" +:+ trimedName +:+ "-"
        +:+ trimedPort +:+ "-" +:+ negSuffix namespace name port).
Definition Namer_IsNEG (n : Namer) (name : string) : bool :=
  HasPrefix name (Namer_negPrefix n).

(** A Namer as [SetUID] leaves it. *)
Definition Namer_wf (n : Namer) : Prop := Contains (clusterName n) clusterNameDelimiter = false.

(** ** Truncation *)

Lemma truncate_short s : String.length s ≤ nameLenLimit → truncate s = s.
Proof. intros. unfold truncate. rewrite decide_False by lia. done. Qed.
Lemma truncate_long s :
  nameLenLimit < String.length s → truncate s = str_take nameLenLimit s +:+ "0".
Proof. intros. unfold truncate. by rewrite decide_True. Qed.
Lemma truncate_length s : String.length (truncate s) ≤ 63.
Proof.
  unfold truncate, nameLenLimit. case_decide; [|lia].
  rewrite str_length_app, str_take_length.
  change (String.length alphaNumericChar) with 1. lia.
Qed.
Lemma truncate_app s t :
  nameLenLimit < String.length s → truncate (truncate s +:+ t) = truncate s.
Proof.
  intros Hs. rewrite (truncate_long s) by done.
  assert (String.length (str_take nameLenLimit s) = nameLenLimit) as Hl
    by (rewrite str_take_length; unfold nameLenLimit in *; lia).
  rewrite truncate_long.
  - rewrite str_app_assoc, str_take_app by lia. by rewrite (str_take_ge _ (str_take _ _)) by lia.
  - rewrite !str_length_app, Hl. change (String.length "0") with 1. lia.
Qed.
Lemma truncate_prefix s p :
  String.length p ≤ nameLenLimit → HasPrefix s p = true → HasPrefix (truncate s) p = true.
Proof.
  intros Hp H. unfold truncate. case_decide; [|done].
  apply HasPrefix_app_l. rewrite <-(HasPrefix_app_long _ (str_drop nameLenLimit s)).
  - by rewrite str_take_drop.
  - rewrite str_take_length. lia.
Qed.
Lemma lacks_truncate c s :
  lacks c s = true → lacks c alphaNumericChar = true → lacks c (truncate s) = true.
Proof.
  intros Hs H0. unfold truncate. case_decide; [|done].
  rewrite lacks_app, lacks_str_take by done. done.
Qed.

(** ** The cluster UID *)

(** The last piece of a split does not contain the separator. *)
Lemma Split_pieces sep k s t :
  sep ≠ "" → last (split_go sep k s) = Some t → Contains t sep = false.
Proof.
  intros Hsep. revert k t. induction s as [|c s IH]; intros k t.
  { simpl. intros [= <-]. by destruct sep. }
  destruct k as [|k]; cbn [split_go]; [|apply IH].
  destruct (HasPrefix (String c s) sep) eqn:Hp.
  - rewrite last_cons. destruct (last (split_go sep _ s)) eqn:E.
    + intros [= <-]. by eapply IH.
    + intros _. apply last_None in E. by apply split_go_nonempty in E.
  - destruct (split_go sep 0 s) as [|u [|v us]] eqn:E.
    + by destruct (split_go_nonempty sep 0 s).
    + simpl. intros [= <-]. cbn [Contains].
      pose proof (IH 0 u) as Hu. rewrite E in Hu. rewrite Hu by done.
      assert (u = s) as ->; [|by rewrite Hp].
      pose proof (Join_split_go sep 0 s Hsep ltac:(lia)) as HJ. by rewrite E in HJ.
    + intros Ht. apply (IH 0). by rewrite E.
Qed.

(** [SetUID] leaves a cluster name without the delimiter. *)
Lemma SetUID_wf name n : Namer_wf (Namer_SetUID name n).
Proof.
  unfold Namer_wf, Namer_SetUID. simpl. case_match eqn:H; [|done].
  destruct (Split_last name clusterNameDelimiter) as (l&t&Hs).
  rewrite Hs, last_snoc. simpl. apply (Split_pieces _ 0 name); [done|].
  unfold Split in Hs. by rewrite Hs, last_snoc.
Qed.
Lemma NewNamer_wf c f : Namer_wf (NewNamer c f).
Proof.
  unfold NewNamer, Namer_SetFirewall. case_decide; apply (SetUID_wf c (MkNamer "" "")).
Qed.

(** The last piece of [name--uid]. *)
Lemma Split_decorated name uid :
  not_ending "-" name = true → Contains uid "--" = false →
  Split (name +:+ "--" +:+ uid) "--" = Split name "--" ++ [uid].
Proof.
  intros Hn Hu. change ("--" +:+ uid) with (String "-" (String "-" uid)).
  rewrite Split_app_2 by done. f_equal. by apply Split_no_sep.
Qed.

(** ** Backend names *)

Definition port_range (p : Z) : Prop := (0 ≤ p < 65536)%Z.

Lemma port_length p : port_range p → String.length (Itoa p) ≤ 5.
Proof. unfold port_range. intros. apply Itoa_length; [lia|]. lia. Qed.

Lemma span_digits_app d rest :
  str_forallb is_digit d = true → span_digits rest = "" →
  span_digits (d +:+ rest) = d.
Proof.
  intros Hd Hr. induction d as [|c d IH]; [done|]. rewrite str_app_cons. simpl in *.
  apply andb_true_iff in Hd as [-> Hd]. by rewrite IH.
Qed.

(** A backend name starts with the prefix and the port, and goes on with a
    byte that is not a digit. *)
Lemma Backend_shape n p :
  port_range p →
  ∃ rest, Namer_Backend n p = "k8s-be-" +:+ Itoa p +:+ rest ∧ span_digits rest = "".
Proof.
  intros Hp. pose proof (port_length p Hp) as Hl.
  unfold Namer_Backend, Namer_decorateName. case_decide as Hc.
  { exists "". rewrite str_app_nil_r. done. }
  set (s := (backendPrefix +:+ "-" +:+ Itoa p) +:+ clusterNameDelimiter +:+ Namer_UID n).
  assert (s = ("k8s-be-" +:+ Itoa p) +:+ ("--" +:+ Namer_UID n)) as Hs by done.
  assert (String.length ("k8s-be-" +:+ Itoa p) = 7 + String.length (Itoa p)) as Hl2 by done.
  destruct (decide (nameLenLimit < String.length s)) as [Hlt|Hge].
  - rewrite truncate_long by done. rewrite Hs.
    exists (str_take (nameLenLimit - String.length ("k8s-be-" +:+ Itoa p)) ("--" +:+ Namer_UID n) +:+ "0").
    split.
    + rewrite str_take_app_ge by (rewrite Hl2; unfold nameLenLimit; lia).
      by rewrite !str_app_assoc.
    + replace (nameLenLimit - _) with (S (nameLenLimit - 8 - String.length (Itoa p)))
        by (rewrite Hl2; unfold nameLenLimit; lia). done.
  - rewrite truncate_short by lia. exists ("--" +:+ Namer_UID n).
    split; [|done]. by rewrite Hs, str_app_assoc.
Qed.

(** Distinct node ports have distinct backend names. *)
Lemma Backend_inj n p q :
  port_range p → port_range q → Namer_Backend n p = Namer_Backend n q → p = q.
Proof.
  intros Hp Hq. destruct (Backend_shape n p Hp) as (r1&->&Hr1).
  destruct (Backend_shape n q Hq) as (r2&->&Hr2). intros Heq%str_app_inj_l.
  apply (f_equal span_digits) in Heq. unfold port_range in *.
  rewrite !span_digits_app in Heq by (done || apply Itoa_digits; lia). by apply Itoa_inj.
Qed.

Lemma backendRegex_prefix s :
  HasPrefix s "k8s-be-" = true → span_digits (str_drop 7 s) ≠ "" →
  backendRegex_submatch s = Some (span_digits (str_drop 7 s)).
Proof.
  intros Hp Hd. destruct s; cbn [backendRegex_submatch]; rewrite Hp;
    by destruct (span_digits _).
Qed.

(** C29. [BackendPort] recovers the port from every name [Backend] builds for a
    node port, with any cluster name and even when the name was truncated. *)
Theorem BackendPort_Backend n p :
  port_range p → Namer_BackendPort n (Namer_Backend n p) = inr (Itoa p).
Proof.
  intros Hp. destruct (Backend_shape n p Hp) as (rest&->&Hr). unfold port_range in Hp.
  pose proof (Itoa_digits p ltac:(lia)) as Hd.
  pose proof (Itoa_nonempty p ltac:(lia)) as Hne.
  assert (backendRegex_submatch ("k8s-be-" +:+ Itoa p +:+ rest) = Some (Itoa p)) as Hm.
  { rewrite backendRegex_prefix; rewrite ?HasPrefix_app;
      rewrite ?(str_drop_app_length "k8s-be-" (Itoa p +:+ rest) : str_drop 7 _ = _),
        ?span_digits_app; done. }
  unfold Namer_BackendPort. rewrite Hm, Atoi_Itoa by lia. done.
Qed.

Lemma BackendPort_Backend_witness :
  port_range 30301 ∧
  Namer_BackendPort (NewNamer "uid1" "") (Namer_Backend (NewNamer "uid1" "") 30301) = inr "30301".
Proof.
  split; [done|]. rewrite (BackendPort_Backend (NewNamer "uid1" "") 30301); done.
Defined.

(** ** Lengths *)

Lemma decorateName_length n name :
  String.length name ≤ 62 → String.length (Namer_decorateName n name) ≤ 63.
Proof.
  intros. unfold Namer_decorateName. case_decide; [lia|]. apply truncate_length.
Qed.

(** The trimmed fields of a NEG name. *)
Lemma NEG_trimmed ns name port :
  ns ≠ "" → name ≠ "" → port ≠ "" →
  ∃ a b c, trimFieldsEvenly maxNEGDescriptiveLabel [ns; name; port] = Some [a; b; c] ∧
    String.length a + String.length b + String.length c ≤ 30.
Proof.
  intros H1 H2 H3.
  destruct (trimFieldsEvenly_ok 30 [ns; name; port]) as (ret&Hr&HF&Hs);
    [done|repeat constructor; done|].
  apply Forall2_cons_inv_l in HF as (a&r1&_&HF&->).
  apply Forall2_cons_inv_l in HF as (b&r2&_&HF&->).
  apply Forall2_cons_inv_l in HF as (c&r3&_&HF&->).
  apply Forall2_nil_inv_l in HF as ->. exists a, b, c. split; [done|].
  unfold slen in Hs. simpl in Hs. lia.
Qed.

(** C32. The names built for the GCE API against its limit of 63 bytes. The
    names of backends (of a 16 bit port), instance groups, url maps,
    certificates, proxies and forwarding rules fit, for any UID and any load
    balancer name. The name of a load balancer itself fits in a cluster that has
    a UID, but for one case, which is not bounded: a key whose last piece
    between double dashes is the UID already is neither decorated nor truncated,
    and keeps its length. For a UID of at most 16 bytes and non-empty fields,
    [NEG] does not panic and its name fits. The name of a firewall rule may not
    fit, see [FirewallRule_too_long]. *)
Theorem names_fit n lb p primary proto ns name port :
  port_range p →
  String.length (Namer_Backend n p) ≤ 63 ∧
  String.length (Namer_InstanceGroup n) ≤ 63 ∧
  (Namer_UID n ≠ "" → ∀ key,
     (last (Split key "--") ≠ Some (Namer_UID n) → String.length (Namer_LoadBalancer n key) ≤ 63) ∧
     (last (Split key "--") = Some (Namer_UID n) →
      String.length (Namer_LoadBalancer n key) = String.length key)) ∧
  String.length (Namer_UrlMap n lb) ≤ 63 ∧
  String.length (Namer_SSLCert n lb primary) ≤ 63 ∧
  (∀ s, Namer_TargetProxy n lb proto = Some s → String.length s ≤ 63) ∧
  (∀ s, Namer_ForwardingRule n lb proto = Some s → String.length s ≤ 63) ∧
  (String.length (Namer_UID n) ≤ 16 → ns ≠ "" → name ≠ "" → port ≠ "" →
   ∃ s, Namer_NEG n ns name port = Some s ∧ String.length s ≤ 63).
Proof.
  intros Hp. pose proof (port_length p Hp) as Hl. split_and!.
  - apply decorateName_length. rewrite !str_length_app.
    change (String.length backendPrefix) with 6. change (String.length "-") with 1. lia.
  - apply decorateName_length. simpl. lia.
  - intros Hne key. unfold Namer_LoadBalancer. case_decide as Hd; split; intros Hk.
    + by destruct Hd.
    + by rewrite ReplaceAll_byte, str_map_length.
    + apply truncate_length.
    + destruct Hd. by right.
  - apply truncate_length.
  - unfold Namer_SSLCert. case_match; apply truncate_length.
  - intros s. unfold Namer_TargetProxy. case_match; intros [= <-]; apply truncate_length.
  - intros s. unfold Namer_ForwardingRule. case_match; intros [= <-]; apply truncate_length.
  - intros Hu H1 H2 H3. destruct (NEG_trimmed ns name port) as (a&b&c&Ht&Hlen); [done..|].
    unfold Namer_NEG. rewrite Ht. simpl mbind. eexists. split; [done|].
    unfold Namer_negPrefix, negSuffix. rewrite !str_length_app, str_take_length, length_md5_hex.
    change (String.length "k8s") with 3. change (String.length "-") with 1.
    change (String.length schemaVersionV1) with 1. lia.
Qed.

Lemma names_fit_witness :
  String.length (Namer_LoadBalancer (NewNamer "uid1" "")
    "default/a-name-of-an-ingress-that-is-longer-than-the-limit-of-the-cloud--uid1") = 77 ∧
  ∃ s, Namer_NEG (NewNamer "0123456789abcdef" "") "default" "svc" "80" = Some s ∧ String.length s ≤ 63.
Proof.
  assert (port_range 80) as Hp by (split; lia). split.
  - destruct (names_fit (NewNamer "uid1" "") "lb" 80 true HTTPProtocol "default" "svc" "80" Hp)
      as (_&_&H&_).
    destruct (H ltac:(done) "default/a-name-of-an-ingress-that-is-longer-than-the-limit-of-the-cloud--uid1")
      as [_ H']. rewrite H' by reflexivity. reflexivity.
  - destruct (names_fit (NewNamer "0123456789abcdef" "") "lb" 80 true HTTPProtocol "default" "svc" "80" Hp)
      as (_&_&_&_&_&_&_&H). apply H; [vm_compute; lia|done..].
Defined.

(** The firewall rule name can exceed the 63 bytes of the API: the suffix
    is truncated to 63 bytes before the prefix [k8s-fw-] is added. *)
Lemma FirewallRule_too_long f :
  58 < String.length f → String.length (Namer_FirewallRule (MkNamer "uid" f)) = 70.
Proof.
  intros Hf. unfold Namer_FirewallRule, Namer_firewallRuleSuffix, Namer_Firewall. simpl firewallName.
  rewrite (decide_False (P := f = "")) by (intros ->; simpl in Hf; lia).
  rewrite decide_False by (intros ->; simpl in Hf; lia).
  rewrite truncate_long; [rewrite !str_length_app, str_take_length|];
    rewrite !str_length_app; change (String.length globalFirewallSuffix) with 2;
    change (String.length clusterNameDelimiter) with 2; unfold nameLenLimit.
  - change (String.length "k8s-fw-") with 7. change (String.length "0") with 1. lia.
  - lia.
Qed.

(** ** Ownership *)

(** What the names of the cluster's own resources look like before the UID is
    appended: [k8s-...], without the delimiter. *)
Definition plain_resource (name : string) : Prop :=
  HasPrefix name "k8s-" = true ∧ Contains name "--" = false ∧ not_ending "-" name = true.

Lemma plain_backend p : port_range p → plain_resource (backendPrefix +:+ "-" +:+ Itoa p).
Proof.
  unfold port_range. intros Hp.
  pose proof (Itoa_lacks "-" p ltac:(lia) eq_refl) as Hl.
  pose proof (Itoa_nonempty p ltac:(lia)) as Hne. repeat split.
  - rewrite <-str_app_assoc. by apply Contains_app_lacks.
  - rewrite <-str_app_assoc, not_ending_app by done. by apply lacks_not_ending.
Qed.
Lemma plain_ig : plain_resource igPrefix.
Proof. done. Qed.

Lemma NameBelongsToCluster_decorated n n' name :
  Namer_wf n → plain_resource name →
  String.length name + 2 + String.length (Namer_UID n) ≤ 62 →
  Namer_NameBelongsToCluster n' (Namer_decorateName n name) = true ↔ Namer_UID n' = Namer_UID n.
Proof.
  intros Hwf (Hpre&Hno&Hend) Hlen. unfold Namer_decorateName, Namer_NameBelongsToCluster.
  case_decide as Hc.
  - rewrite Hpre. simpl. rewrite Split_no_sep by done. simpl. rewrite Hc.
    apply bool_decide_eq_true.
  - rewrite truncate_short; [|rewrite !str_length_app;
      change (String.length clusterNameDelimiter) with 2; unfold nameLenLimit; lia].
    rewrite HasPrefix_app_l by done. simpl.
    rewrite (Split_decorated name) by done. rewrite Split_no_sep by done. simpl.
    rewrite bool_decide_eq_true. split; [by intros [= ->]|by intros ->].
Qed.

(** C31. Clusters recognise exactly their own names: a backend name or an
    instance group name (not truncated) built by the namer of one cluster
    belongs to another cluster's namer iff both have the same UID. *)
Theorem cluster_isolation n n' p :
  Namer_wf n → port_range p → String.length (Namer_UID n) ≤ 48 →
  (Namer_NameBelongsToCluster n' (Namer_Backend n p) = true ↔ Namer_UID n' = Namer_UID n) ∧
  (Namer_NameBelongsToCluster n' (Namer_InstanceGroup n) = true ↔ Namer_UID n' = Namer_UID n).
Proof.
  intros Hwf Hp Hl. pose proof (port_length p Hp). split.
  - apply NameBelongsToCluster_decorated; [done|by apply plain_backend|].
    rewrite !str_length_app. change (String.length backendPrefix) with 6.
    change (String.length "-") with 1. lia.
  - apply NameBelongsToCluster_decorated; [done|apply plain_ig|]. simpl. lia.
Qed.

Lemma cluster_isolation_witness :
  Namer_NameBelongsToCluster (NewNamer "uid2" "") (Namer_Backend (NewNamer "uid1" "") 80) = true
  ↔ "uid2" = "uid1".
Proof.
  apply (cluster_isolation (NewNamer "uid1" "") (NewNamer "uid2" "") 80);
    [reflexivity|split; lia|vm_compute; lia].
Defined.

Lemma IsNEG_prefix n n' ns name port s suffix :
  Namer_UID n' = Namer_UID n +:+ suffix →
  Namer_NEG n' ns name port = Some s → Namer_IsNEG n s = true.
Proof.
  intros Hu Hs. unfold Namer_NEG in Hs.
  repeat match type of Hs with mbind _ _ = Some _ =>
    let H := fresh in apply bind_Some in Hs as (?&H&Hs) end.
  simplify_eq. apply HasPrefix_spec. unfold Namer_negPrefix. rewrite Hu, !str_app_assoc.
  by eexists.
Qed.

(** [IsNEG] accepts every NEG name of the cluster, but also every NEG name
    of a cluster whose UID extends this one's: it compares prefixes and does
    not look for the dash that ends the UID. *)
Theorem IsNEG_not_exclusive n n' ns name port s :
  ns ≠ "" → name ≠ "" → port ≠ "" →
  (∃ s, Namer_NEG n ns name port = Some s ∧ Namer_IsNEG n s = true) ∧
  (HasPrefix (Namer_UID n') (Namer_UID n) = true →
   Namer_NEG n' ns name port = Some s → Namer_IsNEG n s = true).
Proof.
  intros H1 H2 H3. split.
  - destruct (NEG_trimmed ns name port) as (a&b&c&Ht&Hlen); [done..|].
    assert (∃ s, Namer_NEG n ns name port = Some s) as [t Hs]
      by (unfold Namer_NEG; rewrite Ht; by eexists).
    exists t. split; [done|]. eapply (IsNEG_prefix n n), Hs. by rewrite str_app_nil_r.
  - rewrite HasPrefix_spec. intros [u Hu] Hs. by eapply IsNEG_prefix.
Qed.

Lemma IsNEG_not_exclusive_witness :
  Namer_IsNEG (NewNamer "abc" "") "k8s1-abcd-ns-svc-80-b5f4ca0a" = true.
Proof.
  apply (IsNEG_not_exclusive (NewNamer "abc" "") (NewNamer "abcd" "") "ns" "svc" "80"
    "k8s1-abcd-ns-svc-80-b5f4ca0a"); [done|done|done|reflexivity|vm_compute; reflexivity].
Defined.

(** ** Load balancer names *)

Lemma no_overlap_start c a b :
  HasPrefix b (String c "") = false → no_overlap (String c (String c "")) a b.
Proof.
  intros Hb a1 a2 _ H2. destruct a2 as [|d [|e a2]]; [done| |].
  - destruct b as [|f b]; [done|]. rewrite str_app_cons, str_app_nil_l.
    cbn [HasPrefix] in *. by rewrite Hb.
  - by rewrite HasPrefix_app_long by (simpl; lia).
Qed.

(** The key of an ingress, [namespace/name], as Kubernetes allows it: DNS names
    hold no slash and neither start nor end with a dash. *)
Definition dns_name (s : string) : Prop :=
  lacks "/" s = true ∧ HasPrefix s "-" = false ∧ not_ending "-" s = true ∧ s ≠ "".
Definition ingress_key (ns name : string) : string := ns +:+ "/" +:+ name.

Lemma ReplaceAll_key ns name :
  dns_name ns → dns_name name →
  ReplaceAll (ingress_key ns name) "/" "-" = ns +:+ "-" +:+ name.
Proof.
  intros (Hns&_) (Hname&_). unfold ingress_key.
  by rewrite ReplaceAll_byte, !str_map_app, (str_map_lacks _ _ ns), (str_map_lacks _ _ name).
Qed.
Lemma ReplaceAll_lacks s : lacks "/" s = true → ReplaceAll s "/" "-" = s.
Proof. intros. by rewrite ReplaceAll_byte, str_map_lacks. Qed.

(** If a key ends with [--uid], it is the name that does. *)
Lemma key_last ns name uid :
  dns_name ns → dns_name name → lacks "/" uid = true →
  last (Split (ingress_key ns name) "--") = Some uid →
  2 ≤ length (Split name "--") ∧ last (Split name "--") = Some uid.
Proof.
  intros (Hns&_&Hend&_) (Hname&Hst&_) Hu. unfold ingress_key. rewrite <-!str_app_assoc.
  rewrite (Split_glue "--" (ns +:+ "/")); [|done|apply no_overlap_2; by rewrite not_ending_app].
  destruct (decide (2 ≤ length (Split name "--"))) as [H2|H2]; [by rewrite last_glue|].
  destruct (Split_last name "--") as (l&t&Hl). rewrite Hl in H2 |- *.
  destruct l; [|rewrite length_app in H2; simpl in H2; lia].
  rewrite (Split_glue "--" ns); [|done|by apply no_overlap_2].
  destruct (Split_last ns "--") as (l'&t'&->).
  change (Split "/" "--") with ["/"]. rewrite last_glue_1. simpl app.
  rewrite last_glue_1, last_snoc. intros [= Heq]. exfalso.
  rewrite str_app_assoc in Heq. by apply (lacks_spec "/" uid Hu t' t).
Qed.
(** Whatever stands before a name that ends in the UID. *)
Lemma Split_before a name uid :
  dns_name name → 2 ≤ length (Split name "--") → last (Split name "--") = Some uid →
  ∃ l, Split (a +:+ "-" +:+ name) "--" = l ++ [uid] ∧ l ≠ [].
Proof.
  intros (_&Hst&_) H2 Hlast. rewrite <-str_app_assoc, (Split_glue "--" (a +:+ "-")) by (done || by apply no_overlap_start).
  set (x := glue _ _). assert (last x = Some uid) as Hx by (unfold x; by rewrite last_glue).
  assert (2 ≤ length x) as Hlen by (unfold x; etransitivity; [exact H2|apply length_glue]).
  apply last_Some in Hx as [l Hx]. exists l. split; [done|]. intros ->. rewrite Hx in Hlen. simpl in Hlen. lia.
Qed.
(** If the key already ends with [--uid], so does the scrubbed key. *)
Lemma scrubbed_last ns name uid :
  dns_name ns → dns_name name → lacks "/" uid = true →
  last (Split (ingress_key ns name) "--") = Some uid →
  last (Split (ns +:+ "-" +:+ name) "--") = Some uid.
Proof.
  intros Hns Hname Hu Hd. destruct (key_last ns name uid) as [H2 Hlast]; [done..|].
  destruct (Split_before ns name uid) as (l&->&_); [done..|]. apply last_snoc.
Qed.

(** [LoadBalancer] is idempotent on the keys of ingresses: the pools pass
    names that were already built through it again, and get the same name. *)
Lemma LoadBalancer_idempotent n ns name :
  Namer_wf n → lacks "/" (Namer_UID n) = true → dns_name ns → dns_name name →
  let lb := Namer_LoadBalancer n (ingress_key ns name) in
  Namer_LoadBalancer n lb = lb.
Proof.
  intros Hwf Hu Hns Hname lb. subst lb. unfold Namer_LoadBalancer at 2 3.
  rewrite ReplaceAll_key by done.
  assert (lacks "/" (ns +:+ "-" +:+ name) = true) as Hls
    by (rewrite !lacks_app; destruct Hns as [-> _], Hname as [-> _]; done).
  case_decide as Hd.
  - unfold Namer_LoadBalancer. rewrite ReplaceAll_lacks by done.
    apply decide_True. destruct Hd as [Hd|Hd]; [by left|right].
    by apply scrubbed_last.
  - set (s := (ns +:+ "-" +:+ name) +:+ clusterNameDelimiter +:+ Namer_UID n).
    assert (lacks "/" s = true) as Hs by (unfold s; rewrite !lacks_app, Hu, <-!lacks_app, Hls; done).
    unfold Namer_LoadBalancer.
    rewrite ReplaceAll_lacks by (by apply lacks_truncate). case_decide as Hd'; [done|].
    destruct (decide (nameLenLimit < String.length s)); [by apply truncate_app|].
    rewrite truncate_short in Hd' by lia. destruct Hd'. right. unfold s.
    rewrite (Split_decorated (ns +:+ "-" +:+ name)), last_snoc; [done| |done].
    destruct Hname as (_&_&?&?). by rewrite <-str_app_assoc, not_ending_app.
Qed.

Lemma truncate_whole s : String.length (truncate s) ≤ nameLenLimit → truncate s = s.
Proof.
  unfold truncate. case_decide; [|done]. rewrite str_length_app, str_take_length.
  change (String.length alphaNumericChar) with 1. lia.
Qed.
(** A name whose second piece is the tag and whose last one is the UID. *)
Lemma ParseName_pieces n P rest tag X l :
  Split P "-" = "k8s" :: tag :: rest → Split (P +:+ "-" +:+ X) "--" = l ++ [Namer_UID n] → l ≠ [] →
  Namer_ParseName n (P +:+ "-" +:+ X) = MkNameComponents (Namer_UID n) tag "".
Proof.
  intros HP Hl Hne. unfold Namer_ParseName. change clusterNameDelimiter with "--". rewrite Hl, length_app, last_snoc.
  rewrite decide_True by (destruct l; [done|simpl; lia]). f_equal.
  change (P +:+ "-" +:+ X) with (P +:+ String "-" X). by rewrite Split_app_1, HP.
Qed.
Lemma Split_not_nil s sep : Split s sep ≠ [].
Proof. destruct (Split_last s sep) as (l&t&->). by destruct l. Qed.
(** A decorated name. *)
Lemma ParseName_decorated n P rest tag X :
  Namer_wf n → Namer_UID n ≠ "" → Split P "-" = "k8s" :: tag :: rest → not_ending "-" (P +:+ X) = true →
  (∃ Y, X +:+ "--" +:+ Namer_UID n = "-" +:+ Y) →
  String.length (Namer_decorateName n (P +:+ X)) ≤ nameLenLimit →
  Namer_ParseName n (Namer_decorateName n (P +:+ X)) = MkNameComponents (Namer_UID n) tag "".
Proof.
  intros Hwf Hne HP Hend [Y HY]. unfold Namer_decorateName. rewrite decide_False by done. intros Hlen.
  rewrite (truncate_whole _ Hlen). change clusterNameDelimiter with "--".
  pose proof (Split_decorated _ _ Hend Hwf) as Hs. change (clusterName n) with (Namer_UID n) in Hs.
  rewrite str_app_assoc, HY in Hs |- *. eapply ParseName_pieces; [exact HP|exact Hs|apply Split_not_nil].
Qed.

(** The load balancer of an ingress. *)
Definition ingress_lb (n : Namer) (lb : string) : Prop :=
  ∃ ns name, dns_name ns ∧ dns_name name ∧ lb = Namer_LoadBalancer n (ingress_key ns name).
(** Its UID is the last piece, although a key that ends in the UID is not
    decorated with it again. *)
Lemma lb_last n P lb :
  Namer_wf n → Namer_UID n ≠ "" → lacks "/" (Namer_UID n) = true → ingress_lb n lb → String.length lb ≤ nameLenLimit →
  ∃ l, Split (P +:+ "-" +:+ lb) "--" = l ++ [Namer_UID n] ∧ l ≠ [].
Proof.
  intros Hwf Hne Hu (ns&name&Hns&Hname&->). unfold Namer_LoadBalancer. rewrite ReplaceAll_key by done.
  case_decide as Hd; intros Hlen.
  - destruct Hd as [?|Hd]; [done|]. destruct (key_last ns name (Namer_UID n)) as [H2 Hlast]; [done..|].
    replace (P +:+ "-" +:+ ns +:+ "-" +:+ name) with ((P +:+ "-" +:+ ns) +:+ "-" +:+ name) by (by rewrite !str_app_assoc).
    by apply Split_before.
  - rewrite (truncate_whole _ Hlen).
    assert (not_ending "-" (P +:+ "-" +:+ ns +:+ "-" +:+ name) = true) as Hend.
    { destruct Hname as (_&_&?&?). replace (P +:+ "-" +:+ ns +:+ "-" +:+ name) with ((P +:+ "-" +:+ ns +:+ "-") +:+ name)
        by (by rewrite !str_app_assoc). by rewrite not_ending_app. }
    change clusterNameDelimiter with "--". replace (P +:+ "-" +:+ (ns +:+ "-" +:+ name) +:+ "--" +:+ Namer_UID n)
      with ((P +:+ "-" +:+ ns +:+ "-" +:+ name) +:+ "--" +:+ Namer_UID n) by (by rewrite !str_app_assoc).
    eexists. split; [exact (Split_decorated _ _ Hend Hwf)|apply Split_not_nil].
Qed.
Lemma ParseName_lb n P rest tag lb :
  Namer_wf n → Namer_UID n ≠ "" → lacks "/" (Namer_UID n) = true → ingress_lb n lb → Split P "-" = "k8s" :: tag :: rest →
  String.length (truncate (P +:+ "-" +:+ lb)) ≤ nameLenLimit →
  Namer_ParseName n (truncate (P +:+ "-" +:+ lb)) = MkNameComponents (Namer_UID n) tag "".
Proof.
  intros Hwf Hne Hu Hlb HP Hlen. pose proof (truncate_whole _ Hlen) as Ht. rewrite Ht in Hlen |- *.
  destruct (lb_last n P lb) as (l&Hl&?); [done..| |by eapply ParseName_pieces].
  rewrite !str_length_app in Hlen. lia.
Qed.

(** The names that [ParseName] is for, with the kind of the resource. *)
Inductive derived (n : Namer) : string → string → Prop :=
  | derived_backend p : port_range p → derived n (Namer_Backend n p) "be"
  | derived_group : derived n (Namer_InstanceGroup n) "ig"
  | derived_proxy lb s : ingress_lb n lb → Namer_TargetProxy n lb HTTPProtocol = Some s → derived n s "tp"
  | derived_proxys lb s : ingress_lb n lb → Namer_TargetProxy n lb HTTPSProtocol = Some s → derived n s "tps"
  | derived_cert lb primary : ingress_lb n lb → derived n (Namer_SSLCert n lb primary) "ssl"
  | derived_rule lb s : ingress_lb n lb → Namer_ForwardingRule n lb HTTPProtocol = Some s → derived n s "fw"
  | derived_rules lb s : ingress_lb n lb → Namer_ForwardingRule n lb HTTPSProtocol = Some s → derived n s "fws"
  | derived_map lb : ingress_lb n lb → derived n (Namer_UrlMap n lb) "um".

(** C30. Round trip, for all the kinds of names that [ParseName] is documented
    for: backends, instance groups, and the proxies, certificates, forwarding
    rules and url maps of the load balancers of ingresses. In a cluster that has
    a UID (as [SetUID] stores it, and without a slash), a name that was not
    truncated, that is of at most 62 bytes, parses to this UID and to the kind
    of the resource. *)
Theorem ParseName_derived n name tag :
  Namer_wf n → Namer_UID n ≠ "" → lacks "/" (Namer_UID n) = true →
  derived n name tag → String.length name ≤ nameLenLimit →
  Namer_ParseName n name = MkNameComponents (Namer_UID n) tag "".
Proof.
  intros Hwf Hne Hu Hd. destruct Hd as [p Hp| |lb s Hlb [= <-]|lb s Hlb [= <-]|lb primary Hlb|lb s Hlb [= <-]|lb s Hlb [= <-]|lb Hlb].
  - apply (ParseName_decorated n backendPrefix [] "be" ("-" +:+ Itoa p)); [done..| |by eexists].
    unfold port_range in Hp. rewrite <-str_app_assoc, not_ending_app by (apply Itoa_nonempty; lia).
    apply lacks_not_ending, Itoa_lacks; [lia|done].
  - apply (ParseName_decorated n igPrefix [] "ig" ""); [done|done|reflexivity|reflexivity|by exists ("-" +:+ Namer_UID n)].
  - by eapply ParseName_lb.
  - by eapply ParseName_lb.
  - unfold Namer_SSLCert. destruct primary; [by eapply ParseName_lb|].
    rewrite <-!str_app_assoc. rewrite str_app_assoc. by eapply (ParseName_lb n "k8s-ssl-1" ["1"]).
  - by eapply ParseName_lb.
  - by eapply ParseName_lb.
  - by eapply ParseName_lb.
Qed.


Lemma ParseName_derived_witness :
  Namer_ParseName (NewNamer "uid1" "") "k8s-fws-ns-ing--uid1" = MkNameComponents "uid1" "fws" "" ∧
  Namer_ParseName (NewNamer "uid1" "") "k8s-ssl-1-ns-a--uid1" = MkNameComponents "uid1" "ssl" "" ∧
  Namer_ParseName (NewNamer "uid1" "") "k8s-be-80--uid1" = MkNameComponents "uid1" "be" "".
Proof.
  split; [|split].
  - apply (ParseName_derived (NewNamer "uid1" "")); [reflexivity|done|reflexivity| |vm_compute; lia].
    apply (derived_rules _ "ns-ing--uid1"); [|reflexivity]. exists "ns", "ing". by repeat split.
  - apply (ParseName_derived (NewNamer "uid1" "")); [reflexivity|done|reflexivity| |vm_compute; lia].
    apply (derived_cert _ "ns-a--uid1" false). exists "ns", "a--uid1". by repeat split.
  - apply (ParseName_derived (NewNamer "uid1" "")); [reflexivity|done|reflexivity| |vm_compute; lia].
    apply (derived_backend (NewNamer "uid1" "") 80). split; lia.
Defined.

(** Load balancer names are not injective on the keys of ingresses: the
    slash becomes a dash, so two ingresses of two namespaces can share every
    resource of their load balancers. *)
Theorem LoadBalancer_collision n a b c :
  dns_name a → dns_name b → dns_name c → Namer_UID n = "" →
  ingress_key (a +:+ "-" +:+ b) c ≠ ingress_key a (b +:+ "-" +:+ c) ∧
  Namer_LoadBalancer n (ingress_key (a +:+ "-" +:+ b) c) =
  Namer_LoadBalancer n (ingress_key a (b +:+ "-" +:+ c)).
Proof.
  intros Ha Hb Hc Hu. split.
  - unfold ingress_key. rewrite str_app_assoc. intros H%str_app_inj_l. discriminate H.
  - destruct Ha as [Ha _], Hb as [Hb _], Hc as [Hc _].
    unfold Namer_LoadBalancer, ingress_key. rewrite Hu, !decide_True by (by left).
    rewrite !ReplaceAll_byte, !str_map_app, (str_map_lacks _ _ a), (str_map_lacks _ _ b),
      (str_map_lacks _ _ c) by done.
    by rewrite !str_app_assoc.
Qed.

Lemma LoadBalancer_collision_witness :
  "a-b/c" ≠ "a/b-c" ∧
  Namer_LoadBalancer (NewNamer "" "") "a-b/c" = Namer_LoadBalancer (NewNamer "" "") "a/b-c".
Proof.
  apply (LoadBalancer_collision (NewNamer "" "") "a" "b" "c"); by repeat split.
Defined.
