(* ===== verification/Annotations.v ===== *)
(** * Annotations: pkg/annotations/annotations.go

    The typed view of the annotations of an Ingress and of a Service. The JSON
    decoder of the standard library is an argument of the one method that
    calls it. *)

From S2P Require Import Prelude GoLang GoStrings Utils.

Definition AllowHTTPKey : string := "kubernetes.io/ingress.allow-http".
Definition StaticIPNameKey : string := "kubernetes.io/ingress.global-static-ip-name".
Definition PreSharedCertKey : string := "ingress.gcp.kubernetes.io/pre-shared-cert".
Definition ServiceApplicationProtocolKey : string := "service.alpha.kubernetes.io/app-protocols".
Definition IngressClassKey : string := "kubernetes.io/ingress.class".
Definition GceIngressClass : string := "gce".
Definition GceMultiIngressClass : string := "gce-multi-cluster".
Definition ZoneKey : string := "failure-domain.beta.kubernetes.io/zone".
Definition DefaultZone : string := "".
Definition InstanceGroupsAnnotationKey : string := "ingress.gcp.kubernetes.io/instance-groups".
Definition NetworkEndpointGroupAlphaAnnotation : string :=
  "alpha.cloud.google.com/load-balancer-neg".

Definition IngAnnotations : Type := gmap string string.
Definition SvcAnnotations : Type := gmap string string.

Definition IngAnnotations_AllowHTTP (ing : IngAnnotations) : bool :=
  match ing !! AllowHTTPKey with
  | None => true
  | Some val => match ParseBool val with None => true | Some v => v end
  end.
Definition IngAnnotations_UseNamedTLS (ing : IngAnnotations) : string :=
  match ing !! PreSharedCertKey with None => "" | Some val => val end.
Definition IngAnnotations_StaticIPName (ing : IngAnnotations) : string :=
  match ing !! StaticIPNameKey with None => "" | Some val => val end.
Definition IngAnnotations_IngressClass (ing : IngAnnotations) : string :=
  match ing !! IngressClassKey with None => "" | Some val => val end.

(** The accepted protocols of the [switch]. *)
Definition valid_protocol (proto : string) : bool :=
  bool_decide (proto = ProtocolHTTP) || bool_decide (proto = ProtocolHTTPS).

(** [json.Unmarshal] into a [map[string]AppProtocol]: what was decoded, and
    the error if there is one (the map may be partly filled then). The map is
    ranged over in an unspecified order, which only decides the protocol that
    the error names. *)
Definition SvcAnnotations_ApplicationProtocols
    (json_Unmarshal : string → gmap string string * option error)
    (svc : SvcAnnotations) : error + gmap string string :=
  match svc !! ServiceApplicationProtocolKey with
  | None => inr ∅
  | Some val =>
      let '(portToProtos, err) := json_Unmarshal val in
      match filter (λ kv, valid_protocol kv.2 = false) (map_to_list portToProtos) with
      | kv :: _ => inl (Errorf "invalid port application protocol: %v" [kv.2] [])
      | [] => match err with Some e => inl e | None => inr portToProtos end
      end
  end.

Definition SvcAnnotations_NEGEnabled (svc : SvcAnnotations) : bool :=
  match svc !! NetworkEndpointGroupAlphaAnnotation with
  | Some v => bool_decide (v = "true") | None => false end.

(** ** Properties *)

(** The protocols handed to the translator are always HTTP or HTTPS. *)
Lemma ApplicationProtocols_valid json svc m port proto :
  SvcAnnotations_ApplicationProtocols json svc = inr m → m !! port = Some proto →
  proto = ProtocolHTTP ∨ proto = ProtocolHTTPS.
Proof.
  unfold SvcAnnotations_ApplicationProtocols. case_match; [|by intros [= <-]].
  destruct (json _) as [pp err]. case_match eqn:Hf; [|done].
  destruct err; [done|]. intros [= <-] Hm.
  destruct (valid_protocol proto) eqn:Hv.
  - unfold valid_protocol in Hv. apply orb_true_iff in Hv as [H1|H1];
      apply bool_decide_eq_true in H1; auto.
  - assert ((port, proto) ∈ filter (λ kv : string * string, valid_protocol kv.2 = false)
      (map_to_list pp)) as Hin.
    { apply list_elem_of_filter. split; [done|]. by apply elem_of_map_to_list. }
    rewrite Hf in Hin. by apply elem_of_nil in Hin.
Qed.
