(* ===== verification/Storage.v ===== *)
(** * Storage: pkg/storage/pools.go

    The caches behind the resource pools. A cache is a finite map in the world,
    reached through a lens; [cache.ThreadSafeStore] is such a map, and its locks
    make every call atomic. *)

From S2P Require Import Prelude GoLang GoStrings.

(** ** InMemoryPool *)

Section pools.
Context {W A : Type}.

(** The store of a pool: [ThreadSafeStore] with string keys. *)
Definition InMemoryPool : Type := gmap string A.
Definition ThreadSafeStore_ListKeys (p : InMemoryPool) : list string := (map_to_list p).*1.
Definition InMemoryPool_Snapshot (p : InMemoryPool) : gmap string A :=
  foldl (λ snap key,
    match p !! key with Some item => <[key := item]> snap | None => snap end)
    ∅ (ThreadSafeStore_ListKeys p).
Definition NewInMemoryPool : InMemoryPool := ∅.

(** ** CloudListingPool *)

Record CloudListingPool := MkCloudListingPool {
  clp_store : lens W (gmap string A);
  clp_lister : M W (list A);
  clp_keyGetter : A → error + string;
}.

Definition CloudListingPool_Add (c : CloudListingPool) (key : string) (obj : A) : M W unit :=
  zoom (clp_store c) (modW <[key := obj]>).
Definition CloudListingPool_Delete (c : CloudListingPool) (key : string) : M W unit :=
  zoom (clp_store c) (modW (delete key)).
Definition CloudListingPool_Snapshot (c : CloudListingPool) : M W (gmap string A) :=
  zoom (clp_store c) (getW InMemoryPool_Snapshot).
Definition CloudListingPool_ReplenishPool (c : CloudListingPool) : M W unit :=
  r ← try (clp_lister c);
  match r with
  | inl _ => mret tt
  | inr items =>
      forEach (λ item,
        match clp_keyGetter c item with
        | inl _ => mret tt
        | inr key => zoom (clp_store c) (modW <[key := item]>)
        end) items
  end.

(** The items a listing contributes: the last one listed under each key. *)
Definition replenish (key : A → error + string) (items : list A) (p : gmap string A) : gmap string A :=
  foldl (λ p item, match key item with inl _ => p | inr k => <[k := item]> p end) p items.

Lemma Snapshot_go (p acc : gmap string A) keys k :
  foldl (λ snap key, match p !! key with Some item => <[key := item]> snap | None => snap end)
    acc keys !! k = if decide (k ∈ keys ∧ is_Some (p !! k)) then p !! k else acc !! k.
Proof.
  revert acc. induction keys as [|x keys IH]; intros acc; cbn [foldl].
  { rewrite decide_False; [done|]. intros [H _]. by apply elem_of_nil in H. }
  rewrite IH. destruct (decide (k ∈ keys ∧ is_Some (p !! k))) as [[H1 H2]|Hn].
  - rewrite decide_True; [done|]. split; [by right|done].
  - destruct (decide (k = x)) as [->|Hne].
    + destruct (p !! x) as [v|] eqn:Hx.
      * rewrite lookup_insert_eq, decide_True; [done|]. split; [left|by eexists].
      * rewrite decide_False; [done|]. intros [_ []]. done.
    + rewrite (decide_False (P := k ∈ x :: keys ∧ _)).
      * destruct (p !! x); [by rewrite lookup_insert_ne|done].
      * intros [[?|?]%elem_of_cons ?]; auto.
Qed.

(** A snapshot is the content of the store. *)
Lemma InMemoryPool_Snapshot_id (p : InMemoryPool) : InMemoryPool_Snapshot p = p.
Proof.
  apply map_eq. intros k. unfold InMemoryPool_Snapshot. rewrite Snapshot_go.
  case_decide as Hd; [done|]. rewrite lookup_empty.
  destruct (p !! k) as [v|] eqn:Hk; [|done]. destruct Hd. split; [|by eexists].
  unfold ThreadSafeStore_ListKeys. apply list_elem_of_fmap. exists (k, v).
  split; [done|]. by apply elem_of_map_to_list.
Qed.

Lemma replenish_loop c items w `{!LensLaws (clp_store c)} :
  wp (forEach (λ item, match clp_keyGetter c item with
       | inl _ => mret tt
       | inr key => zoom (clp_store c) (modW <[key := item]>) end) items)
    (λ _ w', w' = lset (clp_store c) (replenish (clp_keyGetter c) items (lget (clp_store c) w)) w)
    (λ _ _, False) w.
Proof.
  apply (wp_forEach _ _ (λ done w',
    w' = lset (clp_store c) (replenish (clp_keyGetter c) done (lget (clp_store c) w)) w)).
  { simpl. by rewrite lens_set_get. }
  intros d x w' _ ->. unfold replenish. rewrite foldl_app. simpl.
  destruct (clp_keyGetter c x); wp_steps; [done|]. by rewrite lens_get_set, lens_set_set.
Qed.

Lemma replenish_unlisted key items p k :
  (∀ i, i ∈ items → key i ≠ inr k) → replenish key items p !! k = p !! k.
Proof.
  induction items as [|i items IH] using rev_ind; intros Hk; [done|].
  unfold replenish. rewrite foldl_app. simpl. fold (replenish key items p).
  pose proof (Hk i ltac:(set_solver)). destruct (key i) as [|k'] eqn:Hi.
  - apply IH. set_solver.
  - rewrite lookup_insert_ne by congruence. apply IH. set_solver.
Qed.
Lemma replenish_listed key items p k i :
  i ∈ items → key i = inr k →
  ∃ v, replenish key items p !! k = Some v ∧ v ∈ items ∧ key v = inr k.
Proof.
  induction items as [|j items IH] using rev_ind; intros Hin Hk; [by apply elem_of_nil in Hin|].
  unfold replenish. rewrite foldl_app. simpl. fold (replenish key items p).
  assert (key j ≠ inr k → i ∈ items) as Hin'.
  { intros Hj. apply elem_of_app in Hin as [?|Hi]; [done|].
    apply list_elem_of_singleton in Hi as ->. done. }
  destruct (key j) as [e|k'] eqn:Hj; [|destruct (decide (k' = k)) as [->|Hne]].
  - destruct IH as (v&Hv&?&?); [by apply Hin'|done|]. exists v. set_solver.
  - exists j. rewrite lookup_insert_eq. set_solver.
  - destruct IH as (v&Hv&?&?); [apply Hin'; congruence|done|].
    exists v. rewrite lookup_insert_ne by congruence. set_solver.
Qed.

(** C35. [ReplenishPool] never returns an error. A failed listing leaves the
    pool as it is; otherwise every listed item that has a key is replaced by a
    listed item of that key, and the entries whose keys are not listed stay:
    nothing is ever removed from the pool. *)
Theorem ReplenishPool_spec c w `{!LensLaws (clp_store c)} :
  (clp_lister c w).1 ≠ Panic →
  wp (CloudListingPool_ReplenishPool c) (λ _ w',
    (∃ e, clp_lister c w = (Err e, w')) ∨
    (∃ items w1, clp_lister c w = (Ok items, w1) ∧
      let p := lget (clp_store c) w1 in
      let p' := lget (clp_store c) w' in
      (∀ k, (∀ i, i ∈ items → clp_keyGetter c i ≠ inr k) → p' !! k = p !! k) ∧
      (∀ i k, i ∈ items → clp_keyGetter c i = inr k →
        ∃ v, p' !! k = Some v ∧ v ∈ items ∧ clp_keyGetter c v = inr k)))
    (λ _ _, False) w.
Proof.
  intros Hp. unfold CloudListingPool_ReplenishPool. apply wp_bind, wp_try. unfold wp at 1.
  destruct (clp_lister c w) as [[items|e|] w1] eqn:Hl; [| |done].
  - wp_use replenish_loop; simpl; [|done]. intros _ w' ->. right.
    exists items, w1. split; [done|]. rewrite lens_get_set.
    split; intros; [by apply replenish_unlisted|by eapply replenish_listed].
  - apply wp_ret. left. by exists e.
Qed.

End pools.
Arguments CloudListingPool : clear implicits.

Lemma ReplenishPool_spec_witness :
  let c := MkCloudListingPool (@lens_id (gmap string string)) (mret ["a"]) (λ s, inr s) in
  wp (CloudListingPool_ReplenishPool c) (λ _ w', w' !! "a" = Some "a" ∧ w' !! "b" = Some "x")
    (λ _ _, False) {["b" := "x"]}.
Proof.
  intros c. eapply wp_mono; [apply (ReplenishPool_spec c {["b" := "x"]}); discriminate| |done].
  intros _ w' [[e He]|(items&w1&Hi&Hu&Hl)]; [discriminate He|]. injection Hi as <- <-.
  split.
  - destruct (Hl "a" "a") as (v&Hv&_&[= ->]); [set_solver|done|exact Hv].
  - transitivity (({["b" := "x"]} : gmap string string) !! "b"); [|reflexivity].
    apply Hu. intros i ->%list_elem_of_singleton. discriminate.
Defined.
