(* ===== verification/ConfigMaps.v ===== *)
(** * ConfigMaps: pkg/storage/configmaps.go

    The vault that keeps the UID of the cluster in a config map, over the
    interface of a store. Two stores implement the interface: the one backed
    by the API server and the in-memory one of the tests. The Kubernetes
    client is an interface of its own, with the behaviour of the API server
    that the code relies on as laws. *)

From S2P Require Import Prelude GoLang GoStrings.

Definition UidDataKey : string := "uid".
Definition ProviderDataKey : string := "provider-uid".

(** [v1.ConfigMap]; [cm_Data = None] is the nil map. *)
Record ConfigMap := MkConfigMap {
  cm_Namespace : string; cm_Name : string; cm_Data : option (gmap string string) }.
(** Reading a nil map finds nothing. *)
Definition cm_get (c : ConfigMap) (key : string) : option string := d ← cm_Data c; d !! key.

(** The methods of [cache.Store] the vault calls. [Delete] takes the interface
    value [item], which is nil when the item was not found. *)
Class ConfigMapStore (W : Type) := {
  cms_GetByKey : string → M W (option ConfigMap);
  cms_Add : ConfigMap → M W unit;
  cms_Update : ConfigMap → M W unit;
  cms_Delete : option ConfigMap → M W unit;
}.

Record ConfigMapVault := MkConfigMapVault { cmv_namespace : string; cmv_name : string }.

(** ** The vault *)

Section vault.
Context {W : Type} `{ConfigMapStore W}.

Definition ConfigMapVault_key (c : ConfigMapVault) : string :=
  cmv_namespace c +:+ "/" +:+ cmv_name c.

(** [None] is [("", false, nil)]. *)
Definition ConfigMapVault_Get (c : ConfigMapVault) (key : string) : M W (option string) :=
  item ← cms_GetByKey (ConfigMapVault_key c);
  mret (i ← item; cm_get i key).

(** The map of the stored object is written in place; writing to a nil map
    panics. *)
Definition ConfigMapVault_Put (c : ConfigMapVault) (key val : string) : M W unit :=
  let cfgMapKey := ConfigMapVault_key c in
  let apiObj := MkConfigMap (cmv_namespace c) (cmv_name c) in
  r ← try (cms_GetByKey cfgMapKey);
  match r with
  | inr (Some item) =>
      if decide (cm_get item key = Some val) then mret tt else
      match cm_Data item with
      | None => panic
      | Some data =>
          u ← try (cms_Update (apiObj (Some (<[key := val]> data))));
          match u with
          | inl err => throw (Errorf "failed to update %v: %v" [cfgMapKey] [err])
          | inr _ => mret tt
          end
      end
  | _ =>
      u ← try (cms_Add (apiObj (Some {[key := val]})));
      match u with
      | inl err => throw (Errorf "failed to add %v: %v" [cfgMapKey] [err])
      | inr _ => mret tt
      end
  end.

Definition ConfigMapVault_Delete (c : ConfigMapVault) : M W unit :=
  r ← try (cms_GetByKey (ConfigMapVault_key c));
  match r with
  | inr item => cms_Delete item
  | inl _ => mret tt
  end.

(** What the vault relies on: [GetByKey] returns the stored object, a write
    that succeeds stores the object and one that fails stores nothing.
    [cms_view] is the object stored under the vault's key. *)
Class ConfigMapStoreLaws (c : ConfigMapVault) := {
  cms_view : W → option ConfigMap;
  cms_GetByKey_spec w :
    wp (cms_GetByKey (ConfigMapVault_key c))
      (λ r w', r = cms_view w ∧ cms_view w' = cms_view w)
      (λ _ w', cms_view w' = cms_view w) w;
  cms_Add_spec d w :
    let o := MkConfigMap (cmv_namespace c) (cmv_name c) d in
    wp (cms_Add o) (λ _ w', cms_view w' = Some o) (λ _ w', cms_view w' = cms_view w) w;
  cms_Update_spec d w :
    let o := MkConfigMap (cmv_namespace c) (cmv_name c) d in
    wp (cms_Update o) (λ _ w', cms_view w' = Some o) (λ _ w', cms_view w' = cms_view w) w;
}.

Section laws.
Context (c : ConfigMapVault) `{!ConfigMapStoreLaws c}.

(** The value the vault holds for a key. *)
Definition vault_value (w : W) (key : string) : option string :=
  item ← cms_view w; cm_get item key.

(** A config map that exists has a data section. *)
Definition has_data (w : W) : Prop := ∀ item, cms_view w = Some item → cm_Data item ≠ None.

(** A successful [Put] keeps the other keys unless the map could not be read, in
    which case it was added anew. *)
Lemma Put_ok key val w :
  has_data w →
  wp (ConfigMapVault_Put c key val)
    (λ _ w', vault_value w' key = Some val ∧ has_data w' ∧
      ((∀ k, k ≠ key → vault_value w' k = vault_value w k) ∨
       ∃ e w1 r, cms_GetByKey (ConfigMapVault_key c) w = (Err e, w1) ∧ cms_view w1 = cms_view w ∧
         cms_Add (MkConfigMap (cmv_namespace c) (cmv_name c) (Some {[key := val]})) w1 = (Ok r, w')))
    (λ _ w', cms_view w' = cms_view w) w.
Proof.
  intros Hd. unfold ConfigMapVault_Put. apply wp_bind, wp_try.
  pose proof (cms_GetByKey_spec w) as Hg. unfold wp in Hg |- * at 1.
  destruct (cms_GetByKey _ w) as [[item|e|] w1]; [|clear Hd|done].
  - destruct Hg as [-> Hv]. destruct (cms_view w) as [item|] eqn:Hw.
    + pose proof (Hd item Hw) as Hdata. case_decide as Hc.
      { apply wp_ret. unfold has_data, vault_value. rewrite Hv, Hw. simpl.
        split_and!; [done|by intros ? [= <-]|by left]. }
      destruct (cm_Data item) as [data|] eqn:Hdi; [|done].
      apply wp_bind, wp_try. wp_use cms_Update_spec; simpl.
      * intros _ w2 Hv2. apply wp_ret. unfold has_data, vault_value, cm_get. rewrite Hv2, Hw. simpl.
        rewrite Hdi. simpl. split_and!; [by rewrite lookup_insert_eq|by intros ? [= <-]|].
        left. intros k Hk. by rewrite lookup_insert_ne.
      * intros e w2 Hv2. apply wp_throw. by rewrite Hv2, Hv.
    + apply wp_bind, wp_try. wp_use cms_Add_spec; simpl.
      * intros _ w2 Hv2. apply wp_ret. unfold has_data, vault_value, cm_get. rewrite Hv2, Hw. simpl.
        split_and!; [by rewrite lookup_singleton_eq|by intros ? [= <-]|].
        left. intros k Hk. by rewrite lookup_singleton_ne.
      * intros e w2 Hv2. apply wp_throw. by rewrite Hv2, Hv.
  - apply wp_bind, wp_try. pose proof (cms_Add_spec (Some {[key := val]}) w1) as Ha. unfold wp in Ha |- * at 1.
    destruct (cms_Add _ w1) as [[r|e2|] w2] eqn:Hadd; [| |done].
    + apply wp_ret. unfold has_data, vault_value, cm_get. rewrite Ha. simpl.
      split_and!; [by rewrite lookup_singleton_eq|by intros ? [= <-]|]. right. by exists e, w1, r.
    + apply wp_throw. by rewrite Ha.
Qed.

(** C34. Insert/lookup of the vault: when [Put] succeeds, the value is stored
    and the other keys of the config map are kept if the map could be read;
    when it fails the config map is unchanged. It does not panic as long as the
    config map, if it exists, has a data section. *)
Theorem Vault_Put_spec key val w :
  (∀ item, cms_view w = Some item → cm_Data item ≠ None) →
  wp (ConfigMapVault_Put c key val)
    (λ _ w', vault_value w' key = Some val ∧
      ((∀ k, k ≠ key → vault_value w' k = vault_value w k) ∨
       ∃ e w1, cms_GetByKey (ConfigMapVault_key c) w = (Err e, w1)))
    (λ _ w', ∀ k, vault_value w' k = vault_value w k) w.
Proof.
  intros Hd. wp_use Put_ok; [done| |].
  - intros _ w' (Hv&_&Hk). split; [done|]. destruct Hk as [?|(e&w1&r&?&_)]; eauto.
  - intros e w' Hv k. unfold vault_value. by rewrite Hv.
Qed.

Lemma ConfigMapVault_Get_spec key w :
  wp (ConfigMapVault_Get c key) (λ r w', r = vault_value w key ∧ cms_view w' = cms_view w)
    (λ _ w', cms_view w' = cms_view w) w.
Proof.
  apply wp_bind. wp_use cms_GetByKey_spec; simpl; [|done].
  intros r w' [-> Hv]. by apply wp_ret.
Qed.

End laws.
End vault.

(** ** The store backed by the API server *)

(** The client calls of the store, and [errors.IsNotFound] on their errors. *)
Class ConfigMapClient (W : Type) := {
  kcm_Create : string → ConfigMap → M W unit;
  kcm_Update : string → ConfigMap → M W unit;
  kcm_Delete : string → string → M W unit;
  kcm_Get : string → string → M W ConfigMap;
  errors_IsNotFound : error → bool;
}.

Section apiserver.
Context {W : Type} `{ConfigMapClient W}.

Definition APIServerConfigMapStore_Add (cfg : ConfigMap) : M W unit :=
  kcm_Create (cm_Namespace cfg) cfg.
Definition APIServerConfigMapStore_Update (cfg : ConfigMap) : M W unit :=
  kcm_Update (cm_Namespace cfg) cfg.
(** The type assertion to a pointer to a config map panics on a nil interface. *)
Definition APIServerConfigMapStore_Delete (obj : option ConfigMap) : M W unit :=
  match obj with
  | None => panic
  | Some cfg => kcm_Delete (cm_Namespace cfg) (cm_Name cfg)
  end.
Definition APIServerConfigMapStore_GetByKey (key : string) : M W (option ConfigMap) :=
  match Split key "/" with
  | [ns; name] =>
      r ← try (kcm_Get ns name);
      match r with
      | inl err => if errors_IsNotFound err then mret None else throw err
      | inr cfg => mret (Some cfg)
      end
  | _ => throw (Errorf "failed to get key %v, unexpecte format, expecting ns/name" [key] [])
  end.

#[global] Instance APIServerConfigMapStore : ConfigMapStore W := {
  cms_GetByKey := APIServerConfigMapStore_GetByKey;
  cms_Add := APIServerConfigMapStore_Add;
  cms_Update := APIServerConfigMapStore_Update;
  cms_Delete := APIServerConfigMapStore_Delete;
}.

(** The API server: objects by namespace and name. A failed call changes
    nothing; [Get] answers not-found exactly when the object does not exist,
    and may fail otherwise. *)
Class ConfigMapClientLaws := {
  kcm_view : W → gmap (string * string) ConfigMap;
  kcm_Get_spec ns name w :
    wp (kcm_Get ns name)
      (λ o w', kcm_view w !! (ns, name) = Some o ∧ kcm_view w' = kcm_view w)
      (λ e w', kcm_view w' = kcm_view w ∧
               (errors_IsNotFound e = true → kcm_view w !! (ns, name) = None)) w;
  kcm_Create_spec ns o w :
    wp (kcm_Create ns o)
      (λ _ w', kcm_view w' = <[(ns, cm_Name o) := o]> (kcm_view w))
      (λ _ w', kcm_view w' = kcm_view w) w;
  kcm_Update_spec ns o w :
    wp (kcm_Update ns o)
      (λ _ w', kcm_view w' = <[(ns, cm_Name o) := o]> (kcm_view w))
      (λ _ w', kcm_view w' = kcm_view w) w;
}.

Section laws.
Context `{!ConfigMapClientLaws}.

Lemma Split_vault_key c :
  lacks "/" (cmv_namespace c) = true → lacks "/" (cmv_name c) = true →
  Split (ConfigMapVault_key c) "/" = [cmv_namespace c; cmv_name c].
Proof.
  intros Hns Hn. unfold ConfigMapVault_key.
  change ("/" +:+ cmv_name c) with (String "/" (cmv_name c)). rewrite Split_app_1.
  by rewrite !Split_no_sep by (by apply lacks_not_contains).
Qed.

(** The API server store implements the interface the vault uses. *)
Definition APIServerConfigMapStoreLaws (c : ConfigMapVault)
  (Hns : lacks "/" (cmv_namespace c) = true) (Hn : lacks "/" (cmv_name c) = true) :
  ConfigMapStoreLaws c.
Proof.
  refine {| cms_view := λ w, kcm_view w !! (cmv_namespace c, cmv_name c) |}.
  - intros w. simpl. unfold APIServerConfigMapStore_GetByKey. rewrite Split_vault_key by done.
    apply wp_bind, wp_try. wp_use kcm_Get_spec; simpl.
    + intros o w' [Ho Hv]. apply wp_ret. by rewrite Hv, Ho.
    + intros e w' [Hv Hnf]. destruct (errors_IsNotFound e); [apply wp_ret|apply wp_throw];
        cbv beta; rewrite Hv; [by rewrite Hnf|done].
  - intros d w o. simpl. wp_use kcm_Create_spec; simpl; intros ? w' ->; [|done].
    apply lookup_insert_eq.
  - intros d w o. simpl. wp_use kcm_Update_spec; simpl; intros ? w' ->; [|done].
    apply lookup_insert_eq.
Defined.

End laws.

(** Two crashes of the vault on the API server store. [Put] writes to the
    nil data map of a config map that exists without data; and [Delete], when
    there is no config map, passes the nil item to the store, whose type
    assertion panics (it was meant to log a warning and return). *)
Theorem Vault_panics `{!ConfigMapClientLaws} c key val w w1 :
  lacks "/" (cmv_namespace c) = true → lacks "/" (cmv_name c) = true →
  (kcm_Get (cmv_namespace c) (cmv_name c) w =
     (Ok (MkConfigMap (cmv_namespace c) (cmv_name c) None), w1) →
   (ConfigMapVault_Put c key val w).1 = Panic) ∧
  (∀ e, kcm_Get (cmv_namespace c) (cmv_name c) w = (Err e, w1) → errors_IsNotFound e = true →
   (ConfigMapVault_Delete c w).1 = Panic).
Proof.
  intros Hns Hn. split.
  - intros Hg. unfold ConfigMapVault_Put. simpl. unfold APIServerConfigMapStore_GetByKey.
    rewrite Split_vault_key by done. unfold try, mbind, M_bind. rewrite Hg. done.
  - intros e Hg He. unfold ConfigMapVault_Delete. simpl. unfold APIServerConfigMapStore_GetByKey.
    rewrite Split_vault_key by done. unfold try, mbind, M_bind. rewrite Hg, He. done.
Qed.

End apiserver.
Arguments ConfigMapClientLaws W {_}.

(** ** The store of NewFakeConfigMapVault *)

(** [cache.NewStore(cache.MetaNamespaceKeyFunc)]: objects by [namespace/name].
    Deleting the nil item is the error of the key function. *)
Definition MetaNamespaceKeyFunc (o : ConfigMap) : string :=
  if decide (cm_Namespace o = "") then cm_Name o
  else cm_Namespace o +:+ "/" +:+ cm_Name o.
Definition cacheStore_put (o : ConfigMap) : M (gmap string ConfigMap) unit :=
  modW <[MetaNamespaceKeyFunc o := o]>.
Definition NewFakeConfigMapVault_store : ConfigMapStore (gmap string ConfigMap) := {|
  cms_GetByKey := λ key, getW (λ m, m !! key);
  cms_Add := cacheStore_put;
  cms_Update := cacheStore_put;
  cms_Delete := λ o,
    match o with
    | None => throw (Errorf "couldn't create key for object" [] [])
    | Some o => modW (delete (MetaNamespaceKeyFunc o))
    end;
|}.
Definition fakeStoreLaws (c : ConfigMapVault) (Hns : cmv_namespace c ≠ "") :
  @ConfigMapStoreLaws _ NewFakeConfigMapVault_store c.
Proof.
  unshelve refine (@Build_ConfigMapStoreLaws _ NewFakeConfigMapVault_store c
    (λ m, m !! ConfigMapVault_key c) _ _ _).
  - intros w. by apply wp_getW.
  - intros d w o. apply wp_modW. unfold MetaNamespaceKeyFunc. simpl.
    rewrite decide_False by done. apply lookup_insert_eq.
  - intros d w o. apply wp_modW. unfold MetaNamespaceKeyFunc. simpl.
    rewrite decide_False by done. apply lookup_insert_eq.
Defined.

Definition kube_system_vault : ConfigMapVault := MkConfigMapVault "kube-system" "ingress-uid".

Lemma Vault_Put_spec_witness :
  let H := NewFakeConfigMapVault_store in
  let L := fakeStoreLaws kube_system_vault ltac:(done) in
  wp (ConfigMapVault_Put kube_system_vault UidDataKey "abc")
    (λ _ w', vault_value kube_system_vault w' UidDataKey = Some "abc")
    (λ _ _, True) ∅.
Proof.
  intros H L. eapply wp_mono; [eapply (Vault_Put_spec kube_system_vault)|..].
  - intros item. intros Hi. discriminate Hi.
  - intros _ w' [Hv _]. exact Hv.
  - done.
Defined.

(** A client over one map, which never fails otherwise than by not-found. *)
Definition notFound : error := GoogleAPIError StatusNotFound "".
Definition fakeConfigMapClient : ConfigMapClient (gmap (string * string) ConfigMap) := {|
  kcm_Create := λ ns o, modW <[(ns, cm_Name o) := o]>;
  kcm_Update := λ ns o, modW <[(ns, cm_Name o) := o]>;
  kcm_Delete := λ ns name, modW (delete (ns, name));
  kcm_Get := λ ns name m,
    match m !! (ns, name) with Some o => (Ok o, m) | None => (Err notFound, m) end;
  errors_IsNotFound := λ e, match e with GoogleAPIError c _ => (c =? 404)%Z | _ => false end;
|}.
Definition fakeConfigMapClientLaws : @ConfigMapClientLaws _ fakeConfigMapClient.
Proof.
  unshelve refine (@Build_ConfigMapClientLaws _ fakeConfigMapClient (λ m, m) _ _ _).
  - intros ns name w. unfold wp. simpl. by destruct (w !! (ns, name)) eqn:E.
  - intros ns o w. by apply wp_modW.
  - intros ns o w. by apply wp_modW.
Defined.

Lemma Vault_panics_witness :
  let H := fakeConfigMapClient in
  (ConfigMapVault_Put kube_system_vault UidDataKey "abc"
    {[("kube-system", "ingress-uid") := MkConfigMap "kube-system" "ingress-uid" None]}).1 = Panic ∧
  (ConfigMapVault_Delete kube_system_vault ∅).1 = Panic.
Proof.
  intros H. pose (L := fakeConfigMapClientLaws). split.
  - eapply (Vault_panics kube_system_vault UidDataKey "abc"); reflexivity.
  - eapply (Vault_panics kube_system_vault "" "" ∅ ∅); reflexivity.
Defined.
