(* ===== verification/HealthChecks.v ===== *)
(** * HealthChecks: pkg/healthchecks/{healthchecks,interfaces,fakes}.go

    The health checker, over the interface of the cloud that stores health
    checks. The conversions between the alpha and the v1 API copy the fields
    both have (the source goes through JSON, whose encoder and decoder for
    these generated types do not fail); v1 has no port specification.

    The methods that change a [*HealthCheck] in place ([merge], [Sync],
    [mergeHealthcheckForNEG]) return the changed value; the pointer does not
    outlive the call in the sources. *)

From S2P Require Import Prelude GoLang GoStrings Compute Utils Namer.

Definition DefaultHealthCheckInterval : Z := 60.
Definition DefaultNEGHealthCheckInterval : Z := 15.
Definition DefaultHealthyThreshold : Z := 1.
Definition DefaultUnhealthyThreshold : Z := 10.
Definition DefaultNEGUnhealthyThreshold : Z := 2.
Definition DefaultTimeout : Z := 60.
Definition DefaultNEGTimeout : Z := 15.
Definition UseServingPortSpecification : string := "USE_SERVING_PORT".

(** ** HealthCheck *)

(** The struct embeds the HTTP settings and the generic health check. *)
Record HealthCheck := MkHealthCheck {
  hck_HTTPHealthCheck : HTTPHealthCheck;
  hck_HealthCheck : AlphaHealthCheck;
  hck_ForNEG : bool;
}.
Definition hck_Name (hc : HealthCheck) : string := hcs_Name (ahc_Settings (hck_HealthCheck hc)).
Definition hck_Type (hc : HealthCheck) : string := hcs_Type (ahc_Settings (hck_HealthCheck hc)).
Definition hck_SelfLink (hc : HealthCheck) : string :=
  hcs_SelfLink (ahc_Settings (hck_HealthCheck hc)).
Definition hck_Port (hc : HealthCheck) : Z := http_Port (hck_HTTPHealthCheck hc).
Definition hck_RequestPath (hc : HealthCheck) : string := http_RequestPath (hck_HTTPHealthCheck hc).
Definition hck_PortSpecification (hc : HealthCheck) : string :=
  http_PortSpecification (hck_HTTPHealthCheck hc).

Definition set_HTTP (f : HTTPHealthCheck → HTTPHealthCheck) (hc : HealthCheck) : HealthCheck :=
  MkHealthCheck (f (hck_HTTPHealthCheck hc)) (hck_HealthCheck hc) (hck_ForNEG hc).
Definition set_Settings (f : HCSettings → HCSettings) (hc : HealthCheck) : HealthCheck :=
  let a := hck_HealthCheck hc in
  MkHealthCheck (hck_HTTPHealthCheck hc)
    (MkAlphaHealthCheck (f (ahc_Settings a)) (ahc_HttpHealthCheck a) (ahc_HttpsHealthCheck a))
    (hck_ForNEG hc).
Definition with_Port (p : Z) (h : HTTPHealthCheck) : HTTPHealthCheck :=
  MkHTTPHealthCheck (http_Host h) p (http_PortSpecification h) (http_RequestPath h).
Definition with_RequestPath (p : string) (h : HTTPHealthCheck) : HTTPHealthCheck :=
  MkHTTPHealthCheck (http_Host h) (http_Port h) (http_PortSpecification h) p.
Definition with_PortSpecification (p : string) (h : HTTPHealthCheck) : HTTPHealthCheck :=
  MkHTTPHealthCheck (http_Host h) (http_Port h) p (http_RequestPath h).
Definition with_Name (n : string) (s : HCSettings) : HCSettings :=
  MkHCSettings n (hcs_Description s) (hcs_CheckIntervalSec s) (hcs_TimeoutSec s)
    (hcs_HealthyThreshold s) (hcs_UnhealthyThreshold s) (hcs_Type s) (hcs_SelfLink s).
Definition with_SelfLink (l : string) (s : HCSettings) : HCSettings :=
  MkHCSettings (hcs_Name s) (hcs_Description s) (hcs_CheckIntervalSec s) (hcs_TimeoutSec s)
    (hcs_HealthyThreshold s) (hcs_UnhealthyThreshold s) (hcs_Type s) l.

Definition DefaultHealthCheck (port : Z) (protocol : string) : HealthCheck :=
  MkHealthCheck
    (MkHTTPHealthCheck "" port "" "")
    (MkAlphaHealthCheck
      (MkHCSettings "" "Default kubernetes L7 Loadbalancing health check."
        DefaultHealthCheckInterval DefaultTimeout DefaultHealthyThreshold
        DefaultUnhealthyThreshold protocol "") None None)
    false.
Definition DefaultNEGHealthCheck (protocol : string) : HealthCheck :=
  MkHealthCheck
    (MkHTTPHealthCheck "" 0 UseServingPortSpecification "")
    (MkAlphaHealthCheck
      (MkHCSettings "" "Default kubernetes L7 Loadbalancing health check for NEG."
        DefaultNEGHealthCheckInterval DefaultNEGTimeout DefaultHealthyThreshold
        DefaultNEGUnhealthyThreshold protocol "") None None)
    true.

(** [None] is the nil dereference of a missing child. *)
Definition NewHealthCheck (hc : AlphaHealthCheck) : option HealthCheck :=
  let bare := MkAlphaHealthCheck (ahc_Settings hc) None None in
  let zero := MkHTTPHealthCheck "" 0 "" "" in
  let type := hcs_Type (ahc_Settings hc) in
  if decide (type = ProtocolHTTP) then
    h ← ahc_HttpHealthCheck hc; Some (MkHealthCheck h bare false)
  else if decide (type = ProtocolHTTPS) then
    h ← ahc_HttpsHealthCheck hc; Some (MkHealthCheck h bare false)
  else Some (MkHealthCheck zero bare false).

Definition HealthCheck_Protocol (hc : HealthCheck) : string := hck_Type hc.

Definition HealthCheck_merge (hc : HealthCheck) : HealthCheck :=
  let s := ahc_Settings (hck_HealthCheck hc) in
  let h := hck_HTTPHealthCheck hc in
  let a :=
    if decide (HealthCheck_Protocol hc = ProtocolHTTP) then MkAlphaHealthCheck s (Some h) None
    else if decide (HealthCheck_Protocol hc = ProtocolHTTPS) then MkAlphaHealthCheck s None (Some h)
    else MkAlphaHealthCheck s None None in
  MkHealthCheck h a (hck_ForNEG hc).

Definition toV1HTTP (h : HTTPHealthCheck) : V1HTTPHealthCheck :=
  MkV1HTTPHealthCheck (http_Host h) (http_Port h) (http_RequestPath h).
Definition toAlphaHTTP (h : V1HTTPHealthCheck) : HTTPHealthCheck :=
  MkHTTPHealthCheck (v1http_Host h) (v1http_Port h) "" (v1http_RequestPath h).
Definition toV1HealthCheck (hc : AlphaHealthCheck) : V1HealthCheck :=
  MkV1HealthCheck (ahc_Settings hc) (toV1HTTP <$> ahc_HttpHealthCheck hc)
    (toV1HTTP <$> ahc_HttpsHealthCheck hc).
Definition toAlphaHealthCheck (hc : V1HealthCheck) : AlphaHealthCheck :=
  MkAlphaHealthCheck (v1hc_Settings hc) (toAlphaHTTP <$> v1hc_HttpHealthCheck hc)
    (toAlphaHTTP <$> v1hc_HttpsHealthCheck hc).

Definition HealthCheck_ToComputeHealthCheck (hc : HealthCheck) : V1HealthCheck :=
  toV1HealthCheck (hck_HealthCheck (HealthCheck_merge hc)).
Definition HealthCheck_ToAlphaComputeHealthCheck (hc : HealthCheck) : AlphaHealthCheck :=
  let hc := if decide (0 < String.length (hck_PortSpecification hc))
            then set_HTTP (with_Port 0) hc else hc in
  hck_HealthCheck (HealthCheck_merge hc).

Definition needToUpdate (old new : HealthCheck) : bool :=
  negb (bool_decide (HealthCheck_Protocol old = HealthCheck_Protocol new)) ||
  negb (bool_decide (hck_PortSpecification old = hck_PortSpecification new)).

Definition mergeHealthcheckForNEG (oldHC newHC : HealthCheck) : HealthCheck :=
  let portSpec := hck_PortSpecification newHC in
  set_HTTP (λ _, with_PortSpecification portSpec (with_Port 0 (hck_HTTPHealthCheck oldHC))) newHC.

(** ** The cloud's interface *)

Class HealthCheckProvider (W : Type) := {
  hcp_CreateHttpHealthCheck : HttpHealthCheck → M W unit;
  hcp_UpdateHttpHealthCheck : HttpHealthCheck → M W unit;
  hcp_DeleteHttpHealthCheck : string → M W unit;
  hcp_GetHttpHealthCheck : string → M W HttpHealthCheck;
  hcp_CreateAlphaHealthCheck : AlphaHealthCheck → M W unit;
  hcp_CreateHealthCheck : V1HealthCheck → M W unit;
  hcp_UpdateAlphaHealthCheck : AlphaHealthCheck → M W unit;
  hcp_UpdateHealthCheck : V1HealthCheck → M W unit;
  hcp_DeleteHealthCheck : string → M W unit;
  hcp_GetAlphaHealthCheck : string → M W AlphaHealthCheck;
  hcp_GetHealthCheck : string → M W V1HealthCheck;
}.

(** ** HealthChecks *)

Record HealthChecks := MkHealthChecks { hcs_defaultPath : string; hcs_namer : Namer }.

Section healthchecks.
Context {W : Type} `{HealthCheckProvider W}.

Definition HealthChecks_New (h : HealthChecks) (port : Z) (protocol : string) (enableNEG : bool) :
    HealthCheck :=
  let hc := if enableNEG then DefaultNEGHealthCheck protocol else DefaultHealthCheck port protocol in
  let hc := set_Settings (with_Name (Namer_Backend (hcs_namer h) port)) hc in
  set_HTTP (with_Port port) hc.

Definition HealthChecks_Get (h : HealthChecks) (port : Z) (alpha : bool) : M W HealthCheck :=
  let name := Namer_Backend (hcs_namer h) port in
  if alpha then
    hc ← hcp_GetAlphaHealthCheck name;
    ofOption (NewHealthCheck hc)
  else
    v1hc ← hcp_GetHealthCheck name;
    ofOption (NewHealthCheck (toAlphaHealthCheck v1hc)).

Definition HealthChecks_create (h : HealthChecks) (hc : HealthCheck) : M W unit :=
  if hck_ForNEG hc then hcp_CreateAlphaHealthCheck (HealthCheck_ToAlphaComputeHealthCheck hc)
  else hcp_CreateHealthCheck (HealthCheck_ToComputeHealthCheck hc).

Definition HealthChecks_update (h : HealthChecks) (oldHC newHC : HealthCheck) : M W unit :=
  if hck_ForNEG newHC then
    hcp_UpdateAlphaHealthCheck
      (HealthCheck_ToAlphaComputeHealthCheck (mergeHealthcheckForNEG oldHC newHC))
  else hcp_UpdateHealthCheck (HealthCheck_ToComputeHealthCheck newHC).

Definition HealthChecks_getHealthCheckLink (h : HealthChecks) (port : Z) : M W string :=
  hc ← HealthChecks_Get h port false;
  mret (hck_SelfLink hc).

(** The default path, when the health check has none. *)
Definition HealthChecks_path (h : HealthChecks) (hc : HealthCheck) : HealthCheck :=
  if decide (hck_RequestPath hc = "") then set_HTTP (with_RequestPath (hcs_defaultPath h)) hc else hc.

Definition HealthChecks_Sync (h : HealthChecks) (hc : HealthCheck) : M W string :=
  let hc := HealthChecks_path h hc in
  let nodePort := hck_Port hc in
  r ← try (HealthChecks_Get h nodePort (hck_ForNEG hc));
  match r with
  | inl err =>
      if negb (IsHTTPErrorCode err StatusNotFound) then throw err else
      _ ← HealthChecks_create h hc;
      HealthChecks_getHealthCheckLink h nodePort
  | inr existingHC =>
      if needToUpdate existingHC hc then
        _ ← HealthChecks_update h existingHC hc;
        mret (hck_SelfLink existingHC)
      else mret (hck_SelfLink existingHC)
  end.

Definition HealthChecks_Delete (h : HealthChecks) (port : Z) : M W unit :=
  hcp_DeleteHealthCheck (Namer_Backend (hcs_namer h) port).
Definition HealthChecks_GetLegacy (h : HealthChecks) (port : Z) : M W HttpHealthCheck :=
  hcp_GetHttpHealthCheck (Namer_Backend (hcs_namer h) port).
Definition HealthChecks_DeleteLegacy (h : HealthChecks) (port : Z) : M W unit :=
  hcp_DeleteHttpHealthCheck (Namer_Backend (hcs_namer h) port).

End healthchecks.

(** The interface the backend pool is written against. *)
Class HealthChecker (W : Type) := {
  hcr_New : Z → string → bool → HealthCheck;
  hcr_Sync : HealthCheck → M W string;
  hcr_Delete : Z → M W unit;
  hcr_Get : Z → bool → M W HealthCheck;
  hcr_GetLegacy : Z → M W HttpHealthCheck;
  hcr_DeleteLegacy : Z → M W unit;
}.
Definition NewHealthChecker {W} `{HealthCheckProvider W} (h : HealthChecks) : HealthChecker W := {|
  hcr_New := HealthChecks_New h;
  hcr_Sync := HealthChecks_Sync h;
  hcr_Delete := HealthChecks_Delete h;
  hcr_Get := HealthChecks_Get h;
  hcr_GetLegacy := HealthChecks_GetLegacy h;
  hcr_DeleteLegacy := HealthChecks_DeleteLegacy h;
|}.

(** ** FakeHealthCheckProvider *)

Record FakeHealthCheckProvider := MkFakeHealthCheckProvider {
  fhc_http : gmap string HttpHealthCheck;
  fhc_generic : gmap string AlphaHealthCheck;
}.
Definition NewFakeHealthCheckProvider : FakeHealthCheckProvider := MkFakeHealthCheckProvider ∅ ∅.
Definition fhc_set_http f (w : FakeHealthCheckProvider) : FakeHealthCheckProvider :=
  MkFakeHealthCheckProvider (f (fhc_http w)) (fhc_generic w).
Definition fhc_set_generic f (w : FakeHealthCheckProvider) : FakeHealthCheckProvider :=
  MkFakeHealthCheckProvider (fhc_http w) (f (fhc_generic w)).

Definition hhc_with_SelfLink (l : string) (h : HttpHealthCheck) : HttpHealthCheck :=
  MkHttpHealthCheck (hhc_Name h) (hhc_Description h) (hhc_CheckIntervalSec h)
    (hhc_HealthyThreshold h) (hhc_Host h) (hhc_Port h) (hhc_RequestPath h) (hhc_TimeoutSec h)
    (hhc_UnhealthyThreshold h) l.

Definition Fake_CreateHttpHealthCheck (hc : HttpHealthCheck) : M FakeHealthCheckProvider unit :=
  let v := hhc_with_SelfLink
    ("https://fake.google.com/compute/httpHealthChecks/" +:+ hhc_Name hc) hc in
  modW (fhc_set_http <[hhc_Name hc := v]>).
Definition Fake_GetHttpHealthCheck (name : string) : M FakeHealthCheckProvider HttpHealthCheck :=
  o ← getW (λ w, fhc_http w !! name);
  match o with Some hc => mret hc | None => throw FakeGoogleAPINotFoundErr end.
Definition Fake_DeleteHttpHealthCheck (name : string) : M FakeHealthCheckProvider unit :=
  o ← getW (λ w, fhc_http w !! name);
  match o with
  | None => throw FakeGoogleAPINotFoundErr
  | Some _ => modW (fhc_set_http (delete name))
  end.
Definition Fake_UpdateHttpHealthCheck (hc : HttpHealthCheck) : M FakeHealthCheckProvider unit :=
  o ← getW (λ w, fhc_http w !! hhc_Name hc);
  match o with
  | None => throw FakeGoogleAPINotFoundErr
  | Some _ => modW (fhc_set_http <[hhc_Name hc := hc]>)
  end.

(** The copy [v] that carries the self link is not what is stored. *)
Definition Fake_CreateHealthCheck (hc : V1HealthCheck) : M FakeHealthCheckProvider unit :=
  let alphaHC := toAlphaHealthCheck hc in
  modW (fhc_set_generic <[hcs_Name (v1hc_Settings hc) := alphaHC]>).
Definition Fake_CreateAlphaHealthCheck (hc : AlphaHealthCheck) : M FakeHealthCheckProvider unit :=
  modW (fhc_set_generic <[hcs_Name (ahc_Settings hc) := hc]>).
Definition Fake_GetHealthCheck (name : string) : M FakeHealthCheckProvider V1HealthCheck :=
  o ← getW (λ w, fhc_generic w !! name);
  match o with Some hc => mret (toV1HealthCheck hc) | None => throw FakeGoogleAPINotFoundErr end.
Definition Fake_GetAlphaHealthCheck (name : string) : M FakeHealthCheckProvider AlphaHealthCheck :=
  o ← getW (λ w, fhc_generic w !! name);
  match o with Some hc => mret hc | None => throw FakeGoogleAPINotFoundErr end.
Definition Fake_DeleteHealthCheck (name : string) : M FakeHealthCheckProvider unit :=
  o ← getW (λ w, fhc_generic w !! name);
  match o with
  | None => throw FakeGoogleAPINotFoundErr
  | Some _ => modW (fhc_set_generic (delete name))
  end.
Definition Fake_UpdateAlphaHealthCheck (hc : AlphaHealthCheck) : M FakeHealthCheckProvider unit :=
  o ← getW (λ w, fhc_generic w !! hcs_Name (ahc_Settings hc));
  match o with
  | None => throw FakeGoogleAPINotFoundErr
  | Some _ => modW (fhc_set_generic <[hcs_Name (ahc_Settings hc) := hc]>)
  end.
Definition Fake_UpdateHealthCheck (hc : V1HealthCheck) : M FakeHealthCheckProvider unit :=
  o ← getW (λ w, fhc_generic w !! hcs_Name (v1hc_Settings hc));
  match o with
  | None => throw FakeGoogleAPINotFoundErr
  | Some _ => modW (fhc_set_generic <[hcs_Name (v1hc_Settings hc) := toAlphaHealthCheck hc]>)
  end.

Global Instance FakeHealthCheckProvider_provider : HealthCheckProvider FakeHealthCheckProvider := {
  hcp_CreateHttpHealthCheck := Fake_CreateHttpHealthCheck;
  hcp_UpdateHttpHealthCheck := Fake_UpdateHttpHealthCheck;
  hcp_DeleteHttpHealthCheck := Fake_DeleteHttpHealthCheck;
  hcp_GetHttpHealthCheck := Fake_GetHttpHealthCheck;
  hcp_CreateAlphaHealthCheck := Fake_CreateAlphaHealthCheck;
  hcp_CreateHealthCheck := Fake_CreateHealthCheck;
  hcp_UpdateAlphaHealthCheck := Fake_UpdateAlphaHealthCheck;
  hcp_UpdateHealthCheck := Fake_UpdateHealthCheck;
  hcp_DeleteHealthCheck := Fake_DeleteHealthCheck;
  hcp_GetAlphaHealthCheck := Fake_GetAlphaHealthCheck;
  hcp_GetHealthCheck := Fake_GetHealthCheck;
}.

(** ** What the cloud promises *)

Definition relink (l : string) (o : AlphaHealthCheck) : AlphaHealthCheck :=
  MkAlphaHealthCheck (with_SelfLink l (ahc_Settings o)) (ahc_HttpHealthCheck o)
    (ahc_HttpsHealthCheck o).

(** The cloud holds the health checks by name. A write that succeeds stores
    the object with a self link of the cloud's choice; a call that fails
    changes nothing; a read answers not-found only for a name it does not
    hold, and may fail in other ways. *)
Class HealthCheckProviderLaws (W : Type) `{HealthCheckProvider W} := {
  hcp_view : W → gmap string AlphaHealthCheck;
  hcp_GetAlpha_spec name w :
    wp (hcp_GetAlphaHealthCheck name)
      (λ o w', hcp_view w !! name = Some o ∧ hcp_view w' = hcp_view w)
      (λ e w', hcp_view w' = hcp_view w ∧
        (IsHTTPErrorCode e StatusNotFound = true → hcp_view w !! name = None)) w;
  hcp_Get_spec name w :
    wp (hcp_GetHealthCheck name)
      (λ v w', ∃ o, hcp_view w !! name = Some o ∧ v = toV1HealthCheck o ∧ hcp_view w' = hcp_view w)
      (λ e w', hcp_view w' = hcp_view w ∧
        (IsHTTPErrorCode e StatusNotFound = true → hcp_view w !! name = None)) w;
  hcp_CreateAlpha_spec o w :
    wp (hcp_CreateAlphaHealthCheck o)
      (λ _ w', ∃ l, hcp_view w' = <[hcs_Name (ahc_Settings o) := relink l o]> (hcp_view w))
      (λ _ w', hcp_view w' = hcp_view w) w;
  hcp_Create_spec v w :
    wp (hcp_CreateHealthCheck v)
      (λ _ w', ∃ l, hcp_view w' =
        <[hcs_Name (v1hc_Settings v) := relink l (toAlphaHealthCheck v)]> (hcp_view w))
      (λ _ w', hcp_view w' = hcp_view w) w;
  hcp_UpdateAlpha_spec o w :
    wp (hcp_UpdateAlphaHealthCheck o)
      (λ _ w', ∃ l, hcp_view w' = <[hcs_Name (ahc_Settings o) := relink l o]> (hcp_view w))
      (λ _ w', hcp_view w' = hcp_view w) w;
  hcp_Update_spec v w :
    wp (hcp_UpdateHealthCheck v)
      (λ _ w', ∃ l, hcp_view w' =
        <[hcs_Name (v1hc_Settings v) := relink l (toAlphaHealthCheck v)]> (hcp_view w))
      (λ _ w', hcp_view w' = hcp_view w) w;
  hcp_Delete_spec name w :
    wp (hcp_DeleteHealthCheck name)
      (λ _ w', hcp_view w' = delete name (hcp_view w))
      (λ _ w', hcp_view w' = hcp_view w) w;
}.

Lemma relink_id o : relink (hcs_SelfLink (ahc_Settings o)) o = o.
Proof. by destruct o as [[] ? ?]. Qed.

(** The fake keeps these promises. *)
Global Instance FakeHealthCheckProvider_laws : HealthCheckProviderLaws FakeHealthCheckProvider.
Proof.
  refine {| hcp_view := fhc_generic |}; intros x w; simpl;
    unfold Fake_GetAlphaHealthCheck, Fake_GetHealthCheck, Fake_CreateAlphaHealthCheck,
      Fake_CreateHealthCheck, Fake_UpdateAlphaHealthCheck, Fake_UpdateHealthCheck,
      Fake_DeleteHealthCheck; wp_auto; eauto.
  all: eexists; by rewrite relink_id.
Defined.

(** ** Sync *)

(** What the health checker sees of a stored health check: v1 reads lose the
    port specification. *)
Definition seen (forNEG : bool) (o : AlphaHealthCheck) : option HealthCheck :=
  if forNEG then NewHealthCheck o else NewHealthCheck (toAlphaHealthCheck (toV1HealthCheck o)).
(** The objects [create] and [update] send. *)
Definition created (hc : HealthCheck) : AlphaHealthCheck :=
  if hck_ForNEG hc then HealthCheck_ToAlphaComputeHealthCheck hc
  else toAlphaHealthCheck (HealthCheck_ToComputeHealthCheck hc).
Definition updated (ex hc : HealthCheck) : AlphaHealthCheck :=
  if hck_ForNEG hc then HealthCheck_ToAlphaComputeHealthCheck (mergeHealthcheckForNEG ex hc)
  else toAlphaHealthCheck (HealthCheck_ToComputeHealthCheck hc).

(** The children a health check of its type must have; GCE refuses others. *)
Definition hc_wf (o : AlphaHealthCheck) : Prop := is_Some (NewHealthCheck o).

Lemma NewHealthCheck_settings o hc :
  NewHealthCheck o = Some hc → ahc_Settings (hck_HealthCheck hc) = ahc_Settings o.
Proof.
  unfold NewHealthCheck. repeat case_decide; [| |by intros [= <-]].
  all: intros (h&_&Hs)%bind_Some; by simplify_eq.
Qed.
Lemma seen_wf b o : hc_wf o → is_Some (seen b o).
Proof.
  unfold hc_wf, seen. destruct b; [done|]. unfold NewHealthCheck. simpl.
  case_decide; [|case_decide]; [| |done]; intros [hc (h&->&_)%bind_Some]; by eexists.
Qed.
Lemma seen_settings b o hc :
  seen b o = Some hc → ahc_Settings (hck_HealthCheck hc) = ahc_Settings o.
Proof. destruct b; intros Hs; apply NewHealthCheck_settings in Hs; done. Qed.

Lemma path_fields h hc :
  ahc_Settings (hck_HealthCheck (HealthChecks_path h hc)) = ahc_Settings (hck_HealthCheck hc) ∧
  hck_ForNEG (HealthChecks_path h hc) = hck_ForNEG hc ∧
  hck_Port (HealthChecks_path h hc) = hck_Port hc ∧
  hck_PortSpecification (HealthChecks_path h hc) = hck_PortSpecification hc.
Proof. unfold HealthChecks_path. by case_decide. Qed.

Lemma path_name h hc : hck_Name (HealthChecks_path h hc) = hck_Name hc.
Proof. destruct (path_fields h hc) as (Hset&_). unfold hck_Name. by rewrite Hset. Qed.

Lemma ToAlpha_settings hc :
  ahc_Settings (HealthCheck_ToAlphaComputeHealthCheck hc) = ahc_Settings (hck_HealthCheck hc).
Proof.
  unfold HealthCheck_ToAlphaComputeHealthCheck, HealthCheck_merge. repeat case_decide; done.
Qed.
Lemma ToCompute_settings hc :
  v1hc_Settings (HealthCheck_ToComputeHealthCheck hc) = ahc_Settings (hck_HealthCheck hc).
Proof.
  unfold HealthCheck_ToComputeHealthCheck, HealthCheck_merge. repeat case_decide; done.
Qed.
Lemma created_settings hc : ahc_Settings (created hc) = ahc_Settings (hck_HealthCheck hc).
Proof.
  unfold created. case_match; [apply ToAlpha_settings|apply ToCompute_settings].
Qed.
Lemma updated_settings ex hc : ahc_Settings (updated ex hc) = ahc_Settings (hck_HealthCheck hc).
Proof.
  unfold updated. case_match; [by rewrite ToAlpha_settings|apply ToCompute_settings].
Qed.

Lemma ToAlpha_wf l hc : hc_wf (relink l (HealthCheck_ToAlphaComputeHealthCheck hc)).
Proof.
  unfold hc_wf, NewHealthCheck, HealthCheck_ToAlphaComputeHealthCheck, HealthCheck_merge,
    HealthCheck_Protocol, hck_Type.
  by repeat (case_decide; simpl in *; try done).
Qed.
Lemma ToCompute_wf l hc : hc_wf (relink l (toAlphaHealthCheck (HealthCheck_ToComputeHealthCheck hc))).
Proof.
  unfold hc_wf, NewHealthCheck, HealthCheck_ToComputeHealthCheck, HealthCheck_merge,
    HealthCheck_Protocol, hck_Type.
  by repeat (case_decide; simpl in *; try done).
Qed.
Lemma created_wf l hc : hc_wf (relink l (created hc)).
Proof. unfold created. case_match; [apply ToAlpha_wf|apply ToCompute_wf]. Qed.

Lemma updated_wf l ex hc : hc_wf (relink l (updated ex hc)).
Proof. unfold updated. case_match; [apply ToAlpha_wf|apply ToCompute_wf]. Qed.

Section sync.
Context {W : Type} `{HealthCheckProviderLaws W} (h : HealthChecks).

Lemma HealthChecks_Get_spec port alpha w :
  let name := Namer_Backend (hcs_namer h) port in
  (∀ o, hcp_view w !! name = Some o → hc_wf o) →
  wp (HealthChecks_Get h port alpha)
    (λ hc w', ∃ o, hcp_view w !! name = Some o ∧ seen alpha o = Some hc ∧ hcp_view w' = hcp_view w)
    (λ e w', hcp_view w' = hcp_view w ∧
      (IsHTTPErrorCode e StatusNotFound = true → hcp_view w !! name = None)) w.
Proof.
  intros name Hwf. unfold HealthChecks_Get. fold name.
  destruct alpha; apply wp_bind; [wp_use hcp_GetAlpha_spec|wp_use hcp_Get_spec]; simpl; try done.
  - intros o w' [Ho Hv]. destruct (seen_wf true o (Hwf _ Ho)) as [hc Hs].
    eapply wp_ofOption; [exact Hs|]. eauto.
  - intros v w' (o&Ho&->&Hv). destruct (seen_wf false o (Hwf _ Ho)) as [hc Hs].
    eapply wp_ofOption; [exact Hs|]. eauto.
Qed.

Lemma hc_create_spec hc w :
  wp (HealthChecks_create h hc)
    (λ _ w', ∃ l, hcp_view w' = <[hck_Name hc := relink l (created hc)]> (hcp_view w))
    (λ _ w', hcp_view w' = hcp_view w) w.
Proof.
  unfold HealthChecks_create, created. destruct (hck_ForNEG hc).
  - wp_use hcp_CreateAlpha_spec; [|done]. cbv beta. by rewrite ToAlpha_settings.
  - wp_use hcp_Create_spec; [|done]. cbv beta. by rewrite ToCompute_settings.
Qed.
Lemma update_spec ex hc w :
  wp (HealthChecks_update h ex hc)
    (λ _ w', ∃ l, hcp_view w' = <[hck_Name hc := relink l (updated ex hc)]> (hcp_view w))
    (λ _ w', hcp_view w' = hcp_view w) w.
Proof.
  unfold HealthChecks_update, updated. destruct (hck_ForNEG hc).
  - wp_use hcp_UpdateAlpha_spec; [|done]. cbv beta. by rewrite ToAlpha_settings.
  - wp_use hcp_Update_spec; [|done]. cbv beta. by rewrite ToCompute_settings.
Qed.

(** The cloud before and after a successful [Sync] of [hc], and the link it
    returns. *)
Definition sync_result (hc : HealthCheck) (v v' : gmap string AlphaHealthCheck) (link : string) : Prop :=
  let hc := HealthChecks_path h hc in
  match v !! hck_Name hc with
  | None => ∃ l, v' = <[hck_Name hc := relink l (created hc)]> v ∧ link = l
  | Some o => link = hcs_SelfLink (ahc_Settings o) ∧
      ∃ ex, seen (hck_ForNEG hc) o = Some ex ∧
        if needToUpdate ex hc then ∃ l, v' = <[hck_Name hc := relink l (updated ex hc)]> v
        else v' = v
  end.

(** After a [Sync] that fails: nothing changed, or the link of a new health
    check could not be read. *)
Definition sync_error (hc : HealthCheck) (v v' : gmap string AlphaHealthCheck) : Prop :=
  v' = v ∨ ∃ l, v' = <[hck_Name hc := relink l (created (HealthChecks_path h hc))]> v.

(** [Sync] on any cloud that keeps the promises. *)
Lemma Sync_ok hc w :
  hck_Name hc = Namer_Backend (hcs_namer h) (hck_Port hc) →
  (∀ o, hcp_view w !! hck_Name hc = Some o → hc_wf o) →
  wp (HealthChecks_Sync h hc)
    (λ link w', sync_result hc (hcp_view w) (hcp_view w') link)
    (λ _ w', sync_error hc (hcp_view w) (hcp_view w')) w.
Proof.
  intros Hname Hwf. destruct (path_fields h hc) as (Hset&_&Hport&_).
  unfold HealthChecks_Sync, sync_result, sync_error.
  pose proof (path_name h hc) as Hn. rewrite Hn. generalize dependent (HealthChecks_path h hc). intros hc' Hset Hport Hn.
  rewrite Hport. apply wp_bind, wp_try. wp_use HealthChecks_Get_spec; rewrite <-?Hname; [done|..].
  - intros ex w1 (o&Ho&Hs&Hv1). rewrite Ho.
    pose proof (seen_settings _ _ _ Hs) as Hex.
    assert (hck_SelfLink ex = hcs_SelfLink (ahc_Settings o)) as Hl
      by (unfold hck_SelfLink; by rewrite Hex).
    destruct (needToUpdate ex hc') eqn:Hneed.
    + apply wp_bind. wp_use update_spec; simpl.
      * intros _ w2 [l Hv2]. apply wp_ret. rewrite Hl. split; [done|]. exists ex.
        split; [done|]. rewrite Hneed. exists l. by rewrite Hv2, Hv1, Hn.
      * intros _ w2 Hv2. left. congruence.
    + apply wp_ret. rewrite Hl. split; [done|]. exists ex. rewrite Hneed. done.
  - intros e w1 [Hv1 Hnf]. destruct (IsHTTPErrorCode e StatusNotFound); simpl.
    + rewrite Hnf by done. apply wp_bind. wp_use hc_create_spec; simpl.
      * intros _ w2 [l Hv2]. rewrite Hn, Hv1 in Hv2. apply wp_bind.
        wp_use HealthChecks_Get_spec; rewrite <-?Hname, Hv2.
        -- intros o. rewrite lookup_insert_eq. intros [= <-]. apply created_wf.
        -- intros ex w3 (o&Ho&Hs&Hv3). rewrite lookup_insert_eq in Ho. injection Ho as <-.
           apply wp_ret. exists l. split; [by rewrite Hv3|].
           unfold hck_SelfLink. by rewrite (seen_settings _ _ _ Hs).
        -- simpl. intros e2 w3 [Hv3 _]. right. eauto.
      * intros e2 w2 Hv2. left. congruence.
    + apply wp_throw. by left.
Qed.

End sync.

(** The HTTP settings a stored health check carries, whichever its type. *)
Definition http_settings (o : AlphaHealthCheck) : option HTTPHealthCheck :=
  if decide (hcs_Type (ahc_Settings o) = ProtocolHTTP) then ahc_HttpHealthCheck o
  else ahc_HttpsHealthCheck o.
Definition http_type (t : string) : Prop := t = ProtocolHTTP ∨ t = ProtocolHTTPS.
(** A stored health check serves what the backend pool asked for. *)
Definition serves (hc : HealthCheck) (o : AlphaHealthCheck) : Prop :=
  hcs_Name (ahc_Settings o) = hck_Name hc ∧
  hcs_Type (ahc_Settings o) = hck_Type hc ∧
  ∃ s, http_settings o = Some s ∧
    (hck_ForNEG hc = true → http_PortSpecification s = hck_PortSpecification hc).

Lemma seen_http b o ex :
  http_type (hcs_Type (ahc_Settings o)) → seen b o = Some ex →
  ∃ s, http_settings o = Some s ∧
    hck_HTTPHealthCheck ex = (if b then s else toAlphaHTTP (toV1HTTP s)).
Proof.
  intros Ht. unfold seen, http_settings. destruct b; unfold NewHealthCheck; simpl.
  all: case_decide; [|rewrite decide_True by (by destruct Ht)].
  all: intros (s&Hs&[= <-])%bind_Some; simpl; eauto.
  all: rewrite !fmap_Some in Hs; destruct Hs as (t&(s'&->&->)%fmap_Some&->); eauto.
Qed.
Lemma merge_http hc :
  http_type (hck_Type hc) →
  http_settings (hck_HealthCheck (HealthCheck_merge hc)) = Some (hck_HTTPHealthCheck hc).
Proof.
  intros Ht. unfold HealthCheck_merge, HealthCheck_Protocol, http_settings.
  destruct (decide (hck_Type hc = ProtocolHTTP)) as [H1|H1]; simpl; [by rewrite decide_True|].
  destruct Ht as [|Ht]; [done|]. rewrite (decide_True (P := hck_Type hc = ProtocolHTTPS)) by done.
  simpl. by rewrite decide_False.
Qed.
Lemma v1_http o : http_settings (toAlphaHealthCheck (toV1HealthCheck o)) =
  (λ s, toAlphaHTTP (toV1HTTP s)) <$> http_settings o.
Proof.
  unfold http_settings. simpl.
  case_decide; [by destruct (ahc_HttpHealthCheck o)|by destruct (ahc_HttpsHealthCheck o)].
Qed.

Lemma ToAlpha_serves l hc hc' :
  ahc_Settings (hck_HealthCheck hc') = ahc_Settings (hck_HealthCheck hc) →
  hck_PortSpecification hc' = hck_PortSpecification hc → http_type (hck_Type hc) →
  serves hc (relink l (HealthCheck_ToAlphaComputeHealthCheck hc')).
Proof.
  intros Hs Hp Ht. unfold serves. change (http_settings (relink l ?o)) with (http_settings o).
  simpl ahc_Settings. rewrite ToAlpha_settings, Hs. split; [done|]. split; [done|].
  unfold HealthCheck_ToAlphaComputeHealthCheck.
  rewrite merge_http by (case_decide; unfold hck_Type; simpl; by rewrite Hs).
  eexists. split; [done|]. case_decide; by rewrite <-Hp.
Qed.
Lemma ToCompute_serves l hc hc' :
  ahc_Settings (hck_HealthCheck hc') = ahc_Settings (hck_HealthCheck hc) →
  hck_ForNEG hc = false → http_type (hck_Type hc) →
  serves hc (relink l (toAlphaHealthCheck (HealthCheck_ToComputeHealthCheck hc'))).
Proof.
  intros Hs Hn Ht. unfold serves. change (http_settings (relink l ?o)) with (http_settings o).
  unfold HealthCheck_ToComputeHealthCheck. rewrite v1_http.
  rewrite merge_http by (unfold hck_Type; by rewrite Hs).
  change (ahc_Settings (relink l (toAlphaHealthCheck (toV1HealthCheck ?o))))
    with (with_SelfLink l (ahc_Settings o)).
  assert (ahc_Settings (hck_HealthCheck (HealthCheck_merge hc')) =
    ahc_Settings (hck_HealthCheck hc)) as -> by (rewrite <-Hs; exact (ToCompute_settings hc')). split; [done|]. split; [done|]. eexists. split; [done|]. congruence.
Qed.

Section sync_theorems.
Context {W : Type} `{HealthCheckProviderLaws W} (h : HealthChecks) (hc : HealthCheck) (w : W).
Hypothesis Hname : hck_Name hc = Namer_Backend (hcs_namer h) (hck_Port hc).
Hypothesis Htype : http_type (hck_Type hc).
Hypothesis Hwf : ∀ o, hcp_view w !! hck_Name hc = Some o →
  hc_wf o ∧ hcs_Name (ahc_Settings o) = hck_Name hc.

Lemma sync_result_serves v v' link :
  (∀ o, v !! hck_Name hc = Some o → hc_wf o ∧ hcs_Name (ahc_Settings o) = hck_Name hc) →
  sync_result h hc v v' link → ∃ o, v' !! hck_Name hc = Some o ∧ serves hc o.
Proof.
  intros Hv. destruct (path_fields h hc) as (Hset&Hneg&_&Hspec). unfold sync_result.
  rewrite path_name, Hneg. destruct (v !! hck_Name hc) as [o|] eqn:Ho.
  - intros [_ (ex&Hs&Hc)]. destruct (needToUpdate ex _) eqn:Hneed.
    + destruct Hc as [l ->]. rewrite lookup_insert_eq. eexists. split; [done|].
      unfold updated. rewrite Hneg. destruct (hck_ForNEG hc) eqn:Hf.
      * apply ToAlpha_serves; [done| |done]. by rewrite <-Hspec.
      * by apply ToCompute_serves.
    + subst v'. exists o. split; [done|]. destruct (Hv o eq_refl) as [_ Hon].
      apply orb_false_iff in Hneed as [H1 H2].
      apply negb_false_iff, bool_decide_eq_true in H1, H2.
      unfold HealthCheck_Protocol, hck_Type in H1. rewrite (seen_settings _ _ _ Hs), Hset in H1.
      destruct (seen_http _ _ _ ltac:(by rewrite H1) Hs) as (s&Hh&Hx).
      split; [done|]. split; [done|]. exists s. split; [done|]. intros Hf.
      rewrite Hf in Hx. rewrite <-Hspec, <-H2. unfold hck_PortSpecification. by rewrite Hx.
  - intros (l&->&_). rewrite lookup_insert_eq. eexists. split; [done|].
    unfold created. rewrite Hneg. destruct (hck_ForNEG hc) eqn:Hf.
    + by apply ToAlpha_serves.
    + by apply ToCompute_serves.
Qed.

Lemma sync_result_frame v v' link k :
  k ≠ hck_Name hc → sync_result h hc v v' link → v' !! k = v !! k.
Proof.
  intros Hk. unfold sync_result. rewrite path_name. case_match.
  - intros [_ (ex&_&Hr)]. case_match; [destruct Hr as [l ->]|by subst].
    by rewrite lookup_insert_ne.
  - intros (l&->&_). by rewrite lookup_insert_ne.
Qed.

(** A health check that serves is left alone. *)
Lemma sync_result_stable v v' link :
  (∃ o, v !! hck_Name hc = Some o ∧ serves hc o) →
  (hck_ForNEG hc = false → hck_PortSpecification hc = "") →
  sync_result h hc v v' link → v' = v.
Proof.
  intros (o&Ho&_&Hst&s&Hs&Hsp) Hig. destruct (path_fields h hc) as (Hset&Hneg&_&Hspec).
  unfold sync_result.
  rewrite path_name, Ho, Hneg. intros [_ (ex&Hex&Hc)].
  destruct (seen_http _ _ _ ltac:(by rewrite Hst) Hex) as (s'&Hs'&Hx). simplify_eq.
  assert (needToUpdate ex (HealthChecks_path h hc) = false) as Hn; [|by rewrite Hn in Hc].
  apply orb_false_iff. rewrite !negb_false_iff, !bool_decide_eq_true. split.
  - unfold HealthCheck_Protocol, hck_Type. by rewrite (seen_settings _ _ _ Hex), Hset.
  - rewrite Hspec. unfold hck_PortSpecification at 1. rewrite Hx.
    destruct (hck_ForNEG hc); [auto|]. by rewrite Hig.
Qed.

(** C17. [Sync] of an HTTP or HTTPS health check, on any cloud that keeps the
    promises of [HealthCheckProviderLaws]: when it succeeds, the cloud holds a
    health check of the given name and protocol, with the requested port
    specification in NEG mode; an existing check that already serves is not
    written to at all; the other health checks are untouched even if the call
    fails. In instance group mode the port specification is not reconciled. *)
Theorem Sync_spec :
  (hck_ForNEG hc = false → hck_PortSpecification hc = "") →
  wp (HealthChecks_Sync h hc)
    (λ link w',
      (∃ o, hcp_view w' !! hck_Name hc = Some o ∧ serves hc o) ∧
      (∀ o, hcp_view w !! hck_Name hc = Some o → link = hcs_SelfLink (ahc_Settings o)) ∧
      (∀ o, hcp_view w !! hck_Name hc = Some o → serves hc o → hcp_view w' = hcp_view w) ∧
      (∀ k, k ≠ hck_Name hc → hcp_view w' !! k = hcp_view w !! k))
    (λ _ w', ∀ k, k ≠ hck_Name hc → hcp_view w' !! k = hcp_view w !! k) w.
Proof.
  intros Hig. wp_use Sync_ok; [exact Hname|by intros o [? _]%Hwf| |].
  2: { intros e w' [-> | [l ->]] k Hk; [done|by rewrite lookup_insert_ne]. }
  intros link w' Hr. split_and!.
  - eapply sync_result_serves; [exact Hwf|exact Hr].
  - intros o Ho. unfold sync_result in Hr. rewrite path_name, Ho in Hr. by destruct Hr.
  - intros o Ho Hs. eapply sync_result_stable; [by exists o|done|exact Hr].
  - intros k Hk. eapply sync_result_frame; [exact Hk|exact Hr].
Qed.

End sync_theorems.

(** ** The type of what is stored *)

Section typed.
Context {W : Type} `{HealthCheckProviderLaws W} (h : HealthChecks).

(** Every health check is stored under its name and has the child of its type:
    the HTTP settings that [NewHealthCheck] dereferences. *)
Definition hc_typed (v : gmap string AlphaHealthCheck) : Prop :=
  ∀ n o, v !! n = Some o → hc_wf o ∧ hcs_Name (ahc_Settings o) = n.

(** The calls of a client; their errors are up to the client. *)
Inductive hc_call :=
  | CallSync (hc : HealthCheck)
  | CallGet (port : Z) (alpha : bool)
  | CallDelete (port : Z).
Definition hc_run (c : hc_call) : M W unit :=
  match c with
  | CallSync hc => _ ← try (HealthChecks_Sync h hc); mret tt
  | CallGet port alpha => _ ← try (HealthChecks_Get h port alpha); mret tt
  | CallDelete port => _ ← try (HealthChecks_Delete h port); mret tt
  end.
(** The health checks clients sync are made by [New]. *)
Definition hc_call_ok (c : hc_call) : Prop :=
  match c with CallSync hc => hck_Name hc = Namer_Backend (hcs_namer h) (hck_Port hc) | _ => True end.

Lemma hc_typed_insert v n o : hc_typed v → hc_wf o → hcs_Name (ahc_Settings o) = n → hc_typed (<[n := o]> v).
Proof. intros Hv ?? n' o' [[<- <-]|[_ ?]]%lookup_insert_Some; auto. Qed.
Lemma created_typed v hc l : hc_typed v → hc_typed (<[hck_Name hc := relink l (created (HealthChecks_path h hc))]> v).
Proof.
  intros Hv. apply hc_typed_insert; [done|apply created_wf|]. simpl. rewrite created_settings. apply path_name.
Qed.
Lemma sync_result_typed hc v v' link : hc_typed v → sync_result h hc v v' link → hc_typed v'.
Proof.
  intros Hv. unfold sync_result. rewrite path_name. case_match.
  - intros [_ (ex&_&Hr)]. case_match; [|by subst]. destruct Hr as [l ->].
    apply hc_typed_insert; [done|apply updated_wf|]. simpl. rewrite updated_settings. apply path_name.
  - intros (l&->&_). by apply created_typed.
Qed.

(** C18. Types of health checks: on a cloud where every health check has the
    child that its type asks for and is stored under its name, this stays so
    whatever calls of the health checker follow and however they end; and none
    of them dereferences a missing child. *)
Theorem health_checks_typed calls w :
  hc_typed (hcp_view w) → Forall hc_call_ok calls →
  wp (forEach hc_run calls) (λ _ w', hc_typed (hcp_view w')) (λ _ _, False) w.
Proof.
  intros Hw Hcalls. apply (wp_forEach_inv _ _ (λ w', hc_typed (hcp_view w')) (λ _ _, False)); [done|].
  intros c w1 Hc Hw1. rewrite Forall_forall in Hcalls. specialize (Hcalls c Hc).
  destruct c as [hc|port alpha|port]; apply wp_bind, wp_try.
  - wp_use (Sync_ok h); [done|by intros o [? _]%Hw1|..]; cbv beta; intros; apply wp_ret.
    + by eapply sync_result_typed.
    + match goal with He : sync_error _ _ _ _ |- _ => destruct He as [-> | [l ->]] end; [done|by apply created_typed].
  - wp_use (HealthChecks_Get_spec h); [by intros o [? _]%Hw1|..]; cbv beta.
    + intros hc w2 (o&_&_&Hv). apply wp_ret. by rewrite Hv.
    + intros e w2 [Hv _]. apply wp_ret. by rewrite Hv.
  - wp_use hcp_Delete_spec; cbv beta; intros ? w2 Hv; apply wp_ret; rewrite Hv; [|done].
    intros n o [_ ?]%lookup_delete_Some. auto.
Qed.
End typed.

Definition hc_example : HealthChecks := MkHealthChecks "/" (NewNamer "uid1" "").

Lemma Sync_spec_witness :
  wp (HealthChecks_Sync hc_example (HealthChecks_New hc_example 80 ProtocolHTTP true))
    (λ link w', ∃ o, fhc_generic w' !! "k8s-be-80--uid1" = Some o ∧
      serves (HealthChecks_New hc_example 80 ProtocolHTTP true) o)
    (λ _ _, True) NewFakeHealthCheckProvider.
Proof.
  eapply wp_mono; [eapply (Sync_spec hc_example (HealthChecks_New hc_example 80 ProtocolHTTP true)
    NewFakeHealthCheckProvider)|..].
  - reflexivity.
  - by left.
  - intros o Ho. discriminate Ho.
  - discriminate.
  - intros link w' [Ho _]. exact Ho.
  - done.
Defined.

(** A check is created, changed to network endpoint groups, read and deleted. *)
Definition hc_calls : list hc_call :=
  [CallSync (HealthChecks_New hc_example 80 ProtocolHTTP false); CallSync (HealthChecks_New hc_example 80 ProtocolHTTPS true);
   CallGet 80 true; CallDelete 81].
Lemma health_checks_typed_witness :
  wp (forEach (hc_run hc_example) hc_calls)
    (λ _ w', hc_typed (fhc_generic w')) (λ _ _, False) NewFakeHealthCheckProvider.
Proof.
  refine (health_checks_typed hc_example hc_calls NewFakeHealthCheckProvider _ _).
  - intros n o Ho. discriminate Ho.
  - by repeat constructor.
Defined.
