(* ===== verification/Instances.v ===== *)
(** * Instances: pkg/instances/{instances,interfaces,fakes}.go

    The node pool: one instance group per zone, with the named ports of the
    backends, whose members follow the nodes of the cluster. *)

From S2P Require Import Prelude GoLang GoStrings Compute Utils Namer.

Definition allInstances : string := "ALL".

(** ** Interfaces *)

(** An [InstanceReference] is the URL of the instance, and a listing is the
    list of the members' URLs. *)
Class InstanceGroups (W : Type) := {
  igs_GetInstanceGroup : string → string → M W InstanceGroup;
  igs_CreateInstanceGroup : InstanceGroup → string → M W unit;
  igs_DeleteInstanceGroup : string → string → M W unit;
  igs_ListInstancesInInstanceGroup : string → string → string → M W (list string);
  igs_AddInstancesToInstanceGroup : string → string → list string → M W unit;
  igs_RemoveInstancesFromInstanceGroup : string → string → list string → M W unit;
  igs_ToInstanceReferences : string → list string → list string;
  igs_SetNamedPortsOfInstanceGroup : string → string → list NamedPort → M W unit;
}.
Class ZoneLister (W : Type) := {
  zl_ListZones : M W (list string);
  zl_GetZoneForNode : string → M W string;
}.

(** ** The pool *)

Record Instances (W : Type) := MkInstances {
  ins_snapshotter : lens W (gmap string unit);
  ins_namer : Namer;
}.
Arguments MkInstances {W} _ _.
Arguments ins_snapshotter {W} _.
Arguments ins_namer {W} _.

Section instances.
Context {W : Type} `{InstanceGroups W, ZoneLister W, MapRange}.
Implicit Types i : Instances W.

Definition snapshotter_Add i (name : string) : M W unit :=
  zoom (ins_snapshotter i) (modW <[name := tt]>).

Definition Instances_Get i (name zone : string) : M W InstanceGroup :=
  ig ← igs_GetInstanceGroup name zone;
  _ ← snapshotter_Add i name;
  mret ig.

(** The ports of [ports] that no named port has, as named ports. *)
Definition newNamedPorts i (existing : list NamedPort) (ports : list Z) : list NamedPort :=
  let existingPorts := np_Port <$> existing in
  let newPorts := filter (λ p, p ∉ existingPorts) ports in
  (λ port, MkNamedPort (Namer_NamedPort (ins_namer i) port) port) <$> newPorts.

(** The end of [ensureInstanceGroupAndPorts]: add the missing ports. *)
Definition Instances_addPorts i (zone : string) (ports : list Z) (ig : InstanceGroup) :
    M W InstanceGroup :=
  let newNamedPorts := newNamedPorts i (ig_NamedPorts ig) ports in
  _ ← (if decide (0 < length newNamedPorts)
       then igs_SetNamedPortsOfInstanceGroup (ig_Name ig) zone (ig_NamedPorts ig ++ newNamedPorts)
       else mret tt);
  mret ig.

Definition Instances_ensureInstanceGroupAndPorts i (name zone : string) (ports : list Z) :
    M W InstanceGroup :=
  r ← try (Instances_Get i name zone);
  ig ← match r with
       | inr ig => mret ig
       | inl err =>
           if negb (IsHTTPErrorCode err StatusNotFound) then throw err else
           c ← try (igs_CreateInstanceGroup (MkInstanceGroup name "" "" []) zone);
           _ ← match c with
               | inl err => if IsHTTPErrorCode err StatusConflict then mret tt else throw err
               | inr _ => mret tt
               end;
           igs_GetInstanceGroup name zone
       end;
  Instances_addPorts i zone ports ig.

Definition Instances_EnsureInstanceGroupsAndPorts i (name : string) (ports : list Z) :
    M W (list InstanceGroup) :=
  zones ← zl_ListZones;
  defer (λ w, lset (ins_snapshotter i) (<[name := tt]> (lget (ins_snapshotter i) w)) w)
    (forCollect (λ zone, Instances_ensureInstanceGroupAndPorts i name zone ports) zones).

Definition Instances_DeleteInstanceGroup i (name : string) : M W unit :=
  defer (λ w, lset (ins_snapshotter i) (delete name (lget (ins_snapshotter i) w)) w) (
    zones ← zl_ListZones;
    errs ← forErrs (λ zone,
      r ← try (igs_DeleteInstanceGroup name zone);
      match r with
      | inl err =>
          if IsNotFoundError err then mret tt
          else if IsInUsedByError err then mret tt
          else throw err
      | inr _ => mret tt
      end) zones;
    match errs with [] => mret tt | _ => throw (Errorf "%v" [] errs) end).

(** The names of all members in all zones. *)
Fixpoint Instances_list_go (name : string) (zones : list string) (nodeNames : gset string) :
    M W (gset string) :=
  match zones with
  | [] => mret nodeNames
  | zone :: zones =>
      instances ← igs_ListInstancesInInstanceGroup name zone allInstances;
      Instances_list_go name zones (nodeNames ∪ list_to_set (last_component <$> instances))
  end.
Definition Instances_list i (name : string) : M W (gset string) :=
  zones ← zl_ListZones;
  Instances_list_go name zones ∅.

(** A node whose zone is unknown is skipped. *)
Fixpoint splitNodesByZone_go (names : list string) (nodesByZone : gmap string (list string)) :
    M W (gmap string (list string)) :=
  match names with
  | [] => mret nodesByZone
  | name :: names =>
      r ← try (zl_GetZoneForNode name);
      match r with
      | inl _ => splitNodesByZone_go names nodesByZone
      | inr zone =>
          splitNodesByZone_go names
            (<[zone := default [] (nodesByZone !! zone) ++ [name]]> nodesByZone)
      end
  end.
Definition Instances_splitNodesByZone i (names : list string) : M W (gmap string (list string)) :=
  splitNodesByZone_go names ∅.

Definition Instances_Add i (groupName : string) (names : list string) : M W unit :=
  nodesByZone ← Instances_splitNodesByZone i names;
  errs ← forErrs (λ '(zone, nodeNames),
    igs_AddInstancesToInstanceGroup groupName zone (igs_ToInstanceReferences zone nodeNames))
    (range nodesByZone);
  match errs with [] => mret tt | _ => throw (Errorf "%v" [] errs) end.

Definition Instances_Remove i (groupName : string) (names : list string) : M W unit :=
  nodesByZone ← Instances_splitNodesByZone i names;
  errs ← forErrs (λ '(zone, nodeNames),
    igs_RemoveInstancesFromInstanceGroup groupName zone (igs_ToInstanceReferences zone nodeNames))
    (range nodesByZone);
  match errs with [] => mret tt | _ => throw (Errorf "%v" [] errs) end.

(** The body of the loop of [Sync], for one instance group of the pool. *)
Definition Instances_syncGroup i (nodes : list string) (igName : string) : M W unit :=
  gceNodes ← Instances_list i igName;
  let kubeNodes : gset string := list_to_set nodes in
  let removeNodes := sets_List (gceNodes ∖ kubeNodes) in
  let addNodes := sets_List (kubeNodes ∖ gceNodes) in
  _ ← (if decide (length removeNodes ≠ 0) then Instances_Remove i igName removeNodes else mret tt);
  if decide (length addNodes ≠ 0) then Instances_Add i igName addNodes else mret tt.

(** The deferred function turns a not-found error into success. *)
Definition Instances_Sync i (nodes : list string) : M W unit :=
  pool ← getW (lget (ins_snapshotter i));
  err ← try (forEach (λ kv, Instances_syncGroup i nodes kv.1) (range pool));
  match err with
  | inl e => if IsHTTPErrorCode e StatusNotFound then mret tt else throw e
  | inr _ => mret tt
  end.

End instances.

(** The interface of the node pool that the backend pool and the cluster
    manager use ([Init] fixes the zone lister). *)
Class NodePool (W : Type) := {
  nop_EnsureInstanceGroupsAndPorts : string → list Z → M W (list InstanceGroup);
  nop_DeleteInstanceGroup : string → M W unit;
  nop_Add : string → list string → M W unit;
  nop_Remove : string → list string → M W unit;
  nop_Sync : list string → M W unit;
  nop_Get : string → string → M W InstanceGroup;
}.
Definition NewNodePool {W} `{InstanceGroups W, ZoneLister W, MapRange} (i : Instances W) :
    NodePool W := {|
  nop_EnsureInstanceGroupsAndPorts := Instances_EnsureInstanceGroupsAndPorts i;
  nop_DeleteInstanceGroup := Instances_DeleteInstanceGroup i;
  nop_Add := Instances_Add i;
  nop_Remove := Instances_Remove i;
  nop_Sync := Instances_Sync i;
  nop_Get := Instances_Get i;
|}.

(** ** The fakes *)

(** [FakeZoneLister]: a constant list; indexing an empty list panics. *)
Definition FakeZoneLister {W} (zones : list string) : ZoneLister W := {|
  zl_ListZones := mret zones;
  zl_GetZoneForNode := λ _, ofOption (zones !! 0);
|}.

Record FakeInstanceGroups := MkFakeInstanceGroups {
  fig_instances : gset string;
  fig_instanceGroups : list InstanceGroup;
  fig_listResult : list string;
  fig_calls : list PoolOp;
  fig_zonesToInstances : gmap string (list string);
}.

Definition getInstanceUrl (instanceName : string) : string :=
  "https://www.googleapis.com/compute/v1/projects/project/zones/zone/instances/" +:+ instanceName.
Definition getInstanceList (nodeNames : gset string) : list string :=
  getInstanceUrl <$> sets_List nodeNames.
Definition toInstanceNames (instanceRefs : list string) : list string :=
  last_component <$> instanceRefs.
Definition NewFakeInstanceGroups (nodes : gset string) : FakeInstanceGroups :=
  MkFakeInstanceGroups nodes [] (getInstanceList nodes) [] ∅.

Definition fig_call (op : PoolOp) (f : FakeInstanceGroups) : FakeInstanceGroups :=
  MkFakeInstanceGroups (fig_instances f) (fig_instanceGroups f) (fig_listResult f)
    (fig_calls f ++ [op]) (fig_zonesToInstances f).
Definition fig_set_groups (l : list InstanceGroup) (f : FakeInstanceGroups) : FakeInstanceGroups :=
  MkFakeInstanceGroups (fig_instances f) l (fig_listResult f) (fig_calls f) (fig_zonesToInstances f).
Definition fig_set_members (s : gset string) (z : gmap string (list string))
    (f : FakeInstanceGroups) : FakeInstanceGroups :=
  MkFakeInstanceGroups s (fig_instanceGroups f) (fig_listResult f) (fig_calls f) z.

Definition ig_is (name zone : string) (ig : InstanceGroup) : Prop :=
  ig_Name ig = name ∧ ig_Zone ig = zone.
Global Instance ig_is_dec name zone ig : Decision (ig_is name zone ig).
Proof. unfold ig_is. apply _. Defined.
(** The first group with the given name and zone. *)
Fixpoint find_ig (name zone : string) (l : list InstanceGroup) : option InstanceGroup :=
  match l with
  | [] => None
  | ig :: l => if decide (ig_is name zone ig) then Some ig else find_ig name zone l
  end.
(** Write through the pointer to the first such group. *)
Fixpoint alter_ig (g : InstanceGroup → InstanceGroup) (name zone : string)
    (l : list InstanceGroup) : list InstanceGroup :=
  match l with
  | [] => []
  | ig :: l => if decide (ig_is name zone ig) then g ig :: l else ig :: alter_ig g name zone l
  end.

Definition FakeIG_GetInstanceGroup (name zone : string) : M FakeInstanceGroups InstanceGroup :=
  _ ← modW (fig_call Op_Get);
  groups ← getW fig_instanceGroups;
  match find_ig name zone groups with
  | Some ig => mret ig
  | None => throw FakeGoogleAPINotFoundErr
  end.
Definition FakeIG_CreateInstanceGroup (ig : InstanceGroup) (zone : string) : M FakeInstanceGroups unit :=
  let ig := MkInstanceGroup (ig_Name ig) zone (ig_Name ig) (ig_NamedPorts ig) in
  modW (λ f, fig_set_groups (fig_instanceGroups f ++ [ig]) f).
(** The zone is not looked at. *)
Definition FakeIG_DeleteInstanceGroup (name zone : string) : M FakeInstanceGroups unit :=
  groups ← getW fig_instanceGroups;
  let newGroups := filter (λ ig, ig_Name ig ≠ name) groups in
  let found := bool_decide (Exists (λ ig, ig_Name ig = name) groups) in
  if found then modW (fig_set_groups newGroups)
  else throw (Errorf "instance group %v not found" [name] []).
Definition FakeIG_ListInstancesInInstanceGroup (name zone state : string) :
    M FakeInstanceGroups (list string) := getW fig_listResult.
Definition FakeIG_AddInstancesToInstanceGroup (name zone : string) (refs : list string) :
    M FakeInstanceGroups unit :=
  let names := toInstanceNames refs in
  _ ← modW (fig_call Op_AddInstances);
  modW (λ f, fig_set_members (fig_instances f ∪ list_to_set names)
    (<[zone := default [] (fig_zonesToInstances f !! zone) ++ names]> (fig_zonesToInstances f)) f).
Definition FakeIG_RemoveInstancesFromInstanceGroup (name zone : string) (refs : list string) :
    M FakeInstanceGroups unit :=
  let names := toInstanceNames refs in
  _ ← modW (fig_call Op_RemoveInstances);
  modW (λ f, fig_set_members (fig_instances f ∖ list_to_set names)
    (match fig_zonesToInstances f !! zone with
     | None => fig_zonesToInstances f
     | Some l => <[zone := filter (λ n, n ∉ names) l]> (fig_zonesToInstances f)
     end) f).
Definition FakeIG_SetNamedPortsOfInstanceGroup (igName zone : string) (namedPorts : list NamedPort) :
    M FakeInstanceGroups unit :=
  groups ← getW fig_instanceGroups;
  match find_ig igName zone groups with
  | None => throw (Errorf "Failed to find instance group %q in zone %q" [igName; zone] [])
  | Some _ =>
      modW (fig_set_groups (alter_ig (λ ig,
        MkInstanceGroup (ig_Name ig) (ig_Zone ig) (ig_SelfLink ig) namedPorts) igName zone groups))
  end.
Definition FakeIG_ToInstanceReferences (zone : string) (instanceNames : list string) : list string :=
  getInstanceUrl <$> instanceNames.

Global Instance FakeInstanceGroups_cloud : InstanceGroups FakeInstanceGroups := {
  igs_GetInstanceGroup := FakeIG_GetInstanceGroup;
  igs_CreateInstanceGroup := FakeIG_CreateInstanceGroup;
  igs_DeleteInstanceGroup := FakeIG_DeleteInstanceGroup;
  igs_ListInstancesInInstanceGroup := FakeIG_ListInstancesInInstanceGroup;
  igs_AddInstancesToInstanceGroup := FakeIG_AddInstancesToInstanceGroup;
  igs_RemoveInstancesFromInstanceGroup := FakeIG_RemoveInstancesFromInstanceGroup;
  igs_ToInstanceReferences := FakeIG_ToInstanceReferences;
  igs_SetNamedPortsOfInstanceGroup := FakeIG_SetNamedPortsOfInstanceGroup;
}.

(** [instances.EnsureInstanceGroupsAndPorts] of utils.go. *)
Definition EnsureInstanceGroupsAndPorts {W} `{NodePool W} (namer : Namer) (ports : list Z) :
    M W (list InstanceGroup) :=
  nop_EnsureInstanceGroupsAndPorts (Namer_InstanceGroup namer) ports.

(** ** What the cloud promises about groups *)

(** [igv] is the cloud's groups by zone and name. Reads answer not-found only
    for a group that does not exist. Creating a group can fail because another
    controller has just created it (a conflict). *)
Class GroupLaws {W : Type} `{InstanceGroups W} := {
  igv : W → gmap (string * string) InstanceGroup;
  igv_name w z n ig : igv w !! (z, n) = Some ig → ig_Name ig = n;
  GetInstanceGroup_spec name zone w :
    wp (igs_GetInstanceGroup name zone)
      (λ ig w', igv w !! (zone, name) = Some ig ∧ igv w' = igv w)
      (λ e w', igv w' = igv w ∧
        (IsHTTPErrorCode e StatusNotFound = true → igv w !! (zone, name) = None)) w;
  CreateInstanceGroup_spec ig zone w :
    let k := (zone, ig_Name ig) in
    wp (igs_CreateInstanceGroup ig zone)
      (λ _ w', igv w !! k = None → ∃ l,
         igv w' = <[k := MkInstanceGroup (ig_Name ig) zone l (ig_NamedPorts ig)]> (igv w))
      (λ e w', igv w' = igv w ∨
        ∃ ig', IsHTTPErrorCode e StatusConflict = true ∧ igv w' = <[k := ig']> (igv w)) w;
  SetNamedPorts_spec name zone ports w :
    let k := (zone, name) in
    wp (igs_SetNamedPortsOfInstanceGroup name zone ports)
      (λ _ w', ∃ ig, igv w !! k = Some ig ∧
         igv w' = <[k := MkInstanceGroup (ig_Name ig) (ig_Zone ig) (ig_SelfLink ig) ports]> (igv w))
      (λ _ w', igv w' = igv w) w;
}.
Arguments GroupLaws W {_}.

(** *** The fake keeps them *)

Definition ig_key (ig : InstanceGroup) : string * string := (ig_Zone ig, ig_Name ig).
Definition fake_igv (f : FakeInstanceGroups) : gmap (string * string) InstanceGroup :=
  list_to_map ((λ ig, (ig_key ig, ig)) <$> fig_instanceGroups f).

Lemma ig_is_key name zone ig : ig_is name zone ig ↔ ig_key ig = (zone, name).
Proof. unfold ig_is, ig_key. naive_solver. Qed.
Lemma fake_igv_find name zone l :
  (list_to_map ((λ ig, (ig_key ig, ig)) <$> l) : gmap (string * string) InstanceGroup) !! (zone, name)
  = find_ig name zone l.
Proof.
  induction l as [|ig l IH]; [done|]. csimpl. case_decide as Hd.
  - apply ig_is_key in Hd. rewrite Hd. by rewrite lookup_insert_eq.
  - rewrite lookup_insert_ne; [done|]. by rewrite <-ig_is_key.
Qed.
Lemma find_ig_is name zone l ig : find_ig name zone l = Some ig → ig_is name zone ig.
Proof. induction l; simpl; [done|]. case_decide; naive_solver. Qed.
Lemma fake_igv_snoc l ig :
  find_ig (ig_Name ig) (ig_Zone ig) l = None →
  (list_to_map ((λ ig, (ig_key ig, ig)) <$> (l ++ [ig])) : gmap (string * string) InstanceGroup)
  = <[ig_key ig := ig]> (list_to_map ((λ ig, (ig_key ig, ig)) <$> l)).
Proof.
  induction l as [|x l IH]; [done|]. csimpl. case_decide as Hd; [done|].
  intros Hf. rewrite IH by done. apply insert_insert_ne.
  intros He. apply Hd. apply ig_is_key. by rewrite He.
Qed.
Lemma fake_igv_alter g name zone l ig :
  (∀ x, ig_key (g x) = ig_key x) → find_ig name zone l = Some ig →
  (list_to_map ((λ ig, (ig_key ig, ig)) <$> alter_ig g name zone l)
    : gmap (string * string) InstanceGroup)
  = <[(zone, name) := g ig]> (list_to_map ((λ ig, (ig_key ig, ig)) <$> l)).
Proof.
  intros Hg. induction l as [|x l IH]; [done|]. simpl. case_decide as Hd; csimpl.
  - intros [= ->]. apply ig_is_key in Hd. rewrite Hg, Hd. by rewrite insert_insert_eq.
  - intros Hf. rewrite IH by done. apply insert_insert_ne.
    intros He. apply Hd, ig_is_key. done.
Qed.

Global Instance FakeInstanceGroups_laws : GroupLaws FakeInstanceGroups.
Proof.
  refine {| igv := fake_igv |}.
  - intros w z n ig. unfold fake_igv. rewrite fake_igv_find. by intros []%find_ig_is.
  - intros name zone w. simpl. unfold FakeIG_GetInstanceGroup. wp_auto.
    + split; [|done]. unfold fake_igv. by rewrite fake_igv_find.
    + split; [done|]. intros _. unfold fake_igv. by rewrite fake_igv_find.
  - intros ig zone w k. simpl. unfold FakeIG_CreateInstanceGroup. wp_auto.
    unfold fake_igv, k. rewrite fake_igv_find. intros Hn. exists (ig_Name ig). simpl.
    rewrite fake_igv_snoc; done.
  - intros name zone ports w k. simpl. unfold FakeIG_SetNamedPortsOfInstanceGroup. wp_auto.
    + exists i. unfold fake_igv, k. rewrite fake_igv_find. split; [done|]. simpl.
      by erewrite fake_igv_alter.
    + done.
Defined.

(** ** EnsureInstanceGroupsAndPorts *)

Section ensure.
Context {W : Type} `{GroupLaws W, ZoneLister W, MapRange} (i : Instances W) `{!LensLaws (ins_snapshotter i)}.
Hypothesis snap_frame : ∀ s w, igv (lset (ins_snapshotter i) s w) = igv w.

Lemma newNamedPorts_cover existing ports p :
  p ∈ ports → ∃ np, np ∈ existing ++ newNamedPorts i existing ports ∧ np_Port np = p.
Proof.
  intros Hp. destruct (decide (p ∈ np_Port <$> existing)) as [He|He].
  - apply list_elem_of_fmap in He as (np&->&Hnp). exists np. set_solver.
  - exists (MkNamedPort (Namer_NamedPort (ins_namer i) p) p). split; [|done].
    apply elem_of_app. right. unfold newNamedPorts. apply list_elem_of_fmap.
    exists p. split; [done|]. by apply list_elem_of_filter.
Qed.

Lemma Instances_Get_spec name zone w :
  wp (Instances_Get i name zone)
    (λ ig w', igv w !! (zone, name) = Some ig ∧ igv w' = igv w)
    (λ e w', igv w' = igv w ∧
      (IsHTTPErrorCode e StatusNotFound = true → igv w !! (zone, name) = None)) w.
Proof.
  apply wp_bind. wp_use GetInstanceGroup_spec; simpl; [|done].
  intros ig w' [Hig Hv]. unfold snapshotter_Add. wp_steps. split; [done|]. by rewrite snap_frame.
Qed.

(** The groups before and after a call that ensures [ports] on one group: all
    ports are there, the ports the group had are kept in front, as is its self
    link, and a group that had them all is not written to. *)
Definition ports_ensured (name zone : string) (ports : list Z)
    (v v' : gmap (string * string) InstanceGroup) : Prop :=
  ∃ new, v' = <[(zone, name) := new]> v ∧
    (∀ p, p ∈ ports → ∃ np, np ∈ ig_NamedPorts new ∧ np_Port np = p) ∧
    (∀ old, v !! (zone, name) = Some old → ig_SelfLink new = ig_SelfLink old ∧
      ig_NamedPorts new = ig_NamedPorts old ++ newNamedPorts i (ig_NamedPorts old) ports ∧
      (newNamedPorts i (ig_NamedPorts old) ports = [] → v' = v)).
(** The group that is returned may lack the new ports, but its self link is the
    one of the cloud's group. *)
Definition has_link (name zone : string) (v : gmap (string * string) InstanceGroup) (ig : InstanceGroup) : Prop :=
  ig_SelfLink <$> v !! (zone, name) = Some (ig_SelfLink ig).
Definition untouched_but (name zone : string) (v v' : gmap (string * string) InstanceGroup) : Prop :=
  ∀ k, k ≠ (zone, name) → v' !! k = v !! k.

Lemma addPorts_spec ig name zone ports w :
  igv w !! (zone, name) = Some ig →
  wp (Instances_addPorts i zone ports ig)
    (λ r w', r = ig ∧ ports_ensured name zone ports (igv w) (igv w'))
    (λ _ w', igv w' = igv w) w.
Proof.
  intros Hig. unfold Instances_addPorts. rewrite (igv_name _ _ _ _ Hig).
  set (nnp := newNamedPorts i (ig_NamedPorts ig) ports). apply wp_bind. case_decide as Hd.
  - wp_use SetNamedPorts_spec; simpl; [|done]. intros _ w' (ig0&Hig0&Hv).
    rewrite Hig in Hig0. injection Hig0 as <-.
    apply wp_ret. split; [done|]. eexists. split; [exact Hv|]. split.
    + intros p Hp. by apply newNamedPorts_cover.
    + intros old Hold. rewrite Hig in Hold. injection Hold as <-. split; [done|]. split; [done|]. fold nnp. intros Hn.
      rewrite Hn in Hd. simpl in Hd. lia.
  - apply wp_ret, wp_ret. split; [done|]. exists ig. rewrite insert_id by done.
    assert (nnp = []) as Hn by (destruct nnp; simpl in *; [done|lia]).
    split; [done|]. split.
    + intros p Hp. apply (newNamedPorts_cover (ig_NamedPorts ig)) in Hp.
      fold nnp in Hp. by rewrite Hn, app_nil_r in Hp.
    + intros old Hold. rewrite Hig in Hold. injection Hold as <-. fold nnp. by rewrite Hn, app_nil_r.
Qed.

(** After a creation, by this controller or another. *)
Lemma getAndAddPorts_spec (P : InstanceGroup → Prop) name zone ports v w :
  (∀ w k ig, igv w !! k = Some ig → P ig) →
  v !! (zone, name) = None → igv w = v ∨ (∃ ig, igv w = <[(zone, name) := ig]> v) →
  wp (ig ← igs_GetInstanceGroup name zone; Instances_addPorts i zone ports ig)
    (λ ig w', (P ig ∧ has_link name zone (igv w') ig) ∧ ports_ensured name zone ports v (igv w'))
    (λ _ w', untouched_but name zone v (igv w')) w.
Proof.
  intros HP Hn Hw. assert (untouched_but name zone v (igv w)) as Hframe.
  { destruct Hw as [-> | [ig ->]]; intros k Hk; [done|by rewrite lookup_insert_ne]. }
  apply wp_bind. wp_use GetInstanceGroup_spec; cbv beta.
  - intros ig w1 [Hig Hv1]. wp_use addPorts_spec; [by rewrite Hv1|..]; cbv beta; rewrite Hv1.
    + intros ? w2 (->&new&Hv2&Hp&Hold). destruct (Hold _ Hig) as [Hl _]. split; [split; [by eapply HP|]|].
      { unfold has_link. rewrite Hv2, lookup_insert_eq. simpl. by rewrite Hl. }
      exists new. rewrite Hn. split; [|done].
      rewrite Hv2. destruct Hw as [-> | [ig' ->]]; [done|by rewrite insert_insert_eq].
    + by intros _ w2 ->.
  - intros e w1 [-> _]. done.
Qed.

Lemma ensure_spec (P : InstanceGroup → Prop) name zone ports w :
  (∀ w k ig, igv w !! k = Some ig → P ig) →
  wp (Instances_ensureInstanceGroupAndPorts i name zone ports)
    (λ ig w', (P ig ∧ has_link name zone (igv w') ig) ∧ ports_ensured name zone ports (igv w) (igv w'))
    (λ _ w', untouched_but name zone (igv w) (igv w')) w.
Proof.
  intros HP. unfold Instances_ensureInstanceGroupAndPorts. apply wp_bind, wp_try.
  wp_use Instances_Get_spec.
  - intros ig w1 [Hig Hv1]. apply wp_bind, wp_ret.
    wp_use addPorts_spec; [by rewrite Hv1|..]; cbv beta; rewrite Hv1; [|by intros _ w' ->; intros ??].
    intros ? w' [-> Hens]. split; [split; [by eapply HP|]|done]. destruct Hens as (new&Hv2&_&Hold).
    unfold has_link. rewrite Hv2, lookup_insert_eq. simpl. by destruct (Hold _ Hig) as [-> _].
  - intros e w1 [Hv1 Hnf]. destruct (IsHTTPErrorCode e StatusNotFound); simpl negb;
      [|apply wp_bind, wp_throw; intros ??; by rewrite Hv1].
    apply wp_bind, wp_bind, wp_try.
    wp_use CreateInstanceGroup_spec; cbv beta; rewrite Hv1.
    + intros _ w2 Hc. destruct (Hc (Hnf eq_refl)) as [l Hv2]. apply wp_bind, wp_ret.
      apply wp_unbind, getAndAddPorts_spec; [exact HP|eauto..].
    + intros e2 w2 Hc. apply wp_bind. destruct (IsHTTPErrorCode e2 StatusConflict) eqn:He2.
      * apply wp_ret, wp_unbind, getAndAddPorts_spec; [exact HP|eauto|].
        destruct Hc as [-> | (ig'&_&->)]; eauto.
      * apply wp_throw. destruct Hc as [-> | (ig'&?&_)]; [by intros ??|congruence].
Qed.

(** The groups after a call that ensured [ports] on the groups of [zones]. *)
Definition groups_ensured (name : string) (ports : list Z) (zones : list string) (v v' : gmap (string * string) InstanceGroup) : Prop :=
  (∀ z, z ∈ zones → ∃ ig, v' !! (z, name) = Some ig ∧
     ∀ p, p ∈ ports → ∃ np, np ∈ ig_NamedPorts ig ∧ np_Port np = p) ∧
  (∀ z old np, v !! (z, name) = Some old → np ∈ ig_NamedPorts old →
     ∃ ig, v' !! (z, name) = Some ig ∧ np ∈ ig_NamedPorts ig).
(** The groups that are there keep their self links. *)
Definition links_kept (name : string) (v v' : gmap (string * string) InstanceGroup) : Prop :=
  ∀ z old, v !! (z, name) = Some old → has_link name z v' old.

(** [P] is a property of all the groups of the cloud, hence of those returned. *)
Lemma EnsureInstanceGroups_ok (P : InstanceGroup → Prop) name ports w zones wz :
  (∀ w k ig, igv w !! k = Some ig → P ig) →
  zl_ListZones w = (Ok zones, wz) → igv wz = igv w →
  wp (Instances_EnsureInstanceGroupsAndPorts i name ports)
    (λ igs w', (length igs = length zones ∧ links_kept name (igv w) (igv w') ∧
        ∀ z, z ∈ zones → ∃ ig, ig ∈ igs ∧ has_link name z (igv w') ig) ∧ Forall P igs ∧ groups_ensured name ports zones (igv w) (igv w') ∧
      (∀ z n, n ≠ name ∨ z ∉ zones → igv w' !! (z, n) = igv w !! (z, n)) ∧
      is_Some (lget (ins_snapshotter i) w' !! name))
    (λ _ w', (∀ z n, n ≠ name ∨ z ∉ zones → igv w' !! (z, n) = igv w !! (z, n)) ∧
      is_Some (lget (ins_snapshotter i) w' !! name)) w.
Proof.
  intros HP Hz Hwz. unfold Instances_EnsureInstanceGroupsAndPorts. apply wp_bind. unfold wp at 1.
  rewrite Hz. apply wp_defer. rewrite <-Hwz.
  eapply wp_mono; [apply (wp_forCollect _ zones (λ d igs w',
    (length igs = length d ∧ links_kept name (igv wz) (igv w') ∧
      ∀ z, z ∈ d → ∃ ig, ig ∈ igs ∧ has_link name z (igv w') ig) ∧ Forall P igs ∧
    (∀ z, z ∈ d → ∃ ig, igv w' !! (z, name) = Some ig ∧
       ∀ p, p ∈ ports → ∃ np, np ∈ ig_NamedPorts ig ∧ np_Port np = p) ∧
    (∀ z old np, igv wz !! (z, name) = Some old → np ∈ ig_NamedPorts old →
       ∃ ig, igv w' !! (z, name) = Some ig ∧ np ∈ ig_NamedPorts ig) ∧
    (∀ z n, n ≠ name ∨ z ∉ zones → igv w' !! (z, n) = igv wz !! (z, n)))
    (λ _ w', ∀ z n, n ≠ name ∨ z ∉ zones → igv w' !! (z, n) = igv wz !! (z, n)))|..].
  - split_and!; [done| |by intros ? ?%elem_of_nil|done|by intros ? ?%elem_of_nil|eauto|done].
    intros z old Hold. unfold has_link. by rewrite Hold.
  - intros d z igs w1 [r Hpre] ((Hlen&Hlinks&Hret)&HPs&Hall&Hkeep&Hframe).
    assert (z ∈ zones) as Hzin by (rewrite Hpre; set_solver).
    wp_use (ensure_spec P); [exact HP|..]; cbv beta.
    + intros ig w2 ((HPig&Hlink)&new&Hv2&Hcov&Hold).
      assert (∀ z' ig', has_link name z' (igv w1) ig' → has_link name z' (igv w2) ig') as Hkept.
      { intros z' ig' Hl. unfold has_link in *. rewrite Hv2. destruct (decide (z' = z)) as [->|]; [|by rewrite lookup_insert_ne by congruence].
        destruct (igv w1 !! (z, name)) as [old|]; [|done]. destruct (Hold _ eq_refl) as [Hl' _]. rewrite lookup_insert_eq. simpl in *. congruence. }
      rewrite !length_app, Hlen. split; [split; [done|]; split; [intros z' old Hz'; by apply Hkept, Hlinks|]|].
      { intros z' [Hz'|Hz']%elem_of_app; [|apply list_elem_of_singleton in Hz' as ->; exists ig; set_solver].
        destruct (Hret z' Hz') as (ig'&?&?). exists ig'. split; [set_solver|by apply Hkept]. }
      rewrite Hv2.
      split; [by apply Forall_app_2, Forall_singleton|].
      split_and!.
      * intros z' Hz'. destruct (decide (z' = z)) as [-> | Hne].
        { rewrite lookup_insert_eq. eauto. }
        rewrite lookup_insert_ne by congruence. apply Hall. set_solver.
      * intros z' old np Ho Hnp. destruct (decide (z' = z)) as [-> | Hne].
        -- destruct (Hkeep z old np Ho Hnp) as (ig1&Hig1&Hin1). rewrite lookup_insert_eq.
           eexists. split; [done|]. destruct (Hold _ Hig1) as (_&->&_). set_solver.
        -- rewrite lookup_insert_ne by congruence. eauto.
      * intros z' n Hn. rewrite lookup_insert_ne; [auto|]. intros [= <- <-]. by destruct Hn.
    + intros e w2 Hu z' n Hn. rewrite Hu; [auto|]. intros [= -> ->]. by destruct Hn.
  - intros igs w' ((?&?&?)&?&?&?&?). unfold groups_ensured. rewrite snap_frame, lens_get_set, lookup_insert_eq. split_and!; eauto.
  - intros e w' ?. rewrite snap_frame, lens_get_set, lookup_insert_eq. eauto.
Qed.

(** C19. [EnsureInstanceGroupsAndPorts] on any cloud that keeps the promises of
    [GroupLaws]: when it succeeds, every listed zone has a group of the given
    name whose named ports cover the requested ports; named ports that were
    there are kept (possibly more were added); groups of other names and
    zones are untouched, even when the call fails; and the pool remembers the
    group unless the zones could not be listed. *)
Theorem EnsureInstanceGroups_spec name ports w zones wz :
  zl_ListZones w = (Ok zones, wz) → igv wz = igv w →
  wp (Instances_EnsureInstanceGroupsAndPorts i name ports)
    (λ igs w',
      length igs = length zones ∧
      (∀ z, z ∈ zones → ∃ ig, igv w' !! (z, name) = Some ig ∧
         ∀ p, p ∈ ports → ∃ np, np ∈ ig_NamedPorts ig ∧ np_Port np = p) ∧
      (∀ z old np, igv w !! (z, name) = Some old → np ∈ ig_NamedPorts old →
         ∃ ig, igv w' !! (z, name) = Some ig ∧ np ∈ ig_NamedPorts ig) ∧
      (∀ z n, n ≠ name ∨ z ∉ zones → igv w' !! (z, n) = igv w !! (z, n)) ∧
      is_Some (lget (ins_snapshotter i) w' !! name))
    (λ _ w', (∀ z n, n ≠ name ∨ z ∉ zones → igv w' !! (z, n) = igv w !! (z, n)) ∧
      is_Some (lget (ins_snapshotter i) w' !! name)) w.
Proof.
  intros Hz Hwz. eapply wp_mono; [by eapply (EnsureInstanceGroups_ok (λ _, True))| |done].
  intros igs w' ((?&_)&_&[??]&?&?). done.
Qed.
End ensure.

(** *** The fake inside a larger world *)

Definition InstanceGroups_zoom {W F} (l : lens W F) `{InstanceGroups F} : InstanceGroups W := {|
  igs_GetInstanceGroup := λ n z, zoom l (igs_GetInstanceGroup n z);
  igs_CreateInstanceGroup := λ g z, zoom l (igs_CreateInstanceGroup g z);
  igs_DeleteInstanceGroup := λ n z, zoom l (igs_DeleteInstanceGroup n z);
  igs_ListInstancesInInstanceGroup := λ n z s, zoom l (igs_ListInstancesInInstanceGroup n z s);
  igs_AddInstancesToInstanceGroup := λ n z r, zoom l (igs_AddInstancesToInstanceGroup n z r);
  igs_RemoveInstancesFromInstanceGroup := λ n z r, zoom l (igs_RemoveInstancesFromInstanceGroup n z r);
  igs_ToInstanceReferences := igs_ToInstanceReferences;
  igs_SetNamedPortsOfInstanceGroup := λ n z p, zoom l (igs_SetNamedPortsOfInstanceGroup n z p);
|}.
Definition GroupLaws_zoom {W F} (l : lens W F) `{!LensLaws l} `{GroupLaws F} :
  @GroupLaws W (InstanceGroups_zoom l).
Proof.
  unshelve refine (@Build_GroupLaws W (InstanceGroups_zoom l) (λ w, igv (lget l w)) _ _ _ _).
  - intros w. apply igv_name.
  - intros name zone w. apply wp_zoom. eapply wp_mono; [apply GetInstanceGroup_spec|..];
      intros ?? HP; cbv beta; rewrite lens_get_set; exact HP.
  - intros ig zone w k. apply wp_zoom. eapply wp_mono; [apply CreateInstanceGroup_spec|..];
      intros ?? HP; cbv beta; rewrite lens_get_set; exact HP.
  - intros name zone ports w k. apply wp_zoom. eapply wp_mono; [apply SetNamedPorts_spec|..];
      intros ?? HP; cbv beta; rewrite lens_get_set; exact HP.
Defined.

Lemma EnsureInstanceGroups_spec_witness :
  let C := InstanceGroups_zoom (@lens_fst FakeInstanceGroups (gmap string unit)) in
  let Z := @FakeZoneLister (FakeInstanceGroups * gmap string unit) ["zone-a"; "zone-b"] in
  wp (@Instances_EnsureInstanceGroupsAndPorts _ C Z (MkInstances lens_snd (NewNamer "uid1" ""))
       "k8s-ig--uid1" [80%Z])
    (λ igs w', length igs = 2 ∧
      ∃ ig, fake_igv w'.1 !! ("zone-b", "k8s-ig--uid1") = Some ig)
    (λ _ _, True) (NewFakeInstanceGroups ∅, ∅).
Proof.
  intros C Z.
  eapply wp_mono; [eapply (@EnsureInstanceGroups_spec _ C (GroupLaws_zoom lens_fst) Z
    (MkInstances lens_snd (NewNamer "uid1" "")) _ (λ _ _, eq_refl)
    "k8s-ig--uid1" [80%Z] (NewFakeInstanceGroups ∅, ∅)); reflexivity|..].
  - intros igs w' (Hl&Hz&_). split; [exact Hl|].
    destruct (Hz "zone-b") as (ig&Hig&_); [set_solver|]. exists ig. exact Hig.
  - done.
Defined.
