(* ===== verification/InstancesSync.v ===== *)
(** * InstancesSync: the membership of instance groups

    [Instances.Sync] (pkg/instances/instances.go) against a cloud that keeps
    the members of every group: when it converges to the nodes of the cluster,
    and which members it never removes. *)

From S2P Require Import Prelude GoLang GoStrings Compute Utils Namer Instances.

(** The name of an instance has no slash: it is a component of its URL. *)
Definition instance_name (n : string) : Prop := lacks "/" n = true.

(** [mem w z g] is the members of group [g] of zone [z]. A successful call adds
    or removes the referenced instances of one group; a failed one changes no
    member; listing answers not-found only for a group that does not exist.
    The zones of the cluster and of its nodes are fixed during a call, and an
    error of the zone lister is not an API error. *)
Class MemberLaws {W : Type} `{GroupLaws W, ZoneLister W} := {
  mem : W → string → string → gset string;
  cluster_zones : list string;
  zone_of : string → option string;
  ToInstanceReferences_names z names :
    Forall instance_name names → last_component <$> igs_ToInstanceReferences z names = names;
  ListZones_spec w :
    wp zl_ListZones
      (λ zs w', zs = cluster_zones ∧ igv w' = igv w ∧ mem w' = mem w)
      (λ e w', IsHTTPErrorCode e StatusNotFound = false ∧ mem w' = mem w) w;
  GetZoneForNode_spec n w :
    wp (zl_GetZoneForNode n)
      (λ z w', zone_of n = Some z ∧ igv w' = igv w ∧ mem w' = mem w)
      (λ _ w', zone_of n = None ∧ igv w' = igv w ∧ mem w' = mem w) w;
  ListInstances_spec g z w :
    wp (igs_ListInstancesInInstanceGroup g z allInstances)
      (λ urls w', list_to_set (last_component <$> urls) = mem w z g ∧
                  igv w' = igv w ∧ mem w' = mem w)
      (λ e w', (IsHTTPErrorCode e StatusNotFound = true → igv w !! (z, g) = None) ∧
                mem w' = mem w) w;
  AddInstances_spec g z refs w :
    wp (igs_AddInstancesToInstanceGroup g z refs)
      (λ _ w', igv w' = igv w ∧ ∀ z' g', mem w' z' g' =
         if decide (z' = z ∧ g' = g) then mem w z g ∪ list_to_set (last_component <$> refs)
         else mem w z' g')
      (λ _ w', igv w' = igv w ∧ mem w' = mem w) w;
  RemoveInstances_spec g z refs w :
    wp (igs_RemoveInstancesFromInstanceGroup g z refs)
      (λ _ w', igv w' = igv w ∧ ∀ z' g', mem w' z' g' =
         if decide (z' = z ∧ g' = g) then mem w z g ∖ list_to_set (last_component <$> refs)
         else mem w z' g')
      (λ _ w', igv w' = igv w ∧ mem w' = mem w) w;
}.
Arguments MemberLaws W {_ _ _}.

Section sync.
Context {W : Type} `{MemberLaws W, MapRange} (i : Instances W).

(** The nodes of a list that live in a zone. *)
Definition in_zone (z : string) (names : list string) : list string :=
  filter (λ n, zone_of n = Some z) names.

Lemma splitNodesByZone_go_spec names acc w :
  wp (splitNodesByZone_go names acc)
    (λ m w', igv w' = igv w ∧ mem w' = mem w ∧
      ∀ z, default [] (m !! z) = default [] (acc !! z) ++ in_zone z names)
    (λ _ _, False) w.
Proof.
  revert acc w. induction names as [|n names IH]; intros acc w; simpl.
  { apply wp_ret. split_and!; [done..|]. intros z. by rewrite app_nil_r. }
  apply wp_bind, wp_try. wp_use GetZoneForNode_spec; simpl.
  - intros z w1 (Hz&Hv1&Hm1). wp_use IH; [|done]. intros m w2 (Hv2&Hm2&Hs).
    split_and!; [congruence..|]. intros z'. rewrite Hs. unfold in_zone. rewrite filter_cons, Hz.
    destruct (decide (z' = z)) as [-> | Hne].
    + rewrite lookup_insert_eq, decide_True by done. simpl. by rewrite <-app_assoc.
    + rewrite lookup_insert_ne by done. rewrite decide_False by congruence. done.
  - intros e w1 (Hz&Hv1&Hm1). wp_use IH; [|done]. intros m w2 (Hv2&Hm2&Hs).
    split_and!; [congruence..|]. intros z'. rewrite Hs. unfold in_zone.
    rewrite filter_cons, Hz, decide_False by done. done.
Qed.

(** Whatever happens, only members of group [g] whose zone is known change. *)
Definition only_known (g : string) (w w' : W) : Prop :=
  igv w' = igv w ∧
  ∀ z g' n, g' ≠ g ∨ zone_of n = None → (n ∈ mem w' z g' ↔ n ∈ mem w z g').

Lemma only_known_refl g w w' : igv w' = igv w → mem w' = mem w → only_known g w w'.
Proof. intros ? Hm. split; [done|]. intros. by rewrite Hm. Qed.
Lemma only_known_trans g w1 w2 w3 :
  only_known g w1 w2 → only_known g w2 w3 → only_known g w1 w3.
Proof. intros [? H12] [? H23]. split; [congruence|]. intros. rewrite H23, H12; done. Qed.

(** One loop of [Add] or [Remove]: [op] is the set operation of the call. *)
Lemma change_loop (call : string → string → list string → M W unit)
    (op : gset string → gset string → gset string) g names w (m : gmap string (list string)) :
  (∀ z refs w, wp (call g z refs)
      (λ _ w', igv w' = igv w ∧ ∀ z' g', mem w' z' g' =
         if decide (z' = z ∧ g' = g) then op (mem w z g) (list_to_set (last_component <$> refs))
         else mem w z' g')
      (λ _ w', igv w' = igv w ∧ mem w' = mem w) w) →
  (∀ X Y n, n ∉ Y → n ∈ op X Y ↔ n ∈ X) → (∀ X, op X ∅ = X) →
  Forall instance_name names →
  (∀ z, default [] (m !! z) = in_zone z names) →
  wp (forErrs (λ '(zone, nodeNames), call g zone (igs_ToInstanceReferences zone nodeNames)) (range m))
    (λ es w', only_known g w w' ∧ (es = [] →
       ∀ z, mem w' z g = op (mem w z g) (list_to_set (in_zone z names))))
    (λ _ _, False) w.
Proof.
  intros Hcall Hop Hop0 Hn Hm.
  assert (∀ z, z ∉ (range m).*1 → in_zone z names = []) as Hz0.
  { intros z Hz. rewrite <-Hm. rewrite range_keys in Hz. by apply eq_None_not_Some in Hz as ->. }
  eapply wp_mono; [apply (wp_forErrs_progress _ (range m)
    (λ d w', ∀ z, mem w' z g = if decide (z ∈ d.*1)
       then op (mem w z g) (list_to_set (in_zone z names)) else mem w z g) (only_known g w) (λ _ _, False))|..].
  - intros z. rewrite decide_False by (by intros ?%elem_of_nil). done.
  - by apply only_known_refl.
  - intros d [z l] w1 [Hzd Hzl]%range_fresh Hk.
    assert (l = in_zone z names) as -> by (by rewrite <-Hm, Hzl).
    wp_use Hcall; cbv beta.
    + intros _ w2 [Hv2 Hm2]. rewrite ToInstanceReferences_names in Hm2
        by (apply Forall_forall; intros n [_ Hin]%list_elem_of_filter; by eapply Forall_forall in Hn). split.
      * eapply only_known_trans; [done|]. split; [done|]. intros z' g' n Hu. rewrite Hm2.
        case_decide as Hd; [|done]. destruct Hd as [-> ->]. apply Hop.
        intros Hin. apply elem_of_list_to_set, list_elem_of_filter in Hin as [Hin _].
        destruct Hu; [done|congruence].
      * intros HI z'. rewrite Hm2, fmap_app. case_decide as Hd.
        -- destruct Hd as [-> _]. rewrite decide_True by set_solver.
           by rewrite HI, decide_False by done.
        -- rewrite HI. assert (z' ≠ z) by naive_solver.
           destruct (decide (z' ∈ d.*1)); [rewrite decide_True|rewrite decide_False]; set_solver.
    + intros e w2 [??]. eapply only_known_trans; [done|]. by apply only_known_refl.
  - intros es w' [Hk HI]. split; [done|]. intros He z. rewrite (HI He). case_decide as Hd; [done|].
    by rewrite Hz0, Hop0.
  - done.
Qed.

Lemma Add_spec g names w :
  Forall instance_name names →
  wp (Instances_Add i g names)
    (λ _ w', only_known g w w' ∧ ∀ z, mem w' z g = mem w z g ∪ list_to_set (in_zone z names))
    (λ e w', only_known g w w' ∧ IsHTTPErrorCode e StatusNotFound = false) w.
Proof.
  intros Hn. apply wp_bind. wp_use splitNodesByZone_go_spec; simpl; [|done].
  intros m w1 (Hv1&Hm1&Hs). apply wp_bind.
  wp_use (change_loop igs_AddInstancesToInstanceGroup (∪) g names w1 m);
    [intros; apply AddInstances_spec|set_solver|set_solver|done|done| |done].
  simpl. intros es w2 [Hk Hall]. assert (only_known g w w2)
    by (eapply only_known_trans; [by apply only_known_refl|done]).
  destruct es; [|by apply wp_throw]. apply wp_ret. split; [done|]. intros z.
  rewrite Hall by done. by rewrite Hm1.
Qed.
Lemma Remove_spec g names w :
  Forall instance_name names →
  wp (Instances_Remove i g names)
    (λ _ w', only_known g w w' ∧ ∀ z, mem w' z g = mem w z g ∖ list_to_set (in_zone z names))
    (λ e w', only_known g w w' ∧ IsHTTPErrorCode e StatusNotFound = false) w.
Proof.
  intros Hn. apply wp_bind. wp_use splitNodesByZone_go_spec; simpl; [|done].
  intros m w1 (Hv1&Hm1&Hs). apply wp_bind.
  wp_use (change_loop igs_RemoveInstancesFromInstanceGroup (∖) g names w1 m);
    [intros; apply RemoveInstances_spec|set_solver|set_solver|done|done| |done].
  simpl. intros es w2 [Hk Hall]. assert (only_known g w w2)
    by (eapply only_known_trans; [by apply only_known_refl|done]).
  destruct es; [|by apply wp_throw]. apply wp_ret. split; [done|]. intros z.
  rewrite Hall by done. by rewrite Hm1.
Qed.

Lemma Contains_lacks c s : Contains s (String c "") = false → lacks c s = true.
Proof.
  induction s as [|d s IH]; [done|]. cbn [Contains HasPrefix lacks]. intros [Hp Hq]%orb_false_iff.
  rewrite IH by done. rewrite andb_true_r. apply negb_true_iff.
  by replace (HasPrefix s "") with true in Hp by (by destruct s); rewrite andb_true_r in Hp.
Qed.
Lemma last_component_name url : instance_name (last_component url).
Proof.
  unfold instance_name, last_component. destruct (Split_last url "/") as (l&t&Hl).
  rewrite Hl, last_snoc. simpl. apply Contains_lacks, (Split_pieces "/" 0 url); [done|].
  unfold Split in Hl. by rewrite Hl, last_snoc.
Qed.

(** The members of the group in all zones. *)
Definition all_members (w : W) (g : string) : gset string :=
  ⋃ ((λ z, mem w z g) <$> cluster_zones).

Lemma list_go_spec g zones acc w :
  wp (Instances_list_go g zones acc)
    (λ s w', s = acc ∪ ⋃ ((λ z, mem w z g) <$> zones) ∧
      set_Forall instance_name (s ∖ acc) ∧ igv w' = igv w ∧ mem w' = mem w)
    (λ e w', (IsHTTPErrorCode e StatusNotFound = true → ∃ z, z ∈ zones ∧ igv w !! (z, g) = None) ∧
      mem w' = mem w) w.
Proof.
  revert acc w. induction zones as [|z zones IH]; intros acc w; simpl.
  { apply wp_ret. split_and!; [set_solver| |done..]. intros x. set_solver. }
  apply wp_bind. wp_use ListInstances_spec; cbv beta.
  - intros urls w1 (Hu&Hv1&Hm1). wp_use IH; cbv beta.
    + intros s w2 (Hs&Hn&Hv2&Hm2). split_and!; [|..|congruence|congruence].
      * rewrite Hs, Hm1, Hu. set_solver.
      * intros x Hx. destruct (decide (x ∈ (list_to_set (last_component <$> urls) : gset string)))
          as [Hin|Hin]; [|apply Hn; set_solver].
        apply elem_of_list_to_set, list_elem_of_fmap in Hin as (u&->&_). apply last_component_name.
    + intros e w2 [Hnf Hm2]. split; [|congruence]. intros He. destruct (Hnf He) as (z'&?&?).
      exists z'. split; [set_solver|congruence].
  - intros e w1 [Hnf Hm1]. split; [|done]. intros He. exists z. split; [set_solver|auto].
Qed.

Lemma list_spec g w :
  wp (Instances_list i g)
    (λ s w', s = all_members w g ∧ set_Forall instance_name s ∧ igv w' = igv w ∧ mem w' = mem w)
    (λ e w', (IsHTTPErrorCode e StatusNotFound = true →
        ∃ z, z ∈ cluster_zones ∧ igv w !! (z, g) = None) ∧ mem w' = mem w) w.
Proof.
  apply wp_bind. wp_use ListZones_spec; cbv beta.
  - intros zs w1 (->&Hv1&Hm1). wp_use list_go_spec; cbv beta; rewrite Hv1, Hm1; [|done].
    intros s w2 (Hs&Hn&Hv2&Hm2). split_and!; [|intros x; set_solver|done..].
    unfold all_members. set_solver.
  - intros e w1 [He Hm1]. split; [congruence|done].
Qed.

Lemma sets_List_names (s : gset string) :
  set_Forall instance_name s → Forall instance_name (sets_List s).
Proof. intros Hs. apply Forall_forall. intros n Hn%elem_of_sets_List. by apply Hs. Qed.
Lemma elem_of_in_zone n z (s : gset string) :
  n ∈ (list_to_set (in_zone z (sets_List s)) : gset string) ↔ n ∈ s ∧ zone_of n = Some z.
Proof.
  unfold in_zone. rewrite elem_of_list_to_set, list_elem_of_filter, elem_of_sets_List. tauto.
Qed.
Lemma sets_List_nil (s : gset string) : length (sets_List s) = 0 → s = ∅.
Proof.
  intros Hl%nil_length_inv. apply set_eq. intros x. rewrite <-elem_of_sets_List, Hl. set_solver.
Qed.

(** What one round does to the members of a group, on success. *)
Definition round (nodes : list string) (g : string) (w w' : W) : Prop :=
  ∀ z n, n ∈ mem w' z g ↔
    (n ∈ mem w z g ∧ ¬ (n ∈ all_members w g ∧ n ∉ nodes ∧ zone_of n = Some z)) ∨
    (n ∈ nodes ∧ n ∉ all_members w g ∧ zone_of n = Some z).

Lemma syncGroup_spec nodes g w :
  Forall instance_name nodes →
  wp (Instances_syncGroup i nodes g)
    (λ _ w', only_known g w w' ∧ round nodes g w w')
    (λ e w', (∀ z g' n, g' ≠ g ∨ zone_of n = None → (n ∈ mem w' z g' ↔ n ∈ mem w z g')) ∧
      (IsHTTPErrorCode e StatusNotFound = true →
        ∃ z, z ∈ cluster_zones ∧ igv w !! (z, g) = None)) w.
Proof.
  intros Hn. apply wp_bind. wp_use list_spec; cbv beta;
    [|intros e w1 [Hnf Hm1]; split; [by rewrite Hm1|done]].
  intros s w1 (->&Hs&Hv1&Hm1). set (rm := all_members w g ∖ list_to_set nodes).
  set (ad := list_to_set nodes ∖ all_members w g).
  assert (only_known g w w1) as Hk1 by (by apply only_known_refl).
  apply wp_bind, (wp_mono _ (λ _ w2, only_known g w w2 ∧ ∀ z n,
      (n ∈ mem w2 z g ↔ n ∈ mem w z g ∧ ¬ (n ∈ rm ∧ zone_of n = Some z))) _
    (λ e w2, only_known g w w2 ∧ IsHTTPErrorCode e StatusNotFound = false)).
  - case_decide as Hd.
    + wp_use Remove_spec; [apply sets_List_names; unfold rm; intros x; set_solver|..]; cbv beta.
      * intros _ w2 [Hk2 Hm2]. split; [by eapply only_known_trans|]. intros z n.
        rewrite Hm2, elem_of_difference, elem_of_in_zone, Hm1. done.
      * intros e w2 [Hk2 He]. split; [by eapply only_known_trans|done].
    + apply wp_ret. split; [done|]. intros z n. rewrite Hm1.
      rewrite (sets_List_nil rm) by (unfold rm; lia). set_solver.
  - intros _ w2 [Hk2 Hm2]. case_decide as Hd.
    + wp_use Add_spec; [apply sets_List_names; intros x; rewrite elem_of_difference, elem_of_list_to_set;
        intros [Hx _]; by eapply Forall_forall in Hn|..]; cbv beta.
      * intros _ w3 [Hk3 Hm3]. split; [by eapply only_known_trans|]. intros z n.
        rewrite Hm3, elem_of_union, elem_of_in_zone, Hm2. unfold rm, ad. set_solver.
      * intros e w3 [Hk3 He]. split; [|congruence]. eapply only_known_trans; done.
    + apply wp_ret. split; [done|]. intros z n. rewrite Hm2.
      assert (∀ n, n ∈ nodes → n ∈ all_members w g) as Had.
      { intros x Hx. apply dec_stable. intros Hx'.
        assert (x ∈ ad) as Hin by (unfold ad; set_solver).
        rewrite (sets_List_nil ad) in Hin by (unfold ad; lia). set_solver. }
      unfold rm. set_solver.
  - intros e w2 [[_ Hk2] He]. split; [done|congruence].
Qed.

(** [Sync] also leaves the groups themselves as they are. *)
Lemma MemberSync_ok nodes w :
  Forall instance_name nodes →
  (∀ g z, is_Some (lget (ins_snapshotter i) w !! g) → z ∈ cluster_zones →
    is_Some (igv w !! (z, g)) ∧ ∀ n, n ∈ mem w z g → zone_of n = Some z) →
  wp (Instances_Sync i nodes)
    (λ _ w', igv w' = igv w ∧ ∀ g z, is_Some (lget (ins_snapshotter i) w !! g) → z ∈ cluster_zones →
       mem w' z g = list_to_set (in_zone z nodes))
    (λ _ _, True) w.
Proof.
  intros Hn Hpool. set (pool := lget (ins_snapshotter i) w) in *.
  unfold Instances_Sync. apply wp_bind, wp_getW. fold pool. apply wp_bind, wp_try.
  eapply wp_mono; [apply (wp_forEach _ (range pool) (λ d w', igv w' = igv w ∧
    (∀ z g, g ∉ d.*1 → mem w' z g = mem w z g) ∧
    (∀ z g, g ∈ d.*1 → z ∈ cluster_zones → mem w' z g = list_to_set (in_zone z nodes)))
    (λ e _, IsHTTPErrorCode e StatusNotFound = false))|..].
  - split_and!; [done..|]. intros z g Hg. by apply elem_of_nil in Hg.
  - intros d [g u] w1 [Hgd Hg%mk_is_Some]%range_fresh (Hv1&Hun&Hok). simpl.
    wp_use syncGroup_spec; [done|..]; cbv beta.
    + intros _ w2 [[Hv2 Hk2] Hround]. split; [congruence|]. rewrite fmap_app. split.
      * intros z g' Hg'. transitivity (mem w1 z g'); [|apply Hun; set_solver].
        apply set_eq. intros n.
        apply Hk2. left. set_solver.
      * intros z g' Hg' Hz. destruct (decide (g' = g)) as [-> | Hne].
        -- apply set_eq. intros n. rewrite (Hround z n). unfold in_zone.
           rewrite elem_of_list_to_set, list_elem_of_filter.
           assert (∀ z n, z ∈ cluster_zones → n ∈ mem w1 z g → zone_of n = Some z) as Hz1.
           { intros z' n' Hz' Hn'. rewrite Hun in Hn' by done. by apply (Hpool g z'). }
           assert (∀ n, n ∈ all_members w1 g ↔ ∃ z, z ∈ cluster_zones ∧ n ∈ mem w1 z g) as Hall.
           { intros n'. unfold all_members. rewrite elem_of_union_list. set_solver. }
           rewrite Hall. pose proof (Hz1 z n Hz).
           destruct (decide (n ∈ nodes)), (decide (n ∈ mem w1 z g)); naive_solver.
        -- transitivity (mem w1 z g'); [|apply Hok; set_solver]. apply set_eq. intros n. apply Hk2. by left.
    + intros e w2 [_ Hnf]. destruct (IsHTTPErrorCode e StatusNotFound); [|done].
      destruct (Hnf eq_refl) as (z&Hz&Hno). rewrite Hv1 in Hno.
      destruct (Hpool g z Hg Hz) as [[? He] _]. congruence.
  - intros _ w' (Hv&_&Hok). apply wp_ret. split; [done|]. intros g z Hg Hz. apply Hok; [by apply range_keys|done].
  - intros e w' He. cbv beta in He |- *. rewrite He. by apply wp_throw.
Qed.

(** C20. Convergence of [Sync]: if every group of the pool exists in every zone
    and its members are in the zone the zone lister reports for them, then
    after [Sync(nodes)] returns without error the members of every group of
    the pool in every zone are exactly the nodes of that zone. *)
Theorem Sync_converges nodes w :
  Forall instance_name nodes →
  (∀ g z, is_Some (lget (ins_snapshotter i) w !! g) → z ∈ cluster_zones →
    is_Some (igv w !! (z, g)) ∧ ∀ n, n ∈ mem w z g → zone_of n = Some z) →
  wp (Instances_Sync i nodes)
    (λ _ w', ∀ g z, is_Some (lget (ins_snapshotter i) w !! g) → z ∈ cluster_zones →
       mem w' z g = list_to_set (in_zone z nodes))
    (λ _ _, True) w.
Proof.
  intros Hn Hpool. eapply wp_mono; [by apply MemberSync_ok| |done]. by intros _ w' [_ ?].
Qed.

(** C40. Members whose zone the zone lister does not know are never removed:
    [Sync] asks for the zone of the node it wants to remove, logs the error
    and skips it. A VM whose Kubernetes node is gone therefore stays in the
    instance group, although the comment in [Sync] says requests must not be
    routed to it. *)
Theorem Sync_keeps_unknown nodes w n :
  Forall instance_name nodes → zone_of n = None →
  wp (Instances_Sync i nodes)
    (λ _ w', ∀ z g, n ∈ mem w z g → n ∈ mem w' z g)
    (λ _ w', ∀ z g, n ∈ mem w z g → n ∈ mem w' z g) w.
Proof.
  intros Hn Hz. unfold Instances_Sync. apply wp_bind, wp_getW, wp_bind, wp_try.
  eapply wp_mono; [apply (wp_forEach_inv _ _ (λ w', ∀ z g, n ∈ mem w z g → n ∈ mem w' z g)
    (λ _ w', ∀ z g, n ∈ mem w z g → n ∈ mem w' z g))|..].
  - done.
  - intros [g u] w1 _ HI. wp_use syncGroup_spec; [done|..]; cbv beta.
    + intros _ w2 [[_ Hk] _] z g' Hin. apply Hk; auto.
    + intros e w2 [Hk _] z g' Hin. apply Hk; auto.
  - intros ? w' HI. by apply wp_ret.
  - intros e w' HI. cbv beta.
    destruct (IsHTTPErrorCode e StatusNotFound); [by apply wp_ret|by apply wp_throw].
Qed.
End sync.

(** ** A cloud inside a larger world *)

Definition ZoneLister_zoom {W F} (l : lens W F) `{ZoneLister F} : ZoneLister W := {|
  zl_ListZones := zoom l zl_ListZones;
  zl_GetZoneForNode := λ n, zoom l (zl_GetZoneForNode n);
|}.
Definition MemberLaws_zoom {W F} (l : lens W F) `{!LensLaws l} `{MemberLaws F} :
  @MemberLaws W (InstanceGroups_zoom l) (GroupLaws_zoom l) (ZoneLister_zoom l).
Proof.
  unshelve refine (@Build_MemberLaws W (InstanceGroups_zoom l) (GroupLaws_zoom l) (ZoneLister_zoom l)
    (λ w, mem (lget l w)) cluster_zones zone_of _ _ _ _ _ _); [exact (@ToInstanceReferences_names F _ _ _ _)|..];
    intros; apply wp_zoom; (eapply wp_mono; [first [apply ListZones_spec | apply GetZoneForNode_spec
      | apply ListInstances_spec | apply AddInstances_spec | apply RemoveInstances_spec]|..]);
    intros ?? HP; cbv beta; simpl; rewrite ?lens_get_set; exact HP.
Defined.

(** ** A reference cloud

    The smallest cloud with members that keeps the promises: groups and
    members by zone and name, zones and the zones of nodes as given. The name
    and the link of a group are those of its key. *)

Record RefCloud := MkRefCloud {
  rc_groups : gmap (string * string) InstanceGroup;
  rc_members : gmap (string * string) (gset string);
  rc_pool : gmap string unit;
}.
Definition rc_mem (w : RefCloud) (z g : string) : gset string := default ∅ (rc_members w !! (z, g)).
Definition rc_link (k : string * string) : string := "projects/p/instanceGroups/" +:+ k.1 +:+ "/" +:+ k.2.
Definition rc_group (k : string * string) (ig : InstanceGroup) : InstanceGroup :=
  MkInstanceGroup k.2 (ig_Zone ig) (rc_link k) (ig_NamedPorts ig).
Definition rc_named (w : RefCloud) : gmap (string * string) InstanceGroup :=
  map_imap (λ k ig, Some (rc_group k ig)) (rc_groups w).
Definition rc_set_mem (z g : string) (s : gset string) (w : RefCloud) : RefCloud :=
  MkRefCloud (rc_groups w) (<[(z, g) := s]> (rc_members w)) (rc_pool w).
Definition rc_set_group (z : string) (ig : InstanceGroup) (w : RefCloud) : RefCloud :=
  MkRefCloud (<[(z, ig_Name ig) := ig]> (rc_groups w)) (rc_members w) (rc_pool w).
Definition ref_get (name zone : string) : M RefCloud InstanceGroup :=
  o ← getW (λ w, rc_named w !! (zone, name));
  match o with Some ig => mret ig | None => throw FakeGoogleAPINotFoundErr end.

Global Instance RefCloud_cloud : InstanceGroups RefCloud := {
  igs_GetInstanceGroup := ref_get;
  igs_CreateInstanceGroup := λ ig z,
    modW (rc_set_group z (MkInstanceGroup (ig_Name ig) z "" (ig_NamedPorts ig)));
  igs_DeleteInstanceGroup := λ name z,
    modW (λ w, MkRefCloud (delete (z, name) (rc_groups w)) (rc_members w) (rc_pool w));
  igs_ListInstancesInInstanceGroup := λ name z _,
    _ ← ref_get name z;
    getW (λ w, getInstanceUrl <$> filter (λ n, lacks "/" n = true) (elements (rc_mem w z name)));
  igs_AddInstancesToInstanceGroup := λ name z refs,
    modW (λ w, rc_set_mem z name (rc_mem w z name ∪ list_to_set (last_component <$> refs)) w);
  igs_RemoveInstancesFromInstanceGroup := λ name z refs,
    modW (λ w, rc_set_mem z name (rc_mem w z name ∖ list_to_set (last_component <$> refs)) w);
  igs_ToInstanceReferences := λ z names, getInstanceUrl <$> names;
  igs_SetNamedPortsOfInstanceGroup := λ name z ports,
    ig ← ref_get name z;
    modW (rc_set_group z (MkInstanceGroup name (ig_Zone ig) (ig_SelfLink ig) ports));
}.

Definition RefZones (zones : list string) (zone : string → option string) : ZoneLister RefCloud := {|
  zl_ListZones := mret zones;
  zl_GetZoneForNode := λ n,
    match zone n with Some z => mret z | None => throw (Errorf "node not found %v" [n] []) end;
|}.

Lemma rc_named_insert z ig w :
  rc_named (rc_set_group z ig w) = <[(z, ig_Name ig) := rc_group (z, ig_Name ig) ig]> (rc_named w).
Proof. unfold rc_named. simpl. by rewrite map_imap_insert. Qed.
Lemma last_component_url n : instance_name n → last_component (getInstanceUrl n) = n.
Proof.
  intros Hn. unfold last_component, getInstanceUrl.
  replace ("https://www.googleapis.com/compute/v1/projects/project/zones/zone/instances/" +:+ n)
    with ("https://www.googleapis.com/compute/v1/projects/project/zones/zone/instances" +:+ String "/" n)
    by done.
  rewrite Split_app_1, (Split_no_sep n) by (by apply lacks_not_contains).
  by rewrite last_snoc.
Qed.
Lemma last_component_urls names :
  Forall instance_name names → last_component <$> (getInstanceUrl <$> names) = names.
Proof.
  induction 1 as [|n names Hn _ IH]; [done|]. csimpl. by rewrite last_component_url, IH.
Qed.

Global Instance RefCloud_laws : GroupLaws RefCloud.
Proof.
  refine {| igv := rc_named |}.
  - intros w z n ig. unfold rc_named. rewrite map_lookup_imap.
    intros (ig0&_&[= <-])%bind_Some. done.
  - intros name zone w. simpl. unfold ref_get. wp_auto; done.
  - intros ig zone w k. simpl. wp_auto. intros _. rewrite rc_named_insert. by eexists.
  - intros name zone ports w k. simpl. unfold ref_get. wp_auto; [|done].
    exists i. split; [done|]. rewrite rc_named_insert. simpl. unfold rc_named in *.
    rewrite map_lookup_imap in Heqo. apply bind_Some in Heqo as (ig0&_&[= <-]). done.
Defined.

Definition rc_view (w : RefCloud) (z g : string) : gset string :=
  filter (λ n, lacks "/" n = true) (rc_mem w z g).
Lemma rc_view_set w z g s z' g' :
  rc_view (rc_set_mem z g s w) z' g' =
  if decide (z' = z ∧ g' = g) then filter (λ n, lacks "/" n = true) s else rc_view w z' g'.
Proof.
  unfold rc_view, rc_mem. simpl. case_decide as Hd.
  - destruct Hd as [-> ->]. by rewrite lookup_insert_eq.
  - rewrite lookup_insert_ne; [done|]. intros [= -> ->]. by apply Hd.
Qed.

Definition RefCloud_members zones zone :
  @MemberLaws RefCloud _ _ (RefZones zones zone).
Proof.
  unshelve refine (@Build_MemberLaws RefCloud _ _ (RefZones zones zone) rc_view zones zone _ _ _ _ _ _).
  - intros z names Hn. by apply last_component_urls.
  - intros w. by apply wp_ret.
  - intros n w. simpl. by destruct (zone n).
  - intros g z w. simpl. unfold ref_get. wp_auto; [|done]. split; [|done].
    rewrite last_component_urls.
    + unfold rc_view. apply set_eq. intros n. rewrite elem_of_list_to_set, list_elem_of_filter,
        elem_of_elements, elem_of_filter. done.
    + apply Forall_forall. by intros n [Hn _]%list_elem_of_filter.
  - intros g z refs w. simpl. wp_auto. split; [done|]. intros z' g'. rewrite rc_view_set.
    case_decide; [|done]. unfold rc_view. apply set_eq. intros n.
    rewrite elem_of_union, !elem_of_filter, elem_of_union.
    assert (n ∈ (list_to_set (last_component <$> refs) : gset string) → lacks "/" n = true); [|tauto].
    rewrite elem_of_list_to_set, list_elem_of_fmap. intros (u&->&Hu). apply last_component_name.
  - intros g z refs w. simpl. wp_auto. split; [done|]. intros z' g'. rewrite rc_view_set.
    case_decide; [|done]. unfold rc_view. apply set_eq. intros n.
    rewrite elem_of_difference, !elem_of_filter, elem_of_difference. tauto.
Defined.

Definition rc_pool_lens : lens RefCloud (gmap string unit) :=
  Lens rc_pool (λ p w, MkRefCloud (rc_groups w) (rc_members w) p).

(** One zone with one group of the pool, whose members are [old] and [gone]. *)
Definition ref_world : RefCloud := MkRefCloud
  {[("zone-a", "ig") := MkInstanceGroup "ig" "zone-a" "ig" []]}
  {[("zone-a", "ig") := {["old"; "gone"]}]} {["ig" := tt]}.
Definition ref_pool : Instances RefCloud := MkInstances rc_pool_lens (NewNamer "uid1" "").

Lemma Sync_converges_witness :
  let R := sortedRange in
  let Z := RefZones ["zone-a"] (λ _, Some "zone-a") in
  wp (Instances_Sync ref_pool ["old"; "new"])
    (λ _ w', rc_view w' "zone-a" "ig" = {["old"; "new"]}) (λ _ _, True) ref_world.
Proof.
  intros R Z. pose (L := RefCloud_members ["zone-a"] (λ _, Some "zone-a")).
  eapply wp_mono; [eapply (Sync_converges ref_pool ["old"; "new"] ref_world)|..].
  - by repeat constructor.
  - intros g z [[] Hg] Hz. change (({["ig" := tt]} : gmap string unit) !! g = Some tt) in Hg.
    apply lookup_singleton_Some in Hg as [<- _].
    apply list_elem_of_singleton in Hz as ->. split; [by eexists|done].
  - intros ? w' Hw. transitivity (list_to_set (in_zone "zone-a" ["old"; "new"]) : gset string);
      [|by vm_compute]. apply Hw; [by eexists|set_solver].
  - done.
Defined.

Lemma Sync_keeps_unknown_witness :
  let R := sortedRange in
  let Z := RefZones ["zone-a"] (λ n, if decide (n = "gone") then None else Some "zone-a") in
  wp (Instances_Sync ref_pool ["old"])
    (λ _ w', "gone" ∈ rc_view w' "zone-a" "ig") (λ _ _, True) ref_world.
Proof.
  intros R Z.
  pose (L := RefCloud_members ["zone-a"] (λ n, if decide (n = "gone") then None else Some "zone-a")).
  eapply wp_mono; [eapply (Sync_keeps_unknown ref_pool ["old"] ref_world "gone")|..].
  - by repeat constructor.
  - reflexivity.
  - intros ? w' Hw. apply Hw. vm_compute. done.
  - done.
Defined.
