(* ===== verification/Firewalls.v ===== *)
(** * Firewalls: pkg/firewalls/{firewalls,interfaces,fakes}.go

    The one firewall rule that lets the load balancers' health checks reach
    the node ports. The texts of the gcloud commands of the error events come
    from a library and are arguments. *)

From S2P Require Import Prelude GoLang GoStrings Compute Utils Namer.

Definition l7SrcRanges : list string := ["130.211.0.0/22"; "35.191.0.0/16"].

(** [Firewall], the interface of the cloud; its last three methods read
    constants of the provider. *)
Class FirewallCloud (W : Type) := {
  fwc_CreateFirewall : Firewall → M W unit;
  fwc_GetFirewall : string → M W (option Firewall);
  fwc_DeleteFirewall : string → M W unit;
  fwc_UpdateFirewall : Firewall → M W unit;
  fwc_GetNodeTags : list string → M W (list string);
  fwc_NetworkProjectID : W → string;
  fwc_NetworkURL : W → string;
  fwc_OnXPN : W → bool;
}.

Record FirewallRules := MkFirewallRules { fr_namer : Namer; fr_srcRanges : list string }.
Definition NewFirewallPool (namer : Namer) : FirewallRules := MkFirewallRules namer l7SrcRanges.

Definition newFirewallXPNError (internal : error) (cmd : string) : error :=
  FirewallSyncErr internal ("Firewall change required by network admin: `" +:+ cmd +:+ "`").

Section firewalls.
Context {W : Type} `{FirewallCloud W}.
Context (FirewallToGCloudCreateCmd FirewallToGCloudUpdateCmd : Firewall → string → string)
  (FirewallToGCloudDeleteCmd : string → string → string).
Implicit Types fr : FirewallRules.

Definition FirewallRules_createFirewallObject fr (firewallName description : string)
    (nodePorts : list Z) (nodeNames : list string) : M W Firewall :=
  let ports := sort_Strings (Itoa <$> nodePorts) in
  targetTags ← fwc_GetNodeTags nodeNames;
  network ← getW fwc_NetworkURL;
  mret (MkFirewall firewallName description (fr_srcRanges fr) network
    [MkFirewallAllowed "tcp" ports] (sort_Strings targetTags)).

(** A forbidden call on a cluster in a shared network becomes the error that
    asks the network administrator for the change. *)
Definition FirewallRules_createFirewall fr (f : Firewall) : M W unit :=
  r ← try (fwc_CreateFirewall f);
  match r with
  | inr _ => mret tt
  | inl err =>
      xpn ← getW fwc_OnXPN;
      project ← getW fwc_NetworkProjectID;
      if IsForbiddenError err && xpn
      then throw (newFirewallXPNError err (FirewallToGCloudCreateCmd f project))
      else throw err
  end.
Definition FirewallRules_updateFirewall fr (f : Firewall) : M W unit :=
  r ← try (fwc_UpdateFirewall f);
  match r with
  | inr _ => mret tt
  | inl err =>
      xpn ← getW fwc_OnXPN;
      project ← getW fwc_NetworkProjectID;
      if IsForbiddenError err && xpn
      then throw (newFirewallXPNError err (FirewallToGCloudUpdateCmd f project))
      else throw err
  end.
Definition FirewallRules_deleteFirewall fr (name : string) : M W unit :=
  r ← try (fwc_DeleteFirewall name);
  match r with
  | inr _ => mret tt
  | inl err =>
      xpn ← getW fwc_OnXPN;
      project ← getW fwc_NetworkProjectID;
      if IsNotFoundError err then mret tt
      else if IsForbiddenError err && xpn
      then throw (newFirewallXPNError err (FirewallToGCloudDeleteCmd name project))
      else throw err
  end.

Definition FirewallRules_Shutdown fr : M W unit :=
  FirewallRules_deleteFirewall fr (Namer_FirewallRule (fr_namer fr)).

Definition FirewallRules_GetFirewall fr (name : string) : M W (option Firewall) :=
  fwc_GetFirewall name.

(** The ports and source ranges a rule grants, as sets. *)
Definition rule_ports (rule : Firewall) : gset string :=
  list_to_set (concat (fa_Ports <$> fl_Allowed rule)).
Definition rule_cidrs (rule : Firewall) : gset string := list_to_set (fl_SourceRanges rule).

(** [Sync] after the existing rule was read ([None] if it could not be). *)
Definition FirewallRules_reconcile fr (nodePorts : list Z) (nodeNames : list string)
    (rule : option Firewall) : M W unit :=
  let name := Namer_FirewallRule (fr_namer fr) in
  firewall ← FirewallRules_createFirewallObject fr name "GCE L7 firewall rule" nodePorts nodeNames;
  match rule with
  | None => FirewallRules_createFirewall fr firewall
  | Some rule =>
      let requiredPorts : gset string := list_to_set (Itoa <$> nodePorts) in
      let requiredCIDRs : gset string := list_to_set l7SrcRanges in
      if bool_decide (requiredPorts = rule_ports rule) && bool_decide (requiredCIDRs = rule_cidrs rule)
      then mret tt
      else FirewallRules_updateFirewall fr firewall
  end.

Definition FirewallRules_Sync fr (nodePorts : list Z) (nodeNames : list string) : M W unit :=
  if decide (length nodePorts = 0) then FirewallRules_Shutdown fr else
  rule ← ignoreErr (fwc_GetFirewall (Namer_FirewallRule (fr_namer fr)));
  FirewallRules_reconcile fr nodePorts nodeNames rule.

End firewalls.

(** ** The fake *)

Record fakeFirewallsProvider := MkFakeFirewalls {
  ff_fw : gmap string Firewall;
  ff_networkProjectID : string;
  ff_networkURL : string;
  ff_onXPN : bool;
  ff_fwReadOnly : bool;
}.
Definition NewFakeFirewallsProvider (onXPN fwReadOnly : bool) : fakeFirewallsProvider :=
  MkFakeFirewalls ∅ "test-network-project" "/path/to/my-network" onXPN fwReadOnly.
Definition ff_set (g : gmap string Firewall → gmap string Firewall) (ff : fakeFirewallsProvider) :
    fakeFirewallsProvider :=
  MkFakeFirewalls (g (ff_fw ff)) (ff_networkProjectID ff) (ff_networkURL ff) (ff_onXPN ff)
    (ff_fwReadOnly ff).

Definition fakeFW_GetFirewall (name : string) : M fakeFirewallsProvider (option Firewall) :=
  rule ← getW (λ ff, ff_fw ff !! name);
  match rule with
  | Some rule => mret (Some rule)
  | None => throw FakeGoogleAPINotFoundErr
  end.
Definition fakeFW_doCreateFirewall (f : Firewall) : M fakeFirewallsProvider unit :=
  rule ← getW (λ ff, ff_fw ff !! fl_Name f);
  match rule with
  | Some _ => throw (Errorf "firewall rule %v already exists" [fl_Name f] [])
  | None => modW (ff_set <[fl_Name f := f]>)
  end.
Definition fakeFW_doDeleteFirewall (name : string) : M fakeFirewallsProvider unit :=
  rule ← getW (λ ff, ff_fw ff !! name);
  match rule with
  | None => throw FakeGoogleAPINotFoundErr
  | Some _ => modW (ff_set (delete name))
  end.
Definition fakeFW_doUpdateFirewall (f : Firewall) : M fakeFirewallsProvider unit :=
  rule ← getW (λ ff, ff_fw ff !! fl_Name f);
  match rule with
  | None => throw (Errorf "update failed for rule %v, srcRange %v ports %+v, rule not found"
      (fl_Name f :: fl_SourceRanges f) [])
  | Some _ => modW (ff_set <[fl_Name f := f]>)
  end.
(** The guard of the three public writes. *)
Definition fakeFW_guard (m : M fakeFirewallsProvider unit) : M fakeFirewallsProvider unit :=
  ro ← getW ff_fwReadOnly;
  if ro : bool then throw FakeGoogleAPIForbiddenErr else m.
Definition fakeFW_CreateFirewall (f : Firewall) : M fakeFirewallsProvider unit :=
  fakeFW_guard (fakeFW_doCreateFirewall f).
Definition fakeFW_DeleteFirewall (name : string) : M fakeFirewallsProvider unit :=
  fakeFW_guard (fakeFW_doDeleteFirewall name).
Definition fakeFW_UpdateFirewall (f : Firewall) : M fakeFirewallsProvider unit :=
  fakeFW_guard (fakeFW_doUpdateFirewall f).
Definition fakeFW_GetNodeTags (nodeNames : list string) : M fakeFirewallsProvider (list string) :=
  mret nodeNames.

Global Instance fakeFirewallsProvider_cloud : FirewallCloud fakeFirewallsProvider := {
  fwc_CreateFirewall := fakeFW_CreateFirewall;
  fwc_GetFirewall := fakeFW_GetFirewall;
  fwc_DeleteFirewall := fakeFW_DeleteFirewall;
  fwc_UpdateFirewall := fakeFW_UpdateFirewall;
  fwc_GetNodeTags := fakeFW_GetNodeTags;
  fwc_NetworkProjectID := ff_networkProjectID;
  fwc_NetworkURL := ff_networkURL;
  fwc_OnXPN := ff_onXPN;
}.

(** ** What the cloud promises *)

(** Rules by name. A write that succeeds stores the object sent, a failed call
    changes nothing, deleting answers not-found only for an absent rule, with an
    error of the API and not of this package, and whether the network is shared
    does not change. *)
Class FirewallLaws (W : Type) `{FirewallCloud W} := {
  fwv : W → gmap string Firewall;
  GetFirewall_spec name w :
    wp (fwc_GetFirewall name)
      (λ r w', r = fwv w !! name ∧ fwv w' = fwv w ∧ fwc_OnXPN w' = fwc_OnXPN w)
      (λ _ w', fwv w' = fwv w ∧ fwc_OnXPN w' = fwc_OnXPN w) w;
  CreateFirewall_spec f w :
    wp (fwc_CreateFirewall f)
      (λ _ w', fwv w' = <[fl_Name f := f]> (fwv w))
      (λ _ w', fwv w' = fwv w ∧ fwc_OnXPN w' = fwc_OnXPN w) w;
  UpdateFirewall_spec f w :
    wp (fwc_UpdateFirewall f)
      (λ _ w', fwv w' = <[fl_Name f := f]> (fwv w))
      (λ _ w', fwv w' = fwv w ∧ fwc_OnXPN w' = fwc_OnXPN w) w;
  DeleteFirewall_spec name w :
    wp (fwc_DeleteFirewall name)
      (λ _ w', fwv w' = delete name (fwv w))
      (λ e w', fwv w' = fwv w ∧ fwc_OnXPN w' = fwc_OnXPN w ∧
        (IsHTTPErrorCode e StatusNotFound = true → fwv w !! name = None) ∧ (∀ i m, e ≠ FirewallSyncErr i m)) w;
  GetNodeTags_spec nodes w :
    wp (fwc_GetNodeTags nodes)
      (λ _ w', fwv w' = fwv w ∧ fwc_OnXPN w' = fwc_OnXPN w)
      (λ _ w', fwv w' = fwv w ∧ fwc_OnXPN w' = fwc_OnXPN w) w;
}.

Global Instance fakeFirewallsProvider_laws : FirewallLaws fakeFirewallsProvider.
Proof.
  refine {| fwv := ff_fw |}; intros x w; simpl;
    unfold fakeFW_GetFirewall, fakeFW_CreateFirewall, fakeFW_UpdateFirewall, fakeFW_DeleteFirewall,
      fakeFW_GetNodeTags, fakeFW_guard, fakeFW_doCreateFirewall, fakeFW_doUpdateFirewall,
      fakeFW_doDeleteFirewall; wp_auto; eauto.
  all: split_and!; (done || discriminate || eauto).
Defined.

(** *** A cloud inside a larger world *)

Definition FirewallCloud_zoom {W F} (l : lens W F) `{FirewallCloud F} : FirewallCloud W := {|
  fwc_CreateFirewall := λ x, zoom l (fwc_CreateFirewall x);
  fwc_GetFirewall := λ x, zoom l (fwc_GetFirewall x);
  fwc_DeleteFirewall := λ x, zoom l (fwc_DeleteFirewall x);
  fwc_UpdateFirewall := λ x, zoom l (fwc_UpdateFirewall x);
  fwc_GetNodeTags := λ x, zoom l (fwc_GetNodeTags x);
  fwc_NetworkProjectID := λ w, fwc_NetworkProjectID (lget l w);
  fwc_NetworkURL := λ w, fwc_NetworkURL (lget l w);
  fwc_OnXPN := λ w, fwc_OnXPN (lget l w);
|}.

Definition FirewallLaws_zoom {W F} (l : lens W F) `{!LensLaws l} `{FirewallLaws F} : @FirewallLaws W (FirewallCloud_zoom l).
Proof.
  unshelve refine (@Build_FirewallLaws W (FirewallCloud_zoom l) (λ w, fwv (lget l w)) _ _ _ _ _);
    intros x w; apply wp_zoom; (eapply wp_mono; [first [apply GetFirewall_spec | apply CreateFirewall_spec
      | apply UpdateFirewall_spec | apply DeleteFirewall_spec | apply GetNodeTags_spec]|..]);
    intros ?? HP; cbv beta; simpl; rewrite ?lens_get_set; exact HP.
Defined.

(** ** Properties *)

Section sync.
Context {W : Type} `{FirewallLaws W} (createCmd updateCmd : Firewall → string → string)
  (deleteCmd : string → string → string) (namer : Namer).
Let fr := NewFirewallPool namer.
Let name := Namer_FirewallRule namer.

(** The rule lets the health checks reach exactly the given ports. *)
Definition grants (ports : list Z) (rule : Firewall) : Prop :=
  rule_ports rule = list_to_set (Itoa <$> ports) ∧ rule_cidrs rule = list_to_set l7SrcRanges.
(** An error of a call of [Sync]: in a shared network a write that is forbidden
    is reported as a request to the administrator, so that a raw forbidden error
    is one of the lookup of the nodes' tags. *)
Definition xpn_reported (nodes : list string) (w : W) (e : error) : Prop :=
  fwc_OnXPN w = true → IsForbiddenError e = true →
  ∃ w1 w2, fwv w1 = fwv w ∧ fwc_OnXPN w1 = true ∧ fwc_GetNodeTags nodes w1 = (Err e, w2).
(** The request itself: the deletion of the rule was forbidden. *)
Definition delete_refused (w : W) : Prop :=
  fwc_OnXPN w = true ∧ ∃ e w', fwc_DeleteFirewall name w = (Err e, w') ∧ IsForbiddenError e = true.

Lemma createFirewallObject_spec ports nodes w :
  wp (FirewallRules_createFirewallObject fr name "GCE L7 firewall rule" ports nodes)
    (λ f w', fl_Name f = name ∧ grants ports f ∧ fwv w' = fwv w ∧ fwc_OnXPN w' = fwc_OnXPN w)
    (λ e w', fwv w' = fwv w ∧ xpn_reported nodes w e) w.
Proof.
  apply wp_bind. pose proof (GetNodeTags_spec nodes w) as Hg. unfold wp in Hg |- * at 1.
  destruct (fwc_GetNodeTags nodes w) as [[tags|e|] w'] eqn:Htags; [| |done].
  - destruct Hg as [Hv Hx]. wp_steps. split; [done|]. split; [|done]. split; [|done].
    unfold rule_ports. simpl. rewrite app_nil_r. apply set_eq. intros x.
    by rewrite !elem_of_list_to_set, elem_of_sort_Strings.
  - destruct Hg as [Hv _]. split; [done|]. intros Hxpn _. by exists w, w'.
Qed.

Lemma createFirewall_spec nodes f w :
  wp (FirewallRules_createFirewall createCmd fr f)
    (λ _ w', fwv w' = <[fl_Name f := f]> (fwv w)) (λ e w', fwv w' = fwv w ∧ xpn_reported nodes w e) w.
Proof.
  apply wp_bind, wp_try. wp_use CreateFirewall_spec; cbv beta; [intros; by apply wp_ret|].
  intros e w' [Hv Hx]. wp_steps; (split; [done|]); intros Hxpn Hforb; [done|].
  by rewrite Hx, Hxpn, Hforb in *.
Qed.
Lemma updateFirewall_spec nodes f w :
  wp (FirewallRules_updateFirewall updateCmd fr f)
    (λ _ w', fwv w' = <[fl_Name f := f]> (fwv w)) (λ e w', fwv w' = fwv w ∧ xpn_reported nodes w e) w.
Proof.
  apply wp_bind, wp_try. wp_use UpdateFirewall_spec; cbv beta; [intros; by apply wp_ret|].
  intros e w' [Hv Hx]. wp_steps; (split; [done|]); intros Hxpn Hforb; [done|].
  by rewrite Hx, Hxpn, Hforb in *.
Qed.
Lemma Shutdown_spec w :
  wp (FirewallRules_Shutdown deleteCmd fr)
    (λ _ w', fwv w' = delete name (fwv w))
    (λ e w', fwv w' = fwv w ∧ (fwc_OnXPN w = true → IsForbiddenError e = false) ∧
       ((∃ i m, e = FirewallSyncErr i m) → delete_refused w)) w.
Proof.
  unfold FirewallRules_Shutdown, FirewallRules_deleteFirewall. change (Namer_FirewallRule (fr_namer fr)) with name.
  apply wp_bind, wp_try. pose proof (DeleteFirewall_spec name w) as Hd. unfold wp in Hd |- * at 1.
  destruct (fwc_DeleteFirewall name w) as [[u|e|] w'] eqn:Hdel; [by apply wp_ret| |done].
  destruct Hd as (Hv&Hx&Hnf&Hapi). wp_steps.
  - rewrite Hv, delete_id; [done|]. by apply Hnf.
  - match goal with Hf : _ && _ = true |- _ => apply andb_true_iff in Hf as [Hf Hxpn] end. split; [done|]. split; [done|].
    intros _. split; [congruence|]. eauto.
  - split; [done|]. split; [|intros (i&m&->); by destruct (Hapi i m)].
    intros Hxpn. rewrite Hx, Hxpn, andb_true_r in *. done.
Qed.

Lemma fw_reconcile_spec ports nodes rule w :
  rule = fwv w !! name ∨ rule = None →
  wp (FirewallRules_reconcile createCmd updateCmd fr ports nodes rule)
    (λ _ w', (∀ n, n ≠ name → fwv w' !! n = fwv w !! n) ∧
      (∃ r, fwv w' !! name = Some r ∧ grants ports r) ∧
      (∀ r, rule = Some r → grants ports r → fwv w' = fwv w))
    (λ e w', fwv w' = fwv w ∧ xpn_reported nodes w e) w.
Proof.
  intros Hrule. apply wp_bind. wp_use createFirewallObject_spec; [|done]. cbv beta.
  intros f w1 (Hn&Hf&Hv1&Hx1). unfold xpn_reported. rewrite <-Hv1, <-Hx1 in *.
  destruct rule as [r|]; [destruct (_ && _) eqn:Heq|].
  - apply wp_ret. split; [done|]. destruct Hrule as [Hr|]; [|done].
    apply andb_true_iff in Heq as [?%bool_decide_eq_true ?%bool_decide_eq_true].
    split; [|done]. by exists r.
  - wp_use (updateFirewall_spec nodes); [|done]. cbv beta. intros _ w2 ->. rewrite Hn.
    split; [intros; by rewrite lookup_insert_ne|]. split; [rewrite lookup_insert_eq; eauto|].
    intros r' [= <-] [Hp Hc]. rewrite Hp, Hc in Heq. by rewrite !bool_decide_eq_true_2 in Heq.
  - wp_use (createFirewall_spec nodes); [|done]. cbv beta. intros _ w2 ->. rewrite Hn.
    split; [intros; by rewrite lookup_insert_ne|]. split; [rewrite lookup_insert_eq; eauto|done].
Qed.

(** The rule is there when there are ports, grants them, and is gone otherwise. *)
Definition rule_wanted (ports : list Z) (v : gmap string Firewall) : Prop :=
  (ports = [] → v !! name = None) ∧ (ports ≠ [] → ∃ rule, v !! name = Some rule ∧ grants ports rule).

Lemma FirewallSync_ok ports nodes w :
  wp (FirewallRules_Sync createCmd updateCmd deleteCmd fr ports nodes)
    (λ _ w',
      (∀ n, n ≠ name → fwv w' !! n = fwv w !! n) ∧
      rule_wanted ports (fwv w') ∧
      (∀ rule, ports ≠ [] → fwv w !! name = Some rule → grants ports rule →
         fwv w' = fwv w ∨ ∃ e w1, fwc_GetFirewall name w = (Err e, w1)))
    (λ e w', fwv w' = fwv w ∧ xpn_reported nodes w e) w.
Proof.
  unfold FirewallRules_Sync. case_decide as Hl.
  { apply nil_length_inv in Hl as ->. wp_use Shutdown_spec; cbv beta.
    2: { intros e w' (?&Hno&_). split; [done|]. intros Hxpn Hforb. by rewrite Hno in Hforb. }
    intros _ w' ->. split_and!; [intros; by rewrite lookup_delete_ne|split; [intros; apply lookup_delete_eq|done]|done]. }
  assert (ports ≠ []) as Hne by (by destruct ports).
  apply wp_bind, wp_ignoreErr. change (Namer_FirewallRule (fr_namer fr)) with name.
  pose proof (GetFirewall_spec name w) as Hg. unfold wp in Hg |- * at 1.
  destruct (fwc_GetFirewall name w) as [[r|e|] w1] eqn:Hget; [..|done].
  - destruct Hg as (->&Hv1&Hx1). wp_use fw_reconcile_spec; [left; by rewrite Hv1|..]; cbv beta;
      unfold xpn_reported; rewrite Hv1, ?Hx1; [|done].
    intros _ w2 (Hf&Hr&Hsame). split_and!; [done|split; done|].
    intros rule _ Hrule Hgr. left. by apply (Hsame rule).
  - destruct Hg as (Hv1&Hx1). wp_use fw_reconcile_spec; [by right|..]; cbv beta;
      unfold xpn_reported; rewrite Hv1, ?Hx1; [|done].
    intros _ w2 (Hf&Hr&_). split_and!; [done|split; done|eauto].
Qed.
(** C21. [Sync] of the firewall rule, on any cloud that keeps the promises of
    [FirewallLaws]. On success the rule grants exactly the node ports to the
    load balancers' source ranges (and is gone when there are no node ports);
    a rule that was read and already does is not written to; no other rule
    changes. On failure nothing changes at all, and in a shared network a write
    of the rule that the API forbids is not reported with its raw error: if [Sync]
    returns a raw forbidden error, it comes from the lookup of the nodes' tags,
    whose errors the code returns as they are. *)
Theorem FirewallSync_spec ports nodes w :
  wp (FirewallRules_Sync createCmd updateCmd deleteCmd fr ports nodes)
    (λ _ w',
      (∀ n, n ≠ name → fwv w' !! n = fwv w !! n) ∧
      (ports = [] → fwv w' !! name = None) ∧
      (ports ≠ [] → ∃ rule, fwv w' !! name = Some rule ∧ grants ports rule) ∧
      (∀ rule, ports ≠ [] → fwv w !! name = Some rule → grants ports rule →
         fwv w' = fwv w ∨ ∃ e w1, fwc_GetFirewall name w = (Err e, w1)))
    (λ e w', fwv w' = fwv w ∧ xpn_reported nodes w e) w.
Proof.
  eapply wp_mono; [apply FirewallSync_ok| |done]. intros _ w' (?&[??]&?). done.
Qed.
End sync.

Lemma FirewallSync_spec_witness :
  let cmd := λ (f : Firewall) (p : string), "gcloud" in
  wp (FirewallRules_Sync cmd cmd (λ n p, "gcloud") (NewFirewallPool (NewNamer "uid" "fw")) [80; 443]%Z
       ["node"])
    (λ _ w', ∃ rule, ff_fw w' !! "k8s-fw-l7--fw" = Some rule ∧ grants [80; 443]%Z rule)
    (λ _ w', ff_fw w' = ∅) (NewFakeFirewallsProvider true false).
Proof.
  intros cmd. eapply wp_mono; [apply (FirewallSync_spec cmd cmd (λ n p, "gcloud") (NewNamer "uid" "fw")
    [80; 443]%Z ["node"])|..].
  - intros _ w' (_&_&Hr&_). by apply Hr.
  - intros _ w' [Hv _]. exact Hv.
Defined.
