(* ===== verification/Backends.v ===== *)
(** * Backends: pkg/backends/{backends,interfaces,fakes}.go

    The pool of backend services, one per node port, with their health checks
    and their links to instance groups or network endpoint groups. The pool
    calls the node pool and the health checker through their interfaces
    ([Instances.NodePool], [HealthChecks.HealthChecker]). *)

From S2P Require Import Prelude GoLang GoStrings Compute Utils Namer HealthChecks Instances Storage.

Definition Rate : string := "RATE".
Definition Utilization : string := "UTILIZATION".
Definition Connections : string := "CONNECTION".
Definition maxRPS : Z := 1.

Definition portKey (port : Z) : string := Itoa port.

Record ServicePort := MkServicePort {
  sp_Port : Z;
  sp_Protocol : string;
  sp_SvcName : NamespacedName;
  sp_SvcPort : IntOrString;
  sp_SvcTargetPort : string;
  sp_NEGEnabled : bool;
}.
Global Instance ServicePort_eq_dec : EqDecision ServicePort.
Proof. solve_decision. Defined.

(** [types.NamespacedName.String]: the separator is always there. *)
Definition NamespacedName_String (n : NamespacedName) : string :=
  nn_Namespace n +:+ "/" +:+ nn_Name n.
(** The double quote, which the description's JSON text needs. *)
Definition quote : string := String (Ascii.ascii_of_nat 34) "".
Definition ServicePort_Description (sp : ServicePort) : string :=
  if decide (NamespacedName_String (sp_SvcName sp) = "" ∨ IntOrString_String (sp_SvcPort sp) = "")
  then ""
  else "{" +:+ quote +:+ "kubernetes.io/service-name" +:+ quote +:+ ":" +:+ quote
       +:+ NamespacedName_String (sp_SvcName sp) +:+ quote +:+ "," +:+ quote
       +:+ "kubernetes.io/service-port" +:+ quote +:+ ":" +:+ quote
       +:+ IntOrString_String (sp_SvcPort sp) +:+ quote +:+ "}".

(** ** Interfaces *)

(** The health of a backend is the list of health states, an entry of which
    may be nil. *)
Class BackendServices (W : Type) := {
  bsc_GetGlobalBackendService : string → M W BackendService;
  bsc_GetAlphaGlobalBackendService : string → M W AlphaBackendService;
  bsc_UpdateGlobalBackendService : BackendService → M W unit;
  bsc_UpdateAlphaGlobalBackendService : AlphaBackendService → M W unit;
  bsc_CreateGlobalBackendService : BackendService → M W unit;
  bsc_DeleteGlobalBackendService : string → M W unit;
  bsc_ListGlobalBackendServices : M W (list BackendService);
  bsc_GetGlobalBackendServiceHealth : string → string → M W (list (option string));
}.
Class NEGGetter (W : Type) := {
  ngg_GetNetworkEndpointGroup : string → string → M W NetworkEndpointGroup;
}.

(** ** Pure helpers *)

Definition getBackendsForIGs (igs : list InstanceGroup) (bm : string) : list Backend :=
  (λ ig, MkBackend (ig_SelfLink ig) bm (if decide (bm = Rate) then maxRPS else 0)) <$> igs.
Definition getBackendsForNEGs (negs : list NetworkEndpointGroup) : list AlphaBackend :=
  (λ neg, MkAlphaBackend (neg_SelfLink neg) Rate 0 maxRPS) <$> negs.
Definition retrieveObjectName (url : string) : string := last_component url.

Definition applyLegacyHCToHC (existing : HttpHealthCheck) (hc : HealthCheck) : HealthCheck :=
  set_HTTP (λ h, MkHTTPHealthCheck (hhc_Host existing) (hhc_Port existing) (http_PortSpecification h)
    (hhc_RequestPath existing))
  (set_Settings (λ s, MkHCSettings (hcs_Name s) (hhc_Description existing)
    (hhc_CheckIntervalSec existing) (hhc_TimeoutSec existing) (hhc_HealthyThreshold existing)
    (hhc_UnhealthyThreshold existing) (hcs_Type s) (hcs_SelfLink s)) hc).

(** The value of the first [Host] header, or the host of the action. *)
Definition probe_host (a : HTTPGetAction) : string :=
  match filter (λ h, hh_Name h = "Host") (hg_HTTPHeaders a) with
  | header :: _ => hh_Value header
  | [] => hg_Host a
  end.
(** [None] is the nil dereference of a probe without an HTTP handler. *)
Definition applyProbeSettingsToHC (p : Probe) (hc : HealthCheck) : option HealthCheck :=
  a ← pb_HTTPGet p;
  let healthPath := if HasPrefix (hg_Path a) "/" then hg_Path a else "/" +:+ hg_Path a in
  let interval := if hck_ForNEG hc then pb_PeriodSeconds p
                  else (pb_PeriodSeconds p + DefaultHealthCheckInterval)%Z in
  Some (set_HTTP (λ h, MkHTTPHealthCheck (probe_host a) (http_Port h) (http_PortSpecification h) healthPath)
    (set_Settings (λ s, MkHCSettings (hcs_Name s)
      "Kubernetes L7 health check generated with readiness probe settings."
      interval (pb_TimeoutSeconds p) (hcs_HealthyThreshold s) (hcs_UnhealthyThreshold s)
      (hcs_Type s) (hcs_SelfLink s)) hc)).

Definition bs_with_Backends (l : list Backend) (be : BackendService) : BackendService :=
  MkBackendService (bs_Name be) (bs_Description be) (bs_Protocol be) (bs_HealthChecks be)
    (bs_Port be) (bs_PortName be) l (bs_SelfLink be).
Definition bs_with_SelfLink (l : string) (be : BackendService) : BackendService :=
  MkBackendService (bs_Name be) (bs_Description be) (bs_Protocol be) (bs_HealthChecks be)
    (bs_Port be) (bs_PortName be) (bs_Backends be) l.
Definition bs_zero : BackendService := MkBackendService "" "" "" [] 0 "" [] "".

(** The link of the only health check of a backend service, or nothing. *)
Definition existingHCLink (be : BackendService) : string :=
  match bs_HealthChecks be with [l] => l | _ => "" end.
(** The first condition of [ensureBackendService] after the service exists. *)
Definition needsUpdate (be : BackendService) (p : ServicePort) (hcLink : string) : bool :=
  negb (bool_decide (bs_Protocol be = sp_Protocol p)) ||
  negb (bool_decide (retrieveObjectName (existingHCLink be) = retrieveObjectName hcLink)) ||
  negb (bool_decide (bs_Description be = ServicePort_Description p)).
Definition refreshed (be : BackendService) (p : ServicePort) (hcLink : string) : BackendService :=
  MkBackendService (bs_Name be) (ServicePort_Description p) (sp_Protocol p) [hcLink] (bs_Port be)
    (bs_PortName be) (bs_Backends be) (bs_SelfLink be).

(** ** The pool *)

(** The cached value is a pointer to a backend service, possibly nil. *)
Record Backends (W : Type) := MkBackends {
  bk_snapshotter : lens W (gmap string (option BackendService));
  bk_prober : option (ServicePort → M W (option Probe));
  bk_ignoredPorts : gset string;
  bk_namer : Namer;
}.
Arguments MkBackends {W} _ _ _ _.
Arguments bk_snapshotter {W} _.
Arguments bk_prober {W} _.
Arguments bk_ignoredPorts {W} _.
Arguments bk_namer {W} _.

(** The key function of the cloud listing pool of [NewBackendPool]. *)
Definition Backends_keyGetter (namer : Namer) (bs : BackendService) : error + string :=
  if negb (Namer_NameBelongsToCluster namer (bs_Name bs))
  then inl (Errorf "unrecognized name %v" [bs_Name bs] [])
  else Namer_BackendPort namer (bs_Name bs).
Definition NewBackendPool {W} (snap : lens W (gmap string (option BackendService)))
    (namer : Namer) (ignorePorts : list Z) : Backends W :=
  MkBackends snap None (list_to_set (portKey <$> ignorePorts)) namer.
Definition Backends_Init {W} (pp : ServicePort → M W (option Probe)) (b : Backends W) : Backends W :=
  MkBackends (bk_snapshotter b) (Some pp) (bk_ignoredPorts b) (bk_namer b).

Section backends.
Context {W : Type} `{BackendServices W, NEGGetter W, HealthChecker W, NodePool W, MapRange}.
Implicit Types b : Backends W.

Definition bk_pool_Add b (key : string) (be : option BackendService) : M W unit :=
  zoom (bk_snapshotter b) (modW <[key := be]>).
Definition bk_pool_Delete b (key : string) : M W unit :=
  zoom (bk_snapshotter b) (modW (delete key)).

Definition Backends_Get b (port : Z) : M W BackendService :=
  be ← bsc_GetGlobalBackendService (Namer_Backend (bk_namer b) port);
  _ ← bk_pool_Add b (portKey port) (Some be);
  mret be.

Definition Backends_ensureHealthCheck b (sp : ServicePort) : M W string :=
  let hc := hcr_New (sp_Port sp) (sp_Protocol sp) (sp_NEGEnabled sp) in
  r ← try (hcr_GetLegacy (sp_Port sp));
  hc ← match r with
       | inr existingLegacyHC => mret (applyLegacyHCToHC existingLegacyHC hc)
       | inl err =>
           if negb (IsNotFoundError err) then throw err else
           match bk_prober b with
           | None => mret hc
           | Some GetProbe =>
               probe ← GetProbe sp;
               match probe with
               | Some probe => ofOption (applyProbeSettingsToHC probe hc)
               | None => mret hc
               end
           end
       end;
  hcr_Sync hc.

Definition Backends_create b (namedPort : NamedPort) (hcLink : string) (sp : ServicePort)
    (name : string) : M W BackendService :=
  let bs := MkBackendService name (ServicePort_Description sp) (sp_Protocol sp) [hcLink]
    (np_Port namedPort) (np_Name namedPort) [] "" in
  _ ← bsc_CreateGlobalBackendService bs;
  Backends_Get b (np_Port namedPort).

(** The retry loop of [edgeHop]. The backend service is changed in place, so
    its last value is returned with the result. *)
Fixpoint edgeHop_modes (be : BackendService) (originalIGBackends : list Backend)
    (addIGs : list InstanceGroup) (modes : list string) (errs : list error) :
    M W (BackendService * option error) :=
  match modes with
  | [] => mret (be, Some (Errorf "received errors when updating backend service: %v" [] errs))
  | bm :: modes =>
      let be := bs_with_Backends (originalIGBackends ++ getBackendsForIGs addIGs bm) be in
      r ← try (bsc_UpdateGlobalBackendService be);
      match r with
      | inr _ => mret (be, None)
      | inl err =>
          if IsHTTPErrorCode err StatusBadRequest
          then edgeHop_modes be originalIGBackends addIGs modes (errs ++ [err])
          else mret (be, Some err)
      end
  end.
Definition Backends_edgeHop b (be : BackendService) (igs : list InstanceGroup) :
    M W (BackendService * option error) :=
  let beIGs : gset string := list_to_set (bk_Group <$> bs_Backends be) in
  let igLinks : gset string := list_to_set (ig_SelfLink <$> igs) in
  if decide (igLinks ⊆ beIGs) then mret (be, None) else
  let originalIGBackends :=
    filter (λ backend, Contains (bk_Group backend) "instanceGroups" = true) (bs_Backends be) in
  let addIGs := filter (λ ig, ig_SelfLink ig ∉ beIGs) igs in
  edgeHop_modes be originalIGBackends addIGs [Rate; Utilization] [].

(** [ensureBackendService] once the backend service exists: the service as it
    is left, and the error. *)
Definition Backends_reconcile b (p : ServicePort) (igs : list InstanceGroup) (hcLink : string)
    (be : BackendService) : M W (BackendService * option error) :=
  let oldLink := existingHCLink be in
  let needs := needsUpdate be p hcLink in
  let be := if needs then refreshed be p hcLink else be in
  r ← (if needs then try (bsc_UpdateGlobalBackendService be) else mret (inr tt));
  match r with
  | inl err => mret (be, Some err)
  | inr _ =>
      _ ← (if negb (bool_decide (oldLink = hcLink)) && Contains oldLink "/httpHealthChecks/"
           then try (hcr_DeleteLegacy (sp_Port p)) else mret (inr tt));
      if decide (length igs = 0) then mret (be, None)
      else if sp_NEGEnabled p then mret (be, None)
      else Backends_edgeHop b be igs
  end.

(** Verify that the backend service exists, or create it without backends. *)
Definition Backends_getOrCreate b (p : ServicePort) (hcLink : string) : M W (error + BackendService) :=
  let beName := Namer_Backend (bk_namer b) (sp_Port p) in
  g ← try (Backends_Get b (sp_Port p));
  match g with
  | inr be => mret (inr be)
  | inl _ =>
      let namedPort := MkNamedPort (Namer_NamedPort (bk_namer b) (sp_Port p)) (sp_Port p) in
      try (Backends_create b namedPort hcLink p beName)
  end.

(** The body of [ensureBackendService]: the value of [be] when it returns,
    which the deferred function caches, and the error. *)
Definition Backends_ensure_body b (p : ServicePort) (igs : list InstanceGroup) :
    M W (option BackendService * option error) :=
  r ← try (Backends_ensureHealthCheck b p);
  match r with
  | inl err => mret (Some bs_zero, Some err)
  | inr hcLink =>
      r ← Backends_getOrCreate b p hcLink;
      match r with
      | inl err => mret (None, Some err)
      | inr be =>
          '(be, err) ← Backends_reconcile b p igs hcLink be;
          mret (Some be, err)
      end
  end.
Definition Backends_ensureBackendService b (p : ServicePort) (igs : list InstanceGroup) : M W unit :=
  '(be, err) ← Backends_ensure_body b p igs;
  _ ← bk_pool_Add b (portKey (sp_Port p)) be;
  retErr err.

(** [igs = None] is the nil slice. *)
Definition Backends_Ensure b (svcPorts : list ServicePort) (igs : option (list InstanceGroup)) : M W unit :=
  igs ← match igs with
        | Some igs => mret igs
        | None => EnsureInstanceGroupsAndPorts (bk_namer b) (sp_Port <$> svcPorts)
        end;
  forEach (λ port, Backends_ensureBackendService b port igs) svcPorts.

Definition Backends_Delete b (port : Z) : M W unit :=
  let name := Namer_Backend (bk_namer b) port in
  err ← try (
    r ← try (bsc_DeleteGlobalBackendService name);
    match r with
    | inl err => if negb (IsHTTPErrorCode err StatusNotFound) then throw err else hcr_Delete port
    | inr _ => hcr_Delete port
    end);
  match err with
  | inl e =>
      if IsHTTPErrorCode e StatusNotFound then bk_pool_Delete b (portKey port) else throw e
  | inr _ => bk_pool_Delete b (portKey port)
  end.

Definition Backends_List b : M W (list BackendService) := bsc_ListGlobalBackendServices.

(** The body of the loop of [GC], for one key of the pool. *)
Definition Backends_gcPort b (knownPorts : gset string) (port : string) : M W unit :=
  match ParseUint16 port with
  | None => throw (Errorf "strconv.ParseUint: parsing %q" [port] [])
  | Some nodePort =>
      if decide (portKey nodePort ∈ knownPorts ∨ portKey nodePort ∈ bk_ignoredPorts b)
      then mret tt
      else
        r ← try (Backends_Delete b nodePort);
        match r with
        | inl err => if negb (IsHTTPErrorCode err StatusNotFound) then throw err else mret tt
        | inr _ => mret tt
        end
  end.
Definition Backends_GC b (svcNodePorts : list ServicePort) : M W unit :=
  let knownPorts : gset string := list_to_set ((λ p, portKey (sp_Port p)) <$> svcNodePorts) in
  pool ← getW (lget (bk_snapshotter b));
  forEach (λ kv, Backends_gcPort b knownPorts kv.1) (range pool).
Definition Backends_Shutdown b : M W unit := Backends_GC b [].

Definition Backends_Status b (name : string) : M W string :=
  r ← try (bsc_GetGlobalBackendService name);
  match r with
  | inr backend =>
      match bs_Backends backend with
      | [] => mret "Unknown"
      | first :: _ =>
          hs ← try (bsc_GetGlobalBackendServiceHealth name (bk_Group first));
          match hs with
          | inr (Some state :: _) => mret state
          | _ => mret "Unknown"
          end
      end
  | inl _ => mret "Unknown"
  end.

Definition Backends_Link b (port : ServicePort) (zones : list string) : M W unit :=
  if negb (sp_NEGEnabled port) then mret tt else
  negName ← ofOption (Namer_NEG (bk_namer b) (nn_Namespace (sp_SvcName port))
    (nn_Name (sp_SvcName port)) (sp_SvcTargetPort port));
  negs ← forCollect (λ zone, ngg_GetNetworkEndpointGroup negName zone) zones;
  backendService ← bsc_GetAlphaGlobalBackendService (Namer_Backend (bk_namer b) (sp_Port port));
  let targetBackends := getBackendsForNEGs negs in
  let oldBackends : gset string := list_to_set (abk_Group <$> abs_Backends backendService) in
  let newBackends : gset string := list_to_set (abk_Group <$> targetBackends) in
  if decide (oldBackends = newBackends) then mret tt
  else bsc_UpdateAlphaGlobalBackendService
    (MkAlphaBackendService (abs_Name backendService) (abs_Description backendService)
      (abs_Protocol backendService) (abs_HealthChecks backendService) (abs_Port backendService)
      (abs_PortName backendService) targetBackends (abs_SelfLink backendService)).

End backends.

(** The interface the cluster manager and the controller use. *)
Class BackendPool (W : Type) := {
  bkp_Ensure : list ServicePort → option (list InstanceGroup) → M W unit;
  bkp_Get : Z → M W BackendService;
  bkp_Delete : Z → M W unit;
  bkp_GC : list ServicePort → M W unit;
  bkp_Shutdown : M W unit;
  bkp_Status : string → M W string;
  bkp_List : M W (list BackendService);
  bkp_Link : ServicePort → list string → M W unit;
}.
Definition Backends_pool {W} `{BackendServices W, NEGGetter W, HealthChecker W, NodePool W, MapRange}
    (b : Backends W) : BackendPool W := {|
  bkp_Ensure := Backends_Ensure b;
  bkp_Get := Backends_Get b;
  bkp_Delete := Backends_Delete b;
  bkp_GC := Backends_GC b;
  bkp_Shutdown := Backends_Shutdown b;
  bkp_Status := Backends_Status b;
  bkp_List := Backends_List b;
  bkp_Link := Backends_Link b;
|}.

(** ** FakeBackendServices *)

(** [cache.Store] keyed by the name of the service; its methods return no
    error. [errFunc] is called with the operation and the service. *)
Record FakeBackendServices := MkFakeBackendServices {
  fbs_backendServices : gmap string BackendService;
  fbs_calls : list PoolOp;
  fbs_errFunc : option (PoolOp → BackendService → option error);
}.
Definition NewFakeBackendServices (ef : option (PoolOp → BackendService → option error)) :
    FakeBackendServices := MkFakeBackendServices ∅ [] ef.
Definition fbs_call (op : PoolOp) (f : FakeBackendServices) : FakeBackendServices :=
  MkFakeBackendServices (fbs_backendServices f) (fbs_calls f ++ [op]) (fbs_errFunc f).
Definition fbs_set (g : gmap string BackendService → gmap string BackendService)
    (f : FakeBackendServices) : FakeBackendServices :=
  MkFakeBackendServices (g (fbs_backendServices f)) (fbs_calls f) (fbs_errFunc f).
Definition fbs_inject (op : PoolOp) (be : BackendService) : M FakeBackendServices unit :=
  ef ← getW fbs_errFunc;
  match ef with Some errFunc => retErr (errFunc op be) | None => mret tt end.

(** The conversions copy the fields both API versions have. *)
Definition toV1BackendService (be : AlphaBackendService) : BackendService :=
  MkBackendService (abs_Name be) (abs_Description be) (abs_Protocol be) (abs_HealthChecks be)
    (abs_Port be) (abs_PortName be)
    ((λ x, MkBackend (abk_Group x) (abk_BalancingMode x) (abk_MaxRatePerInstance x)) <$> abs_Backends be)
    (abs_SelfLink be).
Definition toAlphaBackendService (be : BackendService) : AlphaBackendService :=
  MkAlphaBackendService (bs_Name be) (bs_Description be) (bs_Protocol be) (bs_HealthChecks be)
    (bs_Port be) (bs_PortName be)
    ((λ x, MkAlphaBackend (bk_Group x) (bk_BalancingMode x) (bk_MaxRatePerInstance x) 0) <$> bs_Backends be)
    (bs_SelfLink be).

Definition FakeBS_GetGlobalBackendService (name : string) : M FakeBackendServices BackendService :=
  _ ← modW (fbs_call Op_Get);
  obj ← getW (λ f, fbs_backendServices f !! name);
  match obj with
  | None => throw FakeGoogleAPINotFoundErr
  | Some svc => if decide (name = bs_Name svc) then mret svc else throw FakeGoogleAPINotFoundErr
  end.
Definition FakeBS_GetAlphaGlobalBackendService (name : string) :
    M FakeBackendServices AlphaBackendService :=
  obj ← FakeBS_GetGlobalBackendService name;
  mret (toAlphaBackendService obj).
Definition FakeBS_CreateGlobalBackendService (be : BackendService) : M FakeBackendServices unit :=
  _ ← fbs_inject Op_Create be;
  _ ← modW (fbs_call Op_Create);
  let be := bs_with_SelfLink (bs_Name be) be in
  modW (fbs_set <[bs_Name be := be]>).
Definition FakeBS_DeleteGlobalBackendService (name : string) : M FakeBackendServices unit :=
  _ ← modW (fbs_call Op_Delete);
  svc ← getW (λ f, fbs_backendServices f !! name);
  match svc with
  | None => throw FakeGoogleAPINotFoundErr
  | Some svc => modW (fbs_set (delete (bs_Name svc)))
  end.
Definition FakeBS_ListGlobalBackendServices : M FakeBackendServices (list BackendService) :=
  getW (λ f, (map_to_list (fbs_backendServices f)).*2).
Definition FakeBS_UpdateGlobalBackendService (be : BackendService) : M FakeBackendServices unit :=
  _ ← fbs_inject Op_Update be;
  _ ← modW (fbs_call Op_Update);
  modW (fbs_set <[bs_Name be := be]>).
Definition FakeBS_UpdateAlphaGlobalBackendService (be : AlphaBackendService) :
    M FakeBackendServices unit :=
  FakeBS_UpdateGlobalBackendService (toV1BackendService be).
Definition FakeBS_GetGlobalBackendServiceHealth (name instanceGroupLink : string) :
    M FakeBackendServices (list (option string)) :=
  be ← FakeBS_GetGlobalBackendService name;
  mret [Some "HEALTHY"].

Global Instance FakeBackendServices_cloud : BackendServices FakeBackendServices := {
  bsc_GetGlobalBackendService := FakeBS_GetGlobalBackendService;
  bsc_GetAlphaGlobalBackendService := FakeBS_GetAlphaGlobalBackendService;
  bsc_UpdateGlobalBackendService := FakeBS_UpdateGlobalBackendService;
  bsc_UpdateAlphaGlobalBackendService := FakeBS_UpdateAlphaGlobalBackendService;
  bsc_CreateGlobalBackendService := FakeBS_CreateGlobalBackendService;
  bsc_DeleteGlobalBackendService := FakeBS_DeleteGlobalBackendService;
  bsc_ListGlobalBackendServices := FakeBS_ListGlobalBackendServices;
  bsc_GetGlobalBackendServiceHealth := FakeBS_GetGlobalBackendServiceHealth;
}.

(** [FakeProbeProvider]: probes by service port; the first match of a list. *)
Definition FakeProbeProvider_GetProbe {W} (probes : list (ServicePort * Probe)) (port : ServicePort) :
    M W (option Probe) :=
  match filter (λ kv, kv.1 = port) probes with
  | kv :: _ => if decide (is_Some (pb_HTTPGet kv.2)) then mret (Some kv.2) else mret None
  | [] => mret None
  end.
