(* ===== verification/BackendsSpec.v ===== *)
(** * BackendsSpec: what the backend pool achieves

    Theorems about the operations of [Backends] (pkg/backends/backends.go)
    against the promises of the cloud, the health checker and the other
    interfaces, and a proof that the fakes with the real health checker keep
    these promises. *)

From S2P Require Import Prelude GoLang GoStrings Compute Utils Namer HealthChecks Instances Backends.

(** ** What the pool relies on *)

Section laws.
Context {W : Type} `{BackendServices W, NEGGetter W, HealthChecker W} (b : Backends W).

Definition bk_pool (w : W) : gmap string (option BackendService) := lget (bk_snapshotter b) w.

(** [bsv] is the backend services by name, [hcv w p] is the self link of
    the health check of port [p], if it has one, [ngv] is the network endpoint
    groups by zone and name, and [binv] is what the worlds of a running
    controller satisfy. As for the
    other clouds: a failed call changes nothing, a read or a deletion answers
    not-found only when the object is absent, and a write stores the object
    with a self link of the cloud's choice. The health checker returns the self
    link of the check it leaves. A probe has an HTTP handler. *)
Class BackendWorld := {
  bsv : W → gmap string BackendService;
  hcv : W → Z → option string;
  ngv : string → string → option NetworkEndpointGroup;
  binv : W → Prop;
}.

Context `{BackendWorld}.

(** A call that leaves services, health checks and pool as they are. *)
Definition same (w w' : W) : Prop :=
  binv w' ∧ bsv w' = bsv w ∧ (∀ p, port_range p → hcv w' p = hcv w p) ∧ bk_pool w' = bk_pool w.
(** A call that leaves all but the services. *)
Definition same_but_services (w w' : W) : Prop :=
  binv w' ∧ (∀ p, port_range p → hcv w' p = hcv w p) ∧ bk_pool w' = bk_pool w.
(** A call that leaves all but the health check of a port. *)
Definition same_but_check (port : Z) (w w' : W) : Prop :=
  binv w' ∧ bsv w' = bsv w ∧ bk_pool w' = bk_pool w ∧
  (∀ p, port_range p → p ≠ port → hcv w' p = hcv w p).

Class BackendLaws := {
  bk_lens_laws :: LensLaws (bk_snapshotter b);
  bsv_name w n be : binv w → bsv w !! n = Some be → bs_Name be = n;
  pool_set s w : binv w →
    binv (lset (bk_snapshotter b) s w) ∧ bsv (lset (bk_snapshotter b) s w) = bsv w ∧
    (∀ p, hcv (lset (bk_snapshotter b) s w) p = hcv w p);
  GetBS_spec name w : binv w →
    wp (bsc_GetGlobalBackendService name)
      (λ be w', same w w' ∧ bsv w !! name = Some be)
      (λ e w', same w w' ∧ (IsHTTPErrorCode e StatusNotFound = true → bsv w !! name = None)) w;
  CreateBS_spec be w : binv w →
    wp (bsc_CreateGlobalBackendService be)
      (λ _ w', same_but_services w w' ∧ ∃ l, bsv w' = <[bs_Name be := bs_with_SelfLink l be]> (bsv w))
      (λ _ w', same w w') w;
  UpdateBS_spec be w : binv w →
    wp (bsc_UpdateGlobalBackendService be)
      (λ _ w', same_but_services w w' ∧ ∃ l, bsv w' = <[bs_Name be := bs_with_SelfLink l be]> (bsv w))
      (λ _ w', same w w') w;
  DeleteBS_spec name w : binv w →
    wp (bsc_DeleteGlobalBackendService name)
      (λ _ w', same_but_services w w' ∧ bsv w' = delete name (bsv w))
      (λ e w', same w w' ∧ (IsHTTPErrorCode e StatusNotFound = true → bsv w !! name = None)) w;
  GetAlphaBS_spec name w : binv w →
    wp (bsc_GetAlphaGlobalBackendService name)
      (λ a w', same w w' ∧ bsv w !! name = Some (toV1BackendService a))
      (λ e w', same w w') w;
  UpdateAlphaBS_spec a w : binv w →
    wp (bsc_UpdateAlphaGlobalBackendService a)
      (λ _ w', same_but_services w w' ∧
         ∃ l, bsv w' = <[abs_Name a := bs_with_SelfLink l (toV1BackendService a)]> (bsv w))
      (λ _ w', same w w') w;
  GetNEG_spec name zone w : binv w →
    wp (ngg_GetNetworkEndpointGroup name zone)
      (λ neg w', same w w' ∧ ngv zone name = Some neg) (λ _ w', same w w') w;
  hcr_New_spec port proto neg :
    hck_Port (hcr_New port proto neg) = port ∧
    hck_Name (hcr_New port proto neg) = Namer_Backend (bk_namer b) port ∧
    hck_SelfLink (hcr_New port proto neg) = "";
  GetLegacy_spec port w : binv w →
    wp (hcr_GetLegacy port) (λ hc w', same w w' ∧ hhc_Port hc = port) (λ _ w', same w w') w;
  DeleteLegacy_spec port w : binv w →
    wp (hcr_DeleteLegacy port) (λ _ w', same w w') (λ _ w', same w w') w;
  SyncHC_spec hc w : binv w → port_range (hck_Port hc) →
    hck_Name hc = Namer_Backend (bk_namer b) (hck_Port hc) → hck_SelfLink hc = "" →
    wp (hcr_Sync hc)
      (λ link w', same_but_check (hck_Port hc) w w' ∧ hcv w' (hck_Port hc) = Some link)
      (λ _ w', same_but_check (hck_Port hc) w w') w;
  DeleteHC_spec port w : binv w → port_range port →
    wp (hcr_Delete port)
      (λ _ w', same_but_check port w w' ∧ hcv w' port = None)
      (λ e w', same w w' ∧ (IsHTTPErrorCode e StatusNotFound = true → hcv w port = None)) w;
  GetProbe_spec f sp w : binv w → bk_prober b = Some f →
    wp (f sp)
      (λ r w', same w w' ∧ ∀ p, r = Some p → is_Some (pb_HTTPGet p)) (λ _ w', same w w') w;
}.

End laws.
Arguments BackendWorld : clear implicits.
Arguments BackendLaws {W _ _ _} b {_}.

(** ** Delete and GC *)

Section gc.
Context {W : Type} `{BackendServices W, NEGGetter W, HealthChecker W, NodePool W, MapRange}.
Context `{!BackendWorld W} (b : Backends W) `{!BackendLaws b}.

Definition be_name (p : Z) : string := Namer_Backend (bk_namer b) p.

Lemma same_refl w : binv w → same b w w.
Proof. by repeat split. Qed.

Lemma pool_Delete_spec key w :
  binv w →
  wp (bk_pool_Delete b key)
    (λ _ w', binv w' ∧ bsv w' = bsv w ∧ (∀ p, hcv w' p = hcv w p) ∧
       bk_pool b w' = delete key (bk_pool b w)) (λ _ _, False) w.
Proof.
  intros Hi. unfold bk_pool_Delete, bk_pool. wp_steps. rewrite lens_get_set.
  by destruct (pool_set b (delete key (lget (bk_snapshotter b) w)) w Hi) as (?&?&?).
Qed.
Lemma pool_Add_spec key be w :
  binv w →
  wp (bk_pool_Add b key be)
    (λ _ w', binv w' ∧ bsv w' = bsv w ∧ (∀ p, hcv w' p = hcv w p) ∧
       bk_pool b w' = <[key := be]> (bk_pool b w)) (λ _ _, False) w.
Proof.
  intros Hi. unfold bk_pool_Add, bk_pool. wp_steps. rewrite lens_get_set.
  by destruct (pool_set b (<[key := be]> (lget (bk_snapshotter b) w)) w Hi) as (?&?&?).
Qed.

(** What is not of a node port is as it was. *)
Definition others_kept (w w' : W) : Prop :=
  (∀ n, (∀ p, port_range p → n ≠ be_name p) → bsv w' !! n = bsv w !! n) ∧
  (∀ k, (∀ p, port_range p → k ≠ portKey p) → bk_pool b w' !! k = bk_pool b w !! k).
(** The services and health checks of the ports of [D] are gone, the others
    are as they were. *)
Definition deleted_ports (D : Z → Prop) (w w' : W) : Prop :=
  binv w' ∧
  (∀ p, port_range p → D p → bsv w' !! be_name p = None ∧ hcv w' p = None ∧
     bk_pool b w' !! portKey p = None) ∧
  (∀ p, port_range p → ¬ D p → bsv w' !! be_name p = bsv w !! be_name p ∧
     hcv w' p = hcv w p ∧ bk_pool b w' !! portKey p = bk_pool b w !! portKey p) ∧
  others_kept w w'.
(** The same for the ports outside [D] only. *)
Definition spared (D : Z → Prop) (w w' : W) : Prop :=
  binv w' ∧
  (∀ p, port_range p → ¬ D p → bsv w' !! be_name p = bsv w !! be_name p ∧
     hcv w' p = hcv w p ∧ bk_pool b w' !! portKey p = bk_pool b w !! portKey p) ∧
  others_kept w w'.

(** The steps of [Delete] before the pool is touched: both deletions took
    effect, or at most the first one. *)
Definition gone (port : Z) (w w' : W) : Prop :=
  binv w' ∧ bsv w' = delete (be_name port) (bsv w) ∧
  (∀ p, port_range p → hcv w' p = (if decide (p = port) then None else hcv w p)) ∧ bk_pool b w' = bk_pool b w.
Definition kept (port : Z) (w w' : W) : Prop :=
  binv w' ∧ (bsv w' = bsv w ∨ bsv w' = delete (be_name port) (bsv w)) ∧
  (∀ p, port_range p → hcv w' p = hcv w p) ∧ bk_pool b w' = bk_pool b w.

Lemma DeleteHC_gone port w w1 :
  port_range port → same_but_services b w w1 → bsv w1 = delete (be_name port) (bsv w) →
  wp (hcr_Delete port) (λ _ w2, gone port w w2)
    (λ e w2, kept port w w2 ∧ (IsHTTPErrorCode e StatusNotFound = true → gone port w w2)) w1.
Proof.
  intros Hp (Hi1&Hh1&Hp1) Hb1. wp_use DeleteHC_spec; [done..| |]; cbv beta.
  - intros _ w2 [(Hi2&Hb2&Hp2&Hh2) Hn]. split; [done|]. split; [congruence|].
    split; [|congruence]. intros p Hr. case_decide as Hne; [by subst|]. by rewrite Hh2, Hh1.
  - intros e w2 [(Hi2&Hb2&Hh2&Hp2) Hnf].
    assert (∀ p, port_range p → hcv w2 p = hcv w p) as Hh by (intros; rewrite Hh2, Hh1; done).
    split; [split; [done|]; split; [right; congruence|]; split; [done|congruence]|].
    intros He. split; [done|]. split; [congruence|]. split; [|congruence].
    intros p Hr. rewrite Hh by done. case_decide as Hne; [|done]. subst p. rewrite <-Hh1 by done. by apply Hnf.
Qed.
Lemma gone_pool_Delete port w w1 :
  port_range port → gone port w w1 →
  wp (bk_pool_Delete b (portKey port))
    (λ _ w', deleted_ports (λ p, p = port) w w') (λ _ _, False) w1.
Proof.
  intros Hp (Hi2&Hb2&Hh2&Hp2). wp_use pool_Delete_spec; [done| |done]. cbv beta.
  intros _ w3 (Hi3&Hb3&Hh3&Hp3). split; [done|]. rewrite Hb3, Hp3, Hb2, Hp2. split; [|split].
  - intros p Hr ->. rewrite !lookup_delete_eq, Hh3, Hh2 by done. by rewrite decide_True.
  - intros p Hr Hne. rewrite Hh3, Hh2, decide_False by done. rewrite !lookup_delete_ne.
    + done.
    + intros He%Itoa_inj. auto.
    + intros He%Backend_inj; auto.
  - split; intros n Hn; rewrite ?Hb3, ?Hp3, ?Hb2, ?Hp2; (rewrite lookup_delete_ne; [done|]; intros <-; by eapply Hn).
Qed.
Lemma kept_spared port w w' : port_range port → kept port w w' → spared (λ p, p = port) w w'.
Proof.
  intros Hp (Hi2&Hb2&Hh2&Hp2). split; [done|]. rewrite Hp2. split.
  - intros p Hr Hne. split; [|auto]. destruct Hb2 as [-> | ->]; [done|].
    rewrite lookup_delete_ne; [done|]. intros He%Backend_inj; auto.
  - split; [|by rewrite Hp2]. intros n Hn. destruct Hb2 as [-> | ->]; [done|].
    rewrite lookup_delete_ne; [done|]. intros <-. by eapply Hn.
Qed.
(** The deferred function of [Delete]. *)
Lemma Delete_end port e w w1 :
  port_range port →
  kept port w w1 ∧ (IsHTTPErrorCode e StatusNotFound = true → gone port w w1) →
  wp (if IsHTTPErrorCode e StatusNotFound then bk_pool_Delete b (portKey port) else throw e)
    (λ _ w', deleted_ports (λ p, p = port) w w')
    (λ e w', spared (λ p, p = port) w w' ∧ IsHTTPErrorCode e StatusNotFound = false) w1.
Proof.
  intros Hp [Hk Hg]. destruct (IsHTTPErrorCode e StatusNotFound) eqn:He.
  - eapply wp_mono; [apply gone_pool_Delete; auto|done|done].
  - apply wp_throw. eauto using kept_spared.
Qed.

Lemma Delete_spec port w :
  binv w → port_range port →
  wp (Backends_Delete b port)
    (λ _ w', deleted_ports (λ p, p = port) w w')
    (λ e w', spared (λ p, p = port) w w' ∧ IsHTTPErrorCode e StatusNotFound = false) w.
Proof.
  intros Hi Hp. unfold Backends_Delete. fold (be_name port).
  apply wp_bind, wp_try, wp_bind, wp_try. wp_use DeleteBS_spec; [done|..]; cbv beta.
  - intros _ w1 [Hs1 Hb1]. eapply wp_mono; [by apply (DeleteHC_gone port w w1)|..].
    + intros ? w2 Hg. eapply wp_mono; [eapply gone_pool_Delete; [done|exact Hg]|done|done].
    + intros e w2 Hk. by apply Delete_end.
  - intros e w1 [(Hi1&Hb1&Hh1&Hp1) Hnf]. destruct (IsHTTPErrorCode e StatusNotFound) eqn:He; simpl negb.
    + eapply wp_mono; [apply (DeleteHC_gone port w w1); [done|by split_and!|]|..].
      * rewrite Hb1, delete_id; auto.
      * intros ? w2 Hg. eapply wp_mono; [eapply gone_pool_Delete; [done|exact Hg]|done|done].
      * intros e2 w2 Hk. by apply Delete_end.
    + apply wp_throw. rewrite He. apply wp_throw. split; [|done].
      apply kept_spared; [done|]. split; [done|]. split; [by left|done].
Qed.

(** The ports of the pool that [GC] must collect. *)
Definition garbage (svcNodePorts : list ServicePort) (w : W) (p : Z) : Prop :=
  is_Some (bk_pool b w !! portKey p) ∧ portKey p ∉ bk_ignoredPorts b ∧
  ∀ sp, sp ∈ svcNodePorts → sp_Port sp ≠ p.

Lemma others_kept_trans w1 w2 w3 : others_kept w1 w2 → others_kept w2 w3 → others_kept w1 w3.
Proof. intros [Hn Hk] [Hn' Hk']. split; intros; [rewrite Hn', Hn|rewrite Hk', Hk]; done. Qed.
Lemma deleted_spared D w w' : deleted_ports D w w' → spared D w w'.
Proof. intros (?&_&?&?). by split. Qed.
Lemma deleted_trans D D' w1 w2 w3 :
  (∀ p, Decision (D' p)) →
  deleted_ports D w1 w2 → deleted_ports D' w2 w3 → deleted_ports (λ p, D p ∨ D' p) w1 w3.
Proof.
  intros Hdec (_&Hd1&Hk1&Hn1) (Hi&Hd2&Hk2&Hn2). split; [done|]. split; [|split].
  - intros p Hr HD. destruct (Hdec p) as [|Hn]; [auto|]. destruct HD as [HD|]; [|done].
    destruct (Hk2 p Hr Hn) as (->&->&->). auto.
  - intros p Hr HD. destruct (Hk2 p Hr) as (->&->&->); [tauto|]. apply Hk1; tauto.
  - by eapply others_kept_trans.
Qed.
Lemma spared_trans D D' w1 w2 w3 :
  spared D w1 w2 → spared D' w2 w3 → spared (λ p, D p ∨ D' p) w1 w3.
Proof.
  intros (_&Hk1&Hn1) (Hi&Hk2&Hn2). split; [done|]. split.
  - intros p Hr HD. destruct (Hk2 p Hr) as (->&->&->); [tauto|]. apply Hk1; tauto.
  - by eapply others_kept_trans.
Qed.
Lemma spared_mono (D D' : Z → Prop) w w' :
  (∀ p, port_range p → D p → D' p) → spared D w w' → spared D' w w'.
Proof. intros HD (?&Hk&?). split; [done|]. split; [|done]. intros p Hr Hn. apply Hk; auto. Qed.
Lemma deleted_iff (D D' : Z → Prop) w w' :
  (∀ p, port_range p → (D p ↔ D' p)) → deleted_ports D w w' → deleted_ports D' w w'.
Proof.
  intros HD (?&Hd&Hk&?). split; [done|]. split; [|split; [|done]].
  - intros p Hr Hp. apply Hd; [done|]. by apply HD.
  - intros p Hr Hp. apply Hk; [done|]. by rewrite HD.
Qed.

(** The keys of a pool, after some were deleted. *)
Lemma port_key_cases k : (∃ p, port_range p ∧ k = portKey p) ∨ (∀ p, port_range p → k ≠ portKey p).
Proof.
  assert (∀ p, port_range p → k = portKey p → ParseUint16 k = Some p) as Hparse
    by (intros p Hp ->; apply ParseUint16_Itoa; unfold port_range in Hp; lia).
  destruct (ParseUint16 k) as [q|] eqn:Hq; [|right; intros p Hp Hk; by discriminate (Hparse p Hp Hk)].
  unfold port_range in *. destruct (decide ((0 ≤ q < 65536)%Z ∧ k = portKey q)) as [?|Hno]; [by left; exists q|right].
  intros p Hp Hk. injection (Hparse p Hp Hk) as ->. by apply Hno.
Qed.
Definition port_keyed (w : W) : Prop := ∀ k, is_Some (bk_pool b w !! k) → ∃ p, port_range p ∧ k = portKey p.
Lemma deleted_keyed D w w' : deleted_ports D w w' → port_keyed w → port_keyed w'.
Proof.
  intros (_&_&_&_&Hk) Hw k Hin. destruct (port_key_cases k) as [?|Hno]; [done|]. apply Hw. by rewrite <-Hk.
Qed.

Lemma gcPort_spec svcNodePorts p w :
  binv w → port_range p →
  let known : gset string := list_to_set ((λ sp, portKey (sp_Port sp)) <$> svcNodePorts) in
  let G := portKey p ∉ bk_ignoredPorts b ∧ ∀ sp, sp ∈ svcNodePorts → sp_Port sp ≠ p in
  wp (Backends_gcPort b known (portKey p))
    (λ _ w', deleted_ports (λ q, q = p ∧ G) w w')
    (λ _ w', spared (λ q, q = p ∧ G) w w') w.
Proof.
  intros Hi Hp known G. unfold Backends_gcPort.
  assert (portKey p ∈ known ↔ ∃ sp, sp ∈ svcNodePorts ∧ sp_Port sp = p) as Hk.
  { unfold known. rewrite elem_of_list_to_set, list_elem_of_fmap. split.
    - intros (sp&He%Itoa_inj&Hin). eauto.
    - intros (sp&Hin&<-). eauto. }
  unfold portKey at 1. rewrite ParseUint16_Itoa by (unfold port_range in Hp; lia).
  case_decide as Hd.
  - apply wp_ret. eapply (deleted_iff (λ _, False)); [|by repeat split].
    intros q _. unfold G. split; [done|]. intros (->&Hig&Hsp).
    destruct Hd as [(sp&Hin&<-)%Hk|]; [by apply (Hsp sp)|done].
  - assert (G) as HG by (split; [tauto|]; intros sp Hin He; apply Hd; left; apply Hk; eauto).
    apply wp_bind, wp_try. wp_use Delete_spec; [done..| |]; cbv beta.
    + intros _ w' Hw. apply wp_ret. eapply deleted_iff; [|done]. naive_solver.
    + intros e w' [Hw ->]. apply wp_throw. eapply spared_mono; [|done]. naive_solver.
Qed.

Lemma BackendsGC_ok svcNodePorts w :
  binv w → port_keyed w →
  wp (Backends_GC b svcNodePorts)
    (λ _ w', deleted_ports (garbage svcNodePorts w) w w')
    (λ _ w', spared (garbage svcNodePorts w) w w') w.
Proof.
  intros Hi Hkeys. unfold Backends_GC. apply wp_bind, wp_getW.
  set (G := λ p, portKey p ∉ bk_ignoredPorts b ∧ ∀ sp, sp ∈ svcNodePorts → sp_Port sp ≠ p).
  eapply wp_mono; [apply (wp_forEach _ (range (bk_pool b w))
    (λ d w', deleted_ports (λ p, portKey p ∈ d.*1 ∧ G p) w w')
    (λ _ w', spared (garbage svcNodePorts w) w w'))|..].
  - eapply (deleted_iff (λ _, False)); [|by repeat split].
    intros p _. split; [done|]. by intros [?%elem_of_nil _].
  - intros d [k v] w1 Hpre Hd1. destruct (range_fresh _ _ _ _ Hpre) as [Hfresh Hk].
    destruct (Hkeys k (mk_is_Some _ _ Hk)) as (p&Hp&->). simpl.
    wp_use gcPort_spec; [by destruct Hd1|done|..]; cbv beta.
    + intros _ w2 Hd2. eapply deleted_iff; [|eapply deleted_trans; [|exact Hd1|exact Hd2]].
      * intros q _. cbv beta. rewrite fmap_app, elem_of_app. simpl. rewrite list_elem_of_singleton.
        unfold G. split.
        -- intros [[? ?]|[-> ?]]; tauto.
        -- intros [[?|He%Itoa_inj] ?]; [tauto|]. subst. tauto.
      * intros q. destruct (decide (q = p)); [|right; tauto].
        destruct (decide (Forall (λ sp, sp_Port sp ≠ p) svcNodePorts)) as [HF|HF];
          rewrite Forall_forall in HF; destruct (decide (portKey p ∈ bk_ignoredPorts b));
          first [left; tauto|right; tauto].
    + intros e w2 Hs2. eapply spared_mono; [|eapply spared_trans; [by apply deleted_spared|exact Hs2]].
      intros q _ [[Hq HG]|[-> HG]]; (split; [|exact HG]).
      * destruct Hpre as [r Hpre]. apply range_keys. rewrite Hpre, !fmap_app. set_solver.
      * by eexists.
  - intros ? w' Hd. eapply deleted_iff; [|exact Hd]. intros p _. unfold garbage. cbv beta.
    rewrite range_keys. done.
  - done.
Qed.

(** C11. Garbage collection of backends. If the keys of the pool are node
    ports, [GC] that returns without error has deleted the backend service
    and the health check of exactly the pooled ports that no ingress uses
    and that are not excluded, and dropped them from the pool. Even when it
    fails half-way, the backends in use and the excluded ones, and every
    backend service that is not a node port's, are untouched. *)
Theorem GC_spec svcNodePorts w :
  binv w → port_keyed w →
  wp (Backends_GC b svcNodePorts)
    (λ _ w', deleted_ports (garbage svcNodePorts w) w w')
    (λ _ w', spared (garbage svcNodePorts w) w w') w.
Proof. apply BackendsGC_ok. Qed.
End gc.

(** ** Ensure *)

Section ensure.
Context {W : Type} `{BackendServices W, NEGGetter W, HealthChecker W, NodePool W, MapRange}.
Context `{!BackendWorld W} (b : Backends W) `{!BackendLaws b}.

Lemma same_trans w1 w2 w3 : same b w1 w2 → same b w2 w3 → same b w1 w3.
Proof.
  intros (?&?&Hh&?) (?&?&Hh'&?). split; [done|]. split; [congruence|]. split; [|congruence].
  intros p Hr. by rewrite Hh', Hh.
Qed.
Lemma same_services w w' : same b w w' → same_but_services b w w'.
Proof. intros (?&?&?&?). done. Qed.
Lemma services_trans w1 w2 w3 :
  same_but_services b w1 w2 → same_but_services b w2 w3 → same_but_services b w1 w3.
Proof.
  intros (?&Hh&?) (?&Hh'&?). split; [done|]. split; [|congruence].
  intros p Hr. by rewrite Hh', Hh.
Qed.

(** [ensureHealthCheck] leaves a health check for the port. *)
Lemma ensureHealthCheck_spec sp w :
  binv w → port_range (sp_Port sp) →
  wp (Backends_ensureHealthCheck b sp)
    (λ link w', same_but_check b (sp_Port sp) w w' ∧ hcv w' (sp_Port sp) = Some link)
    (λ _ w', same_but_check b (sp_Port sp) w w') w.
Proof.
  intros Hi Hp. unfold Backends_ensureHealthCheck.
  destruct (hcr_New_spec b (sp_Port sp) (sp_Protocol sp) (sp_NEGEnabled sp)) as (Hport&Hname&Hlink).
  set (hc := hcr_New _ _ _) in *.
  assert (∀ hc' w1, same b w w1 → hck_Port hc' = sp_Port sp → hck_Name hc' = hck_Name hc →
    hck_SelfLink hc' = hck_SelfLink hc →
    wp (hcr_Sync hc') (λ link w', same_but_check b (sp_Port sp) w w' ∧ hcv w' (sp_Port sp) = Some link)
      (λ _ w', same_but_check b (sp_Port sp) w w') w1) as Hsync.
  { intros hc' w1 (Hi1&Hb1&Hh1&Hp1) Hport' Hname' Hlink'.
    assert (∀ w2, same_but_check b (sp_Port sp) w1 w2 → same_but_check b (sp_Port sp) w w2) as Htr.
    { intros w2 (?&?&?&Hh2). split; [done|]. split; [congruence|]. split; [congruence|].
      intros q Hq Hne. by rewrite Hh2, Hh1. }
    wp_use SyncHC_spec; rewrite ?Hport'; [done|done|by rewrite Hname', Hname|by rewrite Hlink'|..]; cbv beta.
    - intros link w2 [Hs ?]. auto.
    - intros e w2 Hs. auto. }
  assert (∀ w1, same b w w1 → same_but_check b (sp_Port sp) w w1) as Hweak
    by (intros w1 (?&?&?&?); split_and!; auto).
  apply wp_bind, wp_try. wp_use GetLegacy_spec; [done|..]; cbv beta.
  - intros old w1 [Hs Hold]. apply wp_bind, wp_ret. by apply Hsync.
  - intros e w1 Hs. apply wp_bind. destruct (IsNotFoundError e); simpl negb; [|apply wp_throw; auto].
    destruct (bk_prober b) as [f|] eqn:Hf; [|apply wp_ret; by apply Hsync].
    apply wp_bind. wp_use GetProbe_spec; [by destruct Hs|exact Hf|..]; cbv beta.
    + intros probe w2 [Hs2 Hprobe]. assert (same b w w2) by (by eapply same_trans).
      destruct probe as [probe|]; [|apply wp_ret; by apply Hsync].
      destruct (Hprobe _ eq_refl) as [a Ha].
      eapply wp_ofOption; [unfold applyProbeSettingsToHC; by rewrite Ha|]. by apply Hsync.
    + intros e2 w2 Hs2. apply Hweak. by eapply same_trans.
Qed.

(** The backend service points to all the instance groups. *)
Definition linked (igs : list InstanceGroup) (be : BackendService) : Prop :=
  ∀ ig, ig ∈ igs → ig_SelfLink ig ∈ bk_Group <$> bs_Backends be.
(** What [edgeHop] leaves: the instance group backends it found are kept. *)
Definition hopped (igs : list InstanceGroup) (be be' : BackendService) : Prop :=
  linked igs be' ∧ be' = bs_with_Backends (bs_Backends be') be ∧
  ∀ x, x ∈ bs_Backends be → Contains (bk_Group x) "instanceGroups" = true → x ∈ bs_Backends be'.
Definition stored (be : BackendService) (w w' : W) : Prop :=
  same_but_services b w w' ∧ ∃ l, bsv w' = <[bs_Name be := bs_with_SelfLink l be]> (bsv w).

Lemma edgeHop_modes_spec be orig add modes errs w :
  binv w →
  wp (edgeHop_modes be orig add modes errs)
    (λ r w', match r.2 with
      | None => ∃ bm, bm ∈ modes ∧ bs_Backends r.1 = orig ++ getBackendsForIGs add bm ∧
          r.1 = bs_with_Backends (bs_Backends r.1) be ∧ stored r.1 w w'
      | Some _ => same b w w' end) (λ _ _, False) w.
Proof.
  intros Hi. revert be w Hi errs. induction modes as [|bm modes IH]; intros be w Hi errs; simpl.
  { apply wp_ret. by apply same_refl. }
  apply wp_bind, wp_try. wp_use UpdateBS_spec; [done|..]; cbv beta.
  - intros _ w1 Hw1. apply wp_ret. simpl. exists bm. split_and!; [set_solver|done..].
  - intros e w1 Hs. destruct (IsHTTPErrorCode e StatusBadRequest); [|by apply wp_ret].
    wp_use IH; [by destruct Hs| |done]. cbv beta. intros [be' [err|]] w2; simpl.
    + intros. by eapply same_trans.
    + intros (bm'&Hin&Hb&Heq&Hst&l&Hl). exists bm'. split; [set_solver|]. split; [done|].
      split; [by rewrite Heq|]. split; [eapply services_trans; [by apply same_services|done]|].
      exists l. rewrite Hl. by destruct Hs as (_&->&_).
Qed.

(** The links of instance groups name the collection they are in. *)
Definition ig_links (igs : list InstanceGroup) : Prop :=
  ∀ ig, ig ∈ igs → Contains (ig_SelfLink ig) "instanceGroups" = true.

Lemma edgeHop_ok be igs w :
  binv w → ig_links igs →
  wp (Backends_edgeHop b be igs)
    (λ r w', match r.2 with
      | None => hopped igs be r.1 ∧ ((r.1 = be ∧ same b w w') ∨ stored r.1 w w')
      | Some _ => same b w w' end) (λ _ _, False) w.
Proof.
  intros Hi Higs. unfold Backends_edgeHop. case_decide as Hsub.
  - apply wp_ret. simpl. split; [|left; split; [done|by apply same_refl]].
    split; [|split; [by destruct be|done]]. intros ig Hig.
    assert (ig_SelfLink ig ∈ (list_to_set (bk_Group <$> bs_Backends be) : gset string)) as Hin.
    { apply Hsub, elem_of_list_to_set, list_elem_of_fmap. eauto. }
    by apply elem_of_list_to_set in Hin.
  - wp_use edgeHop_modes_spec; [done| |done]. cbv beta. intros [be' [err|]] w'; simpl; [done|].
    intros (bm&_&Hb&Heq&Hst). split; [|by right]. split; [|split; [done|]].
    + intros ig Hig. rewrite Hb, fmap_app, elem_of_app.
      destruct (decide (ig_SelfLink ig ∈ (list_to_set (bk_Group <$> bs_Backends be) : gset string)))
        as [Hin|Hin].
      * left. apply elem_of_list_to_set, list_elem_of_fmap in Hin as (x&Hx&Hin).
        apply list_elem_of_fmap. exists x. split; [done|]. apply list_elem_of_filter.
        split; [|done]. rewrite <-Hx. by apply Higs.
      * right. unfold getBackendsForIGs. rewrite <-list_fmap_compose. apply list_elem_of_fmap.
        exists ig. split; [done|]. by apply list_elem_of_filter.
    + intros x Hx Hc. rewrite Hb. apply elem_of_app. left. by apply list_elem_of_filter.
Qed.

(** The backend service serves the port: protocol, description, health check
    and, for instance groups, the links. *)
Definition be_serves (p : ServicePort) (hcLink : string) (igs : list InstanceGroup)
    (be : BackendService) : Prop :=
  bs_Protocol be = sp_Protocol p ∧ bs_Description be = ServicePort_Description p ∧
  retrieveObjectName (existingHCLink be) = retrieveObjectName hcLink ∧
  (sp_NEGEnabled p = false → linked igs be).
(** Only one service changed. *)
Definition only_service (name : string) (w w' : W) : Prop :=
  same_but_services b w w' ∧ ∀ n, n ≠ name → bsv w' !! n = bsv w !! n.

Lemma only_service_trans name w1 w2 w3 :
  only_service name w1 w2 → only_service name w2 w3 → only_service name w1 w3.
Proof.
  intros [? Hn] [? Hn']. split; [by eapply services_trans|]. intros n Hne. by rewrite Hn', Hn.
Qed.
Lemma same_only name w w' : same b w w' → only_service name w w'.
Proof. intros Hs. split; [by apply same_services|]. by destruct Hs as (_&->&_). Qed.
Lemma stored_only be w w' : stored be w w' → only_service (bs_Name be) w w'.
Proof. intros [? [l Hl]]. split; [done|]. intros. by rewrite Hl, lookup_insert_ne. Qed.

Lemma needsUpdate_false be p hcLink :
  needsUpdate be p hcLink = false →
  bs_Protocol be = sp_Protocol p ∧ bs_Description be = ServicePort_Description p ∧
  retrieveObjectName (existingHCLink be) = retrieveObjectName hcLink.
Proof.
  unfold needsUpdate. rewrite !orb_false_iff, !negb_false_iff, !bool_decide_eq_true. tauto.
Qed.

Lemma reconcile_tail p igs hcLink be w :
  binv w → ig_links igs → bsv w !! bs_Name be = Some be ∨ (∃ l, bsv w !! bs_Name be = Some (bs_with_SelfLink l be)) →
  bs_Protocol be = sp_Protocol p → bs_Description be = ServicePort_Description p →
  retrieveObjectName (existingHCLink be) = retrieveObjectName hcLink →
  wp (if decide (length igs = 0) then mret (be, None)
      else if sp_NEGEnabled p then mret (be, None) else Backends_edgeHop b be igs)
    (λ r w', only_service (bs_Name be) w w' ∧
      (r.2 = None → ∃ be', bsv w' !! bs_Name be = Some be' ∧ be_serves p hcLink igs be'))
    (λ _ _, False) w.
Proof.
  intros Hi Higs Hbe Hprot Hdesc Hhc.
  assert (∀ w', same b w w' → (sp_NEGEnabled p = false → linked igs be) →
    only_service (bs_Name be) w w' ∧
    ∃ be', bsv w' !! bs_Name be = Some be' ∧ be_serves p hcLink igs be') as Hdone.
  { intros w' Hs Hl. split; [by apply same_only|]. destruct Hs as (_&->&_).
    destruct Hbe as [Hbe|[l Hbe]]; rewrite Hbe; eexists; split; done. }
  case_decide as Hd; [|destruct (sp_NEGEnabled p) eqn:Hneg].
  - apply wp_ret. apply nil_length_inv in Hd as ->.
    destruct (Hdone w (same_refl b w Hi)); [intros _ ig Hig; by apply elem_of_nil in Hig|]. auto.
  - apply wp_ret. destruct (Hdone w (same_refl b w Hi)); [done|]. auto.
  - wp_use edgeHop_ok; [done..| |done]. cbv beta. intros [be' [err|]] w'; simpl.
    + intros. split; [by apply same_only|done].
    + intros [(Hl&Heq&_) Hst]. destruct Hst as [[-> Hs]|Hst].
      * destruct (Hdone w' Hs); auto.
      * assert (bs_Name be' = bs_Name be) as Hn by (by rewrite Heq). rewrite <-Hn.
        split; [by apply stored_only|]. intros _. destruct Hst as [_ [l ->]]. rewrite lookup_insert_eq.
        eexists. split; [done|]. rewrite Heq. split_and!; try done.
Qed.

Lemma be_reconcile_spec p igs hcLink be w :
  binv w → ig_links igs → bsv w !! bs_Name be = Some be →
  wp (Backends_reconcile b p igs hcLink be)
    (λ r w', only_service (bs_Name be) w w' ∧
      (r.2 = None → ∃ be', bsv w' !! bs_Name be = Some be' ∧ be_serves p hcLink igs be'))
    (λ _ _, False) w.
Proof.
  intros Hi Higs Hbe. unfold Backends_reconcile.
  set (be1 := if needsUpdate be p hcLink then refreshed be p hcLink else be).
  assert (bs_Name be1 = bs_Name be) as Hn by (unfold be1; by destruct (needsUpdate be p hcLink)).
  assert (bs_Protocol be1 = sp_Protocol p ∧ bs_Description be1 = ServicePort_Description p ∧
    retrieveObjectName (existingHCLink be1) = retrieveObjectName hcLink) as (Hprot&Hdesc&Hhc).
  { unfold be1. destruct (needsUpdate be p hcLink) eqn:Hneed; [done|by apply needsUpdate_false]. }
  apply wp_bind. rewrite <-Hn. eapply (wp_mono _ (λ r w1, only_service (bs_Name be1) w w1 ∧ binv w1 ∧
    (r = inr tt → bsv w1 !! bs_Name be1 = Some be1 ∨
       ∃ l, bsv w1 !! bs_Name be1 = Some (bs_with_SelfLink l be1))) _ (λ _ _, False)); [| |done].
  { destruct (needsUpdate be p hcLink) eqn:Hneed.
    - apply wp_try. wp_use UpdateBS_spec; [done|..]; cbv beta.
      + intros [] w1 Hst. split; [by apply stored_only|]. destruct Hst as ((?&?&?)&l&->).
        split; [done|]. intros _. right. exists l. by rewrite lookup_insert_eq.
      + intros e w1 Hs. split; [by apply same_only|]. split; [by destruct Hs|done].
    - apply wp_ret. split; [by apply same_only, same_refl|]. split; [done|]. left.
      unfold be1. done. }
  intros [err|[]] w1 (Ho&Hi1&Hst).
  - apply wp_ret. simpl. split; [done|done].
  - specialize (Hst eq_refl). apply wp_bind.
    eapply (wp_mono _ (λ _ w2, same b w1 w2) _ (λ _ _, False)); [|cbv beta|done].
    + case_match; [|by apply wp_ret, same_refl]. apply wp_try.
      wp_use DeleteLegacy_spec; done.
    + intros _ w2 Hs2. wp_use reconcile_tail; [by destruct Hs2|done| |done..| |done].
      * by destruct Hs2 as (_&->&_).
      * cbv beta. intros r w3 [Ho3 Hr]. split; [|done].
        eapply only_service_trans; [done|]. eapply only_service_trans; [by apply same_only|done].
Qed.

(** What a call for one port leaves alone: the services and health checks of
    the other ports, and their entries of the pool. *)
Definition only_port (port : Z) (w w' : W) : Prop :=
  binv w' ∧
  (∀ n, n ≠ be_name b port → bsv w' !! n = bsv w !! n) ∧
  (∀ q, port_range q → q ≠ port → hcv w' q = hcv w q) ∧
  (∀ k, k ≠ portKey port → bk_pool b w' !! k = bk_pool b w !! k).

Lemma only_port_trans port w1 w2 w3 :
  only_port port w1 w2 → only_port port w2 w3 → only_port port w1 w3.
Proof.
  intros (?&Hb&Hh&Hp) (?&Hb'&Hh'&Hp'). split; [done|]. split_and!; intros.
  - by rewrite Hb', Hb.
  - by rewrite Hh', Hh.
  - by rewrite Hp', Hp.
Qed.
Lemma only_port_refl port w : binv w → only_port port w w.
Proof. by split. Qed.
Lemma check_only_port port w w' : same_but_check b port w w' → only_port port w w'.
Proof. intros (?&Hb&Hp&?). split; [done|]. by rewrite Hb, Hp. Qed.
Lemma service_only_port port w w' : only_service (be_name b port) w w' → only_port port w w'.
Proof. intros [(?&Hh&Hp) ?]. split; [done|]. split; [done|]. rewrite Hp. split; auto. Qed.

Lemma pool_Add_only_port port be w :
  binv w →
  wp (bk_pool_Add b (portKey port) be)
    (λ _ w', only_port port w w' ∧ bsv w' = bsv w ∧ (∀ p, hcv w' p = hcv w p) ∧
       is_Some (bk_pool b w' !! portKey port)) (λ _ _, False) w.
Proof.
  intros Hi. wp_use pool_Add_spec; [done| |done]. cbv beta. intros _ w' (?&Hb&Hh&Hp).
  split; [|rewrite Hp, lookup_insert_eq; eauto]. split; [done|]. rewrite Hb, Hp.
  split_and!; [done|by intros; rewrite Hh|intros; by rewrite lookup_insert_ne].
Qed.

Lemma Get_spec port w :
  binv w →
  wp (Backends_Get b port)
    (λ be w', only_port port w w' ∧ bsv w' = bsv w ∧ bsv w !! be_name b port = Some be ∧
      (port_range port → hcv w' port = hcv w port))
    (λ _ w', only_port port w w' ∧ bsv w' = bsv w ∧ (port_range port → hcv w' port = hcv w port)) w.
Proof.
  intros Hi. apply wp_bind. wp_use GetBS_spec; [done|..]; cbv beta.
  - intros be w1 [(Hi1&Hb1&Hh1&Hp1) Hbe]. apply wp_bind. wp_use pool_Add_only_port; [done| |done].
    cbv beta. intros _ w2 (Ho2&Hb2&Hh2&_). apply wp_ret. split_and!; [|congruence|done|].
    + eapply only_port_trans; [|done]. split; [done|]. rewrite Hb1, Hp1. split_and!; auto.
    + intros. by rewrite Hh2, Hh1.
  - intros e w1 [(Hi1&Hb1&Hh1&Hp1) _]. split_and!; [|done|auto]. split; [done|].
    rewrite Hb1, Hp1. split_and!; auto.
Qed.

Lemma be_create_spec namedPort hcLink p w :
  binv w → np_Port namedPort = sp_Port p →
  wp (Backends_create b namedPort hcLink p (be_name b (sp_Port p)))
    (λ be w', only_port (sp_Port p) w w' ∧ bsv w' !! be_name b (sp_Port p) = Some be ∧
      (port_range (sp_Port p) → hcv w' (sp_Port p) = hcv w (sp_Port p)))
    (λ _ w', only_port (sp_Port p) w w') w.
Proof.
  intros Hi Hnp. apply wp_bind. wp_use CreateBS_spec; [done|..]; cbv beta.
  - intros _ w1 Hst. assert (only_port (sp_Port p) w w1) as Ho
      by (apply stored_only in Hst; by apply service_only_port).
    destruct Hst as [(Hi1&Hh1&_) _]. rewrite Hnp. wp_use Get_spec; [done|..]; cbv beta.
    + intros be w2 (Ho2&Hb2&Hbe&Hh2). split; [by eapply only_port_trans|].
      split; [congruence|]. intros. rewrite Hh2, Hh1; done.
    + intros e w2 (Ho2&_). by eapply only_port_trans.
  - intros e w1 Hs. by apply service_only_port, same_only.
Qed.

Lemma getOrCreate_spec p hcLink w :
  binv w → port_range (sp_Port p) →
  wp (Backends_getOrCreate b p hcLink)
    (λ r w', only_port (sp_Port p) w w' ∧ ∀ be, r = inr be →
      hcv w' (sp_Port p) = hcv w (sp_Port p) ∧ bsv w' !! be_name b (sp_Port p) = Some be)
    (λ _ _, False) w.
Proof.
  intros Hi Hp. unfold Backends_getOrCreate. fold (be_name b (sp_Port p)).
  apply wp_bind, wp_try. wp_use Get_spec; [done|..]; cbv beta.
  - intros be w1 (Ho1&Hb1&Hbe&Hh1). apply wp_ret. split; [done|].
    intros ? [= <-]. split; [auto|congruence].
  - intros e w1 (Ho1&Hb1&Hh1). apply wp_try. wp_use be_create_spec; [by destruct Ho1|done|..]; cbv beta.
    + intros be w2 (Ho2&Hbe&Hh2). split; [by eapply only_port_trans|].
      intros ? [= <-]. split; [by rewrite Hh2, Hh1|done].
    + intros e2 w2 Ho2. split; [by eapply only_port_trans|done].
Qed.

Lemma ensure_body_spec p igs w :
  binv w → port_range (sp_Port p) → ig_links igs →
  wp (Backends_ensure_body b p igs)
    (λ r w', only_port (sp_Port p) w w' ∧ (r.2 = None → ∃ link be, hcv w' (sp_Port p) = Some link ∧
      bsv w' !! be_name b (sp_Port p) = Some be ∧ be_serves p link igs be))
    (λ _ _, False) w.
Proof.
  intros Hi Hp Higs. apply wp_bind, wp_try. wp_use ensureHealthCheck_spec; [done..| |];
    cbv beta; [|intros e w1 Hs; apply wp_ret; split; [by apply check_only_port|done]].
  intros hcLink w1 [Hs1 Hhc1]. apply check_only_port in Hs1. apply wp_bind.
  wp_use getOrCreate_spec; [by destruct Hs1|done| |done]. cbv beta. intros r w2 [Ho2 Hbe].
  assert (only_port (sp_Port p) w w2) as Ho12 by (by eapply only_port_trans).
  destruct r as [e|be]; [by apply wp_ret|]. destruct (Hbe _ eq_refl) as [Hh2 Hb2].
  pose proof (bsv_name b w2 _ _ ltac:(by destruct Ho2) Hb2) as Hname.
  apply wp_bind. wp_use be_reconcile_spec; [by destruct Ho2|done|by rewrite Hname| |done]. cbv beta.
  rewrite Hname. intros [be' err] w3 [Ho3 Hok]. apply wp_ret. simpl in *.
  split; [eapply only_port_trans; [done|by apply service_only_port]|].
  intros ->. destruct (Hok eq_refl) as (be3&?&?). exists hcLink, be3.
  destruct Ho3 as [(_&Hh3&_) _]. by rewrite Hh3, Hh2.
Qed.

(** The port has a health check and a backend service that points to it and
    serves the port. *)
Definition port_ready (igs : list InstanceGroup) (w : W) (p : ServicePort) : Prop :=
  ∃ link be, hcv w (sp_Port p) = Some link ∧
    bsv w !! be_name b (sp_Port p) = Some be ∧ be_serves p link igs be.

(** Only the links of the groups matter. *)
Lemma port_ready_groups igs igs' w p :
  (∀ ig, ig ∈ igs' → ∃ ig0, ig0 ∈ igs ∧ ig_SelfLink ig0 = ig_SelfLink ig) → port_ready igs w p → port_ready igs' w p.
Proof.
  intros Hl (link&be&?&?&?&?&?&Hlinked). exists link, be. split_and!; [done..|]. split_and!; [done..|].
  intros Hneg ig (ig0&Hin&<-)%Hl. by apply Hlinked.
Qed.

Lemma ensureBackendService_ok p igs w :
  binv w → port_range (sp_Port p) → ig_links igs →
  wp (Backends_ensureBackendService b p igs)
    (λ _ w', port_ready igs w' p ∧ is_Some (bk_pool b w' !! portKey (sp_Port p)) ∧ only_port (sp_Port p) w w')
    (λ _ w', is_Some (bk_pool b w' !! portKey (sp_Port p)) ∧ only_port (sp_Port p) w w') w.
Proof.
  intros Hi Hp Higs. apply wp_bind. wp_use ensure_body_spec; [done..| |done]. cbv beta.
  intros [be err] w1 [Ho1 Hok]. apply wp_bind. wp_use pool_Add_only_port; [by destruct Ho1| |done].
  cbv beta. intros _ w2 (Ho2&Hb2&Hh2&Hp2). assert (only_port (sp_Port p) w w2)
    by (by eapply only_port_trans). apply wp_retErr. simpl in Hok. destruct err; [done|].
  unfold port_ready. rewrite Hb2, Hh2. auto.
Qed.

(** C8. [ensureBackendService], on any cloud and health checker that keep
    their promises: when it returns without error, the cloud has a health
    check for the port and a backend service with the protocol and the
    description of the port, which points to the health check of the port (the
    links are compared by name, as the code does) and, for instance groups, has
    links to all of them. The port is tracked in the pool whether the call
    succeeds or not, so that a failed attempt is garbage collected later; other
    ports are never touched. *)
Theorem ensureBackendService_spec p igs w :
  binv w → port_range (sp_Port p) → ig_links igs →
  wp (Backends_ensureBackendService b p igs)
    (λ _ w',
      (∃ link be, hcv w' (sp_Port p) = Some link ∧
         bsv w' !! be_name b (sp_Port p) = Some be ∧ be_serves p link igs be) ∧
      is_Some (bk_pool b w' !! portKey (sp_Port p)) ∧
      only_port (sp_Port p) w w')
    (λ _ w', is_Some (bk_pool b w' !! portKey (sp_Port p)) ∧ only_port (sp_Port p) w w') w.
Proof.
  apply ensureBackendService_ok.
Qed.

(** A loop over ports: those visited are ready, the ports that are not in the
    list are left alone. *)
Definition only_ports (ports : list Z) (w w' : W) : Prop :=
  binv w' ∧ (∀ n, (∀ q, q ∈ ports → n ≠ be_name b q) → bsv w' !! n = bsv w !! n) ∧
  (∀ q, port_range q → q ∉ ports → hcv w' q = hcv w q).
Lemma only_port_ports port ports w w' : port ∈ ports → only_port port w w' → only_ports ports w w'.
Proof. intros Hin (?&Hb&Hh&_). split; [done|]. split; [intros n Hn; apply Hb; by apply Hn|]. intros q ? Hq. apply Hh; [done|]. by intros ->. Qed.
Lemma only_ports_trans ports w1 w2 w3 : only_ports ports w1 w2 → only_ports ports w2 w3 → only_ports ports w1 w3.
Proof. intros (_&Hb&Hh) (?&Hb'&Hh'). split; [done|]. split; intros; [by rewrite Hb', Hb|by rewrite Hh', Hh]. Qed.
Lemma only_ports_refl ports w : binv w → only_ports ports w w.
Proof. done. Qed.

Lemma port_ready_kept igs p ports w w' :
  port_range (sp_Port p) → (∀ q, q ∈ ports → port_range q) → sp_Port p ∉ ports →
  only_ports ports w w' → port_ready igs w p → port_ready igs w' p.
Proof.
  intros Hp Hr Hn (_&Hb&Hh) (hc&be&Hhc&Hbe&Hs). exists hc, be. rewrite Hh by done. split; [done|]. split; [|done].
  rewrite Hb; [done|]. intros q Hq He%Backend_inj; [by subst|done|by apply Hr].
Qed.

(** The cache of the pool, but for the entries of the ports. *)
Definition cached_ports (ports : list Z) (w w' : W) : Prop :=
  ∀ k, (∀ q, q ∈ ports → k ≠ portKey q) → bk_pool b w' !! k = bk_pool b w !! k.

(** [Ensure] when the groups are given. *)
Lemma Ensure_ok ports igs w :
  binv w → Forall (λ p, port_range (sp_Port p)) ports → NoDup (sp_Port <$> ports) → ig_links igs →
  wp (Backends_Ensure b ports (Some igs))
    (λ _ w', Forall (port_ready igs w') ports ∧ only_ports (sp_Port <$> ports) w w' ∧ cached_ports (sp_Port <$> ports) w w')
    (λ _ w', only_ports (sp_Port <$> ports) w w') w.
Proof.
  intros Hi Hr Hnd Higs. apply wp_bind, wp_ret. eapply wp_mono; [apply (wp_forEach _ ports (λ d w',
    Forall (port_ready igs w') d ∧ only_ports (sp_Port <$> ports) w w' ∧ cached_ports (sp_Port <$> ports) w w')
    (λ _ w', only_ports (sp_Port <$> ports) w w'))|done|done].
  - split; [done|]. split; [by apply only_ports_refl|done].
  - intros d p w1 [l Hl] (Hd&Ho1&Hc1). rewrite Forall_forall in Hr.
    assert (p ∈ ports) as Hp by (rewrite Hl; set_solver).
    assert (∀ w2, only_port (sp_Port p) w1 w2 → only_ports (sp_Port <$> ports) w w2) as Hall.
    { intros w2 Ho. eapply only_ports_trans; [done|]. eapply only_port_ports; [|done]. by apply list_elem_of_fmap_2. }
    wp_use ensureBackendService_ok; [by destruct Ho1|by apply Hr|done|..]; cbv beta.
    + intros _ w2 (Hready&_&Ho2). split; [|split; [by apply Hall|]].
      2: { intros k Hk. destruct Ho2 as (_&_&_&->); [by apply Hc1|]. by apply Hk, list_elem_of_fmap_2. }
      apply Forall_app. split; [|by apply Forall_singleton].
      rewrite Forall_forall in Hd |- *. intros q Hq. eapply (port_ready_kept _ _ [sp_Port p]); [| | | |by apply Hd].
      * apply Hr. rewrite Hl. set_solver.
      * intros x ->%list_elem_of_singleton. by apply Hr.
      * intros He%list_elem_of_singleton. rewrite Hl, !fmap_app in Hnd. apply NoDup_app in Hnd as [Hnd _].
        apply NoDup_app in Hnd as (_&Hdis&_). apply (Hdis (sp_Port q)); [by apply list_elem_of_fmap_2|].
        rewrite He. apply list_elem_of_here.
      * eapply only_port_ports; [apply list_elem_of_here|done].
    + intros e w2 [_ Ho2]. by apply Hall.
Qed.

(** The groups of the service of a port are exactly the endpoint groups of the
    port in the zones. *)
Definition neg_ready (zones : list string) (w : W) (p : ServicePort) : Prop :=
  ∃ name negs be,
    Namer_NEG (bk_namer b) (nn_Namespace (sp_SvcName p)) (nn_Name (sp_SvcName p)) (sp_SvcTargetPort p) = Some name ∧
    Forall2 (λ zone neg, ngv zone name = Some neg) zones negs ∧
    bsv w !! be_name b (sp_Port p) = Some be ∧
    (list_to_set (bk_Group <$> bs_Backends be) : gset string) = list_to_set (neg_SelfLink <$> negs).
(** Two services that differ in their groups and link only. *)
Definition relinked (be be' : BackendService) : Prop :=
  bs_Protocol be' = bs_Protocol be ∧ bs_Description be' = bs_Description be ∧ bs_HealthChecks be' = bs_HealthChecks be.

Lemma Link_ok p zones w :
  binv w →
  (sp_NEGEnabled p = true → Namer_NEG (bk_namer b) (nn_Namespace (sp_SvcName p))
     (nn_Name (sp_SvcName p)) (sp_SvcTargetPort p) ≠ None) →
  wp (Backends_Link b p zones)
    (λ _ w', only_service (be_name b (sp_Port p)) w w' ∧
      (sp_NEGEnabled p = false → w' = w) ∧
      (sp_NEGEnabled p = true → neg_ready zones w' p ∧
         ∃ be be', bsv w !! be_name b (sp_Port p) = Some be ∧ bsv w' !! be_name b (sp_Port p) = Some be' ∧ relinked be be'))
    (λ _ w', same b w w') w.
Proof.
  intros Hi Hneg. unfold Backends_Link. destruct (sp_NEGEnabled p); simpl negb.
  2: { apply wp_ret. split; [by apply same_only, same_refl|done]. }
  destruct (Namer_NEG _ _ _ _) as [name|] eqn:Hname0; [|by destruct (Hneg eq_refl)].
  apply wp_bind, wp_ret, wp_bind.
  eapply wp_mono; [apply (wp_forCollect _ zones (λ d negs w', same b w w' ∧
    Forall2 (λ zone neg, ngv zone name = Some neg) d negs) (λ _ w', same b w w'))|..]; [| |cbv beta|done].
  - split; [by apply same_refl|constructor].
  - intros d z negs w1 _ [Hs HF]. wp_use GetNEG_spec; [by destruct Hs|..]; cbv beta.
    + intros neg w2 [Hs2 Hn]. split; [by eapply same_trans|]. apply Forall2_app; [done|].
      by repeat constructor.
    + intros e w2 Hs2. by eapply same_trans.
  - intros negs w1 [Hs HF]. apply wp_bind. wp_use GetAlphaBS_spec; [by destruct Hs|..]; cbv beta;
      [|intros e w2 Hs2; by eapply same_trans].
    intros a w2 [Hs2 Ha]. assert (same b w w2) as Hs12 by (by eapply same_trans).
    assert (abk_Group <$> getBackendsForNEGs negs = neg_SelfLink <$> negs) as Hgr
      by (unfold getBackendsForNEGs; by rewrite <-list_fmap_compose).
    assert (∀ a, bk_Group <$> bs_Backends (toV1BackendService a) = abk_Group <$> abs_Backends a) as Hv1
      by (intros; simpl; by rewrite <-list_fmap_compose).
    case_decide as Heq.
    + apply wp_ret. split; [by apply same_only|]. split; [done|]. intros _.
      assert (bsv w2 !! be_name b (sp_Port p) = Some (toV1BackendService a)) as Ha2 by (destruct Hs2 as (_&->&_); exact Ha).
      split; [|exists (toV1BackendService a), (toV1BackendService a); split_and!; [by destruct Hs12 as (_&<-&_)|done..]].
      exists name, negs, (toV1BackendService a). split_and!; [done..|]. by rewrite Hv1, Heq, Hgr.
    + wp_use UpdateAlphaBS_spec; [by destruct Hs2|..]; cbv beta; simpl abs_Name.
      * pose proof (bsv_name b _ _ _ ltac:(by destruct Hs) Ha) as Hname. simpl in Hname.
        intros _ w3 [Hs3 [l Hl]]. rewrite Hname in Hl. split; [|split; [done|]].
        -- eapply only_service_trans; [by apply same_only|]. split; [done|].
           intros n Hn. rewrite Hl, lookup_insert_ne; [done|]. exact (not_eq_sym Hn).
        -- intros _. split.
           ++ eexists name, negs, _. split_and!; [done..| |].
              ** rewrite Hl. apply lookup_insert_eq.
              ** simpl. rewrite <-list_fmap_compose, <-Hgr. done.
           ++ eexists (toV1BackendService a), _. split; [by destruct Hs as (_&<-&_)|]. rewrite Hl. split; [apply lookup_insert_eq|done].
      * intros e w3 Hs3. by eapply same_trans.
Qed.

(** C16. [Link] for a port with network endpoint groups: when it succeeds, the
    groups of the port's backend service are exactly the endpoint groups of
    the given zones, and its protocol, description and health checks are kept; no other service changes, and ports without endpoint
    groups are left alone. *)
Theorem Link_spec p zones w :
  binv w →
  (sp_NEGEnabled p = true → Namer_NEG (bk_namer b) (nn_Namespace (sp_SvcName p))
     (nn_Name (sp_SvcName p)) (sp_SvcTargetPort p) ≠ None) →
  wp (Backends_Link b p zones)
    (λ _ w', only_service (be_name b (sp_Port p)) w w' ∧
      (sp_NEGEnabled p = false → w' = w) ∧
      (sp_NEGEnabled p = true → neg_ready zones w' p ∧
         ∃ be be', bsv w !! be_name b (sp_Port p) = Some be ∧ bsv w' !! be_name b (sp_Port p) = Some be' ∧ relinked be be'))
    (λ _ w', same b w w') w.
Proof. apply Link_ok. Qed.
End ensure.
