(* ===== verification/LoadBalancers.v ===== *)
(** * LoadBalancers: pkg/loadbalancers/{loadbalancers,interfaces}.go

    A load balancer is the chain forwarding rule -> target proxy -> url map ->
    backend services of GCE objects. [L7] remembers the objects it has seen;
    its methods run on the pair of that struct and the world, which they reach
    only through the cloud interface. [L7s] is the pool of load balancers. *)

From S2P Require Import Prelude GoLang GoStrings Md5 Compute Utils Namer Instances Backends.

Definition hostRulePrefix : string := "host".
Definition DefaultHost : string := "*".
Definition DefaultPath : string := "/*".
Definition httpDefaultPortRange : string := "80-80".
Definition httpsDefaultPortRange : string := "443-443".

(** ** The cloud *)

(** A getter can answer nil without an error. *)
Class LoadBalancers (W : Type) := {
  lbc_GetGlobalForwardingRule : string → M W (option ForwardingRule);
  lbc_CreateGlobalForwardingRule : ForwardingRule → M W unit;
  lbc_DeleteGlobalForwardingRule : string → M W unit;
  lbc_SetProxyForGlobalForwardingRule : string → string → M W unit;
  lbc_GetUrlMap : string → M W (option UrlMap);
  lbc_CreateUrlMap : UrlMap → M W unit;
  lbc_UpdateUrlMap : UrlMap → M W unit;
  lbc_DeleteUrlMap : string → M W unit;
  lbc_GetTargetHttpProxy : string → M W (option TargetHttpProxy);
  lbc_CreateTargetHttpProxy : TargetHttpProxy → M W unit;
  lbc_DeleteTargetHttpProxy : string → M W unit;
  lbc_SetUrlMapForTargetHttpProxy : TargetHttpProxy → UrlMap → M W unit;
  lbc_GetTargetHttpsProxy : string → M W (option TargetHttpsProxy);
  lbc_CreateTargetHttpsProxy : TargetHttpsProxy → M W unit;
  lbc_DeleteTargetHttpsProxy : string → M W unit;
  lbc_SetUrlMapForTargetHttpsProxy : TargetHttpsProxy → UrlMap → M W unit;
  lbc_SetSslCertificateForTargetHttpsProxy : TargetHttpsProxy → SslCertificate → M W unit;
  lbc_GetSslCertificate : string → M W (option SslCertificate);
  lbc_CreateSslCertificate : SslCertificate → M W (option SslCertificate);
  lbc_DeleteSslCertificate : string → M W unit;
  lbc_ReserveGlobalAddress : Address → M W unit;
  lbc_GetGlobalAddress : string → M W (option Address);
  lbc_DeleteGlobalAddress : string → M W unit;
}.

(** ** Data *)

Record TLSCerts := MkTLSCerts { tls_Key : string; tls_Cert : string; tls_Chain : string }.
Record L7RuntimeInfo := MkL7RuntimeInfo {
  ri_Name : string;
  ri_IP : string;
  ri_TLS : option TLSCerts;
  ri_TLSName : string;
  ri_AllowHTTP : bool;
  ri_StaticIPName : string;
}.

Record L7 := MkL7 {
  l7_Name : string;
  l7_runtimeInfo : L7RuntimeInfo;
  l7_um : option UrlMap;
  l7_tp : option TargetHttpProxy;
  l7_tps : option TargetHttpsProxy;
  l7_fw : option ForwardingRule;
  l7_fws : option ForwardingRule;
  l7_ip : option Address;
  l7_sslCert : option SslCertificate;
  l7_oldSSLCert : option SslCertificate;
  l7_glbcDefaultBackend : option BackendService;
  l7_namer : Namer;
}.
Definition set_runtimeInfo x (l : L7) : L7 := MkL7 (l7_Name l) x (l7_um l) (l7_tp l) (l7_tps l)
  (l7_fw l) (l7_fws l) (l7_ip l) (l7_sslCert l) (l7_oldSSLCert l) (l7_glbcDefaultBackend l) (l7_namer l).
Definition set_um x (l : L7) : L7 := MkL7 (l7_Name l) (l7_runtimeInfo l) x (l7_tp l) (l7_tps l)
  (l7_fw l) (l7_fws l) (l7_ip l) (l7_sslCert l) (l7_oldSSLCert l) (l7_glbcDefaultBackend l) (l7_namer l).
Definition set_tp x (l : L7) : L7 := MkL7 (l7_Name l) (l7_runtimeInfo l) (l7_um l) x (l7_tps l)
  (l7_fw l) (l7_fws l) (l7_ip l) (l7_sslCert l) (l7_oldSSLCert l) (l7_glbcDefaultBackend l) (l7_namer l).
Definition set_tps x (l : L7) : L7 := MkL7 (l7_Name l) (l7_runtimeInfo l) (l7_um l) (l7_tp l) x
  (l7_fw l) (l7_fws l) (l7_ip l) (l7_sslCert l) (l7_oldSSLCert l) (l7_glbcDefaultBackend l) (l7_namer l).
Definition set_fw x (l : L7) : L7 := MkL7 (l7_Name l) (l7_runtimeInfo l) (l7_um l) (l7_tp l) (l7_tps l)
  x (l7_fws l) (l7_ip l) (l7_sslCert l) (l7_oldSSLCert l) (l7_glbcDefaultBackend l) (l7_namer l).
Definition set_fws x (l : L7) : L7 := MkL7 (l7_Name l) (l7_runtimeInfo l) (l7_um l) (l7_tp l) (l7_tps l)
  (l7_fw l) x (l7_ip l) (l7_sslCert l) (l7_oldSSLCert l) (l7_glbcDefaultBackend l) (l7_namer l).
Definition set_ip x (l : L7) : L7 := MkL7 (l7_Name l) (l7_runtimeInfo l) (l7_um l) (l7_tp l) (l7_tps l)
  (l7_fw l) (l7_fws l) x (l7_sslCert l) (l7_oldSSLCert l) (l7_glbcDefaultBackend l) (l7_namer l).
Definition set_sslCert x (l : L7) : L7 := MkL7 (l7_Name l) (l7_runtimeInfo l) (l7_um l) (l7_tp l) (l7_tps l)
  (l7_fw l) (l7_fws l) (l7_ip l) x (l7_oldSSLCert l) (l7_glbcDefaultBackend l) (l7_namer l).
Definition set_oldSSLCert x (l : L7) : L7 := MkL7 (l7_Name l) (l7_runtimeInfo l) (l7_um l) (l7_tp l)
  (l7_tps l) (l7_fw l) (l7_fws l) (l7_ip l) (l7_sslCert l) x (l7_glbcDefaultBackend l) (l7_namer l).

(** [getResourceNameFromLink]: [strings.Split] never returns an empty slice
    here. *)
Definition getResourceNameFromLink (link : string) : string := last_component link.
Definition getNameForPathMatcher (hostRule : string) : string := hostRulePrefix +:+ md5_hex hostRule.

(** ** Url maps *)

(** The loops of [mapsEqual]: same length, and equal at every index. *)
Fixpoint all2 {A} (f : A → A → bool) (a b : list A) : bool :=
  match a, b with
  | [], [] => true
  | x :: a, y :: b => f x y && all2 f a b
  | _, _ => false
  end.
Definition pathRuleEqual (a b : PathRule) : bool :=
  all2 String.eqb (pr_Paths a) (pr_Paths b) && String.eqb (pr_Service a) (pr_Service b).
Definition hostRuleEqual (a b : HostRule) : bool :=
  String.eqb (hr_Description a) (hr_Description b) && all2 String.eqb (hr_Hosts a) (hr_Hosts b) &&
  String.eqb (hr_PathMatcher a) (hr_PathMatcher b).
Definition pathMatcherEqual (a b : PathMatcher) : bool :=
  String.eqb (pm_DefaultService a) (pm_DefaultService b) &&
  String.eqb (pm_Description a) (pm_Description b) && String.eqb (pm_Name a) (pm_Name b) &&
  all2 pathRuleEqual (pm_PathRules a) (pm_PathRules b).
Definition mapsEqual (a b : UrlMap) : bool :=
  String.eqb (um_DefaultService a) (um_DefaultService b) &&
  all2 hostRuleEqual (um_HostRules a) (um_HostRules b) &&
  all2 pathMatcherEqual (um_PathMatchers a) (um_PathMatchers b).

(** The rules of one host; [None] is the nil dereference of a nil backend. *)
Fixpoint pathRules (l : list (string * option BackendService)) : option (list PathRule) :=
  match l with
  | [] => Some []
  | (expr, be) :: l =>
      be ← be;
      rules ← pathRules l;
      Some (MkPathRule [expr] (bs_SelfLink be) :: rules)
  end.
(** The host rules and path matchers of the loop of [UpdateUrlMap]. *)
Fixpoint translateHosts `{MapRange} (defaultService : string)
    (l : list (string * gmap string (option BackendService))) :
    option (list HostRule * list PathMatcher) :=
  match l with
  | [] => Some ([], [])
  | (hostname, urlToBackend) :: l =>
      let pmName := getNameForPathMatcher hostname in
      rules ← pathRules (range urlToBackend);
      '(hrs, pms) ← translateHosts defaultService l;
      Some (MkHostRule "" [hostname] pmName :: hrs, MkPathMatcher defaultService "" pmName rules :: pms)
  end.

(** ** L7 *)

Section l7.
Context {W : Type} `{LoadBalancers W, MapRange}.

(** A call of the cloud from a method of [L7]. *)
Definition cloud {A} (m : M W A) : M (L7 * W) A := zoom lens_snd m.
Definition self : M (L7 * W) L7 := getW fst.
Definition update (f : L7 → L7) : M (L7 * W) unit := zoom lens_fst (modW f).

Definition L7_checkUrlMap : M (L7 * W) unit :=
  l ← self;
  match l7_glbcDefaultBackend l with
  | None => throw (Errorf "cannot create urlmap without default backend" [] [])
  | Some glbcDefaultBackend =>
      let urlMapName := Namer_UrlMap (l7_namer l) (l7_Name l) in
      urlMap ← ignoreErr (cloud (lbc_GetUrlMap urlMapName));
      match urlMap with
      | Some urlMap => update (set_um (Some urlMap))
      | None =>
          let newUrlMap := MkUrlMap urlMapName "" (bs_SelfLink glbcDefaultBackend) [] [] in
          _ ← cloud (lbc_CreateUrlMap newUrlMap);
          urlMap ← cloud (lbc_GetUrlMap urlMapName);
          update (set_um urlMap)
      end
  end.

Definition L7_checkProxy : M (L7 * W) unit :=
  l ← self;
  match l7_um l with
  | None => throw (Errorf "cannot create proxy without urlmap" [] [])
  | Some um =>
      proxyName ← ofOption (Namer_TargetProxy (l7_namer l) (l7_Name l) HTTPProtocol);
      proxy ← ignoreErr (cloud (lbc_GetTargetHttpProxy proxyName));
      match proxy with
      | None =>
          _ ← cloud (lbc_CreateTargetHttpProxy (MkTargetHttpProxy proxyName "" (um_SelfLink um)));
          proxy ← cloud (lbc_GetTargetHttpProxy proxyName);
          update (set_tp proxy)
      | Some proxy =>
          _ ← (if negb (CompareLinks (tp_UrlMap proxy) (um_SelfLink um))
               then cloud (lbc_SetUrlMapForTargetHttpProxy proxy um) else mret tt);
          update (set_tp (Some proxy))
      end
  end.

Definition L7_deleteOldSSLCert : M (L7 * W) unit :=
  l ← self;
  match l7_oldSSLCert l, l7_sslCert l with
  | Some old, Some cert =>
      if bool_decide (sc_Name old = sc_Name cert) || negb (Namer_IsSSLCert (l7_namer l) (sc_Name old))
      then mret tt
      else
        _ ← ignoreNotFound (cloud (lbc_DeleteSslCertificate (sc_Name old)));
        update (set_oldSSLCert None)
  | _, _ => mret tt
  end.

(** The first result and the error: an error only with [true]. *)
Definition L7_usePreSharedCert : M (L7 * W) bool :=
  l ← self;
  let preSharedCertName := ri_TLSName (l7_runtimeInfo l) in
  if decide (preSharedCertName = "") then mret false else
  cert ← cloud (lbc_GetSslCertificate preSharedCertName);
  match cert with
  | None => throw (Errorf "cannot find existing sslCertificate %v for %v"
      [preSharedCertName; l7_Name l] [])
  | Some cert =>
      _ ← update (set_sslCert (Some cert));
      mret true
  end.

Definition L7_getSslCertLinkInUse : M (L7 * W) string :=
  l ← self;
  proxyName ← ofOption (Namer_TargetProxy (l7_namer l) (l7_Name l) HTTPSProtocol);
  proxy ← ignoreErr (cloud (lbc_GetTargetHttpsProxy proxyName));
  match proxy with
  | Some proxy => match tps_SslCertificates proxy with c :: _ => mret c | [] => mret "" end
  | None => mret ""
  end.

(** When the certificate cannot be read, [l.sslCert] is nil even though the
    error may be ignored. *)
Definition L7_populateSSLCert : M (L7 * W) unit :=
  l ← self;
  expectedCertName ← match l7_sslCert l with
    | Some cert => mret (sc_Name cert)
    | None => link ← L7_getSslCertLinkInUse; mret (getResourceNameFromLink link)
    end;
  if decide (expectedCertName = "") then mret tt else
  r ← try (cloud (lbc_GetSslCertificate expectedCertName));
  match r with
  | inl err => _ ← update (set_sslCert None); retErr (IgnoreHTTPNotFound (Some err))
  | inr cert => update (set_sslCert cert)
  end.

Definition L7_nextCertificateName (l : L7) : string :=
  let primaryCertName := Namer_SSLCert (l7_namer l) (l7_Name l) true in
  let secondaryCertName := Namer_SSLCert (l7_namer l) (l7_Name l) false in
  match l7_sslCert l with
  | Some cert => if decide (sc_Name cert = primaryCertName) then secondaryCertName else primaryCertName
  | None => primaryCertName
  end.

(** [runtimeInfo.TLS] is dereferenced. *)
Definition L7_checkSSLCert : M (L7 * W) unit :=
  used ← L7_usePreSharedCert;
  if used : bool then mret tt else
  _ ← L7_populateSSLCert;
  l ← self;
  tls ← ofOption (ri_TLS (l7_runtimeInfo l));
  let ingCert := tls_Cert tls in
  let ingKey := tls_Key tls in
  if bool_decide (sc_Certificate <$> l7_sslCert l = Some ingCert) then mret tt else
  let newCertName := L7_nextCertificateName l in
  r ← try (ignoreNotFound (cloud (lbc_DeleteSslCertificate newCertName)));
  match r with
  | inl err => throw (Errorf
      "unable to delete ssl certificate with name %q, expected it to be unused. err: %v"
      [newCertName] [err])
  | inr _ =>
      cert ← cloud (lbc_CreateSslCertificate (MkSslCertificate newCertName ingCert ingKey ""));
      _ ← update (set_oldSSLCert (l7_sslCert l));
      update (set_sslCert cert)
  end.

Definition L7_checkHttpsProxy : M (L7 * W) unit :=
  l ← self;
  match l7_sslCert l with
  | None => mret tt
  | Some sslCert =>
      match l7_um l with
      | None => throw (Errorf "no UrlMap for %v, will not create HTTPS proxy" [l7_Name l] [])
      | Some um =>
          proxyName ← ofOption (Namer_TargetProxy (l7_namer l) (l7_Name l) HTTPSProtocol);
          proxy ← ignoreErr (cloud (lbc_GetTargetHttpsProxy proxyName));
          match proxy with
          | None =>
              _ ← cloud (lbc_CreateTargetHttpsProxy
                    (MkTargetHttpsProxy proxyName "" (um_SelfLink um) [sc_SelfLink sslCert]));
              proxy ← cloud (lbc_GetTargetHttpsProxy proxyName);
              update (set_tps proxy)
          | Some proxy =>
              _ ← (if negb (CompareLinks (tps_UrlMap proxy) (um_SelfLink um))
                   then cloud (lbc_SetUrlMapForTargetHttpsProxy proxy um) else mret tt);
              cert ← ofOption (tps_SslCertificates proxy !! 0);
              _ ← (if negb (CompareLinks cert (sc_SelfLink sslCert))
                   then cloud (lbc_SetSslCertificateForTargetHttpsProxy proxy sslCert) else mret tt);
              update (set_tps (Some proxy))
          end
      end
  end.

(** Whether an existing rule must be recreated. *)
Definition mustRecreate (fw : ForwardingRule) (ip portRange : string) : bool :=
  (negb (bool_decide (ip = "")) && negb (bool_decide (fw_IPAddress fw = ip))) ||
  negb (bool_decide (fw_PortRange fw = portRange)).

Definition L7_checkForwardingRule (name proxyLink ip portRange : string) :
    M (L7 * W) ForwardingRule :=
  fw ← ignoreErr (cloud (lbc_GetGlobalForwardingRule name));
  fw ← match fw with
       | Some f =>
           if mustRecreate f ip portRange then
             _ ← ignoreNotFound (cloud (lbc_DeleteGlobalForwardingRule name));
             mret None
           else mret (Some f)
       | None => mret None
       end;
  fw ← match fw with
       | Some f => mret f
       | None =>
           let rule := MkForwardingRule name ip proxyLink portRange "TCP" "" in
           _ ← cloud (lbc_CreateGlobalForwardingRule rule);
           fw ← cloud (lbc_GetGlobalForwardingRule name);
           ofOption fw
       end;
  _ ← (if CompareLinks (fw_Target fw) proxyLink then mret tt
       else cloud (lbc_SetProxyForGlobalForwardingRule (fw_Name fw) proxyLink));
  mret fw.

Definition L7_getEffectiveIP : M (L7 * W) (string * bool) :=
  l ← self;
  let managed := match l7_ip l with Some ip => (ad_Address ip, true) | None => ("", true) end in
  if decide (ri_StaticIPName (l7_runtimeInfo l) ≠ "") then
    ip ← ignoreErr (cloud (lbc_GetGlobalAddress (ri_StaticIPName (l7_runtimeInfo l))));
    match ip with
    | Some ip => mret (ad_Address ip, false)
    | None => mret managed
    end
  else mret managed.

Definition L7_checkHttpForwardingRule : M (L7 * W) unit :=
  l ← self;
  match l7_tp l with
  | None => throw (Errorf "cannot create forwarding rule without proxy" [] [])
  | Some tp =>
      name ← ofOption (Namer_ForwardingRule (l7_namer l) (l7_Name l) HTTPProtocol);
      '(address, _) ← L7_getEffectiveIP;
      fw ← L7_checkForwardingRule name (tp_SelfLink tp) address httpDefaultPortRange;
      update (set_fw (Some fw))
  end.

Definition L7_checkHttpsForwardingRule : M (L7 * W) unit :=
  l ← self;
  match l7_tps l with
  | None => mret tt
  | Some tps =>
      name ← ofOption (Namer_ForwardingRule (l7_namer l) (l7_Name l) HTTPSProtocol);
      '(address, _) ← L7_getEffectiveIP;
      fws ← L7_checkForwardingRule name (tps_SelfLink tps) address httpsDefaultPortRange;
      update (set_fws (Some fws))
  end.

Definition L7_checkStaticIP : M (L7 * W) unit :=
  l ← self;
  match l7_fw l with
  | None => throw (Errorf "will not create static IP without a forwarding rule" [] [])
  | Some fw =>
      if decide (fw_IPAddress fw = "")
      then throw (Errorf "will not create static IP without a forwarding rule" [] []) else
      '(_, manageStaticIP) ← L7_getEffectiveIP;
      if negb manageStaticIP then mret tt else
      staticIPName ← ofOption (Namer_ForwardingRule (l7_namer l) (l7_Name l) HTTPProtocol);
      ip ← ignoreErr (cloud (lbc_GetGlobalAddress staticIPName));
      match ip with
      | Some ip => update (set_ip (Some ip))
      | None =>
          r ← try (cloud (lbc_ReserveGlobalAddress (MkAddress staticIPName (fw_IPAddress fw))));
          match r with
          | inl err =>
              if IsHTTPErrorCode err StatusConflict || IsHTTPErrorCode err StatusBadRequest
              then mret tt else throw err
          | inr _ =>
              ip ← cloud (lbc_GetGlobalAddress staticIPName);
              update (set_ip ip)
          end
      end
  end.

Definition L7_edgeHopHttp : M (L7 * W) unit :=
  _ ← L7_checkProxy;
  L7_checkHttpForwardingRule.
Definition L7_edgeHopHttps : M (L7 * W) unit :=
  _ ← L7_checkSSLCert;
  _ ← L7_checkHttpsProxy;
  _ ← L7_checkHttpsForwardingRule;
  L7_deleteOldSSLCert.

Definition wantsTLS (ri : L7RuntimeInfo) : bool :=
  bool_decide (is_Some (ri_TLS ri)) || negb (bool_decide (ri_TLSName ri = "")).
Definition L7_edgeHop : M (L7 * W) unit :=
  _ ← L7_checkUrlMap;
  l ← self;
  let ri := l7_runtimeInfo l in
  _ ← (if ri_AllowHTTP ri then L7_edgeHopHttp else mret tt);
  _ ← (if ri_AllowHTTP ri && wantsTLS ri then L7_checkStaticIP else mret tt);
  if wantsTLS ri then L7_edgeHopHttps else mret tt.

Definition L7_GetIP (l : L7) : string :=
  match l7_fw l, l7_fws l with
  | Some fw, _ => fw_IPAddress fw
  | None, Some fws => fw_IPAddress fws
  | None, None => ""
  end.

(** The url map [UpdateUrlMap] builds from the rules, or a panic. *)
Definition L7_newUrlMap (l : L7) (um : UrlMap) (ingressRules : GCEURLMap) : option UrlMap :=
  let '(defaultBackend, ingressRules) := GetDefaultBackend ingressRules in
  defaultService ← match defaultBackend with
    | Some be => Some (bs_SelfLink be)
    | None => bs_SelfLink <$> l7_glbcDefaultBackend l
    end;
  '(hrs, pms) ← translateHosts defaultService (range ingressRules);
  Some (MkUrlMap (um_Name um) (um_SelfLink um) defaultService hrs pms).

(** The fields of [l.um] are assigned before the update is sent, so they stay
    when it fails. *)
Definition L7_UpdateUrlMap (ingressRules : GCEURLMap) : M (L7 * W) unit :=
  l ← self;
  match l7_um l with
  | None => throw (Errorf "cannot add url without an urlmap" [] [])
  | Some um =>
      um ← ofOption (L7_newUrlMap l um ingressRules);
      _ ← update (set_um (Some um));
      oldMap ← ignoreErr (cloud (lbc_GetUrlMap (um_Name um)));
      if bool_decide ((λ old, mapsEqual old um) <$> oldMap = Some true) then mret tt else
      _ ← cloud (lbc_UpdateUrlMap um);
      um ← cloud (lbc_GetUrlMap (um_Name um));
      update (set_um um)
  end.

(** One step of [Cleanup]: delete the object of a field and reset the field. *)
Definition cleanupStep {X} (field : L7 → option X) (name : X → string)
    (delete : string → M W unit) (reset : L7 → L7) : M (L7 * W) unit :=
  l ← self;
  match field l with
  | None => mret tt
  | Some x =>
      _ ← ignoreNotFound (cloud (delete (name x)));
      update reset
  end.
Definition L7_Cleanup : M (L7 * W) unit :=
  _ ← cleanupStep l7_fw fw_Name lbc_DeleteGlobalForwardingRule (set_fw None);
  _ ← cleanupStep l7_fws fw_Name lbc_DeleteGlobalForwardingRule (set_fws None);
  _ ← cleanupStep l7_ip ad_Name lbc_DeleteGlobalAddress (set_ip None);
  _ ← cleanupStep l7_tps tps_Name lbc_DeleteTargetHttpsProxy (set_tps None);
  l ← self;
  _ ← (if decide (ri_TLSName (l7_runtimeInfo l) = "")
       then cleanupStep l7_sslCert sc_Name lbc_DeleteSslCertificate (set_sslCert None) else mret tt);
  _ ← cleanupStep l7_tp tp_Name lbc_DeleteTargetHttpProxy (set_tp None);
  cleanupStep l7_um um_Name lbc_DeleteUrlMap (set_um None).

Definition L7_getBackendNames (l : L7) : list string :=
  match l7_um l with
  | None => []
  | Some um =>
      let services := concat ((λ pm, pr_Service <$> pm_PathRules pm) <$> um_PathMatchers um) in
      let names := last_component <$> (services ++ [um_DefaultService um]) in
      sets_List (list_to_set (filter (λ n, n ≠ "") names))
  end.

End l7.

(** ** The pool *)

(** [l7s_glbcDefaultBackend] is a field the pool writes. *)
Record L7s (W : Type) := MkL7s {
  l7s_snapshotter : lens W (gmap string L7);
  l7s_glbcDefaultBackend : lens W (option BackendService);
  l7s_defaultBackendNodePort : ServicePort;
  l7s_namer : Namer;
}.
Arguments MkL7s {W} _ _ _ _.
Arguments l7s_snapshotter {W} _.
Arguments l7s_glbcDefaultBackend {W} _.
Arguments l7s_defaultBackendNodePort {W} _.
Arguments l7s_namer {W} _.

Section l7s.
Context {W : Type} `{LoadBalancers W, BackendPool W, MapRange}.
Implicit Types p : L7s W.

(** Run a method of the load balancer stored under a name. The pool holds a
    pointer: what the method changed stays, whatever it returns. *)
Definition L7s_run {A} p (name : string) (lb : L7) (m : M (L7 * W) A) : M W A := λ w,
  let '(r, (lb', w')) := m (lb, w) in
  (r, lset (l7s_snapshotter p) (<[name := lb']> (lget (l7s_snapshotter p) w')) w').

Definition L7s_create p (ri : L7RuntimeInfo) : M W L7 :=
  default ← getW (lget (l7s_glbcDefaultBackend p));
  mret (MkL7 (Namer_LoadBalancer (l7s_namer p) (ri_Name ri)) ri None None None None None None None
    None default (l7s_namer p)).

Definition L7s_Get p (name : string) : M W L7 :=
  let name := Namer_LoadBalancer (l7s_namer p) name in
  lb ← getW (λ w, lget (l7s_snapshotter p) w !! name);
  match lb with
  | None => throw (Errorf "loadbalancer %v not in pool" [name] [])
  | Some lb => mret lb
  end.

Definition L7s_Add p (ri : L7RuntimeInfo) : M W unit :=
  let name := Namer_LoadBalancer (l7s_namer p) (ri_Name ri) in
  r ← try (L7s_Get p name);
  lb ← match r with
       | inl _ => L7s_create p ri
       | inr lb => mret (set_runtimeInfo ri lb)
       end;
  L7s_run p name lb L7_edgeHop.

Definition L7s_Delete p (name : string) : M W unit :=
  let name := Namer_LoadBalancer (l7s_namer p) name in
  lb ← L7s_Get p name;
  _ ← L7s_run p (Namer_LoadBalancer (l7s_namer p) name) lb L7_Cleanup;
  zoom (l7s_snapshotter p) (modW (delete name)).

Definition L7s_Sync p (lbs : list L7RuntimeInfo) : M W unit :=
  _ ← (if decide (length lbs ≠ 0) then
         _ ← bkp_Ensure [l7s_defaultBackendNodePort p] None;
         defaultBackend ← bkp_Get (sp_Port (l7s_defaultBackendNodePort p));
         zoom (l7s_glbcDefaultBackend p) (modW (λ _, Some defaultBackend))
       else mret tt);
  forEach (L7s_Add p) lbs.

Definition L7s_GC p (names : list string) : M W unit :=
  let knownLoadBalancers : gset string :=
    list_to_set (Namer_LoadBalancer (l7s_namer p) <$> names) in
  pool ← getW (lget (l7s_snapshotter p));
  _ ← forEach (λ kv,
        if decide (kv.1 ∈ knownLoadBalancers) then mret tt else L7s_Delete p kv.1) (range pool);
  if decide (length names = 0) then
    _ ← bkp_Delete (sp_Port (l7s_defaultBackendNodePort p));
    zoom (l7s_glbcDefaultBackend p) (modW (λ _, None))
  else mret tt.

Definition L7s_Shutdown p : M W unit :=
  _ ← L7s_GC p [];
  bkp_Shutdown.

(** [GetLBAnnotations]: [json_Marshal] is the JSON encoder of a map of
    strings, [existing] a possibly nil map, and the url map is dereferenced. *)
Definition GetLBAnnotations (json_Marshal : gmap string string → option string) (l7 : L7)
    (existing : option (gmap string string)) : M W (gmap string string) :=
  let key := λ s : string, K8sAnnotationPrefix +:+ "/" +:+ s in
  let put := λ (s : string) (o : option string) (m : gmap string string),
    match o with Some v => <[key s := v]> m | None => m end in
  states ← forCollect (λ beName, st ← bkp_Status beName; mret (beName, st)) (L7_getBackendNames l7);
  let jsonBackendState := default "Unknown" (json_Marshal (list_to_map states)) in
  um ← ofOption (l7_um l7);
  mret (<[key "backends" := jsonBackendState]>
    (put "ssl-cert" (sc_Name <$> l7_sslCert l7)
    (put "static-ip" (ad_Name <$> l7_ip l7)
    (put "https-target-proxy" (tps_Name <$> l7_tps l7)
    (put "https-forwarding-rule" (fw_Name <$> l7_fws l7)
    (put "target-proxy" (tp_Name <$> l7_tp l7)
    (put "forwarding-rule" (fw_Name <$> l7_fw l7)
    (<[key "url-map" := um_Name um]> (default ∅ existing))))))))).

End l7s.

Definition GCEResourceName (ingAnnotations : gmap string string) (resourceName : string) : string :=
  default "" (ingAnnotations !! (K8sAnnotationPrefix +:+ "/" +:+ resourceName)).

(** The interface of the load balancer pool. *)
Class LoadBalancerPool (W : Type) := {
  lbp_Get : string → M W L7;
  lbp_Add : L7RuntimeInfo → M W unit;
  lbp_Delete : string → M W unit;
  lbp_Sync : list L7RuntimeInfo → M W unit;
  lbp_GC : list string → M W unit;
  lbp_Shutdown : M W unit;
}.
Definition NewLoadBalancerPool {W} `{LoadBalancers W, BackendPool W, MapRange} (p : L7s W) :
    LoadBalancerPool W := {|
  lbp_Get := L7s_Get p;
  lbp_Add := L7s_Add p;
  lbp_Delete := L7s_Delete p;
  lbp_Sync := L7s_Sync p;
  lbp_GC := L7s_GC p;
  lbp_Shutdown := L7s_Shutdown p;
|}.
