(* ===== verification/Frames.v ===== *)
(** * Frames: what the pools leave alone

    A pool changes the cloud only through the calls of its interfaces, so it
    keeps every part of the world those calls keep. The classes say that all
    calls of an interface keep a part [f] of the world, and the lemmas that the
    operations of the pools then do. *)

From S2P Require Import Prelude GoLang GoStrings Compute Utils Namer HealthChecks Instances Firewalls Backends LoadBalancers.

(** ** Loops and pointers *)

Section keeps.
Context {W F : Type} (f : W → F).

Lemma keeps_zoom {G A} (l : lens W G) (m : M G A) : (∀ x w, f (lset l x w) = f w) → keeps f (zoom l m).
Proof. intros Hl w. unfold zoom. destruct (m (lget l w)) as [r x]. apply Hl. Qed.
Lemma keeps_zoom_in {G H A} (l : lens W G) (g : G → H) (m : M G A) :
  keeps g m → (∀ x w, g x = g (lget l w) → f (lset l x w) = f w) → keeps f (zoom l m).
Proof. intros Hm Hl w. unfold zoom. specialize (Hm (lget l w)). destruct (m (lget l w)) as [r x]. by apply Hl. Qed.
Lemma keeps_ignoreErr {A} (m : M W (option A)) : keeps f m → keeps f (ignoreErr m).
Proof. intros Hm. apply keeps_bind; [by apply keeps_try|]. by intros []. Qed.
Lemma keeps_retErr e : keeps f (retErr e).
Proof. by destruct e. Qed.
Lemma keeps_defer {A} d (m : M W A) : (∀ w, f (d w) = f w) → keeps f m → keeps f (defer d m).
Proof. intros Hd Hm w. unfold defer. specialize (Hm w). destruct (m w) as [r w']. simpl in *. congruence. Qed.
Lemma keeps_forCollect {A B} (g : A → M W B) l : (∀ x, keeps f (g x)) → keeps f (forCollect g l).
Proof.
  intros Hg. induction l; simpl; [apply keeps_ret|]. apply keeps_bind; [done|]. intros y.
  by apply keeps_bind.
Qed.
Lemma keeps_forErrs {A} (g : A → M W unit) l : (∀ x, keeps f (g x)) → keeps f (forErrs g l).
Proof.
  intros Hg. induction l; simpl; [apply keeps_ret|]. apply keeps_bind; [by apply keeps_try|]. intros r.
  by apply keeps_bind.
Qed.
End keeps.

(** Go through the body of a call; what is left are calls of interfaces. *)
Ltac keeps_go :=
  repeat first
    [ apply keeps_ret | apply keeps_throw | apply keeps_panic | apply keeps_getW | apply keeps_ofOption
    | apply keeps_retErr | progress intros
    | apply keeps_bind | apply keeps_try | apply keeps_ignoreErr
    | apply keeps_forEach | apply keeps_forCollect | apply keeps_forErrs
    | match goal with
      | |- keeps _ (if ?b then _ else _) => destruct b
      | |- keeps _ (match ?x with _ => _ end) => destruct x
      end ].

(** ** The interfaces *)

Class IGKeeps {W F : Type} `{InstanceGroups W, ZoneLister W} (f : W → F) := {
  keeps_zones : keeps f zl_ListZones;
  keeps_GetIG n z : keeps f (igs_GetInstanceGroup n z);
  keeps_CreateIG g z : keeps f (igs_CreateInstanceGroup g z);
  keeps_SetNamedPorts n z p : keeps f (igs_SetNamedPortsOfInstanceGroup n z p);
}.
Class MembersKeeps {W F : Type} `{InstanceGroups W, ZoneLister W} (f : W → F) := {
  keeps_zone n : keeps f (zl_GetZoneForNode n);
  keeps_ListInstances n z s : keeps f (igs_ListInstancesInInstanceGroup n z s);
  keeps_AddInstances n z r : keeps f (igs_AddInstancesToInstanceGroup n z r);
  keeps_RemoveInstances n z r : keeps f (igs_RemoveInstancesFromInstanceGroup n z r);
}.
Class BSKeeps {W F : Type} `{BackendServices W} (f : W → F) := {
  keeps_GetBS n : keeps f (bsc_GetGlobalBackendService n);
  keeps_UpdateBS be : keeps f (bsc_UpdateGlobalBackendService be);
  keeps_CreateBS be : keeps f (bsc_CreateGlobalBackendService be);
}.
Class HCPKeeps {W F : Type} `{HealthCheckProvider W} (f : W → F) := {
  keeps_GetAlphaHC n : keeps f (hcp_GetAlphaHealthCheck n);
  keeps_GetHC n : keeps f (hcp_GetHealthCheck n);
  keeps_CreateAlphaHC o : keeps f (hcp_CreateAlphaHealthCheck o);
  keeps_CreateHC o : keeps f (hcp_CreateHealthCheck o);
  keeps_UpdateAlphaHC o : keeps f (hcp_UpdateAlphaHealthCheck o);
  keeps_UpdateHC o : keeps f (hcp_UpdateHealthCheck o);
}.
Class LegacyKeeps {W F : Type} `{HealthCheckProvider W} (f : W → F) := {
  keeps_GetHttpHC n : keeps f (hcp_GetHttpHealthCheck n);
  keeps_DeleteHttpHC n : keeps f (hcp_DeleteHttpHealthCheck n);
}.
Class HCKeeps {W F : Type} `{HealthChecker W} (f : W → F) := {
  keeps_SyncHC hc : keeps f (hcr_Sync hc);
  keeps_GetLegacyHC p : keeps f (hcr_GetLegacy p);
  keeps_DeleteLegacyHC p : keeps f (hcr_DeleteLegacy p);
}.
Class LBKeeps {W F : Type} `{LoadBalancers W} (f : W → F) := {
  keeps_GetFw n : keeps f (lbc_GetGlobalForwardingRule n);
  keeps_CreateFw x : keeps f (lbc_CreateGlobalForwardingRule x);
  keeps_DeleteFw n : keeps f (lbc_DeleteGlobalForwardingRule n);
  keeps_SetProxy n x : keeps f (lbc_SetProxyForGlobalForwardingRule n x);
  keeps_GetUm n : keeps f (lbc_GetUrlMap n);
  keeps_CreateUm x : keeps f (lbc_CreateUrlMap x);
  keeps_GetTp n : keeps f (lbc_GetTargetHttpProxy n);
  keeps_CreateTp x : keeps f (lbc_CreateTargetHttpProxy x);
  keeps_SetUmTp x y : keeps f (lbc_SetUrlMapForTargetHttpProxy x y);
  keeps_GetTps n : keeps f (lbc_GetTargetHttpsProxy n);
  keeps_CreateTps x : keeps f (lbc_CreateTargetHttpsProxy x);
  keeps_SetUmTps x y : keeps f (lbc_SetUrlMapForTargetHttpsProxy x y);
  keeps_SetCert x y : keeps f (lbc_SetSslCertificateForTargetHttpsProxy x y);
  keeps_GetCert n : keeps f (lbc_GetSslCertificate n);
  keeps_CreateCert x : keeps f (lbc_CreateSslCertificate x);
  keeps_DeleteCert n : keeps f (lbc_DeleteSslCertificate n);
  keeps_ReserveIp x : keeps f (lbc_ReserveGlobalAddress x);
  keeps_GetIp n : keeps f (lbc_GetGlobalAddress n);
}.
(** The deletions of garbage collection. *)
Class LBDeletesKeep {W F : Type} `{LoadBalancers W} (f : W → F) := {
  deletes_Fw n : keeps f (lbc_DeleteGlobalForwardingRule n);
  deletes_Ip n : keeps f (lbc_DeleteGlobalAddress n);
  deletes_Tps n : keeps f (lbc_DeleteTargetHttpsProxy n);
  deletes_Cert n : keeps f (lbc_DeleteSslCertificate n);
  deletes_Tp n : keeps f (lbc_DeleteTargetHttpProxy n);
  deletes_Um n : keeps f (lbc_DeleteUrlMap n);
}.
Class FWKeeps {W F : Type} `{FirewallCloud W} (f : W → F) := {
  keeps_CreateFirewall x : keeps f (fwc_CreateFirewall x);
  keeps_GetFirewall n : keeps f (fwc_GetFirewall n);
  keeps_DeleteFirewall n : keeps f (fwc_DeleteFirewall n);
  keeps_UpdateFirewall x : keeps f (fwc_UpdateFirewall x);
  keeps_GetNodeTags l : keeps f (fwc_GetNodeTags l);
}.

#[export] Hint Resolve keeps_zones keeps_zone keeps_GetIG keeps_CreateIG keeps_ListInstances keeps_AddInstances
  keeps_RemoveInstances keeps_SetNamedPorts keeps_GetHttpHC keeps_DeleteHttpHC keeps_GetAlphaHC keeps_GetHC
  keeps_CreateAlphaHC keeps_CreateHC keeps_UpdateAlphaHC keeps_UpdateHC keeps_GetBS keeps_UpdateBS keeps_CreateBS keeps_SyncHC
  keeps_GetLegacyHC keeps_DeleteLegacyHC keeps_CreateFirewall keeps_GetFirewall keeps_DeleteFirewall
  keeps_UpdateFirewall keeps_GetNodeTags : keeps.

(** ** The node pool *)

Section instances.
Context {W F : Type} (f : W → F) `{InstanceGroups W, ZoneLister W, MapRange, !IGKeeps f} (i : Instances W).

Lemma EnsureInstanceGroups_keeps name ports :
  (∀ w, f (lset (ins_snapshotter i) (<[name := tt]> (lget (ins_snapshotter i) w)) w) = f w) →
  keeps f (Instances_EnsureInstanceGroupsAndPorts i name ports).
Proof.
  intros Hsnap. apply keeps_bind; [eauto with keeps|]. intros zones. apply keeps_defer; [done|].
  unfold Instances_ensureInstanceGroupAndPorts, Instances_Get, snapshotter_Add, Instances_addPorts.
  keeps_go; eauto with keeps.
Qed.

Context `{!MembersKeeps f}.
Lemma list_go_keeps name zones acc : keeps f (Instances_list_go name zones acc).
Proof. revert acc. induction zones; intros acc; simpl; keeps_go; eauto with keeps. Qed.
Lemma splitNodes_keeps names acc : keeps f (splitNodesByZone_go names acc).
Proof. revert acc. induction names; intros acc; simpl; keeps_go; eauto with keeps. Qed.
Lemma InstancesSync_keeps nodes : keeps f (Instances_Sync i nodes).
Proof.
  unfold Instances_Sync, Instances_syncGroup, Instances_list, Instances_Remove, Instances_Add, Instances_splitNodesByZone.
  keeps_go; eauto using list_go_keeps, splitNodes_keeps with keeps.
Qed.
End instances.

(** ** The health checker *)

Section healthchecks.
Context {W F : Type} (f : W → F) `{HealthCheckProvider W, !HCPKeeps f} (h : HealthChecks).

Lemma HealthChecksSync_keeps hc : keeps f (HealthChecks_Sync h hc).
Proof.
  unfold HealthChecks_Sync, HealthChecks_create, HealthChecks_update, HealthChecks_getHealthCheckLink, HealthChecks_Get.
  keeps_go; eauto with keeps.
Qed.
Lemma HealthChecker_keeps `{!LegacyKeeps f} : @HCKeeps W F (NewHealthChecker h) f.
Proof.
  split; intros; simpl; unfold HealthChecks_GetLegacy, HealthChecks_DeleteLegacy;
    eauto using HealthChecksSync_keeps with keeps.
Qed.
End healthchecks.

(** ** The backend pool *)

Section backends.
Context {W F : Type} (f : W → F) `{BackendServices W, NEGGetter W, HealthChecker W, NodePool W, MapRange}.
Context `{!BSKeeps f, !HCKeeps f} (b : Backends W).
Hypothesis Hsnap : ∀ s w, f (lset (bk_snapshotter b) s w) = f w.
Hypothesis Hprobe : ∀ probe sp, bk_prober b = Some probe → keeps f (probe sp).

Lemma edgeHop_modes_keeps be orig add modes errs : keeps f (edgeHop_modes be orig add modes errs).
Proof. revert be errs. induction modes; intros be errs; simpl; keeps_go; eauto with keeps. Qed.
Lemma ensureBackendService_keeps p igs : keeps f (Backends_ensureBackendService b p igs).
Proof.
  unfold Backends_ensureBackendService, Backends_ensure_body, Backends_ensureHealthCheck, Backends_getOrCreate,
    Backends_create, Backends_Get, Backends_reconcile, Backends_edgeHop, bk_pool_Add.
  destruct (bk_prober b) as [probe|] eqn:Hp;
    keeps_go; eauto using edgeHop_modes_keeps with keeps; by apply keeps_zoom.
Qed.
Lemma BackendsGet_keeps port : keeps f (Backends_Get b port).
Proof. unfold Backends_Get, bk_pool_Add. keeps_go; eauto with keeps. by apply keeps_zoom. Qed.
Lemma BackendsEnsure_keeps ports igs :
  (igs = None → ∀ n ps, keeps f (nop_EnsureInstanceGroupsAndPorts n ps)) → keeps f (Backends_Ensure b ports igs).
Proof.
  intros Hnop. unfold Backends_Ensure, EnsureInstanceGroupsAndPorts.
  apply keeps_bind; [destruct igs; [apply keeps_ret|by apply Hnop]|]. intros l.
  apply keeps_forEach. intros p. apply ensureBackendService_keeps.
Qed.
End backends.

(** [GC] deletes services and their health checks. *)
Section deletes.
Context {W F : Type} (f : W → F) `{BackendServices W, HealthChecker W, MapRange} (b : Backends W).
Hypothesis Hbs : ∀ n, keeps f (bsc_DeleteGlobalBackendService n).
Hypothesis Hhc : ∀ p, keeps f (hcr_Delete p).
Hypothesis Hsnap : ∀ s w, f (lset (bk_snapshotter b) s w) = f w.

Lemma BackendsDelete_keeps port : keeps f (Backends_Delete b port).
Proof. unfold Backends_Delete, bk_pool_Delete. keeps_go; eauto with keeps; by apply keeps_zoom. Qed.
Lemma BackendsGC_keeps ports : keeps f (Backends_GC b ports).
Proof.
  apply keeps_bind; [apply keeps_getW|]. intros pool. apply keeps_forEach. intros x. unfold Backends_gcPort.
  destruct (ParseUint16 _); [|apply keeps_throw]. case_decide; [apply keeps_ret|].
  apply keeps_bind; [apply keeps_try, BackendsDelete_keeps|]. intros r. keeps_go.
Qed.
End deletes.

(** ** Load balancers *)

Section lbs.
Context {W F : Type} (f : W → F) `{LoadBalancers W, MapRange, !LBKeeps f}.

Lemma cloud_keeps {A} (m : M W A) : keeps f m → keeps (λ s, f s.2) (cloud m).
Proof. intros Hm [l w]. specialize (Hm w). unfold cloud, zoom. simpl. by destruct (m w). Qed.
Lemma update_keeps g : keeps (λ s, f s.2) (@update W g).
Proof. by intros []. Qed.
Lemma edgeHop_keeps : keeps (λ s, f s.2) (@L7_edgeHop W _).
Proof.
  unfold L7_edgeHop, L7_edgeHopHttp, L7_edgeHopHttps, L7_checkUrlMap, L7_checkProxy, L7_checkHttpForwardingRule,
    L7_checkStaticIP, L7_checkSSLCert, L7_checkHttpsProxy, L7_checkHttpsForwardingRule, L7_deleteOldSSLCert,
    L7_usePreSharedCert, L7_populateSSLCert, L7_getSslCertLinkInUse, L7_getEffectiveIP, L7_checkForwardingRule,
    ignoreNotFound, self.
  keeps_go; first [apply update_keeps | apply cloud_keeps; by destruct LBKeeps0].
Qed.

Lemma UpdateUrlMap_keeps rules :
  (∀ x, keeps f (lbc_UpdateUrlMap x)) → (∀ n, keeps f (lbc_GetUrlMap n)) → keeps (λ s, f s.2) (@L7_UpdateUrlMap W _ _ rules).
Proof.
  intros Hu Hg. unfold L7_UpdateUrlMap, self. keeps_go; first [apply update_keeps | apply cloud_keeps; auto].
Qed.

(** [L7s_Add] also writes to the pool's own map. *)
Lemma L7sAdd_keeps (p : L7s W) ri :
  (∀ s w, f (lset (l7s_snapshotter p) s w) = f w) → keeps f (L7s_Add p ri).
Proof.
  intros Hsnap. unfold L7s_Add, L7s_Get, L7s_create. keeps_go.
  all: intros w; unfold L7s_run; match goal with |- context [L7_edgeHop (?lb, w)] =>
    pose proof (edgeHop_keeps (lb, w)) as Hk; destruct (L7_edgeHop (lb, w)) as [r [lb' w']] end; simpl in *; by rewrite Hsnap.
Qed.

(** *** Deleting load balancers *)

Context `{!LBDeletesKeep f}.
Lemma cleanupStep_keeps {X} (field : L7 → option X) name del reset :
  (∀ n, keeps f (del n)) → keeps (λ s, f s.2) (cleanupStep field name del reset).
Proof.
  intros Hdel. unfold cleanupStep, ignoreNotFound, self. keeps_go; first [apply update_keeps | by apply cloud_keeps].
Qed.
Lemma Cleanup_keeps : keeps (λ s, f s.2) (@L7_Cleanup W _).
Proof.
  unfold L7_Cleanup, self. keeps_go.
  all: first [apply cleanupStep_keeps; by destruct LBDeletesKeep0 | apply update_keeps | apply cloud_keeps; by destruct LBDeletesKeep0].
Qed.
Lemma L7sDelete_keeps (p : L7s W) key :
  (∀ s w, f (lset (l7s_snapshotter p) s w) = f w) → keeps f (L7s_Delete p key).
Proof.
  intros Hsnap. unfold L7s_Delete, L7s_Get. keeps_go; [|by apply keeps_zoom].
  intros w. unfold L7s_run. match goal with |- context [L7_Cleanup (?lb, w)] =>
    pose proof (Cleanup_keeps (lb, w)) as Hk; destruct (L7_Cleanup (lb, w)) as [r [lb' w']] end. simpl in *. by rewrite Hsnap.
Qed.
Lemma L7sGC_keeps `{BackendPool W} (p : L7s W) names :
  (∀ s w, f (lset (l7s_snapshotter p) s w) = f w) → names ≠ [] → keeps f (L7s_GC p names).
Proof.
  intros Hsnap Hne. unfold L7s_GC. rewrite (decide_False (P := length names = 0)) by (by destruct names).
  apply keeps_bind; [apply keeps_getW|]. intros pool. apply keeps_bind; [|intros _; apply keeps_ret].
  apply keeps_forEach. intros kv. case_decide; [apply keeps_ret|by apply L7sDelete_keeps].
Qed.
End lbs.

(** ** The firewall rule *)

Lemma FirewallSync_keeps {W F} (f : W → F) `{FirewallCloud W, !FWKeeps f} c1 c2 c3 fr ports nodes :
  keeps f (FirewallRules_Sync c1 c2 c3 fr ports nodes).
Proof.
  unfold FirewallRules_Sync, FirewallRules_Shutdown, FirewallRules_deleteFirewall, FirewallRules_reconcile,
    FirewallRules_createFirewallObject, FirewallRules_createFirewall, FirewallRules_updateFirewall.
  keeps_go; eauto with keeps.
Qed.
Lemma FirewallShutdown_keeps {W F} (f : W → F) `{FirewallCloud W, !FWKeeps f} c fr : keeps f (FirewallRules_Shutdown c fr).
Proof. unfold FirewallRules_Shutdown, FirewallRules_deleteFirewall. keeps_go; eauto with keeps. Qed.
