(* ===== verification/BackendsFake.v ===== *)
(** * BackendsFake: the fakes keep the promises the backend pool relies on

    The world of the tests of pkg/backends: the fake backend services, the
    real health checker on the fake health check provider, the caches of the
    two backend pools of the cluster manager, and a rest that the backend pools
    do not know. The theorems of [BackendsSpec] hold of it, which their
    witnesses show on concrete ports. *)

From S2P Require Import Prelude GoLang GoStrings Compute Utils Namer HealthChecks Instances Backends Frames BackendsSpec.

Record BWorld (R : Type) := MkBWorld {
  bw_services : FakeBackendServices;
  bw_checks : FakeHealthCheckProvider;
  bw_pool : gmap string (option BackendService);
  bw_defaults : gmap string (option BackendService);
  bw_rest : R;
}.
Arguments MkBWorld {R} _ _ _ _ _.
Arguments bw_services {R} _.
Arguments bw_checks {R} _.
Arguments bw_pool {R} _.
Arguments bw_defaults {R} _.
Arguments bw_rest {R} _.

Section lenses.
Context {R : Type}.

Definition bw_services_lens : lens (BWorld R) FakeBackendServices :=
  Lens bw_services (λ f w, MkBWorld f (bw_checks w) (bw_pool w) (bw_defaults w) (bw_rest w)).
Definition bw_checks_lens : lens (BWorld R) FakeHealthCheckProvider :=
  Lens bw_checks (λ f w, MkBWorld (bw_services w) f (bw_pool w) (bw_defaults w) (bw_rest w)).
Definition bw_pool_lens : lens (BWorld R) (gmap string (option BackendService)) :=
  Lens bw_pool (λ f w, MkBWorld (bw_services w) (bw_checks w) f (bw_defaults w) (bw_rest w)).
Definition bw_defaults_lens : lens (BWorld R) (gmap string (option BackendService)) :=
  Lens bw_defaults (λ f w, MkBWorld (bw_services w) (bw_checks w) (bw_pool w) f (bw_rest w)).
Definition bw_rest_lens : lens (BWorld R) R :=
  Lens bw_rest (λ x w, MkBWorld (bw_services w) (bw_checks w) (bw_pool w) (bw_defaults w) x).
Global Instance bw_checks_lens_laws : LensLaws bw_checks_lens.
Proof. by split; [|intros []|]. Qed.
Global Instance bw_pool_lens_laws : LensLaws bw_pool_lens.
Proof. by split; [|intros []|]. Qed.
Global Instance bw_defaults_lens_laws : LensLaws bw_defaults_lens.
Proof. by split; [|intros []|]. Qed.
Global Instance bw_rest_lens_laws : LensLaws bw_rest_lens.
Proof. by split; [|intros []|]. Qed.
End lenses.

Definition BackendServices_zoom {W F} (l : lens W F) `{BackendServices F} : BackendServices W := {|
  bsc_GetGlobalBackendService := λ n, zoom l (bsc_GetGlobalBackendService n);
  bsc_GetAlphaGlobalBackendService := λ n, zoom l (bsc_GetAlphaGlobalBackendService n);
  bsc_UpdateGlobalBackendService := λ be, zoom l (bsc_UpdateGlobalBackendService be);
  bsc_UpdateAlphaGlobalBackendService := λ be, zoom l (bsc_UpdateAlphaGlobalBackendService be);
  bsc_CreateGlobalBackendService := λ be, zoom l (bsc_CreateGlobalBackendService be);
  bsc_DeleteGlobalBackendService := λ n, zoom l (bsc_DeleteGlobalBackendService n);
  bsc_ListGlobalBackendServices := zoom l bsc_ListGlobalBackendServices;
  bsc_GetGlobalBackendServiceHealth := λ n g, zoom l (bsc_GetGlobalBackendServiceHealth n g);
|}.
Definition HealthCheckProvider_zoom {W F} (l : lens W F) `{HealthCheckProvider F} : HealthCheckProvider W := {|
  hcp_CreateHttpHealthCheck := λ o, zoom l (hcp_CreateHttpHealthCheck o);
  hcp_UpdateHttpHealthCheck := λ o, zoom l (hcp_UpdateHttpHealthCheck o);
  hcp_DeleteHttpHealthCheck := λ n, zoom l (hcp_DeleteHttpHealthCheck n);
  hcp_GetHttpHealthCheck := λ n, zoom l (hcp_GetHttpHealthCheck n);
  hcp_CreateAlphaHealthCheck := λ o, zoom l (hcp_CreateAlphaHealthCheck o);
  hcp_CreateHealthCheck := λ o, zoom l (hcp_CreateHealthCheck o);
  hcp_UpdateAlphaHealthCheck := λ o, zoom l (hcp_UpdateAlphaHealthCheck o);
  hcp_UpdateHealthCheck := λ o, zoom l (hcp_UpdateHealthCheck o);
  hcp_DeleteHealthCheck := λ n, zoom l (hcp_DeleteHealthCheck n);
  hcp_GetAlphaHealthCheck := λ n, zoom l (hcp_GetAlphaHealthCheck n);
  hcp_GetHealthCheck := λ n, zoom l (hcp_GetHealthCheck n);
|}.
Definition HealthCheckProviderLaws_zoom {W F} (l : lens W F) `{!LensLaws l} `{HealthCheckProviderLaws F} :
  @HealthCheckProviderLaws W (HealthCheckProvider_zoom l).
Proof.
  unshelve refine (@Build_HealthCheckProviderLaws W (HealthCheckProvider_zoom l) (λ w, hcp_view (lget l w)) _ _ _ _ _ _ _);
    intros x w; apply wp_zoom; (eapply wp_mono; [first [apply hcp_GetAlpha_spec | apply hcp_Get_spec
      | apply hcp_CreateAlpha_spec | apply hcp_Create_spec | apply hcp_UpdateAlpha_spec | apply hcp_Update_spec
      | apply hcp_Delete_spec]|..]); intros ?? HP; cbv beta; rewrite lens_get_set; exact HP.
Defined.

Section world.
Context {R : Type} (namer : Namer) (path : string) (negs : string → string → option NetworkEndpointGroup).
Context (pl : lens (BWorld R) (gmap string (option BackendService))) (probes : option (list (ServicePort * Probe)))
  (ignored : list Z).

Local Instance bw_BackendServices : BackendServices (BWorld R) := BackendServices_zoom bw_services_lens.
Local Instance bw_HealthChecks : HealthCheckProvider (BWorld R) := HealthCheckProvider_zoom bw_checks_lens.
Local Instance bw_HealthChecks_laws : HealthCheckProviderLaws (BWorld R) := HealthCheckProviderLaws_zoom bw_checks_lens.
Local Instance bw_HealthChecker : HealthChecker (BWorld R) := NewHealthChecker (MkHealthChecks path namer).
Local Instance bw_NEGGetter : NEGGetter (BWorld R) := {|
  ngg_GetNetworkEndpointGroup := λ name zone,
    match negs zone name with Some neg => mret neg | None => throw FakeGoogleAPINotFoundErr end |}.

(** The fake stores a health check with the self link it is given, and the
    controller gives none. *)
Definition unlinked (w : BWorld R) : Prop :=
  ∀ n o, fhc_generic (bw_checks w) !! n = Some o → hcs_SelfLink (ahc_Settings o) = "".
(** The services are stored under their names, the health checks have the
    child of their type and no self link, and the legacy health check of a port
    checks it. *)
Local Instance bw_world : BackendWorld (BWorld R) := {|
  bsv := λ w, fbs_backendServices (bw_services w);
  hcv := λ w p, (λ o, hcs_SelfLink (ahc_Settings o)) <$> fhc_generic (bw_checks w) !! Namer_Backend namer p;
  ngv := negs;
  binv := λ w,
    (∀ n be, fbs_backendServices (bw_services w) !! n = Some be → bs_Name be = n) ∧
    ((∀ n o, fhc_generic (bw_checks w) !! n = Some o → hc_wf o) ∧ unlinked w) ∧
    (∀ p o, fhc_http (bw_checks w) !! Namer_Backend namer p = Some o → hhc_Port o = p);
|}.
(** A pool whose cache is one of the two. *)
Definition bw_backends : Backends (BWorld R) :=
  MkBackends pl (FakeProbeProvider_GetProbe <$> probes) (list_to_set (portKey <$> ignored)) namer.
Class CacheLens := {
  cache_laws :: LensLaws pl;
  cache_set s w : bw_services (lset pl s w) = bw_services w ∧ bw_checks (lset pl s w) = bw_checks w;
  cache_get w w' : bw_pool w' = bw_pool w → bw_defaults w' = bw_defaults w → lget pl w' = lget pl w;
}.
Context `{!CacheLens}.

Lemma bs_with_SelfLink_id be : bs_with_SelfLink (bs_SelfLink be) be = be.
Proof. by destruct be. Qed.

(** Close the goals that say what did not change. *)
Local Ltac unchanged :=
  unfold same, same_but_services, same_but_check, bk_pool; simpl; repeat split;
  try assumption; try done; try (by apply cache_get); try tauto.

Lemma fake_update_ok be f Q E :
  Q tt (fbs_set <[bs_Name be := be]> (fbs_call Op_Update f)) →
  (∀ e, E e f) → wp (FakeBS_UpdateGlobalBackendService be) Q E f.
Proof.
  intros HQ HE. unfold FakeBS_UpdateGlobalBackendService, fbs_inject. wp_steps.
  destruct (fbs_errFunc f) as [ef|]; wp_steps; [destruct (ef Op_Update be); wp_steps; auto|done].
Qed.
Lemma fake_create_ok be f Q E :
  Q tt (fbs_set <[bs_Name be := bs_with_SelfLink (bs_Name be) be]> (fbs_call Op_Create f)) →
  (∀ e, E e f) → wp (FakeBS_CreateGlobalBackendService be) Q E f.
Proof.
  intros HQ HE. unfold FakeBS_CreateGlobalBackendService, fbs_inject. wp_steps.
  destruct (fbs_errFunc f) as [ef|]; wp_steps; [destruct (ef Op_Create be); wp_steps; auto|done].
Qed.
Lemma fake_get_ok name f Q E :
  (∀ be, fbs_backendServices f !! name = Some be → bs_Name be = name → Q be (fbs_call Op_Get f)) →
  (∀ e, (fbs_backendServices f !! name = None ∨
         ∃ be, fbs_backendServices f !! name = Some be ∧ bs_Name be ≠ name) →
     E e (fbs_call Op_Get f)) →
  wp (FakeBS_GetGlobalBackendService name) Q E f.
Proof.
  intros HQ HE. unfold FakeBS_GetGlobalBackendService. wp_steps.
  destruct (fbs_backendServices f !! name) as [be|] eqn:Hbe; [case_decide|]; wp_steps; eauto.
Qed.
Lemma insert_named (m : gmap string BackendService) be n x :
  (∀ n be, m !! n = Some be → bs_Name be = n) →
  <[bs_Name be := be]> m !! n = Some x → bs_Name x = n.
Proof. intros Hm [[<- <-]|[_ ?]]%lookup_insert_Some; auto. Qed.

Lemma keeps_checks {F A} (f : BWorld R → F) (m : M FakeHealthCheckProvider A) :
  (∀ x w, f (lset bw_checks_lens (fhc_set_generic x (bw_checks w)) w) = f w) →
  (∀ w, ∃ x, (m w).2 = fhc_set_generic x w) → keeps f (zoom bw_checks_lens m).
Proof.
  intros Hf Hm w. unfold zoom. destruct (Hm (bw_checks w)) as [x Hx]. simpl in *. destruct (m (bw_checks w)) as [r c].
  simpl in *. rewrite Hx. apply Hf.
Qed.
Global Instance bw_generic_keeps :
  HCPKeeps (λ w : BWorld R, (bw_services w, fhc_http (bw_checks w), bw_pool w, bw_defaults w, bw_rest w)).
Proof.
  split; intros x; apply keeps_checks; try done; intros w; simpl;
    unfold Fake_GetAlphaHealthCheck, Fake_GetHealthCheck, Fake_CreateAlphaHealthCheck, Fake_CreateHealthCheck,
      Fake_UpdateAlphaHealthCheck, Fake_UpdateHealthCheck, mbind, M_bind, getW, modW; simpl;
    repeat case_match; simpl; first [by eexists | by exists id; destruct w].
Qed.

(** The links of the health checks stay empty. *)
Lemma unlinked_get n alpha w :
  (∀ n o, fhc_generic (bw_checks w) !! n = Some o → hc_wf o) → unlinked w →
  wp (HealthChecks_Get (MkHealthChecks path namer) n alpha)
    (λ hc w', w' = w ∧ hck_SelfLink hc = "") (λ _ w', w' = w) w.
Proof.
  intros Hwf Hu. unfold HealthChecks_Get. destruct w as [sv ck pool df rest]. unfold unlinked in Hu. simpl in *.
  set (name := Namer_Backend namer n).
  destruct alpha; apply wp_bind, wp_zoom; simpl;
    [unfold Fake_GetAlphaHealthCheck|unfold Fake_GetHealthCheck]; wp_steps;
    destruct (fhc_generic ck !! name) as [o|] eqn:Ho; wp_steps; try done.
  - destruct (seen_wf true o (Hwf _ _ Ho)) as [hc Hs]. eapply wp_ofOption; [exact Hs|].
    split; [done|]. unfold hck_SelfLink. rewrite (seen_settings true o hc Hs). eauto.
  - destruct (seen_wf false o (Hwf _ _ Ho)) as [hc Hs]. eapply wp_ofOption; [exact Hs|].
    split; [done|]. unfold hck_SelfLink. rewrite (seen_settings false o hc Hs). eauto.
Qed.
Lemma unlinked_insert n o w : hcs_SelfLink (ahc_Settings o) = "" → unlinked w →
  unlinked (lset bw_checks_lens (fhc_set_generic <[n := o]> (bw_checks w)) w).
Proof. intros Ho Hu m o'. simpl. intros [[<- <-]|[_ ?]]%lookup_insert_Some; eauto. Qed.
Lemma fake_sync_unlinked hc w :
  hck_SelfLink hc = "" → (∀ n o, fhc_generic (bw_checks w) !! n = Some o → hc_wf o) → unlinked w →
  wp (HealthChecks_Sync (MkHealthChecks path namer) hc)
    (λ link w', unlinked w' ∧ link = "") (λ _ w', unlinked w') w.
Proof.
  intros Hl Hwf Hu. unfold HealthChecks_Sync. destruct (path_fields (MkHealthChecks path namer) hc) as (Hset&_&_&_).
  assert (hcs_SelfLink (ahc_Settings (hck_HealthCheck (HealthChecks_path (MkHealthChecks path namer) hc))) = "") as Hl'
    by (by rewrite Hset). generalize dependent (HealthChecks_path (MkHealthChecks path namer) hc). intros hc' _ Hl'.
  apply wp_bind, wp_try. wp_use unlinked_get; [done..| |]; cbv beta.
  - intros ex w1 [-> Hex]. destruct (needToUpdate ex hc'); [|by apply wp_ret]. apply wp_bind. unfold HealthChecks_update.
    destruct (hck_ForNEG hc'); apply wp_zoom; simpl; [unfold Fake_UpdateAlphaHealthCheck|unfold Fake_UpdateHealthCheck];
      wp_steps; try (by destruct w); (split; [|done]); apply unlinked_insert; try done; simpl.
    + by rewrite ToAlpha_settings.
    + by repeat case_decide.
  - intros e w1 ->. destruct (IsHTTPErrorCode e StatusNotFound); simpl negb; [|by apply wp_throw]. apply wp_bind.
    unfold HealthChecks_create, HealthChecks_getHealthCheckLink.
    assert (∀ o n, hcs_SelfLink (ahc_Settings o) = "" → hc_wf o →
      let w' := lset bw_checks_lens (fhc_set_generic <[n := o]> (bw_checks w)) w in
      wp (HealthChecks_getHealthCheckLink (MkHealthChecks path namer) (hck_Port hc'))
        (λ link w', unlinked w' ∧ link = "") (λ _ w', unlinked w') w') as Hread.
    { intros o n Ho Hwo w'. assert (unlinked w') as Hu' by (by apply unlinked_insert). apply wp_bind.
      wp_use unlinked_get; [|done|..]; cbv beta.
      - intros m o'. simpl. intros [[<- <-]|[_ ?]]%lookup_insert_Some; eauto.
      - intros hc1 w1 [-> ?]. by apply wp_ret.
      - by intros _ w1 ->. }
    destruct (hck_ForNEG hc'); apply wp_zoom, wp_modW; apply Hread.
    + by rewrite ToAlpha_settings.
    + pose proof (ToAlpha_wf "" hc') as Hw. by rewrite <-(relink_id (HealthCheck_ToAlphaComputeHealthCheck hc')), ToAlpha_settings, Hl'.
    + change (hcs_SelfLink (v1hc_Settings (HealthCheck_ToComputeHealthCheck hc')) = ""). by rewrite ToCompute_settings.
    + rewrite <-(relink_id (toAlphaHealthCheck (HealthCheck_ToComputeHealthCheck hc'))). apply ToCompute_wf.
Qed.

(** [Sync] of the real health checker keeps the promise on health checks. *)
Lemma fake_sync_ok hc w :
  port_range (hck_Port hc) → hck_Name hc = Namer_Backend namer (hck_Port hc) → hck_SelfLink hc = "" → binv w →
  wp (hcr_Sync hc)
    (λ link w', same_but_check bw_backends (hck_Port hc) w w' ∧ hcv w' (hck_Port hc) = Some link)
    (λ _ w', same_but_check bw_backends (hck_Port hc) w w') w.
Proof.
  intros Hp Hn Hl0 (Hbs&[Hwf Hu]&Hleg).
  assert (∀ w', (bw_services w', fhc_http (bw_checks w'), bw_pool w', bw_defaults w', bw_rest w')
      = (bw_services w, fhc_http (bw_checks w), bw_pool w, bw_defaults w, bw_rest w) → unlinked w' →
    (∀ n o, fhc_generic (bw_checks w') !! n = Some o → hc_wf o) →
    (∀ n, n ≠ hck_Name hc → fhc_generic (bw_checks w') !! n = fhc_generic (bw_checks w) !! n) →
    same_but_check bw_backends (hck_Port hc) w w') as Hok.
  { intros w' [= Hs Hh Hpool Hdef _] Hu' Hwf' Hf. split; [|split; [by simpl; rewrite Hs|split; [by apply cache_get|]]].
    - simpl. rewrite Hs, Hh. done.
    - intros p Hr Hne. simpl. rewrite Hf; [done|]. rewrite Hn. intros He%Backend_inj; auto. }
  assert (∀ o w', (bw_services w', fhc_http (bw_checks w'), bw_pool w', bw_defaults w', bw_rest w')
      = (bw_services w, fhc_http (bw_checks w), bw_pool w, bw_defaults w, bw_rest w) → unlinked w' →
    (∀ l, hc_wf (relink l o)) →
    (∃ l, fhc_generic (bw_checks w') = <[hck_Name hc := relink l o]> (fhc_generic (bw_checks w))) →
    same_but_check bw_backends (hck_Port hc) w w' ∧ hcv w' (hck_Port hc) = Some "") as Hins.
  { intros o w' Hk Hu' Ho [l Hl]. simpl. split.
    - apply Hok; [done..| |].
      + rewrite Hl. intros n o' [[<- <-]|[_ ?]]%lookup_insert_Some; eauto.
      + intros n Hne. by rewrite Hl, lookup_insert_ne.
    - specialize (Hu' (hck_Name hc) (relink l o)). rewrite Hl, lookup_insert_eq in Hu'.
      rewrite Hl, <-Hn, lookup_insert_eq. simpl in *. by rewrite Hu'. }
  eapply wp_mono; [eapply wp_and; [by apply fake_sync_unlinked|
    eapply wp_keeps; [apply HealthChecksSync_keeps, bw_generic_keeps|
      apply (Sync_ok (MkHealthChecks path namer)); [exact Hn|intros o; apply Hwf]]]|..]; cbv beta.
  - intros link w' [[Hu' ->] [Hr Hk]]. unfold sync_result in Hr. rewrite path_name in Hr. simpl in Hr.
    destruct (fhc_generic (bw_checks w) !! hck_Name hc) as [o|] eqn:Ho.
    + destruct Hr as [_ (ex&_&Hr)]. case_match; [eapply Hins; eauto using updated_wf|].
      split; [by apply Hok; rewrite ?Hr|]. simpl. rewrite Hr, <-Hn, Ho. simpl. by rewrite (Hu _ _ Ho).
    + destruct Hr as (l&Hr&_). eapply Hins; eauto using created_wf.
  - intros e w' [Hu' [[Hr|Hr] Hk]]; simpl in Hr; [apply Hok; by rewrite ?Hr|].
    eapply Hins; eauto using created_wf.
Qed.

Global Instance bw_laws : BackendLaws bw_backends.
Proof.
  split.
  - apply _.
  - intros w n be [Hn _]. apply Hn.
  - intros s w (?&?&?). destruct (cache_set s w) as [Hs Hc]. simpl. unfold unlinked. by rewrite Hs, Hc.
  - intros name w (Hn&[Hwf Hu]&Hleg). apply wp_zoom. simpl. apply fake_get_ok; [intros be Hbe _; by unchanged|].
    intros e He. split; [by unchanged|]. intros _. destruct He as [|(be&Hbe&Hne)]; [done|].
    by destruct Hne; apply Hn.
  - intros be w (Hn&[Hwf Hu]&Hleg). apply wp_zoom. simpl. apply fake_create_ok; [|intros; by unchanged].
    split; [|by eexists]. unchanged.
    intros n x. apply (insert_named _ (bs_with_SelfLink (bs_Name be) be)), Hn.
  - intros be w (Hn&[Hwf Hu]&Hleg). apply wp_zoom. simpl. apply fake_update_ok; [|intros; by unchanged].
    split; [|eexists; by rewrite bs_with_SelfLink_id]. unchanged.
    intros n x. apply insert_named, Hn.
  - intros name w (Hn&[Hwf Hu]&Hleg). apply wp_zoom. simpl. unfold FakeBS_DeleteGlobalBackendService. wp_steps.
    destruct (fbs_backendServices _ !! name) as [be|] eqn:Hbe; wp_steps.
    + rewrite (Hn _ _ Hbe). split; [|done]. unchanged.
      intros n x [_ Hx]%lookup_delete_Some. by apply Hn.
    + by unchanged.
  - intros name w (Hn&[Hwf Hu]&Hleg). apply wp_zoom. simpl. apply wp_bind, fake_get_ok.
    + intros be Hbe _. apply wp_ret. split; [by unchanged|]. simpl. rewrite Hbe. f_equal.
      unfold toV1BackendService, toAlphaBackendService. simpl. rewrite <-list_fmap_compose.
      rewrite (list_fmap_ext _ id) by (by intros ? [] ?). rewrite list_fmap_id. by destruct be.
    + intros e _. by unchanged.
  - intros a w (Hn&[Hwf Hu]&Hleg). apply wp_zoom. simpl. apply fake_update_ok; [|intros; by unchanged].
    split; [|exists (bs_SelfLink (toV1BackendService a)); by rewrite (bs_with_SelfLink_id (toV1BackendService a))].
    unchanged. intros n x. apply (insert_named _ (toV1BackendService a)), Hn.
  - intros name zone w (Hn&[Hwf Hu]&Hleg). simpl. destruct (negs zone name) eqn:Hneg; wp_steps; by unchanged.
  - intros port proto neg. simpl. unfold HealthChecks_New. by destruct neg.
  - intros port w (Hn&[Hwf Hu]&Hleg). apply wp_zoom. simpl. unfold HealthChecks_GetLegacy. simpl.
    unfold Fake_GetHttpHealthCheck. wp_steps. case_match eqn:Ho; wp_steps; [|by unchanged].
    split; [by unchanged|]. by apply Hleg.
  - intros port w (Hn&[Hwf Hu]&Hleg). apply wp_zoom. simpl. unfold HealthChecks_DeleteLegacy. simpl.
    unfold Fake_DeleteHttpHealthCheck. wp_steps; [|by unchanged].
    unchanged. intros p o [_ Hp]%lookup_delete_Some. by apply Hleg.
  - intros hc w Hi Hp Hname Hlink. by apply fake_sync_ok.
  - intros port w (Hn&[Hwf Hu]&Hleg) Hp. apply wp_zoom. simpl. unfold HealthChecks_Delete. simpl.
    unfold Fake_DeleteHealthCheck. wp_steps.
    + split; [|simpl; by rewrite lookup_delete_eq]. unchanged.
      * intros n x [_ Hx]%lookup_delete_Some. by eapply Hwf.
      * intros n x; simpl; intros [_ Hx]%lookup_delete_Some. by eapply Hu.
      * intros p Hr Hne. rewrite lookup_delete_ne; [done|]. intros He%Backend_inj; auto.
    + split; [by unchanged|]. intros _. simpl in *. by destruct (fhc_generic _ !! _).
  - intros f sp w Hi Hf. simpl in Hf. destruct probes as [l|]; [|done]. injection Hf as <-. unfold FakeProbeProvider_GetProbe.
    repeat case_match; apply wp_ret; (split; [by split|]); by intros ? [= <-].
Qed.
End world.

Global Instance bw_pool_cache {R} : CacheLens (@bw_pool_lens R).
Proof. by split; [apply _|..]. Qed.
Global Instance bw_defaults_cache {R} : CacheLens (@bw_defaults_lens R).
Proof. by split; [apply _|..]. Qed.

(** ** Witnesses *)

Definition ex_namer : Namer := NewNamer "uid1" "".
Definition ex_neg (zone name : string) : option NetworkEndpointGroup :=
  Some (MkNetworkEndpointGroup name "LOAD_BALANCING" "GCE_VM_IP_PORT" "" "" ("neg-in-" +:+ zone)).
Definition ex_service (port : Z) : BackendService :=
  MkBackendService (Namer_Backend ex_namer port) "" "HTTP" [] port "" [] "".
(** Ports 30001 and 30002 have a backend service each. *)
Definition ex_world : BWorld unit := MkBWorld
  (MkFakeBackendServices (<[Namer_Backend ex_namer 30001 := ex_service 30001]>
     {[Namer_Backend ex_namer 30002 := ex_service 30002]}) [] None)
  NewFakeHealthCheckProvider {["30001" := None; "30002" := None]} ∅ tt.
Definition ex_pool : Backends (BWorld unit) := bw_backends ex_namer bw_pool_lens None [].
Definition ex_port (p : Z) (neg : bool) : ServicePort :=
  MkServicePort p "HTTP" (MkNamespacedName "ns" "svc") (FromInt 80) "8080" neg.

Lemma ex_world_inv : @binv (BWorld unit) (bw_world ex_namer ex_neg) ex_world.
Proof.
  split; [|split; [split|]]; [|intros n o Ho; discriminate Ho..].
  intros n be. simpl. intros [[<- <-]|[_ [<- <-]%lookup_singleton_Some]]%lookup_insert_Some; done.
Qed.

Lemma GC_spec_witness :
  let B := @bw_BackendServices unit in let N := @bw_NEGGetter unit ex_neg in
  let H := @bw_HealthChecker unit ex_namer "/" in let R := sortedRange in
  wp (Backends_GC ex_pool [ex_port 30001 false])
    (λ _ w', fbs_backendServices (bw_services w') !! Namer_Backend ex_namer 30002 = None ∧
      fbs_backendServices (bw_services w') !! Namer_Backend ex_namer 30001 = Some (ex_service 30001))
    (λ _ _, True) ex_world.
Proof.
  intros B N H R. pose (BW := @bw_world unit ex_namer ex_neg).
  pose (L := @bw_laws unit ex_namer "/" ex_neg bw_pool_lens None [] _).
  eapply wp_mono; [eapply (GC_spec ex_pool [ex_port 30001 false] ex_world)|..].
  - apply ex_world_inv.
  - intros k [v Hk]. change (({["30001" := None; "30002" := None]} : gmap string (option BackendService))
      !! k = Some v) in Hk.
    apply lookup_insert_Some in Hk as [[<- _]|[_ [<- _]%lookup_singleton_Some]];
      [exists 30001%Z|exists 30002%Z]; done.
  - intros ? w' (_&Hd&Hk&_). split.
    + apply (Hd 30002%Z); [done|]. split; [by eexists|]. split; [apply not_elem_of_empty|].
      intros sp Hsp. apply list_elem_of_singleton in Hsp as ->. discriminate.
    + refine (proj1 (Hk 30001%Z _ _)); [done|]. intros (_&_&Hn).
      by apply (Hn (ex_port 30001 false)); [set_solver|].
  - done.
Defined.

Lemma ensureBackendService_spec_witness :
  let B := @bw_BackendServices unit in let N := @bw_NEGGetter unit ex_neg in
  let H := @bw_HealthChecker unit ex_namer "/" in
  wp (Backends_ensureBackendService ex_pool (ex_port 30003 false)
       [MkInstanceGroup "ig" "zone" "zones/z/instanceGroups/ig" []])
    (λ _ w', ∃ be, fbs_backendServices (bw_services w') !! "k8s-be-30003--uid1" = Some be ∧
      bs_Protocol be = "HTTP" ∧ "zones/z/instanceGroups/ig" ∈ bk_Group <$> bs_Backends be)
    (λ _ w', is_Some (bw_pool w' !! "30003")) ex_world.
Proof.
  intros B N H. pose (BW := @bw_world unit ex_namer ex_neg). pose (L := @bw_laws unit ex_namer "/" ex_neg bw_pool_lens None [] _).
  eapply wp_mono; [eapply (ensureBackendService_spec ex_pool (ex_port 30003 false)
    [MkInstanceGroup "ig" "zone" "zones/z/instanceGroups/ig" []])|..].
  - apply ex_world_inv.
  - done.
  - intros ig ->%list_elem_of_singleton. reflexivity.
  - intros ? w' [(l&be&_&Hbe&Hp&_&_&Hl) _]. exists be. split; [exact Hbe|]. split; [exact Hp|].
    refine (Hl eq_refl (MkInstanceGroup "ig" "zone" "zones/z/instanceGroups/ig" []) _). set_solver.
  - intros ? w' [Hp _]. exact Hp.
Defined.

Lemma Link_spec_witness :
  let B := @bw_BackendServices unit in let N := @bw_NEGGetter unit ex_neg in
  let H := @bw_HealthChecker unit ex_namer "/" in
  wp (Backends_Link ex_pool (ex_port 30001 true) ["z1"; "z2"])
    (λ _ w', ∃ be, fbs_backendServices (bw_services w') !! "k8s-be-30001--uid1" = Some be ∧
      (list_to_set (bk_Group <$> bs_Backends be) : gset string) = {["neg-in-z1"; "neg-in-z2"]})
    (λ _ _, True) ex_world.
Proof.
  intros B N H. pose (BW := @bw_world unit ex_namer ex_neg). pose (L := @bw_laws unit ex_namer "/" ex_neg bw_pool_lens None [] _).
  eapply wp_mono; [eapply (Link_spec ex_pool (ex_port 30001 true) ["z1"; "z2"])|..].
  - apply ex_world_inv.
  - intros _. vm_compute. discriminate.
  - intros ? w' (_&_&Hn). destruct (Hn eq_refl) as [(name&negs&be&_&HF&Hbe&Hset) _]. exists be.
    split; [exact Hbe|]. rewrite Hset.
    apply Forall2_cons_inv_l in HF as (n1&r1&[= <-]&HF&->).
    apply Forall2_cons_inv_l in HF as (n2&r2&[= <-]&HF&->).
    apply Forall2_nil_inv_l in HF as ->. vm_compute. reflexivity.
  - done.
Defined.
