(* ===== verification/LoadBalancersFake.v ===== *)
(** * LoadBalancersFake: pkg/loadbalancers/fakes.go

    The fake cloud of the load balancer tests: a list of objects per kind,
    the calls made so far, and the counter [testIPManager]. An object handed
    out is a value here, so what a caller does to it later does not reach the
    list, as with the API client. *)

From S2P Require Import Prelude GoLang GoStrings Compute Utils Namer LoadBalancers.

Record FakeLoadBalancers := MkFakeLoadBalancers {
  flb_Fw : list ForwardingRule;
  flb_Um : list UrlMap;
  flb_Tp : list TargetHttpProxy;
  flb_Tps : list TargetHttpsProxy;
  flb_IP : list Address;
  flb_Certs : list SslCertificate;
  flb_name : string;
  flb_calls : list string;
  flb_namer : Namer;
  flb_testIP : Z;
}.
Definition flb_set_Fw x (f : FakeLoadBalancers) := MkFakeLoadBalancers x (flb_Um f) (flb_Tp f) (flb_Tps f)
  (flb_IP f) (flb_Certs f) (flb_name f) (flb_calls f) (flb_namer f) (flb_testIP f).
Definition flb_set_Um x (f : FakeLoadBalancers) := MkFakeLoadBalancers (flb_Fw f) x (flb_Tp f) (flb_Tps f)
  (flb_IP f) (flb_Certs f) (flb_name f) (flb_calls f) (flb_namer f) (flb_testIP f).
Definition flb_set_Tp x (f : FakeLoadBalancers) := MkFakeLoadBalancers (flb_Fw f) (flb_Um f) x (flb_Tps f)
  (flb_IP f) (flb_Certs f) (flb_name f) (flb_calls f) (flb_namer f) (flb_testIP f).
Definition flb_set_Tps x (f : FakeLoadBalancers) := MkFakeLoadBalancers (flb_Fw f) (flb_Um f) (flb_Tp f) x
  (flb_IP f) (flb_Certs f) (flb_name f) (flb_calls f) (flb_namer f) (flb_testIP f).
Definition flb_set_IP x (f : FakeLoadBalancers) := MkFakeLoadBalancers (flb_Fw f) (flb_Um f) (flb_Tp f)
  (flb_Tps f) x (flb_Certs f) (flb_name f) (flb_calls f) (flb_namer f) (flb_testIP f).
Definition flb_set_Certs x (f : FakeLoadBalancers) := MkFakeLoadBalancers (flb_Fw f) (flb_Um f) (flb_Tp f)
  (flb_Tps f) (flb_IP f) x (flb_name f) (flb_calls f) (flb_namer f) (flb_testIP f).
Definition flb_set_calls x (f : FakeLoadBalancers) := MkFakeLoadBalancers (flb_Fw f) (flb_Um f) (flb_Tp f)
  (flb_Tps f) (flb_IP f) (flb_Certs f) (flb_name f) x (flb_namer f) (flb_testIP f).
Definition flb_set_testIP x (f : FakeLoadBalancers) := MkFakeLoadBalancers (flb_Fw f) (flb_Um f) (flb_Tp f)
  (flb_Tps f) (flb_IP f) (flb_Certs f) (flb_name f) (flb_calls f) (flb_namer f) x.

Definition NewFakeLoadBalancers (name : string) : FakeLoadBalancers :=
  MkFakeLoadBalancers [] [] [] [] [] [] name [] (NewNamer "fake-cluster" "fake-fw") 0.

(** [f.calls = append(f.calls, op)] *)
Definition flb_call (op : string) : M FakeLoadBalancers unit :=
  modW (λ f, flb_set_calls (flb_calls f ++ [op]) f).

(** The loops over a list of objects by name: the first of a name, all but
    those of a name, and a change of those of a name. *)
Definition first_named {X} (name : X → string) (n : string) (l : list X) : option X :=
  List.find (λ x, bool_decide (name x = n)) l.
Definition without_named {X} (name : X → string) (n : string) (l : list X) : list X :=
  filter (λ x, name x ≠ n) l.
Definition change_named {X} (name : X → string) (n : string) (g : X → X) (l : list X) : list X :=
  (λ x, if decide (name x = n) then g x else x) <$> l.
(** Replace the first object of a name; [None] when there is none. *)
Fixpoint replace_named {X} (name : X → string) (y : X) (l : list X) : option (list X) :=
  match l with
  | [] => None
  | x :: l =>
      if decide (name x = name y) then Some (y :: l) else (λ l', x :: l') <$> replace_named name y l
  end.

Definition flb_find {X} (op : string) (sel : FakeLoadBalancers → list X) (name : X → string)
    (n : string) : M FakeLoadBalancers (option X) :=
  _ ← flb_call op;
  l ← getW sel;
  match first_named name n l with
  | Some x => mret (Some x)
  | None => throw FakeGoogleAPINotFoundErr
  end.

Definition testIP_ip (t : Z) : string * Z := ("0.0.0." +:+ Itoa (t + 1), t + 1)%Z.

(** ** Names *)

Definition protoOf (https : bool) : NamerProtocol := if https then HTTPSProtocol else HTTPProtocol.
Definition fwName (f : FakeLoadBalancers) (https : bool) : option string :=
  Namer_ForwardingRule (flb_namer f) (flb_name f) (protoOf https).
Definition umName (f : FakeLoadBalancers) : string := Namer_UrlMap (flb_namer f) (flb_name f).
Definition tpName (f : FakeLoadBalancers) (https : bool) : option string :=
  Namer_TargetProxy (flb_namer f) (flb_name f) (protoOf https).

(** ** Forwarding rules *)

Definition FakeLB_GetGlobalForwardingRule : string → M FakeLoadBalancers (option ForwardingRule) :=
  flb_find "GetGlobalForwardingRule" flb_Fw fw_Name.
Definition FakeLB_CreateGlobalForwardingRule (rule : ForwardingRule) : M FakeLoadBalancers unit :=
  _ ← flb_call "CreateGlobalForwardingRule";
  f ← getW (λ f, f);
  let '(address, start) :=
    if decide (fw_IPAddress rule = "") then testIP_ip (flb_testIP f) else (fw_IPAddress rule, flb_testIP f) in
  let rule := MkForwardingRule (fw_Name rule) address (fw_Target rule) (fw_PortRange rule)
    (fw_IPProtocol rule) (fw_Name rule) in
  modW (λ f, flb_set_testIP start (flb_set_Fw (flb_Fw f ++ [rule]) f)).
Definition FakeLB_SetProxyForGlobalForwardingRule (forwardingRuleName proxyLink : string) :
    M FakeLoadBalancers unit :=
  _ ← flb_call "SetProxyForGlobalForwardingRule";
  modW (λ f, flb_set_Fw (change_named fw_Name forwardingRuleName (λ fw,
    MkForwardingRule (fw_Name fw) (fw_IPAddress fw) proxyLink (fw_PortRange fw) (fw_IPProtocol fw)
      (fw_SelfLink fw)) (flb_Fw f)) f).
Definition FakeLB_DeleteGlobalForwardingRule (name : string) : M FakeLoadBalancers unit :=
  _ ← flb_call "DeleteGlobalForwardingRule";
  modW (λ f, flb_set_Fw (without_named fw_Name name (flb_Fw f)) f).
Definition FakeLB_GetForwardingRulesWithIPs (ips : list string) : M FakeLoadBalancers (list ForwardingRule) :=
  _ ← flb_call "GetForwardingRulesWithIPs";
  getW (λ f, filter (λ fw, fw_IPAddress fw ∈ (list_to_set ips : gset string)) (flb_Fw f)).

(** ** Url maps *)

Definition FakeLB_GetUrlMap : string → M FakeLoadBalancers (option UrlMap) :=
  flb_find "GetUrlMap" flb_Um um_Name.
Definition FakeLB_CreateUrlMap (urlMap : UrlMap) : M FakeLoadBalancers unit :=
  _ ← flb_call "CreateUrlMap";
  modW (λ f, flb_set_Um (flb_Um f ++ [MkUrlMap (um_Name urlMap) (umName f) (um_DefaultService urlMap)
    (um_HostRules urlMap) (um_PathMatchers urlMap)]) f).
Definition FakeLB_UpdateUrlMap (urlMap : UrlMap) : M FakeLoadBalancers unit :=
  _ ← flb_call "UpdateUrlMap";
  l ← getW flb_Um;
  match replace_named um_Name urlMap l with
  | Some l => modW (flb_set_Um l)
  | None => throw FakeGoogleAPINotFoundErr
  end.
Definition FakeLB_DeleteUrlMap (name : string) : M FakeLoadBalancers unit :=
  _ ← flb_call "DeleteUrlMap";
  modW (λ f, flb_set_Um (without_named um_Name name (flb_Um f)) f).

(** ** Target proxies *)

Definition FakeLB_GetTargetHttpProxy : string → M FakeLoadBalancers (option TargetHttpProxy) :=
  flb_find "GetTargetHttpProxy" flb_Tp tp_Name.
Definition FakeLB_CreateTargetHttpProxy (proxy : TargetHttpProxy) : M FakeLoadBalancers unit :=
  _ ← flb_call "CreateTargetHttpProxy";
  modW (λ f, flb_set_Tp (flb_Tp f ++ [MkTargetHttpProxy (tp_Name proxy) (tp_Name proxy) (tp_UrlMap proxy)]) f).
Definition FakeLB_DeleteTargetHttpProxy (name : string) : M FakeLoadBalancers unit :=
  _ ← flb_call "DeleteTargetHttpProxy";
  modW (λ f, flb_set_Tp (without_named tp_Name name (flb_Tp f)) f).
Definition FakeLB_SetUrlMapForTargetHttpProxy (proxy : TargetHttpProxy) (urlMap : UrlMap) :
    M FakeLoadBalancers unit :=
  _ ← flb_call "SetUrlMapForTargetHttpProxy";
  modW (λ f, flb_set_Tp (change_named tp_Name (tp_Name proxy) (λ tp,
    MkTargetHttpProxy (tp_Name tp) (tp_SelfLink tp) (um_SelfLink urlMap)) (flb_Tp f)) f).

Definition FakeLB_GetTargetHttpsProxy : string → M FakeLoadBalancers (option TargetHttpsProxy) :=
  flb_find "GetTargetHttpsProxy" flb_Tps tps_Name.
Definition FakeLB_CreateTargetHttpsProxy (proxy : TargetHttpsProxy) : M FakeLoadBalancers unit :=
  _ ← flb_call "CreateTargetHttpsProxy";
  modW (λ f, flb_set_Tps (flb_Tps f ++ [MkTargetHttpsProxy (tps_Name proxy) (tps_Name proxy)
    (tps_UrlMap proxy) (tps_SslCertificates proxy)]) f).
Definition FakeLB_DeleteTargetHttpsProxy (name : string) : M FakeLoadBalancers unit :=
  _ ← flb_call "DeleteTargetHttpsProxy";
  modW (λ f, flb_set_Tps (without_named tps_Name name (flb_Tps f)) f).
Definition FakeLB_SetUrlMapForTargetHttpsProxy (proxy : TargetHttpsProxy) (urlMap : UrlMap) :
    M FakeLoadBalancers unit :=
  _ ← flb_call "SetUrlMapForTargetHttpsProxy";
  modW (λ f, flb_set_Tps (change_named tps_Name (tps_Name proxy) (λ tps,
    MkTargetHttpsProxy (tps_Name tps) (tps_SelfLink tps) (um_SelfLink urlMap) (tps_SslCertificates tps))
    (flb_Tps f)) f).
Definition FakeLB_SetSslCertificateForTargetHttpsProxy (proxy : TargetHttpsProxy)
    (SSLCert : SslCertificate) : M FakeLoadBalancers unit :=
  _ ← flb_call "SetSslCertificateForTargetHttpsProxy";
  l ← getW flb_Tps;
  _ ← modW (flb_set_Tps (change_named tps_Name (tps_Name proxy) (λ tps,
        MkTargetHttpsProxy (tps_Name tps) (tps_SelfLink tps) (tps_UrlMap tps) [sc_SelfLink SSLCert]) l));
  match first_named tps_Name (tps_Name proxy) l with
  | Some _ => mret tt
  | None => throw FakeGoogleAPINotFoundErr
  end.

(** ** [CheckURLMap]

    The maps of the caller are consumed as the function goes. The arguments
    of an error that are structs are left out. *)

(** The host of a path matcher: the first host rule that names it. *)
Fixpoint matcherHost (d : string) (matcher : PathMatcher) (hostRules : list HostRule) : error + string :=
  match hostRules with
  | [] => inr ""
  | hostRule :: hostRules =>
      if decide (pm_Name matcher = hr_PathMatcher hostRule) then
        match hr_Hosts hostRule with
        | [host] =>
            if decide (d ≠ "" ∧ pm_DefaultService matcher ≠ d)
            then inl (Errorf "Expected default backend %v found %v" [d; pm_DefaultService matcher] [])
            else inr host
        | _ => inl (Errorf "Unexpected hosts in hostrules %+v" [] [])
        end
      else matcherHost d matcher hostRules
  end.

(** [delete(expectedMap[hostname], pathRule)], and the host when it is empty. *)
Definition consume (expectedMap : gmap string (gmap string string)) (hostname pathRule : string) :
    gmap string (gmap string string) :=
  let rest := delete pathRule (default ∅ (expectedMap !! hostname)) in
  if decide (rest = ∅) then delete hostname expectedMap else <[hostname := rest]> expectedMap.

Fixpoint checkPathRules (hostname : string) (rules : list PathRule)
    (expectedMap : gmap string (gmap string string)) : error + gmap string (gmap string string) :=
  match rules with
  | [] => inr expectedMap
  | rule :: rules =>
      match pr_Paths rule with
      | [pathRule] =>
          match expectedMap !! hostname with
          | None => inl (Errorf "Expected map for host %v: %v" [hostname] [])
          | Some hostMap =>
              match hostMap !! pathRule with
              | None => inl (Errorf "Expected rule %v in host map" [pathRule] [])
              | Some svc =>
                  if decide (svc = pr_Service rule)
                  then checkPathRules hostname rules (consume expectedMap hostname pathRule)
                  else inl (Errorf "Expected service %v found %v" [svc; pr_Service rule] [])
              end
          end
      | _ => inl (Errorf "Unexpected rule in pathrules %+v" [] [])
      end
  end.

Fixpoint checkMatchers (d : string) (hostRules : list HostRule) (matchers : list PathMatcher)
    (expectedMap : gmap string (gmap string string)) : error + gmap string (gmap string string) :=
  match matchers with
  | [] => inr expectedMap
  | matcher :: matchers =>
      match matcherHost d matcher hostRules with
      | inl err => inl err
      | inr hostname =>
          match checkPathRules hostname (pm_PathRules matcher) expectedMap with
          | inl err => inl err
          | inr expectedMap => checkMatchers d hostRules matchers expectedMap
          end
      end
  end.

(** What is left to say once the url map of [l7] is found. *)
Definition checkUrlMapOf (um : UrlMap) (expectedMap : gmap string (gmap string string)) : option error :=
  let d := default "" (expectedMap !! DefaultBackendKey ≫= lookup DefaultBackendKey) in
  let expectedMap := delete DefaultBackendKey expectedMap in
  if decide (d ≠ "" ∧ um_DefaultService um ≠ d)
  then Some (Errorf "Expected default backend %v found %v" [d; um_DefaultService um] []) else
  match checkMatchers d (um_HostRules um) (um_PathMatchers um) expectedMap with
  | inl err => Some err
  | inr expectedMap =>
      if decide (size expectedMap ≠ 0) then Some (Errorf "Untranslated entries %+v" [] []) else None
  end.

Definition FakeLB_CheckURLMap (l7 : L7) (expectedMap : gmap string (gmap string string)) :
    M FakeLoadBalancers unit :=
  _ ← flb_call "CheckURLMap";
  um ← ofOption (l7_um l7);
  found ← FakeLB_GetUrlMap (um_Name um);
  match found with
  | None => mret tt
  | Some _ => retErr (checkUrlMapOf um expectedMap)
  end.

(** ** Addresses and certificates *)

Definition FakeLB_ReserveGlobalAddress (addr : Address) : M FakeLoadBalancers unit :=
  _ ← flb_call "ReserveGlobalAddress";
  modW (λ f, flb_set_IP (flb_IP f ++ [addr]) f).
Definition FakeLB_GetGlobalAddress : string → M FakeLoadBalancers (option Address) :=
  flb_find "GetGlobalAddress" flb_IP ad_Name.
Definition FakeLB_DeleteGlobalAddress (name : string) : M FakeLoadBalancers unit :=
  _ ← flb_call "DeleteGlobalAddress";
  modW (λ f, flb_set_IP (without_named ad_Name name (flb_IP f)) f).

Definition FakeLB_GetSslCertificate : string → M FakeLoadBalancers (option SslCertificate) :=
  flb_find "GetSslCertificate" flb_Certs sc_Name.
Definition FakeLB_CreateSslCertificate (cert : SslCertificate) :
    M FakeLoadBalancers (option SslCertificate) :=
  _ ← flb_call "CreateSslCertificate";
  let cert := MkSslCertificate (sc_Name cert) (sc_Certificate cert) (sc_PrivateKey cert) (sc_Name cert) in
  _ ← modW (λ f, flb_set_Certs (flb_Certs f ++ [cert]) f);
  mret (Some cert).
Definition FakeLB_DeleteSslCertificate (name : string) : M FakeLoadBalancers unit :=
  _ ← flb_call "DeleteSslCertificate";
  modW (λ f, flb_set_Certs (without_named sc_Name name (flb_Certs f)) f).

#[export] Instance Fake_LoadBalancers : LoadBalancers FakeLoadBalancers := {|
  lbc_GetGlobalForwardingRule := FakeLB_GetGlobalForwardingRule;
  lbc_CreateGlobalForwardingRule := FakeLB_CreateGlobalForwardingRule;
  lbc_DeleteGlobalForwardingRule := FakeLB_DeleteGlobalForwardingRule;
  lbc_SetProxyForGlobalForwardingRule := FakeLB_SetProxyForGlobalForwardingRule;
  lbc_GetUrlMap := FakeLB_GetUrlMap;
  lbc_CreateUrlMap := FakeLB_CreateUrlMap;
  lbc_UpdateUrlMap := FakeLB_UpdateUrlMap;
  lbc_DeleteUrlMap := FakeLB_DeleteUrlMap;
  lbc_GetTargetHttpProxy := FakeLB_GetTargetHttpProxy;
  lbc_CreateTargetHttpProxy := FakeLB_CreateTargetHttpProxy;
  lbc_DeleteTargetHttpProxy := FakeLB_DeleteTargetHttpProxy;
  lbc_SetUrlMapForTargetHttpProxy := FakeLB_SetUrlMapForTargetHttpProxy;
  lbc_GetTargetHttpsProxy := FakeLB_GetTargetHttpsProxy;
  lbc_CreateTargetHttpsProxy := FakeLB_CreateTargetHttpsProxy;
  lbc_DeleteTargetHttpsProxy := FakeLB_DeleteTargetHttpsProxy;
  lbc_SetUrlMapForTargetHttpsProxy := FakeLB_SetUrlMapForTargetHttpsProxy;
  lbc_SetSslCertificateForTargetHttpsProxy := FakeLB_SetSslCertificateForTargetHttpsProxy;
  lbc_GetSslCertificate := FakeLB_GetSslCertificate;
  lbc_CreateSslCertificate := FakeLB_CreateSslCertificate;
  lbc_DeleteSslCertificate := FakeLB_DeleteSslCertificate;
  lbc_ReserveGlobalAddress := FakeLB_ReserveGlobalAddress;
  lbc_GetGlobalAddress := FakeLB_GetGlobalAddress;
  lbc_DeleteGlobalAddress := FakeLB_DeleteGlobalAddress;
|}.
