(* ===== verification/LoadBalancersSpec.v ===== *)
(** * LoadBalancersSpec: what a load balancer is after a sync and a cleanup

    Theorems about [L7] and [L7s] of [LoadBalancers] against the promises of
    the cloud. *)

From S2P Require Import Prelude GoLang GoStrings Compute Utils Namer Instances Backends LoadBalancers Frames.

(** ** What the load balancers rely on *)

(** The objects of the cloud, by kind and name. *)
Record LBView := MkLBView {
  v_fw : gmap string ForwardingRule;
  v_um : gmap string UrlMap;
  v_tp : gmap string TargetHttpProxy;
  v_tps : gmap string TargetHttpsProxy;
  v_ip : gmap string Address;
  v_certs : gmap string SslCertificate;
}.
Definition on_fw f v := MkLBView (f (v_fw v)) (v_um v) (v_tp v) (v_tps v) (v_ip v) (v_certs v).
Definition on_um f v := MkLBView (v_fw v) (f (v_um v)) (v_tp v) (v_tps v) (v_ip v) (v_certs v).
Definition on_tp f v := MkLBView (v_fw v) (v_um v) (f (v_tp v)) (v_tps v) (v_ip v) (v_certs v).
Definition on_tps f v := MkLBView (v_fw v) (v_um v) (v_tp v) (f (v_tps v)) (v_ip v) (v_certs v).
Definition on_ip f v := MkLBView (v_fw v) (v_um v) (v_tp v) (v_tps v) (f (v_ip v)) (v_certs v).
Definition on_certs f v := MkLBView (v_fw v) (v_um v) (v_tp v) (v_tps v) (v_ip v) (f (v_certs v)).

Definition fw_with_Target x fw := MkForwardingRule (fw_Name fw) (fw_IPAddress fw) x (fw_PortRange fw)
  (fw_IPProtocol fw) (fw_SelfLink fw).
Definition tp_with_UrlMap x tp := MkTargetHttpProxy (tp_Name tp) (tp_SelfLink tp) x.
Definition tps_with_UrlMap x tps :=
  MkTargetHttpsProxy (tps_Name tps) (tps_SelfLink tps) x (tps_SslCertificates tps).
Definition tps_with_Certs x tps := MkTargetHttpsProxy (tps_Name tps) (tps_SelfLink tps) (tps_UrlMap tps) x.

(** What the cloud stores for what it was given: it chooses the self link, and
    an address for a forwarding rule that asks for none. *)
Definition stored_fw (x y : ForwardingRule) : Prop :=
  fw_Name y = fw_Name x ∧ fw_Target y = fw_Target x ∧ fw_PortRange y = fw_PortRange x ∧
  (fw_IPAddress x ≠ "" → fw_IPAddress y = fw_IPAddress x).
Definition stored_um (x y : UrlMap) : Prop :=
  um_Name y = um_Name x ∧ um_DefaultService y = um_DefaultService x ∧
  um_HostRules y = um_HostRules x ∧ um_PathMatchers y = um_PathMatchers x.
(** An update that is given the link of the object does not change it. *)
Definition link_kept (x y : UrlMap) (v : LBView) : Prop :=
  ∀ old, v_um v !! um_Name x = Some old → um_SelfLink old = um_SelfLink x → um_SelfLink y = um_SelfLink x.
Definition stored_tp (x y : TargetHttpProxy) : Prop := tp_Name y = tp_Name x ∧ tp_UrlMap y = tp_UrlMap x.
Definition stored_tps (x y : TargetHttpsProxy) : Prop :=
  tps_Name y = tps_Name x ∧ tps_UrlMap y = tps_UrlMap x ∧ tps_SslCertificates y = tps_SslCertificates x.
Definition stored_cert (x y : SslCertificate) : Prop :=
  sc_Name y = sc_Name x ∧ sc_Certificate y = sc_Certificate x.

(** [lbv] is what the cloud holds. A failed call changes nothing, a read or a
    deletion answers not-found only when the object is absent, and the cloud
    refuses a second object of the same name. *)
Class LBWorld (W : Type) := { lbv : W → LBView }.

Section law_forms.
Context {W : Type} `{LBWorld W}.

Definition get_ok {X} (op : string → M W (option X)) (sel : LBView → gmap string X) : Prop :=
  ∀ n w, wp (op n)
    (λ o w', lbv w' = lbv w ∧ o = sel (lbv w) !! n)
    (λ e w', lbv w' = lbv w ∧ (IsHTTPErrorCode e StatusNotFound = true → sel (lbv w) !! n = None)) w.
Definition create_ok {X A} (op : X → M W A) (name : X → string) (sel : LBView → gmap string X)
    (on : (gmap string X → gmap string X) → LBView → LBView) (stored : X → X → Prop)
    (result : X → A → Prop) : Prop :=
  ∀ x w, wp (op x)
    (λ a w', sel (lbv w) !! name x = None ∧
       ∃ y, stored x y ∧ result y a ∧ lbv w' = on <[name x := y]> (lbv w))
    (λ _ w', lbv w' = lbv w) w.
Definition delete_ok {X} (op : string → M W unit) (sel : LBView → gmap string X)
    (on : (gmap string X → gmap string X) → LBView → LBView) : Prop :=
  ∀ n w, wp (op n)
    (λ _ w', lbv w' = on (delete n) (lbv w))
    (λ e w', lbv w' = lbv w ∧ (IsHTTPErrorCode e StatusNotFound = true → sel (lbv w) !! n = None)) w.
Definition write_ok (m : M W unit) (f : LBView → LBView) : Prop :=
  ∀ w, wp m (λ _ w', lbv w' = f (lbv w)) (λ _ w', lbv w' = lbv w) w.
End law_forms.

Class LBLaws (W : Type) `{LoadBalancers W, LBWorld W} := {
  GetFw_ok : get_ok lbc_GetGlobalForwardingRule v_fw;
  GetUm_ok : get_ok lbc_GetUrlMap v_um;
  GetTp_ok : get_ok lbc_GetTargetHttpProxy v_tp;
  GetTps_ok : get_ok lbc_GetTargetHttpsProxy v_tps;
  GetIp_ok : get_ok lbc_GetGlobalAddress v_ip;
  GetCert_ok : get_ok lbc_GetSslCertificate v_certs;
  CreateFw_ok : create_ok lbc_CreateGlobalForwardingRule fw_Name v_fw on_fw stored_fw (λ _ _, True);
  CreateUm_ok : create_ok lbc_CreateUrlMap um_Name v_um on_um stored_um (λ _ _, True);
  CreateTp_ok : create_ok lbc_CreateTargetHttpProxy tp_Name v_tp on_tp stored_tp (λ _ _, True);
  CreateTps_ok : create_ok lbc_CreateTargetHttpsProxy tps_Name v_tps on_tps stored_tps (λ _ _, True);
  ReserveIp_ok : create_ok lbc_ReserveGlobalAddress ad_Name v_ip on_ip eq (λ _ _, True);
  CreateCert_ok : create_ok lbc_CreateSslCertificate sc_Name v_certs on_certs stored_cert (λ y a, a = Some y);
  DeleteFw_ok : delete_ok lbc_DeleteGlobalForwardingRule v_fw on_fw;
  DeleteUm_ok : delete_ok lbc_DeleteUrlMap v_um on_um;
  DeleteTp_ok : delete_ok lbc_DeleteTargetHttpProxy v_tp on_tp;
  DeleteTps_ok : delete_ok lbc_DeleteTargetHttpsProxy v_tps on_tps;
  DeleteIp_ok : delete_ok lbc_DeleteGlobalAddress v_ip on_ip;
  DeleteCert_ok : delete_ok lbc_DeleteSslCertificate v_certs on_certs;
  SetProxy_ok n link :
    write_ok (lbc_SetProxyForGlobalForwardingRule n link) (on_fw (alter (fw_with_Target link) n));
  SetUrlMapTp_ok tp um :
    write_ok (lbc_SetUrlMapForTargetHttpProxy tp um)
      (on_tp (alter (tp_with_UrlMap (um_SelfLink um)) (tp_Name tp)));
  SetUrlMapTps_ok tps um :
    write_ok (lbc_SetUrlMapForTargetHttpsProxy tps um)
      (on_tps (alter (tps_with_UrlMap (um_SelfLink um)) (tps_Name tps)));
  SetCert_ok tps cert :
    write_ok (lbc_SetSslCertificateForTargetHttpsProxy tps cert)
      (on_tps (alter (tps_with_Certs [sc_SelfLink cert]) (tps_Name tps)));
  UpdateUm_ok um w :
    wp (lbc_UpdateUrlMap um)
      (λ _ w', ∃ um', stored_um um um' ∧ link_kept um um' (lbv w) ∧ lbv w' = on_um <[um_Name um := um']> (lbv w))
      (λ _ w', lbv w' = lbv w) w;
  fw_named w n x : v_fw (lbv w) !! n = Some x → fw_Name x = n;
  um_named w n x : v_um (lbv w) !! n = Some x → um_Name x = n;
  tp_named w n x : v_tp (lbv w) !! n = Some x → tp_Name x = n;
  tps_named w n x : v_tps (lbv w) !! n = Some x → tps_Name x = n;
  cert_named w n x : v_certs (lbv w) !! n = Some x → sc_Name x = n;
}.

(** ** The chain of objects *)

Section edgeHop.
Context {W : Type} `{LoadBalancers W, LBWorld W, MapRange, !LBLaws W}.
Implicit Types (l : L7) (w : W).

Lemma wp_self (Q : L7 → L7 * W → Prop) E l w : Q l (l, w) → wp self Q E (l, w).
Proof. done. Qed.
Lemma wp_update f (Q : unit → L7 * W → Prop) E l w : Q tt (f l, w) → wp (update f) Q E (l, w).
Proof. done. Qed.
Lemma wp_cloud {A} (m : M W A) (Q : A → L7 * W → Prop) E l w :
  wp m (λ a w', Q a (l, w')) (λ e w', E e (l, w')) w → wp (cloud m) Q E (l, w).
Proof. intros Hm. apply wp_zoom. simpl. exact Hm. Qed.

Local Ltac lb_step :=
  match goal with
  | |- wp self _ _ _ => apply wp_self
  | |- wp (update _) _ _ _ => apply wp_update
  | |- wp (mret _) _ _ _ => apply wp_ret
  | |- wp (throw _) _ _ _ => apply wp_throw
  | |- wp (mbind _ _) _ _ _ => apply wp_bind
  end.
Local Ltac lb_steps := repeat (lb_step; cbv beta).
(** Use a law of the cloud for the call at the head. *)
Local Ltac lb_call H := apply wp_cloud; eapply wp_mono; [apply H|..]; cbv beta.
Local Ltac lb_use H := lb_call H; [..|by auto].

(** A read whose error is dropped finds the object or gives nil. *)
Lemma find_ok {X} (op : string → M W (option X)) sel n (Q : option X → L7 * W → Prop) E l w :
  get_ok op sel →
  (∀ o w', lbv w' = lbv w → (∀ x, o = Some x → sel (lbv w) !! n = Some x) → Q o (l, w')) →
  wp (ignoreErr (cloud (op n))) Q E (l, w).
Proof.
  intros Hop HQ. apply wp_ignoreErr, wp_cloud. eapply wp_mono; [apply Hop|..]; cbv beta.
  - intros o w' [Hw ->]. auto.
  - intros e w' [Hw _]. by apply HQ.
Qed.

(** A creation followed by the read of what was created. *)
Lemma create_get_ok {X A B} (c : X → M W A) (g : string → M W (option X)) name sel on stored res x
    (k : option X → M (L7 * W) B) Q l w :
  create_ok c name sel on stored res → get_ok g sel →
  (∀ f v, sel (on f v) = f (sel v)) →
  (∀ y w', stored x y → lbv w' = on <[name x := y]> (lbv w) →
    wp (k (Some y)) Q (λ _ _, True) (l, w')) →
  wp (_ ← cloud (c x); o ← cloud (g (name x)); k o) Q (λ _ _, True) (l, w).
Proof.
  intros Hc Hg Hsel Hk. lb_steps. lb_use Hc. intros _ w1 (_&y&Hy&_&Hw1). lb_steps.
  lb_use Hg. intros o w2 [Hw2 ->]. rewrite Hw1, Hsel, lookup_insert_eq. apply Hk; [done|].
  by rewrite Hw2.
Qed.

Lemma on_tp_id v n x : v_tp v !! n = Some x → on_tp <[n := x]> v = v.
Proof. destruct v. unfold on_tp. intros. f_equal. by apply insert_id. Qed.
Lemma on_tps_id v n x : v_tps v !! n = Some x → on_tps <[n := x]> v = v.
Proof. destruct v. unfold on_tps. intros. f_equal. by apply insert_id. Qed.
Lemma on_um_id v n x : v_um v !! n = Some x → on_um <[n := x]> v = v.
Proof. destruct v. unfold on_um. intros. f_equal. by apply insert_id. Qed.
Lemma on_fw_id v n x : v_fw v !! n = Some x → on_fw <[n := x]> v = v.
Proof. destruct v. unfold on_fw. intros. f_equal. by apply insert_id. Qed.
Lemma alter_Some {X} (f : X → X) n x (m : gmap string X) : m !! n = Some x → alter f n m = <[n := f x]> m.
Proof.
  intros Hx. apply map_eq. intros i. destruct (decide (i = n)) as [->|].
  - by rewrite lookup_alter_eq, lookup_insert_eq, Hx.
  - by rewrite lookup_alter_ne, lookup_insert_ne.
Qed.

(** [checkUrlMap] finds or creates the url map, and records it. *)
Lemma checkUrlMap_ok l w :
  wp L7_checkUrlMap
    (λ _ s, ∃ um, s.1 = set_um (Some um) l ∧
       lbv s.2 = on_um <[Namer_UrlMap (l7_namer l) (l7_Name l) := um]> (lbv w))
    (λ _ _, True) (l, w).
Proof.
  unfold L7_checkUrlMap. lb_steps. destruct (l7_glbcDefaultBackend l) as [d|]; lb_step; [|done].
  apply (find_ok _ v_um); [apply GetUm_ok|]. intros [um|] w' Hw Ho.
  - lb_steps. exists um. split; [done|]. simpl. by rewrite on_um_id by auto.
  - eapply (create_get_ok lbc_CreateUrlMap lbc_GetUrlMap um_Name v_um on_um);
      [apply CreateUm_ok|apply GetUm_ok|done|]. intros y w1 _ Hy. lb_steps.
    exists y. split; [done|]. simpl. by rewrite Hy, Hw.
Qed.

(** [checkProxy] makes the target proxy point to the url map. *)
Lemma checkProxy_ok l w um pn :
  l7_um l = Some um → Namer_TargetProxy (l7_namer l) (l7_Name l) HTTPProtocol = Some pn →
  wp L7_checkProxy
    (λ _ s, ∃ tp tp', s.1 = set_tp (Some tp) l ∧ lbv s.2 = on_tp <[pn := tp']> (lbv w) ∧
       tp_UrlMap tp' = um_SelfLink um ∧ tp_SelfLink tp = tp_SelfLink tp')
    (λ _ _, True) (l, w).
Proof.
  intros Hum Hpn. unfold L7_checkProxy. lb_steps. rewrite Hum, Hpn. simpl. lb_steps.
  apply (find_ok _ v_tp); [apply GetTp_ok|]. intros [tp|] w' Hw Ho.
  - specialize (Ho tp eq_refl). lb_steps. destruct (CompareLinks _ _) eqn:Hc; simpl; lb_steps.
    + apply CompareLinks_true in Hc as [Hc _]. exists tp, tp. simpl. by rewrite Hw, on_tp_id.
    + lb_use SetUrlMapTp_ok. intros _ w1 Hw1. lb_steps. exists tp, (tp_with_UrlMap (um_SelfLink um) tp).
      split; [done|]. simpl. rewrite Hw1, Hw. split; [|done]. unfold on_tp.
      erewrite tp_named by exact Ho. by rewrite (alter_Some _ _ tp).
  - eapply (create_get_ok lbc_CreateTargetHttpProxy lbc_GetTargetHttpProxy tp_Name v_tp on_tp);
      [apply CreateTp_ok|apply GetTp_ok|done|]. intros y w1 [? ?] Hy. lb_steps.
    exists y, y. split; [done|]. simpl. by rewrite Hy, Hw.
Qed.

(** [checkHttpsProxy] makes the target proxy point to the url map and present
    the certificate. *)
Lemma checkHttpsProxy_ok l w um cert pn :
  l7_um l = Some um → l7_sslCert l = Some cert →
  Namer_TargetProxy (l7_namer l) (l7_Name l) HTTPSProtocol = Some pn →
  (∀ p, v_tps (lbv w) !! pn = Some p → tps_SslCertificates p ≠ []) →
  wp L7_checkHttpsProxy
    (λ _ s, ∃ tps tps', s.1 = set_tps (Some tps) l ∧ lbv s.2 = on_tps <[pn := tps']> (lbv w) ∧
       tps_UrlMap tps' = um_SelfLink um ∧ head (tps_SslCertificates tps') = Some (sc_SelfLink cert) ∧
       tps_SelfLink tps = tps_SelfLink tps')
    (λ _ _, True) (l, w).
Proof.
  intros Hum Hcert Hpn Hne. unfold L7_checkHttpsProxy. lb_steps. rewrite Hcert, Hum, Hpn. simpl. lb_steps.
  apply (find_ok _ v_tps); [apply GetTps_ok|]. intros [tp|] w' Hw Ho.
  - specialize (Ho tp eq_refl). pose proof (tps_named _ _ _ Ho) as Hn. lb_steps.
    apply (wp_mono _ (λ _ s, s.1 = l ∧
      lbv s.2 = on_tps <[pn := tps_with_UrlMap (um_SelfLink um) tp]> (lbv w)) _ (λ _ _, True)); [|simpl|done].
    { destruct (CompareLinks _ _) eqn:Hc; simpl; lb_steps.
      - apply CompareLinks_true in Hc as [<- _]. split; [done|]. simpl. rewrite Hw, on_tps_id; [done|].
        by destruct tp.
      - lb_use SetUrlMapTps_ok. intros _ w1 Hw1. split; [done|]. simpl. rewrite Hw1, Hw, Hn.
        unfold on_tps. by rewrite (alter_Some _ _ tp). }
    intros _ [l' w1]. simpl. intros [-> Hw1]. lb_steps.
    destruct (tps_SslCertificates tp) as [|c cs] eqn:Hcs; [by destruct (Hne _ Ho)|]. simpl. lb_steps.
    destruct (CompareLinks _ _) eqn:Hc; simpl; lb_steps.
    + apply CompareLinks_true in Hc as [-> _]. exists tp, (tps_with_UrlMap (um_SelfLink um) tp).
      simpl. rewrite Hw1, Hcs. done.
    + lb_use SetCert_ok. intros _ w2 Hw2. lb_steps.
      exists tp, (tps_with_Certs [sc_SelfLink cert] (tps_with_UrlMap (um_SelfLink um) tp)).
      split; [done|]. simpl. split; [|done]. rewrite Hw2, Hw1, Hn. unfold on_tps. simpl.
      rewrite (alter_Some _ _ (tps_with_UrlMap (um_SelfLink um) tp)) by apply lookup_insert_eq.
      by rewrite insert_insert_eq.
  - eapply (create_get_ok lbc_CreateTargetHttpsProxy lbc_GetTargetHttpsProxy tps_Name v_tps on_tps);
      [apply CreateTps_ok|apply GetTps_ok|done|]. intros y w1 (_&Hu&Hs) Hy. lb_steps.
    exists y, y. split; [done|]. simpl. rewrite Hy, Hw, Hu, Hs. done.
Qed.

(** [checkForwardingRule] makes the rule point to the proxy, on its port and,
    when one is asked for, its address. *)
Lemma checkForwardingRule_ok l w name link ip ports :
  wp (L7_checkForwardingRule name link ip ports)
    (λ fw s, ∃ fw', s.1 = l ∧ lbv s.2 = on_fw <[name := fw']> (lbv w) ∧ fw_Target fw' = link ∧
       fw_PortRange fw' = ports ∧ (ip ≠ "" → fw_IPAddress fw' = ip) ∧
       fw_IPAddress fw = fw_IPAddress fw' ∧ fw_Name fw = name)
    (λ _ _, True) (l, w).
Proof.
  unfold L7_checkForwardingRule. lb_steps.
  apply (find_ok _ v_fw); [apply GetFw_ok|]. intros o w' Hw Ho.
  set (R := λ (fw : ForwardingRule) (v : LBView), v_fw v !! name = Some fw ∧ fw_PortRange fw = ports ∧
    (ip ≠ "" → fw_IPAddress fw = ip)).
  lb_step. apply (wp_mono _ (λ o s, s.1 = l ∧ on_fw (delete name) (lbv s.2) = on_fw (delete name) (lbv w) ∧
    ∀ fw, o = Some fw → R fw (lbv s.2)) _ (λ _ _, True)); [|simpl|done].
  { destruct o as [fw|]; [|lb_steps; simpl; by rewrite Hw]. specialize (Ho fw eq_refl).
    destruct (mustRecreate fw ip ports) eqn:Hm; lb_steps.
    - apply wp_ignoreNotFound. lb_call DeleteFw_ok.
      + intros _ w1 Hw1. lb_steps. simpl. rewrite Hw1, Hw. split; [done|]. split; [|done].
        unfold on_fw. simpl. by rewrite delete_delete_eq.
      + intros e w1 [Hw1 Hn]. destruct (IsHTTPErrorCode e StatusNotFound); [|done]. lb_steps. simpl.
        rewrite Hw1, Hw. done.
    - split; [done|]. simpl. rewrite Hw. split; [done|]. intros _ [= <-]. split; [done|].
      apply orb_false_iff in Hm as [Hip%andb_false_iff Hp%negb_false_iff%bool_decide_eq_true].
      split; [done|]. intros Hne. destruct Hip as [Hip|Hip]; apply negb_false_iff, bool_decide_eq_true in Hip; congruence. }
  intros o1 [l1 w1]. simpl. intros (->&Hw1&HR). lb_step.
  apply (wp_mono _ (λ fw s, s.1 = l ∧ lbv s.2 = on_fw <[name := fw]> (lbv w) ∧ R fw (lbv s.2)) _ (λ _ _, True));
    [|simpl|done].
  { assert (∀ fw v, v_fw v !! name = Some fw → v = on_fw <[name := fw]> (on_fw (delete name) v)) as Hid.
    { intros fw [] Hv. unfold on_fw. simpl in *. by rewrite insert_delete_id. }
    destruct o1 as [fw|].
    - lb_step. destruct (HR fw eq_refl) as [Hfw ?]. split; [done|]. simpl. split; [|by split].
      rewrite (Hid fw (lbv w1)), Hw1 by done. unfold on_fw. simpl. by rewrite insert_delete_eq.
    - eapply (create_get_ok lbc_CreateGlobalForwardingRule lbc_GetGlobalForwardingRule fw_Name v_fw on_fw);
        [apply CreateFw_ok|apply GetFw_ok|done|]. intros y w2 (_&_&Hp&Hip) Hy. simpl in *. lb_steps.
      assert (v_fw (lbv w2) !! name = Some y) as Hl by (rewrite Hy; apply lookup_insert_eq).
      split; [done|]. simpl. split; [|by split]. rewrite (Hid y (lbv w2)), Hy by done.
      unfold on_fw in *. simpl in *. injection Hw1 as Hd -> -> -> -> ->.
      by rewrite delete_insert_eq, Hd, insert_delete_eq. }
  intros fw [l2 w2]. simpl. intros (->&Hw2&Hfw&Hp&Hip). pose proof (fw_named _ _ _ Hfw) as Hn. lb_step.
  destruct (CompareLinks _ _) eqn:Hc; lb_steps.
  - apply CompareLinks_true in Hc as [Hc _]. by exists fw.
  - lb_use SetProxy_ok. intros _ w3 Hw3. lb_steps. exists (fw_with_Target link fw). split; [done|].
    simpl. rewrite Hw3, Hn. split; [|done]. rewrite Hw2. unfold on_fw. simpl. f_equal.
    rewrite (alter_Some _ _ fw) by apply lookup_insert_eq. by rewrite insert_insert_eq.
Qed.

Lemma getEffectiveIP_ok l w :
  wp L7_getEffectiveIP (λ _ s, s.1 = l ∧ lbv s.2 = lbv w) (λ _ _, True) (l, w).
Proof.
  unfold L7_getEffectiveIP. lb_steps. case_decide; lb_steps; [|done].
  apply (find_ok _ v_ip); [apply GetIp_ok|]. intros [] w' Hw _; by lb_steps.
Qed.

Lemma checkHttpForwardingRule_ok l w tp fn :
  l7_tp l = Some tp → Namer_ForwardingRule (l7_namer l) (l7_Name l) HTTPProtocol = Some fn →
  wp L7_checkHttpForwardingRule
    (λ _ s, ∃ fw fw', s.1 = set_fw (Some fw) l ∧ lbv s.2 = on_fw <[fn := fw']> (lbv w) ∧
       fw_Target fw' = tp_SelfLink tp ∧ fw_PortRange fw' = httpDefaultPortRange ∧
       fw_IPAddress fw = fw_IPAddress fw')
    (λ _ _, True) (l, w).
Proof.
  intros Htp Hfn. unfold L7_checkHttpForwardingRule. lb_steps. rewrite Htp, Hfn. simpl. lb_steps.
  eapply wp_mono; [apply getEffectiveIP_ok| |done]. intros [a m] [l' w']. simpl. intros [-> Hw]. lb_step.
  eapply wp_mono; [apply checkForwardingRule_ok| |done].
  intros fw [l1 w1]. simpl. intros (fw'&->&Hw1&?&?&_&?&_). lb_steps. exists fw, fw'. simpl in *.
  by rewrite Hw1, Hw.
Qed.

Lemma checkHttpsForwardingRule_ok l w tps fn :
  l7_tps l = Some tps → Namer_ForwardingRule (l7_namer l) (l7_Name l) HTTPSProtocol = Some fn →
  wp L7_checkHttpsForwardingRule
    (λ _ s, ∃ fw fw', s.1 = set_fws (Some fw) l ∧ lbv s.2 = on_fw <[fn := fw']> (lbv w) ∧
       fw_Target fw' = tps_SelfLink tps ∧ fw_PortRange fw' = httpsDefaultPortRange ∧
       fw_IPAddress fw = fw_IPAddress fw')
    (λ _ _, True) (l, w).
Proof.
  intros Htp Hfn. unfold L7_checkHttpsForwardingRule. lb_steps. rewrite Htp, Hfn. simpl. lb_steps.
  eapply wp_mono; [apply getEffectiveIP_ok| |done]. intros [a m] [l' w']. simpl. intros [-> Hw]. lb_step.
  eapply wp_mono; [apply checkForwardingRule_ok| |done].
  intros fw [l1 w1]. simpl. intros (fw'&->&Hw1&?&?&_&?&_). lb_steps. exists fw, fw'. simpl in *.
  by rewrite Hw1, Hw.
Qed.

(** [checkStaticIP] touches addresses only. *)
Lemma checkStaticIP_ok l w :
  wp L7_checkStaticIP
    (λ _ s, ∃ ip m, s.1 = set_ip ip l ∧ lbv s.2 = on_ip (λ _, m) (lbv w)) (λ _ _, True) (l, w).
Proof.
  assert (∀ w', lbv w' = lbv w → ∃ m, lbv w' = on_ip (λ _, m) (lbv w)) as Hid.
  { intros w' ->. exists (v_ip (lbv w)). by destruct (lbv w). }
  assert (l = set_ip (l7_ip l) l) as Hl by by destruct l.
  unfold L7_checkStaticIP. lb_steps. destruct (l7_fw l) as [fw|]; lb_steps; [|done].
  case_decide; lb_steps; [done|].
  eapply wp_mono; [apply getEffectiveIP_ok| |done]. intros [a m] [l' w']. simpl. intros [-> Hw].
  destruct m; simpl; lb_steps; [|destruct (Hid _ Hw); eauto].
  apply (find_ok _ v_ip); [apply GetIp_ok|]. intros [ip|] w1 Hw1 _; lb_steps.
  { destruct (Hid w1); [congruence|]. eexists _, _. split; [done|]. done. }
  apply wp_try. lb_call ReserveIp_ok.
  - intros _ w2 (_&y&_&_&Hw2). lb_steps. lb_use GetIp_ok. intros o w3 [Hw3 _]. lb_steps.
    eexists _, (v_ip (lbv w3)). split; [done|]. simpl. rewrite Hw3, Hw2, Hw1, Hw. done.
  - intros e w2 Hw2. cbv beta. destruct (_ || _); lb_steps; [|done].
    destruct (Hid w2); [congruence|]. eauto.
Qed.

(** ** Certificates *)

(** The certificate in use is one the cloud holds, and the one the ingress
    asks for. *)
Definition cert_ok l (v : LBView) (cert : SslCertificate) : Prop :=
  v_certs v !! sc_Name cert = Some cert ∧
  (ri_TLSName (l7_runtimeInfo l) = "" →
   tls_Cert <$> ri_TLS (l7_runtimeInfo l) = Some (sc_Certificate cert)) ∧
  (ri_TLSName (l7_runtimeInfo l) ≠ "" → sc_Name cert = ri_TLSName (l7_runtimeInfo l)).

Lemma populateSSLCert_ok l w :
  (∀ cert, l7_sslCert l = Some cert → sc_Name cert ≠ "") →
  wp L7_populateSSLCert
    (λ _ s, ∃ c, s.1 = set_sslCert c l ∧ lbv s.2 = lbv w ∧
       ∀ cert, c = Some cert → v_certs (lbv w) !! sc_Name cert = Some cert)
    (λ _ _, True) (l, w).
Proof.
  intros Hne. unfold L7_populateSSLCert. lb_steps.
  apply (wp_mono _ (λ n s, s.1 = l ∧ lbv s.2 = lbv w ∧ (n = "" → l7_sslCert l = None)) _ (λ _ _, True));
    [|simpl|done].
  { destruct (l7_sslCert l) as [cert|] eqn:Hc; lb_steps; [repeat split; intros He; by destruct (Hne cert)|].
    unfold L7_getSslCertLinkInUse. lb_steps. simpl. lb_steps.
    apply (find_ok _ v_tps); [apply GetTps_ok|].
    intros [p|] w' Hw _; [destruct (tps_SslCertificates p)|]; by lb_steps. }
  intros n [l' w']. simpl. intros (->&Hw&Hn). case_decide as Hd; lb_steps.
  { exists None. rewrite <-(Hn Hd). split; [by destruct l|]. by rewrite (Hn Hd). }
  apply wp_try. lb_call GetCert_ok.
  - intros o w1 [Hw1 ->]. lb_steps. eexists. split; [done|]. simpl. split; [congruence|].
    rewrite Hw. intros cert Hcert. by rewrite (cert_named _ _ _ Hcert).
  - intros e w1 [Hw1 _]. lb_steps. apply wp_retErr. case_match; [done|].
    exists None. split; [done|]. simpl. split; [congruence|done].
Qed.

(** [checkSSLCert] leaves the wanted certificate in the cloud and in use. *)
Lemma checkSSLCert_ok l w :
  wantsTLS (l7_runtimeInfo l) = true →
  (∀ cert, l7_sslCert l = Some cert → sc_Name cert ≠ "") →
  wp L7_checkSSLCert
    (λ _ s, ∃ cert old m, s.1 = set_oldSSLCert old (set_sslCert (Some cert) l) ∧
       lbv s.2 = on_certs (λ _, m) (lbv w) ∧ cert_ok l (lbv s.2) cert)
    (λ _ _, True) (l, w).
Proof.
  intros Hwants Hne. unfold L7_checkSSLCert. lb_steps. unfold L7_usePreSharedCert. lb_steps.
  case_decide as Hn; lb_steps; last first.
  { lb_use GetCert_ok. intros [cert|] w1 [Hw1 Hcert]; lb_steps; [simpl; lb_steps|done].
    pose proof (cert_named _ _ _ (eq_sym Hcert)) as Hname.
    exists cert, (l7_oldSSLCert l), (v_certs (lbv w)). split; [by destruct l|]. simpl. rewrite Hw1.
    split; [by destruct (lbv w)|]. split; [by rewrite Hname|]. by split; [intros|]. }
  eapply wp_mono; [by apply populateSSLCert_ok| |done].
  intros _ [l1 w1]. simpl. intros (c&->&Hw1&Hc). lb_steps. simpl.
  unfold wantsTLS in Hwants. rewrite Hn in Hwants. simpl in Hwants.
  destruct (ri_TLS (l7_runtimeInfo l)) as [tls|] eqn:Htls; [|done]. clear Hwants. simpl. lb_steps.
  case_bool_decide as Hsame; lb_steps.
  { simpl in Hsame. destruct c as [cert|]; [|discriminate]. specialize (Hc cert eq_refl).
    exists cert, (l7_oldSSLCert l), (v_certs (lbv w)). split; [by destruct l|]. simpl. rewrite Hw1.
    split; [by destruct (lbv w)|]. split; [done|]. rewrite Htls. split; [|done]. intros _. by injection Hsame as ->. }
  set (n := L7_nextCertificateName _).
  assert (∀ w2 m, lbv w2 = on_certs m (lbv w) → 
    wp (cert ← cloud (lbc_CreateSslCertificate (MkSslCertificate n (tls_Cert tls) (tls_Key tls) ""));
        _ ← update (set_oldSSLCert c); update (set_sslCert cert))
      (λ _ s, ∃ cert old m, s.1 = set_oldSSLCert old (set_sslCert (Some cert) l) ∧
         lbv s.2 = on_certs (λ _, m) (lbv w) ∧ cert_ok l (lbv s.2) cert)
      (λ _ _, True) (set_sslCert c l, w2)) as Hcreate.
  { intros w2 m Hw2. lb_steps. lb_use CreateCert_ok. intros a w3 (_&y&[Hyn Hyc]&->&Hw3). lb_steps.
    exists y, c, (v_certs (lbv w3)). split; [done|]. simpl in *. rewrite Hw3, Hw2. split; [done|].
    split; [simpl; rewrite Hyn; apply lookup_insert_eq|]. rewrite Htls. split; [|done]. intros _. simpl. by rewrite Hyc. }
  apply wp_try, wp_ignoreNotFound. lb_call DeleteCert_ok.
  - intros _ w2 Hw2. apply (Hcreate w2 (delete n)). by rewrite Hw2, Hw1.
  - intros e w2 [Hw2 _]. destruct (IsHTTPErrorCode e StatusNotFound); [|by lb_steps].
    apply (Hcreate w2 id). rewrite Hw2, Hw1. by destruct (lbv w).
Qed.

(** [deleteOldSSLCert] deletes no other certificate than the old one. *)
Lemma deleteOldSSLCert_ok l w cert :
  l7_sslCert l = Some cert →
  wp L7_deleteOldSSLCert
    (λ _ s, ∃ old m, s.1 = set_oldSSLCert old l ∧ lbv s.2 = on_certs (λ _, m) (lbv w) ∧
       (m = v_certs (lbv w) ∨ ∃ o, l7_oldSSLCert l = Some o ∧ sc_Name o ≠ sc_Name cert ∧
          Namer_IsSSLCert (l7_namer l) (sc_Name o) = true ∧ m = delete (sc_Name o) (v_certs (lbv w))))
    (λ _ _, True) (l, w).
Proof.
  intros Hcert. unfold L7_deleteOldSSLCert. lb_steps. rewrite Hcert.
  assert (∀ w', lbv w' = lbv w → lbv w' = on_certs (λ _, v_certs (lbv w)) (lbv w)) as Hid.
  { intros w' ->. by destruct (lbv w). }
  assert (l = set_oldSSLCert (l7_oldSSLCert l) l) as Hl by by destruct l.
  destruct (l7_oldSSLCert l) as [o|] eqn:Ho; lb_steps; [|eauto 10].
  destruct (_ || _) eqn:Hb; lb_steps; [eauto 10|].
  apply orb_false_iff in Hb as [Hne%bool_decide_eq_false Hssl%negb_false_iff].
  apply wp_ignoreNotFound. lb_call DeleteCert_ok.
  - intros _ w1 Hw1. lb_steps. eexists None, _. split; [done|]. simpl. split; [by rewrite Hw1|].
    right. by exists o.
  - intros e w1 [Hw1 _]. destruct (IsHTTPErrorCode e StatusNotFound); [|done]. lb_steps.
    eexists None, _. split; [done|]. simpl. split; [by apply Hid|]. by left.
Qed.

(** ** The whole chain *)

(** The names of the objects of a load balancer. *)
Definition http_proxy l : string := truncate (targetHTTPProxyPrefix +:+ "-" +:+ l7_Name l).
Definition https_proxy l : string := truncate (targetHTTPSProxyPrefix +:+ "-" +:+ l7_Name l).
Definition http_rule l : string := truncate (forwardingRulePrefix +:+ "-" +:+ l7_Name l).
Definition https_rule l : string := truncate (httpsForwardingRulePrefix +:+ "-" +:+ l7_Name l).
Definition url_map l : string := Namer_UrlMap (l7_namer l) (l7_Name l).

(** Port 80 leads to the url map. *)
Definition serves_http l (v : LBView) (um : UrlMap) : Prop :=
  ∃ fw tp, v_fw v !! http_rule l = Some fw ∧ fw_PortRange fw = httpDefaultPortRange ∧
    v_tp v !! http_proxy l = Some tp ∧ fw_Target fw = tp_SelfLink tp ∧ tp_UrlMap tp = um_SelfLink um ∧
    L7_GetIP l = fw_IPAddress fw.
(** Port 443 leads to the url map with the certificate. *)
Definition serves_https l (v : LBView) (um : UrlMap) : Prop :=
  ∃ fw tps cert, v_fw v !! https_rule l = Some fw ∧ fw_PortRange fw = httpsDefaultPortRange ∧
    v_tps v !! https_proxy l = Some tps ∧ fw_Target fw = tps_SelfLink tps ∧
    tps_UrlMap tps = um_SelfLink um ∧ head (tps_SslCertificates tps) = Some (sc_SelfLink cert) ∧
    l7_sslCert l = Some cert ∧ cert_ok l v cert.

Lemma rules_distinct l : http_rule l ≠ https_rule l.
Proof.
  intros Heq.
  assert (HasPrefix (http_rule l) "k8s-fw-" = true) as [a Ha]%HasPrefix_spec
    by (apply truncate_prefix; [unfold nameLenLimit; simpl; lia|apply (HasPrefix_app "k8s-fw-")]).
  assert (HasPrefix (https_rule l) "k8s-fws-" = true) as [b Hb]%HasPrefix_spec
    by (apply truncate_prefix; [unfold nameLenLimit; simpl; lia|apply (HasPrefix_app "k8s-fws-")]).
  rewrite Heq, Hb in Ha. discriminate.
Qed.

Lemma edgeHopHttp_ok l w um :
  l7_um l = Some um →
  wp L7_edgeHopHttp
    (λ _ s, ∃ tp fw tp' fw', s.1 = set_fw (Some fw) (set_tp (Some tp) l) ∧
       lbv s.2 = on_fw <[http_rule l := fw']> (on_tp <[http_proxy l := tp']> (lbv w)) ∧
       tp_UrlMap tp' = um_SelfLink um ∧ fw_Target fw' = tp_SelfLink tp' ∧
       fw_PortRange fw' = httpDefaultPortRange ∧ fw_IPAddress fw = fw_IPAddress fw')
    (λ _ _, True) (l, w).
Proof.
  intros Hum. unfold L7_edgeHopHttp. lb_step. eapply wp_mono; [by apply checkProxy_ok| |done].
  intros _ [l1 w1]. simpl. intros (tp&tp'&->&Hw1&Hu&Hs).
  eapply wp_mono; [by apply checkHttpForwardingRule_ok| |done].
  intros _ [l2 w2]. simpl. intros (fw&fw'&->&Hw2&Ht&Hp&Hip).
  exists tp, fw, tp', fw'. rewrite Hw2, Hw1. split; [done|]. split; [done|]. by rewrite Ht.
Qed.

Lemma edgeHopHttps_ok l w um :
  l7_um l = Some um → wantsTLS (l7_runtimeInfo l) = true →
  (∀ cert, l7_sslCert l = Some cert → sc_Name cert ≠ "") →
  (∀ p, v_tps (lbv w) !! https_proxy l = Some p → tps_SslCertificates p ≠ []) →
  wp L7_edgeHopHttps
    (λ _ s, ∃ tps fw cert old tps' fw' m,
       s.1 = set_oldSSLCert old (set_fws (Some fw) (set_tps (Some tps) (set_sslCert (Some cert) l))) ∧
       lbv s.2 = on_certs (λ _, m) (on_fw <[https_rule l := fw']> (on_tps <[https_proxy l := tps']> (lbv w))) ∧
       tps_UrlMap tps' = um_SelfLink um ∧ fw_Target fw' = tps_SelfLink tps' ∧
       fw_PortRange fw' = httpsDefaultPortRange ∧
       head (tps_SslCertificates tps') = Some (sc_SelfLink cert) ∧ cert_ok l (lbv s.2) cert)
    (λ _ _, True) (l, w).
Proof.
  intros Hum Hwants Hne Hcs. unfold L7_edgeHopHttps. lb_step.
  eapply wp_mono; [by apply checkSSLCert_ok| |done].
  intros _ [l1 w1]. simpl. intros (cert&o&m&->&Hw1&Hcert). lb_step.
  eapply wp_mono; [eapply (checkHttpsProxy_ok _ _ um cert (https_proxy l)); try done| |done].
  { intros p. rewrite Hw1. apply Hcs. }
  intros _ [l2 w2]. simpl. intros (tps&tps'&->&Hw2&Hu&Hc&Hs). lb_step.
  eapply wp_mono; [by apply checkHttpsForwardingRule_ok| |done].
  intros _ [l3 w3]. simpl. intros (fw&fw'&->&Hw3&Ht&Hp&_).
  eapply wp_mono; [by apply deleteOldSSLCert_ok| |done].
  intros _ [l4 w4]. simpl. intros (old&m'&->&Hw4&Hm).
  exists tps, fw, cert, old, tps', fw', m'. split; [by destruct l|].
  split; [by rewrite Hw4, Hw3, Hw2, Hw1|]. split; [done|]. split; [by rewrite Ht|]. split; [done|].
  split; [done|]. destruct Hcert as [Hin Hrest]. split; [|done]. rewrite Hw4. simpl.
  assert (v_certs (lbv w3) = v_certs (lbv w1)) as Heq by by rewrite Hw3, Hw2.
  destruct Hm as [->|(oc&_&Hne'&_&->)]; rewrite Heq; [done|]. by rewrite lookup_delete_ne.
Qed.

(** The two parts of [edgeHop] between the url map and TLS. *)
Lemma httpStage_ok l w um :
  l7_um l = Some um →
  wp (if ri_AllowHTTP (l7_runtimeInfo l) then L7_edgeHopHttp else mret tt)
    (λ _ s, ∃ fw tp fwm tpm, s.1 = set_fw fw (set_tp tp l) ∧
      lbv s.2 = on_fw (λ _, fwm) (on_tp (λ _, tpm) (lbv w)) ∧
      (ri_AllowHTTP (l7_runtimeInfo l) = true → is_Some fw ∧ serves_http s.1 (lbv s.2) um) ∧
      (∀ n, n ≠ http_rule l → fwm !! n = v_fw (lbv w) !! n) ∧
      (∀ n, n ≠ http_proxy l → tpm !! n = v_tp (lbv w) !! n)) (λ _ _, True) (l, w).
Proof.
  intros Hum. destruct (ri_AllowHTTP (l7_runtimeInfo l)).
  - eapply wp_mono; [by apply edgeHopHttp_ok| |done].
    intros _ [l2 w2]. simpl. intros (tp&fw&tp'&fw'&->&Hw2&?&?&?&?).
    eexists _, _, _, _. split; [done|]. split; [by rewrite Hw2|]. split; [|split].
    + intros _. split; [done|]. exists fw', tp'. rewrite Hw2. simpl. rewrite !lookup_insert_eq. done.
    + intros n Hn. simpl. by rewrite lookup_insert_ne.
    + intros n Hn. simpl. by rewrite lookup_insert_ne.
  - lb_steps. exists (l7_fw l), (l7_tp l), (v_fw (lbv w)), (v_tp (lbv w)).
    split; [by destruct l|]. split; [simpl; by destruct (lbv w)|]. done.
Qed.
Lemma ipStage_ok (b : bool) l w :
  wp (if b then L7_checkStaticIP else mret tt)
    (λ _ s, ∃ ip m, s.1 = set_ip ip l ∧ lbv s.2 = on_ip (λ _, m) (lbv w)) (λ _ _, True) (l, w).
Proof.
  destruct b; [apply checkStaticIP_ok|]. lb_steps. exists (l7_ip l), (v_ip (lbv w)).
  split; [by destruct l|]. simpl. by destruct (lbv w).
Qed.

(** What [edgeHop] leaves: the chain of the load balancer, and everything of
    other names. *)
Definition lb_served l (s : L7 * W) : Prop :=
  ∃ um, l7_um s.1 = Some um ∧ v_um (lbv s.2) !! url_map l = Some um ∧
    (ri_AllowHTTP (l7_runtimeInfo l) = true → serves_http s.1 (lbv s.2) um) ∧
    (wantsTLS (l7_runtimeInfo l) = true → serves_https s.1 (lbv s.2) um).
Definition lb_frame l (v v' : LBView) : Prop :=
  (∀ n, n ≠ url_map l → v_um v' !! n = v_um v !! n) ∧
  (∀ n, n ≠ http_rule l → n ≠ https_rule l → v_fw v' !! n = v_fw v !! n) ∧
  (∀ n, n ≠ http_proxy l → v_tp v' !! n = v_tp v !! n) ∧
  (∀ n, n ≠ https_proxy l → v_tps v' !! n = v_tps v !! n).

Lemma lb_edgeHop_ok l w :
  (∀ cert, l7_sslCert l = Some cert → sc_Name cert ≠ "") →
  (∀ p, v_tps (lbv w) !! https_proxy l = Some p → tps_SslCertificates p ≠ []) →
  wp L7_edgeHop
    (λ _ s, (l7_Name s.1 = l7_Name l ∧ l7_runtimeInfo s.1 = l7_runtimeInfo l ∧ l7_namer s.1 = l7_namer l) ∧
       lb_served l s ∧ lb_frame l (lbv w) (lbv s.2))
    (λ _ _, True) (l, w).
Proof.
  intros Hne Hcs. unfold L7_edgeHop. lb_step.
  eapply wp_mono; [apply checkUrlMap_ok| |done].
  intros _ [l1 w1]. simpl. intros (um&->&Hw1). lb_step. apply wp_self. lb_step. simpl.
  eapply wp_mono; [by apply (httpStage_ok (set_um (Some um) l))|simpl|done].
  intros _ [l2 w2]. simpl. intros (fw&tp&fwm&tpm&->&Hw2&Hhttp&Hfwm&Htpm). lb_step.
  change (∀ n, n ≠ http_rule l → fwm !! n = v_fw (lbv w1) !! n) in Hfwm.
  change (∀ n, n ≠ http_proxy l → tpm !! n = v_tp (lbv w1) !! n) in Htpm.
  eapply wp_mono; [apply ipStage_ok|simpl|done]. intros _ [l3 w3]. simpl. intros (ip&ipm&->&Hw3).
  destruct (wantsTLS (l7_runtimeInfo l)) eqn:Htls.
  - eapply wp_mono; [eapply edgeHopHttps_ok; try done|..].
    { intros p. rewrite Hw3. simpl. rewrite Hw2. simpl. rewrite Hw1. apply Hcs. }
    + intros _ [l4 w4]. simpl.
      intros (tps&fws&cert&old&tps'&fws'&cm&->&Hw4&Hu&Ht&Hp&Hc&Hcert).
      change (lbv w4 = on_certs (λ _, cm) (on_fw <[https_rule l := fws']>
        (on_tps <[https_proxy l := tps']> (lbv w3)))) in Hw4.
      unfold lb_served, lb_frame. simpl. rewrite Hw4, Hw3, Hw2, Hw1.
      split; [done|]. split; [exists um|]; repeat split; simpl.
      * apply lookup_insert_eq.
      * intros Ha. destruct (Hhttp Ha) as [[f ->] (fw1&tp1&Hf&?&Hp1&?&?&Hip)]. exists fw1, tp1.
        rewrite Hw2 in Hf, Hp1. simpl in *.
        rewrite lookup_insert_ne by exact (not_eq_sym (rules_distinct l)). done.
      * intros _. exists fws', tps', cert. simpl. rewrite !lookup_insert_eq.
        destruct Hcert as [Hin Hrest]. rewrite Hw4 in Hin. done.
      * intros n Hn. by rewrite lookup_insert_ne.
      * intros n Hn1 Hn2. rewrite lookup_insert_ne by done. rewrite Hfwm, Hw1 by done. done.
      * intros n Hn. rewrite Htpm, Hw1 by done. done.
      * intros n Hn. by rewrite lookup_insert_ne.
    + done.
  - lb_steps. unfold lb_served, lb_frame. simpl. rewrite Hw3, Hw2, Hw1.
    split; [done|]. split; [exists um|]; repeat split; simpl.
    + apply lookup_insert_eq.
    + intros Ha. destruct (Hhttp Ha) as [[f ->] (fw1&tp1&Hf&?&Hp1&?&?&Hip)]. exists fw1, tp1.
      rewrite Hw2 in Hf, Hp1. done.
    + congruence.
    + intros n Hn. by rewrite lookup_insert_ne.
    + intros n Hn1 Hn2. rewrite Hfwm, Hw1 by done. done.
    + intros n Hn. rewrite Htpm, Hw1 by done. done.
Qed.

(** C5. After a successful [edgeHop] the load balancer works: its url map is in
    the cloud, the forwarding rule of port 80 (when HTTP is allowed) points to a
    target proxy that points to the url map, and its address is the one the
    controller reports; the rule of port 443 (when the ingress asks for TLS)
    points to a target proxy that points to the url map and presents a
    certificate the cloud holds, which is the pre-shared one when the ingress
    names one and has the content of the ingress' secret otherwise. No
    forwarding rule, proxy or url map of another name is touched. *)
Theorem edgeHop_spec l w :
  (∀ cert, l7_sslCert l = Some cert → sc_Name cert ≠ "") →
  (∀ p, v_tps (lbv w) !! https_proxy l = Some p → tps_SslCertificates p ≠ []) →
  wp L7_edgeHop
    (λ _ s, (l7_Name s.1 = l7_Name l ∧ l7_runtimeInfo s.1 = l7_runtimeInfo l) ∧
       (∃ um, l7_um s.1 = Some um ∧ v_um (lbv s.2) !! url_map l = Some um ∧
         (ri_AllowHTTP (l7_runtimeInfo l) = true → serves_http s.1 (lbv s.2) um) ∧
         (wantsTLS (l7_runtimeInfo l) = true → serves_https s.1 (lbv s.2) um)) ∧
       (∀ n, n ≠ url_map l → v_um (lbv s.2) !! n = v_um (lbv w) !! n) ∧
       (∀ n, n ≠ http_rule l → n ≠ https_rule l → v_fw (lbv s.2) !! n = v_fw (lbv w) !! n) ∧
       (∀ n, n ≠ http_proxy l → v_tp (lbv s.2) !! n = v_tp (lbv w) !! n) ∧
       (∀ n, n ≠ https_proxy l → v_tps (lbv s.2) !! n = v_tps (lbv w) !! n))
    (λ _ _, True) (l, w).
Proof.
  intros Hne Hcs. eapply wp_mono; [by apply lb_edgeHop_ok| |done]. intros _ s ((?&?&_)&?&?&?&?&?). done.
Qed.

End edgeHop.

(** ** Url maps *)

Lemma all2_eq {A} (f : A → A → bool) a b :
  (∀ x y, f x y = true ↔ x = y) → all2 f a b = true ↔ a = b.
Proof.
  intros Hf. revert b. induction a as [|x a IH]; intros [|y b]; simpl; [done..|].
  rewrite andb_true_iff, Hf, IH. naive_solver.
Qed.
Lemma strings_eq a b : all2 String.eqb a b = true ↔ a = b.
Proof. apply all2_eq, String.eqb_eq. Qed.
(** [mapsEqual] compares everything [UpdateUrlMap] sets. *)
Lemma mapsEqual_spec a b :
  mapsEqual a b = true ↔
  um_DefaultService a = um_DefaultService b ∧ um_HostRules a = um_HostRules b ∧
  um_PathMatchers a = um_PathMatchers b.
Proof.
  unfold mapsEqual. rewrite !andb_true_iff, String.eqb_eq, !all2_eq; [tauto|..].
  - intros [? ? ? ?] [? ? ? ?]. unfold pathMatcherEqual. simpl.
    rewrite !andb_true_iff, !String.eqb_eq, all2_eq; [naive_solver|].
    intros [] []. unfold pathRuleEqual. simpl. rewrite andb_true_iff, String.eqb_eq, strings_eq. naive_solver.
  - intros [] []. unfold hostRuleEqual. simpl.
    rewrite !andb_true_iff, !String.eqb_eq, strings_eq. naive_solver.
Qed.

(** The service a url map selects for an entry of its host and path tables:
    the path matcher of the host, its rule for the path, and the default
    services. *)
Definition hostMatcher (um : UrlMap) (host : string) : option PathMatcher :=
  hr ← List.find (λ hr, bool_decide (host ∈ hr_Hosts hr)) (um_HostRules um);
  List.find (λ pm, bool_decide (pm_Name pm = hr_PathMatcher hr)) (um_PathMatchers um).
Definition pathService (pm : PathMatcher) (path : string) : string :=
  match List.find (λ r, bool_decide (path ∈ pr_Paths r)) (pm_PathRules pm) with
  | Some r => pr_Service r
  | None => pm_DefaultService pm
  end.
Definition route (um : UrlMap) (host path : string) : string :=
  match hostMatcher um host with
  | Some pm => pathService pm path
  | None => um_DefaultService um
  end.
(** What the rules of an ingress ask for. *)
Definition wanted (rules : GCEURLMap) (dflt host path : string) : string :=
  match rules !! host ≫= lookup path with
  | Some (Some be) => bs_SelfLink be
  | _ => dflt
  end.

Lemma pathRules_find l rules path :
  pathRules l = Some rules →
  List.find (λ r, bool_decide (path ∈ pr_Paths r)) rules =
  (λ be, MkPathRule [path] (bs_SelfLink be)) <$> ((list_to_map l : gmap string (option BackendService)) !! path ≫= id).
Proof.
  revert rules. induction l as [|[expr [be|]] l IH]; simpl; intros rules Hr; [by injection Hr as <-| |done].
  destruct (pathRules l) as [rs|]; [|done]. injection Hr as <-. simpl. case_bool_decide as Hp.
  - apply list_elem_of_singleton in Hp as ->. by rewrite lookup_insert_eq.
  - rewrite lookup_insert_ne by (intros ->; apply Hp; set_solver). auto.
Qed.
Lemma pathRules_total l : (∀ expr be, (expr, be) ∈ l → is_Some be) → is_Some (pathRules l).
Proof.
  induction l as [|[expr be] l IH]; intros Hall; [done|]. simpl.
  destruct (Hall expr be) as [x ->]; [set_solver|]. simpl. destruct IH as [rs ->]; [set_solver|]. by eexists.
Qed.

(** The host of a url map [translateHosts] built selects the path matcher of
    the host, if the names of the path matchers tell the hosts apart. *)
Lemma translateHosts_find `{MapRange} d (l : list (string * gmap string (option BackendService))) hrs pms host :
  translateHosts d l = Some (hrs, pms) →
  (∀ h, h ∈ l.*1 → host ∈ l.*1 → getNameForPathMatcher h = getNameForPathMatcher host → h = host) →
  NoDup l.*1 →
  match (list_to_map l : GCEURLMap) !! host with
  | Some paths => ∃ rules, pathRules (range paths) = Some rules ∧
      List.find (λ hr, bool_decide (host ∈ hr_Hosts hr)) hrs =
        Some (MkHostRule "" [host] (getNameForPathMatcher host)) ∧
      List.find (λ pm, bool_decide (pm_Name pm = getNameForPathMatcher host)) pms =
        Some (MkPathMatcher d "" (getNameForPathMatcher host) rules)
  | None => List.find (λ hr, bool_decide (host ∈ hr_Hosts hr)) hrs = None
  end.
Proof.
  revert hrs pms. induction l as [|[h paths] l IH]; simpl; intros hrs pms Hr Hinj Hnd.
  { injection Hr as <- <-. by rewrite lookup_empty. }
  destruct (pathRules (range paths)) as [rules|] eqn:Hrules; [|done]. simpl in Hr.
  destruct (translateHosts d l) as [[hrs' pms']|]; [|done]. injection Hr as <- <-.
  apply NoDup_cons in Hnd as [Hh Hnd]. specialize (IH _ _ eq_refl).
  specialize (IH (λ h' Hin Hin', Hinj h' (list_elem_of_further _ _ _ Hin) (list_elem_of_further _ _ _ Hin')) Hnd).
  simpl.
  case_bool_decide as Hhost.
  - apply list_elem_of_singleton in Hhost as ->. rewrite lookup_insert_eq. exists rules.
    by rewrite bool_decide_eq_true_2.
  - assert (h ≠ host) as Hne by (intros ->; apply Hhost; set_solver).
    rewrite lookup_insert_ne by done. destruct (list_to_map l !! host) as [ps|] eqn:Hps; [|done].
    rewrite bool_decide_eq_false_2; [done|]. intros He. apply Hne, Hinj; [set_solver| |done].
    apply elem_of_list_to_map_2 in Hps. apply list_elem_of_further.
    apply list_elem_of_fmap. by exists (host, ps).
Qed.
Lemma translateHosts_total `{MapRange} d (l : list (string * gmap string (option BackendService))) :
  (∀ h paths, (h, paths) ∈ l → ∀ e be, paths !! e = Some be → is_Some be) → is_Some (translateHosts d l).
Proof.
  induction l as [|[h paths] l IH]; intros Hall; [done|]. simpl.
  destruct (pathRules_total (range paths)) as [rs ->].
  { intros e be Hin. apply range_lookup in Hin. eapply (Hall h paths); [set_solver|done]. }
  simpl. destruct IH as [[hrs pms] ->]; [set_solver|]. by eexists.
Qed.

Section update.
Context {W : Type} `{LoadBalancers W, LBWorld W, MapRange, !LBLaws W}.
Implicit Types (l : L7) (w : W).

(** The rules of an ingress that a url map can hold: no nil backend, and path
    matcher names that tell the hosts apart. *)
Definition translatable (rules : GCEURLMap) : Prop :=
  (∀ h paths e be, rules !! h = Some paths → paths !! e = Some be → is_Some be) ∧
  (∀ h h', is_Some (rules !! h) → is_Some (rules !! h') →
     getNameForPathMatcher h = getNameForPathMatcher h' → h = h').

Definition same_tables (a b : UrlMap) : Prop :=
  um_DefaultService a = um_DefaultService b ∧ um_HostRules a = um_HostRules b ∧
  um_PathMatchers a = um_PathMatchers b.
Lemma route_tables a b host path : same_tables a b → route a host path = route b host path.
Proof. intros (Hd&Hh&Hp). unfold route, hostMatcher. by rewrite Hd, Hh, Hp. Qed.

Definition defaultService l (rules : GCEURLMap) : option string :=
  bs_SelfLink <$> match (GetDefaultBackend rules).1 with
                  | Some be => Some be
                  | None => l7_glbcDefaultBackend l
                  end.

Lemma newUrlMap_route l um rules d :
  defaultService l rules = Some d → translatable (GetDefaultBackend rules).2 →
  ∃ um', L7_newUrlMap l um rules = Some um' ∧ um_Name um' = um_Name um ∧ um_SelfLink um' = um_SelfLink um ∧
    ∀ host path, route um' host path = wanted (GetDefaultBackend rules).2 d host path.
Proof.
  intros Hd [Hnil Hinj]. unfold L7_newUrlMap, defaultService in *.
  destruct (GetDefaultBackend rules) as [db rest]. simpl in *.
  set (dO := match db with Some be => _ | None => _ end). assert (dO = Some d) as ->.
  { unfold dO. by destruct db. }
  simpl. destruct (translateHosts_total d (range rest)) as [[hrs pms] Ht].
  { intros h paths Hin e be He. apply range_lookup in Hin. by eapply Hnil. }
  rewrite Ht. simpl. eexists. split; [done|]. split; [done|]. split; [done|]. intros host path.
  pose proof (translateHosts_find d (range rest) hrs pms host Ht) as Hf.
  rewrite list_to_map_range in Hf. unfold route, hostMatcher, wanted. simpl.
  destruct (rest !! host) as [paths|] eqn:Hp.
  - destruct Hf as (rs&Hrs&->&Hpm); [|apply range_NoDup|].
    { intros h Hin%range_keys Hin'%range_keys He. by apply Hinj. }
    simpl. rewrite Hpm. unfold pathService. simpl. rewrite (pathRules_find _ _ path Hrs), list_to_map_range.
    by destruct (paths !! path) as [[be|]|].
  - rewrite Hf; [done| |apply range_NoDup]. intros h Hin%range_keys Hin'%range_keys He. by apply Hinj.
Qed.

(** What an update leaves: the url map [um'] in the cloud, and in the load
    balancer too, if it knew the one that was there before. *)
Definition updated l w um rules d (s : L7 * W) : Prop :=
  ∃ um', v_um (lbv s.2) !! um_Name um = Some um' ∧
    (∀ host path, route um' host path = wanted (GetDefaultBackend rules).2 d host path) ∧
    lbv s.2 = on_um <[um_Name um := um']> (lbv w) ∧
    (v_um (lbv w) !! um_Name um = Some um → s.1 = set_um (Some um') l ∧ um_SelfLink um' = um_SelfLink um).
Lemma UpdateUrlMap_ok l w um rules d :
  l7_um l = Some um → defaultService l rules = Some d →
  translatable (GetDefaultBackend rules).2 →
  wp (L7_UpdateUrlMap rules) (λ _, updated l w um rules d)
    (λ _ s, lbv s.2 = lbv w ∨ ∃ um', lbv s.2 = on_um <[um_Name um := um']> (lbv w)) (l, w).
Proof.
  intros Hum Hd Htr. unfold L7_UpdateUrlMap. apply wp_bind, wp_self. rewrite Hum.
  destruct (newUrlMap_route l um rules d Hd Htr) as (um'&->&Hn&Hlink&Hroute). simpl.
  apply wp_bind, wp_ret, wp_bind, wp_update, wp_bind, wp_ignoreErr, wp_cloud. rewrite Hn.
  assert (∀ old w1, lbv w1 = lbv w → (∀ o, old = Some o → v_um (lbv w) !! um_Name um = Some o) →
    wp (if bool_decide ((λ old, mapsEqual old um') <$> old = Some true) then mret () else
          _ ← cloud (lbc_UpdateUrlMap um'); um ← cloud (lbc_GetUrlMap (um_Name um')); update (set_um um))
      (λ _, updated l w um rules d)
      (λ _ s, lbv s.2 = lbv w ∨ ∃ um', lbv s.2 = on_um <[um_Name um := um']> (lbv w))
      (set_um (Some um') l, w1)) as Hfin.
  { intros old w1 Hw1 Hold. case_bool_decide as Heq.
    - apply wp_ret. destruct old as [o|]; [|discriminate]. simpl in *. injection Heq as Heq%mapsEqual_spec.
      specialize (Hold o eq_refl). exists o. simpl. rewrite Hw1, on_um_id by done. split; [done|]. split; [|split; [done|]].
      { intros host path. by rewrite (route_tables o um'). }
      rewrite Hold. intros [= ->]. split; [|done]. do 2 f_equal. destruct um, um', Heq as (?&?&?). simpl in *. congruence.
    - apply wp_bind, wp_cloud. eapply wp_mono; [apply UpdateUm_ok|..]; cbv beta.
      + intros _ w2 (y&(Hyn&Hyt)&Hyl&Hw2). rewrite Hn, Hw1 in Hw2. apply wp_bind, wp_cloud.
        eapply wp_mono; [apply GetUm_ok|..]; cbv beta.
        * intros o w3 [Hw3 Ho]. apply wp_update. simpl. exists y. simpl. rewrite Hw3, Hw2. simpl.
          split; [apply lookup_insert_eq|]. split; [intros host path; by rewrite (route_tables y um')|]. split; [done|].
          intros Hin. unfold link_kept in Hyl. rewrite Hw1, Hn, Hlink in Hyl. split; [|by apply (Hyl um)].
          rewrite Hw2, Hn in Ho. simpl in Ho. rewrite lookup_insert_eq in Ho. by rewrite Ho.
        * intros e w3 [Hw3 _]. simpl. right. exists y. by rewrite Hw3, Hw2.
      + intros e w2 Hw2. left. simpl. by rewrite Hw2, Hw1. }
  rewrite <-Hn. eapply wp_mono; [apply GetUm_ok|..]; cbv beta.
  - intros o w1 [Hw1 Ho]. rewrite Hn in *. apply Hfin; [done|]. by intros ? ->.
  - intros e w1 [Hw1 _]. rewrite Hn in *. by apply (Hfin None).
Qed.

(** C6. For a load balancer that has recorded its url map, if the rules are
    translatable (every path has a backend and the path matchers of different
    hosts, named by a digest of the host, have different names) and the ingress
    or the cluster has a default backend: after a successful [UpdateUrlMap] the
    url map in the cloud routes as the ingress asks: a path of a host goes to its
    backend, and everything else to the default backend of the ingress, or of the
    cluster when the ingress has none. This holds for every order in which Go
    visits the rules; under these conditions the call never panics (without a
    backend or a default backend the code dereferences nil). Only the url map of
    that name is written, and a failed call leaves the cloud as it was or with
    that url map written. *)
Theorem UpdateUrlMap_spec l w um rules d :
  l7_um l = Some um → defaultService l rules = Some d →
  translatable (GetDefaultBackend rules).2 →
  wp (L7_UpdateUrlMap rules)
    (λ _ s, ∃ um', v_um (lbv s.2) !! um_Name um = Some um' ∧
       (∀ host path, route um' host path = wanted (GetDefaultBackend rules).2 d host path) ∧
       lbv s.2 = on_um <[um_Name um := um']> (lbv w))
    (λ _ s, lbv s.2 = lbv w ∨ ∃ um', lbv s.2 = on_um <[um_Name um := um']> (lbv w)) (l, w).
Proof.
  intros. eapply wp_mono; [by apply UpdateUrlMap_ok|cbv beta|done]. intros _ s (um'&?&?&?&_). by exists um'.
Qed.
End update.

(** ** Cleanup *)

Section cleanup.
Context {W : Type} `{LoadBalancers W, LBWorld W, !LBLaws W}.
Implicit Types (l : L7) (w : W).

Definition remove {X Y} (name : X → string) (o : option X) (m : gmap string Y) : gmap string Y :=
  match o with Some x => delete (name x) m | None => m end.

Lemma cleanupStep_ok {X} (field : L7 → option X) name (del : string → M W unit) reset
    (sel : LBView → gmap string X) on l w :
  delete_ok del sel on →
  (field l = None → reset l = l) → (∀ v f, f (sel v) = sel v → on f v = v) →
  wp (cleanupStep field name del reset)
    (λ _ s, s.1 = reset l ∧ lbv s.2 = on (remove name (field l)) (lbv w))
    (λ _ s, s.1 = l ∧ lbv s.2 = lbv w) (l, w).
Proof.
  intros Hdel Hreset Hid. unfold cleanupStep. apply wp_bind, wp_self.
  destruct (field l) as [x|] eqn:Hf; simpl.
  - apply wp_bind, wp_ignoreNotFound, wp_cloud. eapply wp_mono; [apply Hdel|..]; cbv beta.
    + intros _ w1 Hw1. by apply wp_update.
    + intros e w1 [Hw1 Hn]. destruct (IsHTTPErrorCode e StatusNotFound); [|done]. apply wp_update.
      split; [done|]. simpl. rewrite Hid, Hw1; [done|]. by apply delete_id, Hn.
  - apply wp_ret. split; [by rewrite Hreset|]. simpl. by rewrite Hid.
Qed.

(** What [Cleanup] does to the load balancer and to the cloud, step by step. *)
Definition cleanup_steps l : list ((L7 → L7) * (LBView → LBView)) :=
  [ (set_fw None, on_fw (remove fw_Name (l7_fw l)));
    (set_fws None, on_fw (remove fw_Name (l7_fws l)));
    (set_ip None, on_ip (remove ad_Name (l7_ip l)));
    (set_tps None, on_tps (remove tps_Name (l7_tps l)));
    (if decide (ri_TLSName (l7_runtimeInfo l) = "")
     then (set_sslCert None, on_certs (remove sc_Name (l7_sslCert l))) else (id, id));
    (set_tp None, on_tp (remove tp_Name (l7_tp l)));
    (set_um None, on_um (remove um_Name (l7_um l))) ].
Definition run_steps (st : list ((L7 → L7) * (LBView → LBView))) (x : L7 * LBView) : L7 * LBView :=
  foldl (λ x st, (st.1 x.1, st.2 x.2)) x st.

Lemma on_ids :
  (∀ v f, f (v_fw v) = v_fw v → on_fw f v = v) ∧ (∀ v f, f (v_ip v) = v_ip v → on_ip f v = v) ∧
  (∀ v f, f (v_tps v) = v_tps v → on_tps f v = v) ∧ (∀ v f, f (v_certs v) = v_certs v → on_certs f v = v) ∧
  (∀ v f, f (v_tp v) = v_tp v → on_tp f v = v) ∧ (∀ v f, f (v_um v) = v_um v → on_um f v = v).
Proof.
  unfold on_fw, on_ip, on_tps, on_certs, on_tp, on_um. repeat split; intros [] f; simpl; by intros ->.
Qed.

Local Ltac next_step l law id k Hw Hnext :=
  eapply wp_mono; [eapply (cleanupStep_ok _ _ _ _ _ _ _ _ law); [by destruct l; simpl; intros ->|exact id]|..];
  cbv beta; [intros _ [? ?]|intros ? [? ?]]; simpl; intros [-> Hnext]; try rewrite Hw in Hnext;
  [clear Hw|exists k; split; [lia|simpl; by rewrite Hnext]].

Lemma remove_None {X Y} (name : X → string) o (m : gmap string Y) n : m !! n = None → remove name o m !! n = None.
Proof. intros Hm. destruct o; [|done]. simpl. apply lookup_delete_None. by right. Qed.
Lemma remove_Some {X Y} (name : X → string) x (m : gmap string Y) : remove name (Some x) m !! name x = None.
Proof. apply lookup_delete_eq. Qed.
Lemma remove_ne {X Y} (name : X → string) o (m : gmap string Y) n :
  n ∉ option_list (name <$> o) → remove name o m !! n = m !! n.
Proof. destruct o; [|done]. simpl. intros Hn. rewrite lookup_delete_ne; set_solver. Qed.

(** An object the load balancer recorded is still recorded, or it is gone. *)
Definition settled {X Y} (field : L7 → option X) (name : X → string) (sel : LBView → gmap string Y)
    l (y : L7 * LBView) : Prop :=
  ∀ x, field l = Some x → field y.1 = Some x ∨ (field y.1 = None ∧ sel y.2 !! name x = None).
Definition all_settled l y : Prop :=
  settled l7_fw fw_Name v_fw l y ∧ settled l7_fws fw_Name v_fw l y ∧ settled l7_ip ad_Name v_ip l y ∧
  settled l7_tps tps_Name v_tps l y ∧ settled l7_sslCert sc_Name v_certs l y ∧
  settled l7_tp tp_Name v_tp l y ∧ settled l7_um um_Name v_um l y.
(** Nothing outside of the recorded names changed. *)
Definition untouched {Y} (sel : LBView → gmap string Y) (names : list string) (v v' : LBView) : Prop :=
  ∀ n, n ∉ names → sel v' !! n = sel v !! n.
Definition fw_names l := option_list (fw_Name <$> l7_fw l) ++ option_list (fw_Name <$> l7_fws l).
Definition cert_names l := if decide (ri_TLSName (l7_runtimeInfo l) = "")
  then option_list (sc_Name <$> l7_sslCert l) else [].
Definition others_untouched l (v v' : LBView) : Prop :=
  untouched v_fw (fw_names l) v v' ∧
  untouched v_ip (option_list (ad_Name <$> l7_ip l)) v v' ∧
  untouched v_tps (option_list (tps_Name <$> l7_tps l)) v v' ∧
  untouched v_certs (cert_names l) v v' ∧
  untouched v_tp (option_list (tp_Name <$> l7_tp l)) v v' ∧
  untouched v_um (option_list (um_Name <$> l7_um l)) v v'.
(** Nothing is created. *)
Definition shrinks (v v' : LBView) : Prop :=
  (∀ n, v_fw v !! n = None → v_fw v' !! n = None) ∧ (∀ n, v_ip v !! n = None → v_ip v' !! n = None) ∧
  (∀ n, v_tps v !! n = None → v_tps v' !! n = None) ∧ (∀ n, v_certs v !! n = None → v_certs v' !! n = None) ∧
  (∀ n, v_tp v !! n = None → v_tp v' !! n = None) ∧ (∀ n, v_um v !! n = None → v_um v' !! n = None).
(** An object goes only after those that refer to it. *)
Definition in_order l (y : L7 * LBView) : Prop :=
  (l7_tps y.1 ≠ l7_tps l → l7_fws y.1 = None) ∧ (l7_tp y.1 ≠ l7_tp l → l7_fw y.1 = None) ∧
  (l7_sslCert y.1 ≠ l7_sslCert l → l7_tps y.1 = None) ∧
  (l7_um y.1 ≠ l7_um l → l7_tp y.1 = None ∧ l7_tps y.1 = None).

Lemma steps_ok l v k :
  k ≤ 7 →
  let y := run_steps (take k (cleanup_steps l)) (l, v) in
  all_settled l y ∧ others_untouched l v y.2 ∧ in_order l y ∧ (k < 7 → l7_um y.1 = l7_um l).
Proof.
  intros Hk y. unfold all_settled, others_untouched, fw_names, cert_names, in_order, cleanup_steps in *.
  destruct (decide (ri_TLSName (l7_runtimeInfo l) = "")).
  all: destruct k as [|[|[|[|[|[|[|[|k]]]]]]]]; [..|lia]; subst y; simpl.
  all: repeat split; try done; try lia.
  all: try (intros x Hx; simpl; rewrite ?Hx; simpl; first [by left | right; split; [done|]]).
  all: try (intros i Hi; try apply not_elem_of_app in Hi as [? ?]; cbn [on_fw on_um on_tp on_tps on_ip
    on_certs v_fw v_um v_tp v_tps v_ip v_certs]; by rewrite ?remove_ne).
  all: try first [apply lookup_delete_eq | apply remove_None, lookup_delete_eq].
Qed.

Lemma Cleanup_prefix l w :
  wp L7_Cleanup
    (λ _ s, (s.1, lbv s.2) = run_steps (cleanup_steps l) (l, lbv w))
    (λ _ s, ∃ k, k < 7 ∧ (s.1, lbv s.2) = run_steps (take k (cleanup_steps l)) (l, lbv w)) (l, w).
Proof.
  destruct on_ids as (Hfw&Hip&Htps&Hce&Htp&Hum). unfold L7_Cleanup.
  pose proof (eq_refl (lbv w)) as Hw0.
  apply wp_bind. next_step l DeleteFw_ok Hfw 0 Hw0 Hw1.
  apply wp_bind. next_step l DeleteFw_ok Hfw 1 Hw1 Hw2.
  apply wp_bind. next_step l DeleteIp_ok Hip 2 Hw2 Hw3.
  apply wp_bind. next_step l DeleteTps_ok Htps 3 Hw3 Hw4.
  apply wp_bind, wp_self. simpl. apply wp_bind.
  unfold cleanup_steps in *. destruct (decide (ri_TLSName (l7_runtimeInfo l) = "")).
  - next_step l DeleteCert_ok Hce 4 Hw4 Hw5. apply wp_bind. next_step l DeleteTp_ok Htp 5 Hw5 Hw6. next_step l DeleteUm_ok Hum 6 Hw6 Hw7.
    by f_equal.
  - apply wp_ret. apply wp_bind. next_step l DeleteTp_ok Htp 5 Hw4 Hw6. next_step l DeleteUm_ok Hum 6 Hw6 Hw7. by f_equal.
Qed.

Lemma steps_shrink l v k : shrinks v (run_steps (take k (cleanup_steps l)) (l, v)).2.
Proof.
  unfold cleanup_steps. destruct (decide (ri_TLSName (l7_runtimeInfo l) = "")).
  all: destruct k as [|[|[|[|[|[|[|k]]]]]]]; repeat split; simpl; rewrite ?take_nil; simpl; intros i Hi;
    repeat apply remove_None; done.
Qed.

(** After a [Cleanup] that succeeded the load balancer has no rules, address,
    proxies and url map in the cloud, and its current certificate is gone unless
    the ingress names a pre-shared one. *)
Definition cleaned l (v : LBView) : Prop :=
  (∀ n, n ∈ fw_names l → v_fw v !! n = None) ∧ (∀ n, n ∈ option_list (ad_Name <$> l7_ip l) → v_ip v !! n = None) ∧
  (∀ n, n ∈ option_list (tps_Name <$> l7_tps l) → v_tps v !! n = None) ∧
  (∀ n, n ∈ cert_names l → v_certs v !! n = None) ∧
  (∀ n, n ∈ option_list (tp_Name <$> l7_tp l) → v_tp v !! n = None) ∧
  (∀ n, n ∈ option_list (um_Name <$> l7_um l) → v_um v !! n = None).

Lemma remove_in {X Y} (name : X → string) o (m : gmap string Y) n :
  n ∈ option_list (name <$> o) → remove name o m !! n = None.
Proof. destruct o; simpl; [intros ->%list_elem_of_singleton; apply lookup_delete_eq|by intros ?%elem_of_nil]. Qed.
Lemma steps_cleaned l v : cleaned l (run_steps (cleanup_steps l) (l, v)).2.
Proof.
  unfold cleaned, fw_names, cert_names, cleanup_steps.
  destruct (decide (ri_TLSName (l7_runtimeInfo l) = "")); repeat split; simpl; intros i Hi;
    try apply elem_of_app in Hi as [Hi|Hi]; auto using remove_in, remove_None.
  all: by apply elem_of_nil in Hi.
Qed.
Lemma cleaned_shrinks l v v' : cleaned l v → shrinks v v' → cleaned l v'.
Proof. intros (?&?&?&?&?&?) (?&?&?&?&?&?). repeat split; eauto. Qed.

(** The certificates that [Cleanup] leaves where they are: the old one, which was
    replaced and not deleted yet, and with a pre-shared name the current one. *)
Definition spared_certs l : list string :=
  option_list (sc_Name <$> l7_oldSSLCert l) ++
  (if decide (ri_TLSName (l7_runtimeInfo l) = "") then [] else option_list (sc_Name <$> l7_sslCert l)).
Lemma steps_old l v k : l7_oldSSLCert (run_steps (take k (cleanup_steps l)) (l, v)).1 = l7_oldSSLCert l.
Proof.
  unfold cleanup_steps. destruct (decide (ri_TLSName (l7_runtimeInfo l) = "")).
  all: destruct k as [|[|[|[|[|[|[|k]]]]]]]; simpl; by rewrite ?take_nil.
Qed.
Lemma untouched_certs l v v' n : others_untouched l v v' → n ∉ cert_names l → v_certs v' !! n = v_certs v !! n.
Proof. intros (_&_&_&Hc&_). apply Hc. Qed.

(** C10. [Cleanup] never loses track of an object it deletes: whatever it
    returns, each forwarding rule, static address, proxy, url map and current
    certificate the load balancer had recorded is either still recorded, so
    that the next sync deletes it, or gone from the cloud; the old certificate
    stays recorded. When it succeeds, the rules, the address, the proxies and the
    url map are gone, and so is the current certificate unless the ingress names
    a pre-shared one. An object is deleted only after the ones that refer to it,
    and nothing else in the cloud changes. In particular no [Cleanup] deletes the
    old certificate (unless the current one has the same name), nor the current
    one when a pre-shared name is set, even if the controller created them: they
    stay in the cloud as they are. *)
Theorem Cleanup_spec l w :
  wp L7_Cleanup
    (λ _ s, all_settled l (s.1, lbv s.2) ∧ others_untouched l (lbv w) (lbv s.2) ∧
       l7_fw s.1 = None ∧ l7_fws s.1 = None ∧ l7_ip s.1 = None ∧ l7_tps s.1 = None ∧ l7_tp s.1 = None ∧
       l7_um s.1 = None ∧ (ri_TLSName (l7_runtimeInfo l) = "" → l7_sslCert s.1 = None) ∧ cleaned l (lbv s.2) ∧
       l7_oldSSLCert s.1 = l7_oldSSLCert l ∧
       (∀ n, n ∈ spared_certs l → n ∉ cert_names l → v_certs (lbv s.2) !! n = v_certs (lbv w) !! n))
    (λ _ s, all_settled l (s.1, lbv s.2) ∧ others_untouched l (lbv w) (lbv s.2) ∧
       in_order l (s.1, lbv s.2) ∧ l7_um s.1 = l7_um l ∧ l7_oldSSLCert s.1 = l7_oldSSLCert l ∧
       (∀ n, n ∈ spared_certs l → n ∉ cert_names l → v_certs (lbv s.2) !! n = v_certs (lbv w) !! n)) (l, w).
Proof.
  eapply wp_mono; [apply Cleanup_prefix|..]; cbv beta.
  - intros _ [l1 w1] Heq. cbn [fst snd] in Heq |- *. destruct (steps_ok l (lbv w) 7) as (Hs&Ho&_&_); [lia|].
    pose proof (steps_old l (lbv w) 7) as Hold. pose proof (steps_cleaned l (lbv w)) as Hclean.
    change (take 7 (cleanup_steps l)) with (cleanup_steps l) in *.
    assert (l1 = (run_steps (cleanup_steps l) (l, lbv w)).1) as Hl by (by rewrite <-Heq).
    assert (l7_fw l1 = None ∧ l7_fws l1 = None ∧ l7_ip l1 = None ∧ l7_tps l1 = None ∧ l7_tp l1 = None ∧ l7_um l1 = None ∧
      (ri_TLSName (l7_runtimeInfo l) = "" → l7_sslCert l1 = None)) as (?&?&?&?&?&?&?).
    { rewrite Hl. unfold cleanup_steps. destruct (decide (ri_TLSName (l7_runtimeInfo l) = "")); by repeat split. }
    rewrite <-Heq in Hs, Ho, Hold, Hclean. split_and!; try done. intros n _. by apply untouched_certs.
  - intros _ [l1 w1] (k&Hk&Heq). simpl in *. destruct (steps_ok l (lbv w) k) as (Hs&Ho&Hin&Hum); [lia|].
    pose proof (steps_old l (lbv w) k) as Hold. rewrite <-Heq in *. split_and!; auto. intros n _. by apply untouched_certs.
Qed.
End cleanup.

(** ** Two flaws of the certificate handling *)

Section certificates.
Context {W : Type} `{LoadBalancers W, LBWorld W, !LBLaws W}.
Implicit Types (l : L7) (w : W).

Lemma edgeHop_noTLS l w :
  wantsTLS (l7_runtimeInfo l) = false →
  wp L7_edgeHop
    (λ _ s, l7_sslCert s.1 = l7_sslCert l ∧ l7_runtimeInfo s.1 = l7_runtimeInfo l) (λ _ _, True) (l, w).
Proof.
  intros Htls. unfold L7_edgeHop. apply wp_bind. eapply wp_mono; [apply checkUrlMap_ok| |done].
  intros _ [l1 w1]. simpl. intros (um&->&_). apply wp_bind, wp_self. simpl. rewrite Htls, andb_false_r.
  assert (∀ l' w', l7_sslCert l' = l7_sslCert l → l7_runtimeInfo l' = l7_runtimeInfo l →
    wp ((mret tt : M (L7 * W) unit) ≫= λ _, mret tt)
      (λ _ s, l7_sslCert s.1 = l7_sslCert l ∧ l7_runtimeInfo s.1 = l7_runtimeInfo l) (λ _ _, True) (l', w')) as Hdone.
  { intros l' w' ? ?. apply wp_bind, wp_ret, wp_ret. by split. }
  apply wp_bind. destruct (ri_AllowHTTP (l7_runtimeInfo l)); [|apply wp_ret; by apply Hdone].
  eapply wp_mono; [by apply edgeHopHttp_ok| |done].
  intros _ [l2 w2]. simpl. intros (?&?&?&?&->&_). by apply Hdone.
Qed.

(** C38. [Cleanup] deletes a certificate of the user: when an ingress used a
    pre-shared certificate (one whose name is not the controller's) and TLS is
    then removed from the ingress, the load balancer still records the
    certificate, and deleting the ingress deletes it, because [Cleanup] looks at
    the current [runtimeInfo.TLSName] instead of the name of the certificate, as
    [deleteOldSSLCert] does. *)
Theorem Cleanup_deletes_user_cert l w cert ri :
  l7_sslCert l = Some cert → Namer_IsSSLCert (l7_namer l) (sc_Name cert) = false →
  wantsTLS ri = false →
  wp (_ ← update (set_runtimeInfo ri); _ ← L7_edgeHop; L7_Cleanup)
    (λ _ s, v_certs (lbv s.2) !! sc_Name cert = None) (λ _ _, True) (l, w).
Proof.
  intros Hcert _ Htls. apply wp_bind, wp_update, wp_bind.
  eapply wp_mono; [by apply edgeHop_noTLS| |done]. intros _ [l1 w1]. simpl. rewrite Hcert. intros [Hl1 Hri].
  apply orb_false_iff in Htls as [_ Hname%negb_false_iff%bool_decide_eq_true].
  eapply wp_mono; [apply Cleanup_prefix| |done]. intros _ [l2 w2]. simpl. intros Heq.
  apply (f_equal snd) in Heq. simpl in Heq. rewrite Heq, Hri, decide_True by done. simpl.
  rewrite Hl1. apply remove_Some.
Qed.

(** A certificate is in use when a https proxy presents it. *)
Definition cert_in_use (v : LBView) (n : string) : Prop :=
  ∃ pn p link, v_tps v !! pn = Some p ∧ link ∈ tps_SslCertificates p ∧ getResourceNameFromLink link = n.

(** The controller created the second certificate of the pair and recorded it,
    but the proxy still presents the first: the call that was to change the
    proxy failed. Since then the secret of the ingress has changed once more. *)
Definition flip_flop_stuck l (v : LBView) : Prop :=
  ∃ cert tls, l7_sslCert l = Some cert ∧ sc_Name cert = Namer_SSLCert (l7_namer l) (l7_Name l) false ∧
    v_certs v !! sc_Name cert = Some cert ∧
    cert_in_use v (Namer_SSLCert (l7_namer l) (l7_Name l) true) ∧
    ri_TLSName (l7_runtimeInfo l) = "" ∧ ri_TLS (l7_runtimeInfo l) = Some tls ∧
    tls_Cert tls ≠ sc_Certificate cert.

(** C39. The certificate update can get stuck: against a cloud that refuses to
    delete a certificate in use (as GCE does), a load balancer in the state
    [flip_flop_stuck] fails every [edgeHopHttps] in which its recorded certificate
    can be read, and stays in that state, so that as long as these reads succeed
    the https front end does not get the new certificate. (A read that fails
    drops the record, and the load balancer starts again from the certificate
    its proxy presents.) The two names of the pair are different and not empty.
    [nextCertificateName] chooses the certificate the proxy presents, although
    [checkSSLCert] expects it to be unused "since we check the target proxy's
    certificate prior to this point": that is only done when no certificate is
    recorded. *)
Theorem checkSSLCert_stuck l w :
  (∀ n w', cert_in_use (lbv w') n →
     wp (lbc_DeleteSslCertificate n) (λ _ _, False)
       (λ e w'', lbv w'' = lbv w' ∧ IsHTTPErrorCode e StatusNotFound = false) w') →
  (∀ cert, l7_sslCert l = Some cert → wp (lbc_GetSslCertificate (sc_Name cert)) (λ _ _, True) (λ _ _, False) w) →
  Namer_SSLCert (l7_namer l) (l7_Name l) true ≠ Namer_SSLCert (l7_namer l) (l7_Name l) false →
  sc_Name <$> l7_sslCert l ≠ Some "" →
  flip_flop_stuck l (lbv w) →
  wp L7_edgeHopHttps (λ _ _, False) (λ _ s, flip_flop_stuck s.1 (lbv s.2)) (l, w).
Proof.
  intros Hdel Hget Hnames Hne Hstuck. pose proof Hstuck as (cert&tls&Hcert&Hname&Hin&Huse&Htls&Hri&Hc).
  rewrite Hcert in Hne. unfold L7_edgeHopHttps. apply wp_bind.
  unfold L7_checkSSLCert, L7_usePreSharedCert. apply wp_bind, wp_bind, wp_self. rewrite decide_True by done.
  apply wp_ret. apply wp_bind. unfold L7_populateSSLCert. apply wp_bind, wp_self. rewrite Hcert.
  apply wp_bind, wp_ret. rewrite decide_False by (intros He; apply Hne; simpl; by rewrite He).
  apply wp_bind, wp_try, wp_cloud.
  eapply wp_mono; [apply wp_and; [apply GetCert_ok|by apply Hget]|..]; cbv beta; [|tauto].
  intros o w1 [[Hw1 ->] _]. rewrite Hin. apply wp_update, wp_bind, wp_self. simpl.
  replace (set_sslCert (Some cert) l) with l by (destruct l; simpl in *; by subst).
  rewrite Hri. apply wp_bind, wp_ret. rewrite ?Hcert. simpl.
  rewrite bool_decide_eq_false_2 by congruence. unfold L7_nextCertificateName. rewrite ?Hcert.
  rewrite decide_False by (rewrite Hname; by apply not_eq_sym).
  apply wp_bind, wp_try, wp_ignoreNotFound, wp_cloud.
  eapply wp_mono; [apply Hdel; by rewrite Hw1|..]; cbv beta; [done|].
  intros e w2 [Hw2 ->]. apply wp_throw. simpl. by rewrite Hw2, Hw1.
Qed.
End certificates.

(** ** The pool *)

Section pool.
Context {W : Type} `{LoadBalancers W, BackendPool W, LBWorld W, !LBLaws W, MapRange} (p : L7s W).

Definition lb_pool (w : W) : gmap string L7 := lget (l7s_snapshotter p) w.
Definition lb_default (w : W) : option BackendService := lget (l7s_glbcDefaultBackend p) w.

(** The pool and the default backend are fields of the controller that the
    cloud does not see. *)
Definition fields (w : W) : gmap string L7 * option BackendService := (lb_pool w, lb_default w).
Class L7sFields := {
  snap_laws :: LensLaws (l7s_snapshotter p);
  snap_set s w : lbv (lset (l7s_snapshotter p) s w) = lbv w ∧
    lb_default (lset (l7s_snapshotter p) s w) = lb_default w;
  deletes_keep :: LBDeletesKeep fields;
}.
(** [default_be] says that the backend pool has the default backend. *)
Class L7sLaws (default_be : W → Prop) := {
  default_laws :: LensLaws (l7s_glbcDefaultBackend p);
  default_set d w : lbv (lset (l7s_glbcDefaultBackend p) d w) = lbv w ∧
    lb_pool (lset (l7s_glbcDefaultBackend p) d w) = lb_pool w ∧
    (default_be (lset (l7s_glbcDefaultBackend p) d w) → default_be w);
  DeleteDefault_ok w :
    wp (bkp_Delete (sp_Port (l7s_defaultBackendNodePort p)))
      (λ _ w', lbv w' = lbv w ∧ lb_pool w' = lb_pool w ∧ ¬ default_be w')
      (λ _ w', lbv w' = lbv w ∧ lb_pool w' = lb_pool w) w;
}.
Context `{!L7sFields}.

(** [spares P]: what no load balancer in [P] records is as it was. *)
Definition spares (P : L7 → Prop) (v v' : LBView) : Prop :=
  (∀ n, (∀ l, P l → n ∉ fw_names l) → v_fw v' !! n = v_fw v !! n) ∧
  (∀ n, (∀ l, P l → n ∉ option_list (ad_Name <$> l7_ip l)) → v_ip v' !! n = v_ip v !! n) ∧
  (∀ n, (∀ l, P l → n ∉ option_list (tps_Name <$> l7_tps l)) → v_tps v' !! n = v_tps v !! n) ∧
  (∀ n, (∀ l, P l → n ∉ cert_names l) → v_certs v' !! n = v_certs v !! n) ∧
  (∀ n, (∀ l, P l → n ∉ option_list (tp_Name <$> l7_tp l)) → v_tp v' !! n = v_tp v !! n) ∧
  (∀ n, (∀ l, P l → n ∉ option_list (um_Name <$> l7_um l)) → v_um v' !! n = v_um v !! n).
Lemma spares_refl P v : spares P v v.
Proof. by repeat split. Qed.
Lemma spares_step (P : L7 → Prop) l v v' v'' :
  spares P v v' → P l → others_untouched l v' v'' → spares P v v''.
Proof.
  intros (S1&S2&S3&S4&S5&S6) Hl (U1&U2&U3&U4&U5&U6).
  repeat split; intros n Hn; [rewrite U1, S1|rewrite U2, S2|rewrite U3, S3|rewrite U4, S4|
    rewrite U5, S5|rewrite U6, S6]; auto.
Qed.

Lemma wp_run_l7 {A} name lb (m : M (L7 * W) A) Q E w :
  wp m (λ a s, Q a (lset (l7s_snapshotter p) (<[name := s.1]> (lb_pool s.2)) s.2))
       (λ e s, E e (lset (l7s_snapshotter p) (<[name := s.1]> (lb_pool s.2)) s.2)) (lb, w) →
  wp (L7s_run p name lb m) Q E w.
Proof. unfold wp, L7s_run. by destruct (m (lb, w)) as [[] [? ?]]. Qed.

(** Deleting one load balancer of the pool. *)
Lemma Delete_ok key lb w :
  Namer_LoadBalancer (l7s_namer p) key = key → lb_pool w !! key = Some lb →
  wp (L7s_Delete p key)
    (λ _ w', lb_pool w' = delete key (lb_pool w) ∧ lb_default w' = lb_default w ∧
       shrinks (lbv w) (lbv w') ∧ others_untouched lb (lbv w) (lbv w') ∧ cleaned lb (lbv w'))
    (λ _ w', shrinks (lbv w) (lbv w') ∧ others_untouched lb (lbv w) (lbv w') ∧ lb_default w' = lb_default w ∧
       ∃ lb', lb_pool w' = <[key := lb']> (lb_pool w) ∧ all_settled lb (lb', lbv w')) w.
Proof.
  intros Hkey Hlb. unfold L7s_Delete, L7s_Get. rewrite !Hkey. apply wp_bind, wp_bind, wp_getW.
  unfold lb_pool in Hlb. rewrite Hlb. apply wp_ret, wp_bind.
  apply wp_run_l7. eapply wp_mono; [apply (wp_keeps (λ s, fields s.2)), Cleanup_prefix; apply Cleanup_keeps, deletes_keep|..]; cbv beta.
  - intros _ [lb' w1] [Heq Hkeep]. unfold fields in Hkeep. cbn [fst snd] in *. injection Hkeep as Hpool Hdef.
    apply (f_equal snd) in Heq. cbn [snd] in Heq. set (w2 := lset _ _ w1).
    destruct (snap_set (<[key := lb']> (lb_pool w1)) w1) as [Hv2 Hd2].
    apply wp_zoom, wp_modW. set (w3 := lset _ _ w2).
    destruct (snap_set (delete key (lget (l7s_snapshotter p) w2)) w2) as [Hv3 Hd3].
    assert (lbv w3 = (run_steps (cleanup_steps lb) (lb, lbv w)).2) as Hv.
    { etransitivity; [exact Hv3|]. etransitivity; [exact Hv2|]. exact Heq. }
    rewrite Hv. split; [|split; [|split; [|split]]].
    + unfold lb_pool, w3, w2. rewrite !lens_get_set. rewrite delete_insert_eq. by f_equal.
    + etransitivity; [exact Hd3|]. etransitivity; [exact Hd2|]. exact Hdef.
    + apply (steps_shrink lb (lbv w) 7).
    + apply (steps_ok lb (lbv w) 7). lia.
    + apply steps_cleaned.
  - intros _ [lb' w1] [(k&Hk&Heq) Hkeep]. unfold fields in Hkeep. cbn [fst snd] in *. injection Hkeep as Hpool Hdef.
    destruct (snap_set (<[key := lb']> (lb_pool w1)) w1) as [Hv2 Hd2]. set (w2 := lset _ _ w1).
    destruct (steps_ok lb (lbv w) k) as (Hs&Ho&_&_); [lia|].
    pose proof (steps_shrink lb (lbv w) k) as Hsh. rewrite <-Heq in Hs, Ho, Hsh. cbn [snd] in *.
    assert (lbv w2 = lbv w1) as -> by exact Hv2. split; [done|]. split; [done|].
    split; [etransitivity; [exact Hd2|exact Hdef]|]. exists lb'. split; [|done].
    unfold lb_pool, w2. rewrite lens_get_set. by f_equal.
Qed.

Section gc.
Context (names : list string) (w0 : W).
Definition known : gset string := list_to_set (Namer_LoadBalancer (l7s_namer p) <$> names).
(** The load balancers to delete. *)
Definition doomed (l : L7) : Prop := ∃ key, lb_pool w0 !! key = Some l ∧ key ∉ known.

(** The keys of [d] have been visited. *)
Definition gc_inv (d : list string) (w : W) : Prop :=
  (∀ key, key ∈ known ∨ key ∉ d → lb_pool w !! key = lb_pool w0 !! key) ∧
  (∀ key lb, lb_pool w0 !! key = Some lb → key ∉ known → key ∈ d →
     lb_pool w !! key = None ∧ cleaned lb (lbv w)) ∧
  spares doomed (lbv w0) (lbv w) ∧ lb_default w = lb_default w0.
(** Nothing is lost when the collection stops half way. *)
Definition gc_safe (w : W) : Prop :=
  spares doomed (lbv w0) (lbv w) ∧
  ∀ key lb, lb_pool w0 !! key = Some lb →
    (∃ lb', lb_pool w !! key = Some lb' ∧ all_settled lb (lb', lbv w) ∧ (key ∈ known → lb' = lb)) ∨
    (lb_pool w !! key = None ∧ key ∉ known ∧ cleaned lb (lbv w)).

Lemma settled_refl lb v : all_settled lb (lb, v).
Proof. repeat split; by left. Qed.
Lemma gc_inv_safe d w : gc_inv d w → gc_safe w.
Proof.
  intros (Hsame&Hgone&Hsp&_). split; [done|]. intros key lb Hlb.
  destruct (decide (key ∈ known ∨ key ∉ d)) as [Hk|Hk].
  - left. exists lb. rewrite Hsame by done. split; [done|]. split; [apply settled_refl|done].
  - right. apply Decidable.not_or in Hk as [Hk Hd]. apply dec_stable in Hd.
    destruct (Hgone key lb) as [? ?]; auto.
Qed.

Lemma gc_step d key lb w :
  (∀ key, is_Some (lb_pool w0 !! key) → Namer_LoadBalancer (l7s_namer p) key = key) →
  lb_pool w0 !! key = Some lb → key ∉ d → gc_inv d w →
  wp (if decide (key ∈ known) then mret tt else L7s_Delete p key)
    (λ _, gc_inv (d ++ [key])) (λ _, gc_safe) w.
Proof.
  intros Hfix Hlb Hd Hinv. pose proof Hinv as (Hsame&Hgone&Hsp&Hdef). case_decide as Hk.
  - apply wp_ret. split; [|split; [|by split]].
    + intros k Hk'. apply Hsame. set_solver.
    + intros k lb' Hlb' Hnk Hin. apply Hgone; [done..|]. set_solver.
  - eapply wp_mono; [apply (Delete_ok key lb); [by apply Hfix; eexists|rewrite Hsame; auto]|..]; cbv beta.
    + intros _ w' (Hpool&Hdef'&Hsh&Ho&Hg). split; [|split; [|split]].
      * intros k Hk'. rewrite Hpool. rewrite lookup_delete_ne by set_solver. apply Hsame. set_solver.
      * intros k lb' Hlb' Hnk Hin. rewrite Hpool. destruct (decide (k = key)) as [->|Hne].
        { rewrite lookup_delete_eq. by simplify_eq. }
        rewrite lookup_delete_ne by done. destruct (Hgone k lb' Hlb' Hnk) as [? Hg']; [set_solver|].
        split; [done|]. by eapply cleaned_shrinks.
      * eapply spares_step; [done| |done]. by exists key.
      * by rewrite Hdef'.
    + intros _ w' (Hsh&Ho&_&lb1&Hpool&Hs). split.
      { eapply spares_step; [done| |done]. by exists key. }
      intros k lb' Hlb'. rewrite Hpool. destruct (decide (k = key)) as [->|Hne].
      { left. exists lb1. rewrite lookup_insert_eq. simplify_eq. split; [done|]. by split. }
      rewrite lookup_insert_ne by done. destruct (decide (k ∈ known ∨ k ∉ d)) as [Hk'|Hk'].
      * left. exists lb'. rewrite Hsame by done. split; [done|]. split; [apply settled_refl|done].
      * right. apply Decidable.not_or in Hk' as [Hk' Hd']. apply dec_stable in Hd'.
        destruct (Hgone k lb') as [? Hg]; auto. split; [done|]. split; [done|]. by eapply cleaned_shrinks.
Qed.

(** The loop of [GC]. *)
Definition gc_done (w : W) : Prop :=
  (∀ key, key ∈ known → lb_pool w !! key = lb_pool w0 !! key) ∧
  (∀ key lb, lb_pool w0 !! key = Some lb → key ∉ known → lb_pool w !! key = None ∧ cleaned lb (lbv w)) ∧
  spares doomed (lbv w0) (lbv w).
Lemma gc_loop :
  (∀ key, is_Some (lb_pool w0 !! key) → Namer_LoadBalancer (l7s_namer p) key = key) →
  wp (forEach (λ kv, if decide (kv.1 ∈ known) then mret tt else L7s_Delete p kv.1) (range (lb_pool w0)))
    (λ _ w, gc_done w ∧ lb_default w = lb_default w0 ∧ gc_safe w) (λ _, gc_safe) w0.
Proof.
  intros Hfix. eapply wp_mono; [apply (wp_forEach _ _ (λ d, gc_inv d.*1) (λ _, gc_safe))|..]; cbv beta; [..|done].
  - split; [done|]. split; [set_solver|]. split; [apply spares_refl|done].
  - intros d [key lb] w Hpre Hinv. apply range_fresh in Hpre as [Hd Hlb]. rewrite fmap_app.
    by apply gc_step with lb.
  - intros _ w Hinv. pose proof Hinv as (Hsame&Hgone&Hsp&Hdef). split; [|split; [done|by eapply gc_inv_safe]].
    split; [auto|]. split; [|done]. intros key lb Hlb Hk. apply (Hgone key lb); [done..|]. apply range_keys. by eexists.
Qed.
(** With names the default backend stays. *)
Lemma LB_GC_ok :
  names ≠ [] → (∀ key, is_Some (lb_pool w0 !! key) → Namer_LoadBalancer (l7s_namer p) key = key) →
  wp (L7s_GC p names) (λ _ w, gc_done w ∧ gc_safe w) (λ _, gc_safe) w0.
Proof.
  intros Hne Hfix. unfold L7s_GC. apply wp_bind, wp_getW, wp_bind. eapply wp_mono; [by apply gc_loop|cbv beta|done].
  intros _ w (?&_&?). rewrite decide_False by (by destruct names). by apply wp_ret.
Qed.

Context (default_be : W → Prop) `{!L7sLaws default_be}.
(** C9. Garbage collection of the load balancers, when the keys of the pool are
    load balancer names, as the pool makes them. When [GC] succeeds, a load
    balancer of the pool that is not among the names is out of the pool, and its
    rules, address, proxies, url map and, unless the ingress named a pre-shared
    one, its current certificate are gone from the cloud; the others are as they
    were, and the default backend is deleted exactly when there are no names.
    What no deleted load balancer had recorded stays as it was. When [GC] fails,
    each load balancer is still in the pool and records what is left of it, or
    these objects are all gone. An old certificate that a deleted load balancer
    had still to delete, and a current one with a pre-shared name, stay in the
    cloud although the load balancer that recorded them is out of the pool (unless
    a deleted load balancer has recorded the same name as its current one). *)
Theorem LB_GC_spec :
  (∀ key, is_Some (lb_pool w0 !! key) → Namer_LoadBalancer (l7s_namer p) key = key) →
  wp (L7s_GC p names)
    (λ _ w, (∀ key, key ∈ known → lb_pool w !! key = lb_pool w0 !! key) ∧
       (∀ key lb, lb_pool w0 !! key = Some lb → key ∉ known → lb_pool w !! key = None ∧ cleaned lb (lbv w)) ∧
       spares doomed (lbv w0) (lbv w) ∧
       (if decide (names = []) then lb_default w = None ∧ ¬ default_be w else lb_default w = lb_default w0) ∧
       (∀ lb n, doomed lb → n ∈ spared_certs lb → (∀ l, doomed l → n ∉ cert_names l) →
          v_certs (lbv w) !! n = v_certs (lbv w0) !! n))
    (λ _, gc_safe) w0.
Proof.
  intros Hfix. unfold L7s_GC. apply wp_bind, wp_getW, wp_bind. eapply wp_mono; [by apply gc_loop|cbv beta|done].
  intros _ w ((Hsame&Hall&Hsp)&Hdef&Hsafe).
  assert (∀ lb n, doomed lb → n ∈ spared_certs lb → (∀ l, doomed l → n ∉ cert_names l) →
    v_certs (lbv w) !! n = v_certs (lbv w0) !! n) as Hcerts by (intros lb n _ _; by destruct Hsp as (_&_&_&Hc&_); apply Hc).
  destruct names as [|n names']; simpl.
  - apply wp_bind. eapply wp_mono; [apply DeleteDefault_ok|..]; cbv beta.
    + intros _ w1 (Hv1&Hp1&Hbe). apply wp_zoom, wp_modW. destruct (default_set None w1) as (Hv2&Hp2&Hb2).
      change ((λ _ : option BackendService, None) (lget (l7s_glbcDefaultBackend p) w1)) with (@None BackendService).
      rewrite Hp2, Hv2, Hp1, Hv1. split; [auto|]. split; [done|]. split; [done|].
      split; [split; [apply lens_get_set|auto]|done].
    + intros e w1 [Hv1 Hp1]. unfold gc_safe in *. by rewrite Hv1, Hp1.
  - apply wp_ret. split_and!; [auto|done..].
Qed.
End gc.
End pool.
