(* ===== verification/LoadBalancersSync.v ===== *)
(** * LoadBalancersSync: a sync of the pool of load balancers

    [L7s.Sync] (pkg/loadbalancers/loadbalancers.go) adds the load balancers one
    after the other. At the end all of them serve, if the names of their objects
    are different: a later one does not break an earlier one. *)

From S2P Require Import Prelude GoLang GoStrings Compute Utils Namer Instances Backends LoadBalancers LoadBalancersSpec Frames.

(** Two load balancers share no forwarding rule, proxy or url map. *)
Definition apart (a b : L7) : Prop :=
  url_map a ≠ url_map b ∧ http_rule a ≠ http_rule b ∧ http_rule a ≠ https_rule b ∧
  https_rule a ≠ http_rule b ∧ https_rule a ≠ https_rule b ∧
  http_proxy a ≠ http_proxy b ∧ https_proxy a ≠ https_proxy b.

(** The chains from the ports to the url map, in a view of the cloud. *)
Definition https_chain (l : L7) (v : LBView) (um : UrlMap) : Prop :=
  ∃ fw tps cert, v_fw v !! https_rule l = Some fw ∧ fw_PortRange fw = httpsDefaultPortRange ∧
    v_tps v !! https_proxy l = Some tps ∧ fw_Target fw = tps_SelfLink tps ∧
    tps_UrlMap tps = um_SelfLink um ∧ head (tps_SslCertificates tps) = Some (sc_SelfLink cert) ∧
    l7_sslCert l = Some cert.
Definition lb_serves (v : LBView) (l : L7) : Prop :=
  ∃ um, l7_um l = Some um ∧ v_um v !! url_map l = Some um ∧
    (ri_AllowHTTP (l7_runtimeInfo l) = true → serves_http l v um) ∧
    (wantsTLS (l7_runtimeInfo l) = true → https_chain l v um).

Section apart.
Context {W : Type} `{LBWorld W}.

Lemma lb_serves_frame a b (v v' : LBView) : apart a b → lb_frame b v v' → lb_serves v a → lb_serves v' a.
Proof.
  intros (Hu&H1&H2&H3&H4&H5&H6) (Fu&Ff&Fp&Fs) (um&Hum&Hv&Hh&Hs). exists um.
  split; [done|]. split; [by rewrite Fu|]. split.
  - intros Ha. destruct (Hh Ha) as (fw&tp&?&?&?&?). exists fw, tp. rewrite Ff, Fp by done. done.
  - intros Ha. destruct (Hs Ha) as (fw&tps&cert&?&?&?&?). exists fw, tps, cert. rewrite Ff, Fs by done. done.
Qed.
End apart.

Section sync.
Context {W : Type} `{LoadBalancers W, LBWorld W, MapRange, !LBLaws W} (p : L7s W) `{!LensLaws (l7s_snapshotter p)}.
Context `{!LBKeeps (lb_pool p)}.
Hypothesis snap_view : ∀ s w, lbv (lset (l7s_snapshotter p) s w) = lbv w.

Definition lb_name (ri : L7RuntimeInfo) : string := Namer_LoadBalancer (l7s_namer p) (ri_Name ri).
(** A load balancer as the pool creates it. *)
Definition fresh_lb (ri : L7RuntimeInfo) (d : option BackendService) : L7 :=
  MkL7 (lb_name ri) ri None None None None None None None None d (l7s_namer p).
Definition lb_is (ri : L7RuntimeInfo) (lb : L7) : Prop :=
  l7_runtimeInfo lb = ri ∧ l7_Name lb = lb_name ri ∧ l7_namer lb = l7s_namer p.
(** What the pool holds under a key. *)
Definition lb_entry (k : string) (lb : L7) : Prop :=
  l7_Name lb = k ∧ l7_namer lb = l7s_namer p ∧ ∀ cert, l7_sslCert lb = Some cert → sc_Name cert ≠ "".

Lemma apart_names a b a' b' :
  l7_Name a' = l7_Name a → l7_namer a' = l7_namer a → l7_Name b' = l7_Name b → l7_namer b' = l7_namer b →
  apart a b → apart a' b'.
Proof.
  unfold apart, url_map, http_rule, https_rule, http_proxy, https_proxy. by intros -> -> -> ->.
Qed.

Lemma L7sAdd_ok ri w :
  Namer_LoadBalancer (l7s_namer p) (lb_name ri) = lb_name ri →
  (∀ lb, lb_pool p w !! lb_name ri = Some lb → lb_entry (lb_name ri) lb) →
  (∀ tps, v_tps (lbv w) !! https_proxy (fresh_lb ri None) = Some tps → tps_SslCertificates tps ≠ []) →
  wp (L7s_Add p ri)
    (λ _ w', ∃ lb, lb_pool p w' = <[lb_name ri := lb]> (lb_pool p w) ∧
       l7_Name lb = lb_name ri ∧ l7_namer lb = l7s_namer p ∧ l7_runtimeInfo lb = ri ∧
       lb_serves (lbv w') lb ∧ lb_frame (fresh_lb ri None) (lbv w) (lbv w'))
    (λ _ _, True) w.
Proof.
  intros Hidem Hpool Hcerts. unfold L7s_Add. fold (lb_name ri).
  assert (∀ lb, l7_Name lb = lb_name ri → l7_namer lb = l7s_namer p → l7_runtimeInfo lb = ri →
    (∀ cert, l7_sslCert lb = Some cert → sc_Name cert ≠ "") →
    wp (L7s_run p (lb_name ri) lb L7_edgeHop)
      (λ _ w', ∃ lb, lb_pool p w' = <[lb_name ri := lb]> (lb_pool p w) ∧
         l7_Name lb = lb_name ri ∧ l7_namer lb = l7s_namer p ∧ l7_runtimeInfo lb = ri ∧
         lb_serves (lbv w') lb ∧ lb_frame (fresh_lb ri None) (lbv w) (lbv w')) (λ _ _, True) w) as Hrun.
  { intros lb Hn Hna Hri Hne. apply wp_run_l7.
    eapply wp_mono; [eapply wp_keeps; [apply (edgeHop_keeps (lb_pool p))|apply lb_edgeHop_ok; [done|]]|..]; cbv beta; [| |done].
    { unfold https_proxy in *. rewrite Hn. done. }
    intros _ [lb' w'] (((Hn'&Hri'&Hna')&(um&Hum&Hv&Hh&Hs)&Hf)&Hk). simpl in *.
    exists lb'. rewrite snap_view. unfold lb_pool at 1. rewrite lens_get_set, Hk.
    split_and!; [done|congruence..| |].
    - exists um. unfold url_map in *. rewrite Hn', Hna', Hri'. split; [done|]. split; [done|]. split; [done|].
      intros Ht. destruct (Hs Ht) as (fw&tps&cert&?&?&?&?&?&?&?&_). by exists fw, tps, cert.
    - destruct Hf as (Fu&Ff&Fp&Fs). unfold lb_frame, url_map, http_rule, https_rule, http_proxy, https_proxy in *.
      rewrite Hn, Hna in *. done. }
  apply wp_bind, wp_try. unfold L7s_Get at 1. rewrite Hidem. apply wp_bind, wp_getW.
  change (lget (l7s_snapshotter p) w) with (lb_pool p w). destruct (lb_pool p w !! lb_name ri) as [lb|] eqn:Hlb.
  - destruct (Hpool lb eq_refl) as (?&?&?). apply wp_ret, wp_bind, wp_ret. by apply Hrun.
  - apply wp_throw. apply wp_bind, wp_bind, wp_getW, wp_ret. by apply Hrun.
Qed.

(** All of them, in order. *)
Lemma AddAll_ok lbs w :
  NoDup lbs → (∀ a b, a ∈ lbs → b ∈ lbs → a ≠ b → lb_name a ≠ lb_name b ∧ apart (fresh_lb a None) (fresh_lb b None)) →
  (∀ ri, ri ∈ lbs → Namer_LoadBalancer (l7s_namer p) (lb_name ri) = lb_name ri) →
  (∀ k lb, lb_pool p w !! k = Some lb → lb_entry k lb) →
  (∀ n tps, v_tps (lbv w) !! n = Some tps → tps_SslCertificates tps ≠ []) →
  wp (forEach (L7s_Add p) lbs)
    (λ _ w', (∀ ri, ri ∈ lbs → ∃ lb, lb_pool p w' !! lb_name ri = Some lb ∧ lb_is ri lb ∧ lb_serves (lbv w') lb) ∧
       ∀ k, (∀ ri, ri ∈ lbs → k ≠ lb_name ri) → lb_pool p w' !! k = lb_pool p w !! k)
    (λ _ _, True) w.
Proof.
  intros Hnd Hap Hidem Hpool Hcerts. eapply wp_mono; [apply (wp_forEach _ lbs (λ d w',
    (∀ ri, ri ∈ d → ∃ lb, lb_pool p w' !! lb_name ri = Some lb ∧ l7_Name lb = lb_name ri ∧ l7_namer lb = l7s_namer p ∧
       l7_runtimeInfo lb = ri ∧ lb_serves (lbv w') lb) ∧
    (∀ ri, ri ∈ lbs → ri ∉ d → lb_pool p w' !! lb_name ri = lb_pool p w !! lb_name ri ∧
       v_tps (lbv w') !! https_proxy (fresh_lb ri None) = v_tps (lbv w) !! https_proxy (fresh_lb ri None)) ∧
    (∀ k, (∀ ri, ri ∈ lbs → k ≠ lb_name ri) → lb_pool p w' !! k = lb_pool p w !! k))
    (λ _ _, True))|simpl|done].
  - split; [|done]. by intros ri ?%elem_of_nil.
  - intros d ri w1 [l Hl] (Hd&Htodo&Hrest). assert (ri ∈ lbs) as Hin by (rewrite Hl; apply elem_of_app; left; apply elem_of_app; right; apply list_elem_of_here).
    assert (ri ∉ d) as Hnew.
    { rewrite Hl in Hnd. apply NoDup_app in Hnd as [Hnd _]. apply NoDup_app in Hnd as (_&Hdis&_).
      intros ?. by apply (Hdis ri), list_elem_of_here. }
    destruct (Htodo ri Hin Hnew) as [Hp1 Ht1].
    eapply wp_mono; [apply L7sAdd_ok; [by apply Hidem|rewrite Hp1; apply Hpool|rewrite Ht1; apply Hcerts]|simpl|done].
    intros _ w2 (lb&Hp2&Hn&Hna&Hri&Hs&Hf). split; [|split].
    + intros ri' [Hd'| ->%list_elem_of_singleton]%elem_of_app; [|exists lb; by rewrite Hp2, lookup_insert_eq].
      destruct (Hd ri' Hd') as (lb'&Hlb'&Hn'&Hna'&Hri'&Hs'). exists lb'.
      assert (ri' ∈ lbs) as Hin' by (rewrite Hl; apply elem_of_app; left; by apply elem_of_app; left).
      destruct (Hap ri' ri Hin' Hin ltac:(by intros ->)) as [Hne Hapart].
      rewrite Hp2, lookup_insert_ne by done. split_and!; [done..|].
      eapply (lb_serves_frame lb' (fresh_lb ri None)); [|done..].
      by eapply (apart_names (fresh_lb ri' None) (fresh_lb ri None)).
    + intros ri' Hin' [Hd' Hri']%not_elem_of_app. destruct (Htodo ri' Hin' Hd') as [Hp' Ht'].
      destruct (Hap ri' ri Hin' Hin ltac:(intros ->; by apply Hri', list_elem_of_here)) as [Hne (_&_&_&_&_&_&Hprox)]. destruct Hf as (_&_&_&Fs).
      rewrite Hp2, lookup_insert_ne, Fs by done. done.
    + intros k Hk. rewrite Hp2, lookup_insert_ne by (apply not_eq_sym; by apply Hk). by apply Hrest.
  - intros _ w' (Hall&_&Hrest). split; [|done]. intros ri Hri. destruct (Hall ri Hri) as (lb&?&?&?&?&?).
    by exists lb.
Qed.
End sync.
