(* ===== verification/LoadBalancersExample.v ===== *)
(** * LoadBalancersExample: the theorems on load balancers hold of a cloud

    [StrictCloud] is the fake of the tests behind two answers of GCE the fake
    does not give: a second object of a name is refused, and so is the deletion
    of a certificate in use. It keeps the promises of [LoadBalancersSpec], and
    the theorems of that file are applied to it. *)

From S2P Require Import Prelude GoLang GoStrings Compute Utils Namer Instances Backends LoadBalancers.
From S2P Require Import Frames LoadBalancersFake LoadBalancersSpec.

(** ** Lists of objects as maps *)

Definition by_name {X} (name : X → string) (l : list X) : gmap string X :=
  list_to_map ((λ x, (name x, x)) <$> l).

Section by_name.
Context {X : Type} (name : X → string).
Implicit Types (l : list X) (x y : X).

Lemma by_name_find l n : by_name name l !! n = first_named name n l.
Proof.
  unfold by_name, first_named. induction l as [|x l IH]; simpl; [apply lookup_empty|].
  case_bool_decide as Hx; [by rewrite Hx, lookup_insert_eq|]. by rewrite lookup_insert_ne.
Qed.
Lemma by_name_named l n x : by_name name l !! n = Some x → name x = n.
Proof. rewrite by_name_find. by intros [_ ?%bool_decide_eq_true]%List.find_some. Qed.
Lemma by_name_elem l n x : by_name name l !! n = Some x → x ∈ l.
Proof. rewrite by_name_find. by intros [?%list_elem_of_In _]%List.find_some. Qed.

Lemma by_name_cons x l : by_name name (x :: l) = <[name x := x]> (by_name name l).
Proof. done. Qed.
Lemma by_name_without n l : by_name name (without_named name n l) = delete n (by_name name l).
Proof.
  induction l as [|x l IH]; [symmetry; apply delete_empty|].
  unfold without_named in *. rewrite filter_cons. case_decide as Hx; rewrite !by_name_cons, IH.
  - by rewrite delete_insert_ne.
  - rewrite <-Hx. by rewrite delete_insert_eq.
Qed.
Lemma by_name_change n g l :
  (∀ x, name (g x) = name x) → by_name name (change_named name n g l) = alter g n (by_name name l).
Proof.
  intros Hg. induction l as [|x l IH]; [done|]. unfold change_named in *. rewrite fmap_cons, !by_name_cons, IH.
  case_decide as Hx; [|by rewrite alter_insert_ne]. rewrite Hg, Hx, alter_insert_eq. apply map_eq. intros i.
  destruct (decide (i = n)) as [->|]; [by rewrite !lookup_insert_eq|].
  by rewrite !lookup_insert_ne, lookup_alter_ne.
Qed.
Lemma by_name_append x l :
  first_named name (name x) l = None → by_name name (l ++ [x]) = <[name x := x]> (by_name name l).
Proof.
  intros Hx. apply map_eq. intros n. rewrite by_name_find. unfold first_named in *.
  destruct (decide (n = name x)) as [->|Hn].
  - rewrite lookup_insert_eq. induction l as [|y l IH]; simpl in *; [by rewrite bool_decide_eq_true_2|].
    case_bool_decide; [done|auto].
  - rewrite lookup_insert_ne, by_name_find by done. clear Hx. unfold first_named.
    induction l as [|y l IH]; simpl; [by rewrite bool_decide_eq_false_2|].
    case_bool_decide; [done|auto].
Qed.
Lemma by_name_replace y l l' :
  replace_named name y l = Some l' → by_name name l' = <[name y := y]> (by_name name l).
Proof.
  revert l'. induction l as [|x l IH]; [done|]. simpl. intros l'. case_decide as Hx.
  - intros [= <-]. by rewrite !by_name_cons, Hx, insert_insert_eq.
  - destruct (replace_named name y l) as [l1|]; [|done]. intros [= <-].
    rewrite !by_name_cons, (IH l1 eq_refl). by rewrite insert_insert_ne.
Qed.
End by_name.

(** ** The strict cloud *)

Definition refuse_dup {X A} (sel : FakeLoadBalancers → list X) (name : X → string)
    (op : X → M FakeLoadBalancers A) (x : X) : M FakeLoadBalancers A :=
  l ← getW sel;
  match first_named name (name x) l with
  | Some _ => throw (GoogleAPIError StatusConflict "alreadyExists")
  | None => op x
  end.
Definition refuse_in_use (n : string) : M FakeLoadBalancers unit :=
  l ← getW flb_Tps;
  if existsb (λ p, existsb (λ link, String.eqb (getResourceNameFromLink link) n) (tps_SslCertificates p)) l
  then throw (GoogleAPIError StatusBadRequest "resourceInUseByAnotherResource")
  else FakeLB_DeleteSslCertificate n.

#[local] Instance StrictCloud : LoadBalancers FakeLoadBalancers := {|
  lbc_GetGlobalForwardingRule := FakeLB_GetGlobalForwardingRule;
  lbc_CreateGlobalForwardingRule := refuse_dup flb_Fw fw_Name FakeLB_CreateGlobalForwardingRule;
  lbc_DeleteGlobalForwardingRule := FakeLB_DeleteGlobalForwardingRule;
  lbc_SetProxyForGlobalForwardingRule := FakeLB_SetProxyForGlobalForwardingRule;
  lbc_GetUrlMap := FakeLB_GetUrlMap;
  lbc_CreateUrlMap := refuse_dup flb_Um um_Name FakeLB_CreateUrlMap;
  lbc_UpdateUrlMap := FakeLB_UpdateUrlMap;
  lbc_DeleteUrlMap := FakeLB_DeleteUrlMap;
  lbc_GetTargetHttpProxy := FakeLB_GetTargetHttpProxy;
  lbc_CreateTargetHttpProxy := refuse_dup flb_Tp tp_Name FakeLB_CreateTargetHttpProxy;
  lbc_DeleteTargetHttpProxy := FakeLB_DeleteTargetHttpProxy;
  lbc_SetUrlMapForTargetHttpProxy := FakeLB_SetUrlMapForTargetHttpProxy;
  lbc_GetTargetHttpsProxy := FakeLB_GetTargetHttpsProxy;
  lbc_CreateTargetHttpsProxy := refuse_dup flb_Tps tps_Name FakeLB_CreateTargetHttpsProxy;
  lbc_DeleteTargetHttpsProxy := FakeLB_DeleteTargetHttpsProxy;
  lbc_SetUrlMapForTargetHttpsProxy := FakeLB_SetUrlMapForTargetHttpsProxy;
  lbc_SetSslCertificateForTargetHttpsProxy := FakeLB_SetSslCertificateForTargetHttpsProxy;
  lbc_GetSslCertificate := FakeLB_GetSslCertificate;
  lbc_CreateSslCertificate := refuse_dup flb_Certs sc_Name FakeLB_CreateSslCertificate;
  lbc_DeleteSslCertificate := refuse_in_use;
  lbc_ReserveGlobalAddress := refuse_dup flb_IP ad_Name FakeLB_ReserveGlobalAddress;
  lbc_GetGlobalAddress := FakeLB_GetGlobalAddress;
  lbc_DeleteGlobalAddress := FakeLB_DeleteGlobalAddress;
|}.

#[local] Instance StrictWorld : LBWorld FakeLoadBalancers := {|
  lbv := λ f, MkLBView (by_name fw_Name (flb_Fw f)) (by_name um_Name (flb_Um f)) (by_name tp_Name (flb_Tp f))
    (by_name tps_Name (flb_Tps f)) (by_name ad_Name (flb_IP f)) (by_name sc_Name (flb_Certs f))
|}.

(** The reads. *)
Lemma flb_find_ok {X} op (sel : FakeLoadBalancers → list X) name vsel :
  (∀ f, vsel (lbv f) = by_name name (sel f)) → (∀ c f, sel (flb_set_calls c f) = sel f) →
  get_ok (flb_find op sel name) vsel.
Proof.
  intros Hv Hc n f. unfold flb_find, flb_call. apply wp_bind, wp_modW, wp_bind, wp_getW. rewrite Hc.
  rewrite Hv, by_name_find. destruct (first_named name n (sel f)) eqn:Hf; [apply wp_ret|apply wp_throw]; done.
Qed.

(** The writes: what is appended, filtered and changed in a list. *)
Lemma refuse_dup_ok {X A} (sel : FakeLoadBalancers → list X) name (op : X → M FakeLoadBalancers A)
    vsel on (stored : X → X → Prop) (res : X → A → Prop) :
  (∀ f, vsel (lbv f) = by_name name (sel f)) →
  (∀ x f, first_named name (name x) (sel f) = None →
     wp (op x) (λ a f', ∃ y, name y = name x ∧ stored x y ∧ res y a ∧ sel f' = sel f ++ [y] ∧
       ∀ m, on (λ _, m) (lbv f') = on (λ _, m) (lbv f)) (λ _ _, False) f) →
  (∀ v v', (∀ m, on (λ _, m) v' = on (λ _, m) v) → on (λ _, vsel v') v = v') →
  (∀ g v, on g v = on (λ _, g (vsel v)) v) →
  create_ok (refuse_dup sel name op) name vsel on stored res.
Proof.
  intros Hv Hop Hon Hon' x f. unfold refuse_dup. apply wp_bind, wp_getW.
  destruct (first_named name (name x) (sel f)) as [y|] eqn:Hx; [by apply wp_throw|].
  eapply wp_mono; [by apply Hop| |done]. intros a f' (y&Hn&Hs&Hr&Hsel&Hrest).
  rewrite Hv, by_name_find. split; [done|]. exists y. split; [done|]. split; [done|].
  rewrite Hon', Hv, <-Hn, <-by_name_append, <-Hsel, <-Hv by (by rewrite Hn). symmetry. by apply Hon.
Qed.

Lemma first_named_by_name {X} (name : X → string) n l : first_named name n l = by_name name l !! n.
Proof. symmetry. apply by_name_find. Qed.

(** An object appended by a create call. *)
Local Ltac appended :=
  intros x f _; unfold flb_call; apply wp_bind, wp_modW; simpl;
  first [apply wp_modW | apply wp_bind, wp_modW, wp_ret];
  eexists; split; [|split; [|split; [|split; [reflexivity|]]]]; done.

Lemma create_fw_ok x f :
  wp (FakeLB_CreateGlobalForwardingRule x)
    (λ _ f', ∃ y, fw_Name y = fw_Name x ∧ stored_fw x y ∧ True ∧ flb_Fw f' = flb_Fw f ++ [y] ∧
       ∀ m, on_fw (λ _, m) (lbv f') = on_fw (λ _, m) (lbv f)) (λ _ _, False) f.
Proof.
  unfold FakeLB_CreateGlobalForwardingRule, flb_call. apply wp_bind, wp_modW, wp_bind, wp_getW.
  case_decide as Hip; apply wp_modW; (eexists; split; [|split; [|split; [|split; [reflexivity|]]]]); try done.
Qed.

#[local] Instance StrictLaws : LBLaws FakeLoadBalancers.
Proof.
  split.
  1-6: by apply flb_find_ok.
  1-6: apply refuse_dup_ok; [done| |by intros [] [] Hm; specialize (Hm ∅);
    unfold on_fw, on_um, on_tp, on_tps, on_ip, on_certs in *; simpl in *; simplify_eq|done].
  1: intros x f _; apply create_fw_ok.
  1-5: unfold FakeLB_CreateUrlMap, FakeLB_CreateTargetHttpProxy, FakeLB_CreateTargetHttpsProxy,
    FakeLB_ReserveGlobalAddress, FakeLB_CreateSslCertificate; appended.
  1-5: intros n f; apply wp_bind, wp_modW, wp_modW; simpl;
    unfold on_fw, on_um, on_tp, on_tps, on_ip, on_certs; simpl; by rewrite by_name_without.
  - intros n f. unfold refuse_in_use. simpl. apply wp_bind, wp_getW. destruct (existsb _ _); [by apply wp_throw|].
    apply wp_bind, wp_modW, wp_modW. simpl. unfold on_certs. simpl. by rewrite by_name_without.
  - intros n link f. apply wp_bind, wp_modW, wp_modW. simpl. unfold on_fw. simpl. by rewrite by_name_change.
  - intros tp um f. apply wp_bind, wp_modW, wp_modW. simpl. unfold on_tp. simpl. by rewrite by_name_change.
  - intros tps um f. apply wp_bind, wp_modW, wp_modW. simpl. unfold on_tps. simpl. by rewrite by_name_change.
  - intros tps cert f. unfold FakeLB_SetSslCertificateForTargetHttpsProxy. simpl.
    apply wp_bind, wp_modW, wp_bind, wp_getW, wp_bind, wp_modW. simpl.
    destruct (first_named _ _ _) eqn:Hf; [apply wp_ret|apply wp_throw]; simpl.
    + unfold on_tps. simpl. by rewrite by_name_change.
    + f_equal. rewrite by_name_change by done. apply map_eq. intros i.
      destruct (decide (i = tps_Name tps)) as [->|]; [|by rewrite lookup_alter_ne].
      by rewrite lookup_alter_eq, by_name_find, Hf.
  - intros um f. unfold FakeLB_UpdateUrlMap. simpl. apply wp_bind, wp_modW, wp_bind, wp_getW. simpl.
    destruct (replace_named _ _ _) eqn:Hr; [apply wp_modW|by apply wp_throw].
    exists um. split; [done|]. split; [by intros old|]. simpl. unfold on_um. simpl. by rewrite (by_name_replace _ _ _ _ Hr).
  - intros f n x. apply by_name_named.
  - intros f n x. apply by_name_named.
  - intros f n x. apply by_name_named.
  - intros f n x. apply by_name_named.
  - intros f n x. apply by_name_named.
Qed.

(** ** A controller with the strict cloud *)

Definition LoadBalancers_zoom {W F} (l : lens W F) `{LoadBalancers F} : LoadBalancers W := {|
  lbc_GetGlobalForwardingRule := λ n, zoom l (lbc_GetGlobalForwardingRule n);
  lbc_CreateGlobalForwardingRule := λ x, zoom l (lbc_CreateGlobalForwardingRule x);
  lbc_DeleteGlobalForwardingRule := λ n, zoom l (lbc_DeleteGlobalForwardingRule n);
  lbc_SetProxyForGlobalForwardingRule := λ n x, zoom l (lbc_SetProxyForGlobalForwardingRule n x);
  lbc_GetUrlMap := λ n, zoom l (lbc_GetUrlMap n);
  lbc_CreateUrlMap := λ x, zoom l (lbc_CreateUrlMap x);
  lbc_UpdateUrlMap := λ x, zoom l (lbc_UpdateUrlMap x);
  lbc_DeleteUrlMap := λ n, zoom l (lbc_DeleteUrlMap n);
  lbc_GetTargetHttpProxy := λ n, zoom l (lbc_GetTargetHttpProxy n);
  lbc_CreateTargetHttpProxy := λ x, zoom l (lbc_CreateTargetHttpProxy x);
  lbc_DeleteTargetHttpProxy := λ n, zoom l (lbc_DeleteTargetHttpProxy n);
  lbc_SetUrlMapForTargetHttpProxy := λ x y, zoom l (lbc_SetUrlMapForTargetHttpProxy x y);
  lbc_GetTargetHttpsProxy := λ n, zoom l (lbc_GetTargetHttpsProxy n);
  lbc_CreateTargetHttpsProxy := λ x, zoom l (lbc_CreateTargetHttpsProxy x);
  lbc_DeleteTargetHttpsProxy := λ n, zoom l (lbc_DeleteTargetHttpsProxy n);
  lbc_SetUrlMapForTargetHttpsProxy := λ x y, zoom l (lbc_SetUrlMapForTargetHttpsProxy x y);
  lbc_SetSslCertificateForTargetHttpsProxy := λ x y, zoom l (lbc_SetSslCertificateForTargetHttpsProxy x y);
  lbc_GetSslCertificate := λ n, zoom l (lbc_GetSslCertificate n);
  lbc_CreateSslCertificate := λ x, zoom l (lbc_CreateSslCertificate x);
  lbc_DeleteSslCertificate := λ n, zoom l (lbc_DeleteSslCertificate n);
  lbc_ReserveGlobalAddress := λ x, zoom l (lbc_ReserveGlobalAddress x);
  lbc_GetGlobalAddress := λ n, zoom l (lbc_GetGlobalAddress n);
  lbc_DeleteGlobalAddress := λ n, zoom l (lbc_DeleteGlobalAddress n);
|}.

(** The promises of a cloud hold where it is a part of a larger world. *)
Section zoom.
Context {W F : Type} (l : lens W F) `{!LensLaws l} `{LoadBalancers F, LBWorld F, !LBLaws F}.
Local Instance zoom_cloud : LoadBalancers W := LoadBalancers_zoom l.
Local Instance zoom_world : LBWorld W := {| lbv := λ w, lbv (lget l w) |}.

Local Ltac zoom_form H :=
  apply wp_zoom; eapply wp_mono; [apply H|..]; cbv beta; simpl; intros; by rewrite lens_get_set.
Lemma get_ok_zoom {X} (op : string → M F (option X)) sel : get_ok op sel → get_ok (λ n, zoom l (op n)) sel.
Proof. intros Hop n w. zoom_form Hop. Qed.
Lemma create_ok_zoom {X A} (op : X → M F A) name sel on stored res :
  create_ok op name sel on stored res → create_ok (λ x, zoom l (op x)) name sel on stored res.
Proof. intros Hop x w. zoom_form Hop. Qed.
Lemma delete_ok_zoom {X} (op : string → M F unit) (sel : LBView → gmap string X) on :
  delete_ok op sel on → delete_ok (λ n, zoom l (op n)) sel on.
Proof. intros Hop n w. zoom_form Hop. Qed.
Lemma write_ok_zoom (m : M F unit) f : write_ok m f → write_ok (zoom l m) f.
Proof. intros Hm w. zoom_form Hm. Qed.

Lemma zoom_laws : LBLaws W.
Proof.
  split.
  1-6: apply get_ok_zoom; by destruct LBLaws0.
  1-6: apply create_ok_zoom; by destruct LBLaws0.
  1-6: apply delete_ok_zoom; by destruct LBLaws0.
  1-4: intros; apply write_ok_zoom; by destruct LBLaws0.
  - intros um w. zoom_form (UpdateUm_ok um).
  - intros w. apply (fw_named (lget l w)).
  - intros w. apply (um_named (lget l w)).
  - intros w. apply (tp_named (lget l w)).
  - intros w. apply (tps_named (lget l w)).
  - intros w. apply (cert_named (lget l w)).
Qed.
End zoom.

Record LWorld := MkLWorld {
  lw_cloud : FakeLoadBalancers;
  lw_pool : gmap string L7;
  lw_default : option BackendService;
  lw_be : bool;
}.
Definition lw_cloud_lens : lens LWorld FakeLoadBalancers :=
  Lens lw_cloud (λ x w, MkLWorld x (lw_pool w) (lw_default w) (lw_be w)).
Definition lw_pool_lens : lens LWorld (gmap string L7) :=
  Lens lw_pool (λ x w, MkLWorld (lw_cloud w) x (lw_default w) (lw_be w)).
Definition lw_default_lens : lens LWorld (option BackendService) :=
  Lens lw_default (λ x w, MkLWorld (lw_cloud w) (lw_pool w) x (lw_be w)).
#[local] Instance lw_cloud_laws : LensLaws lw_cloud_lens.
Proof. by split; [|intros []|]. Qed.
#[local] Instance lw_pool_laws : LensLaws lw_pool_lens.
Proof. by split; [|intros []|]. Qed.
#[local] Instance lw_default_laws : LensLaws lw_default_lens.
Proof. by split; [|intros []|]. Qed.

(** A backend pool that holds the default backend or not. *)
Definition ex_be : BackendService := MkBackendService "k8s-be-30000--uid1" "" "HTTP" [] 30000 "" [] "be/30000".
#[local] Instance lw_backends : BackendPool LWorld := {|
  bkp_Ensure := λ _ _, modW (λ w, MkLWorld (lw_cloud w) (lw_pool w) (lw_default w) true);
  bkp_Get := λ _, b ← getW lw_be; if b : bool then mret ex_be else throw FakeGoogleAPINotFoundErr;
  bkp_Delete := λ _, modW (λ w, MkLWorld (lw_cloud w) (lw_pool w) (lw_default w) false);
  bkp_GC := λ _, mret tt;
  bkp_Shutdown := modW (λ w, MkLWorld (lw_cloud w) (lw_pool w) (lw_default w) false);
  bkp_Status := λ _, mret "Unknown";
  bkp_List := mret [];
  bkp_Link := λ _ _, mret tt;
|}.

Definition ex_namer : Namer := NewNamer "uid1" "".
Definition ex_pool : L7s LWorld := MkL7s lw_pool_lens lw_default_lens
  (MkServicePort 30000 "HTTP" (MkNamespacedName "kube-system" "default-http-backend") (FromInt 80) "8080" false)
  ex_namer.

#[local] Instance lw_cloud_inst : LoadBalancers LWorld := LoadBalancers_zoom lw_cloud_lens.
#[local] Instance lw_world : LBWorld LWorld := zoom_world lw_cloud_lens.
#[local] Instance lw_laws : LBLaws LWorld.
Proof. exact (zoom_laws lw_cloud_lens). Qed.
#[local] Instance lw_fields : L7sFields ex_pool.
Proof. split; [apply _|done|]. split; intros; by apply keeps_zoom. Qed.
#[local] Instance lw_pool_ok : L7sLaws ex_pool (λ w, lw_be w = true).
Proof. by split; [apply _|..]. Qed.

(** ** Witnesses *)

Definition ex_tls (content : string) : TLSCerts := MkTLSCerts "key" content "".
Definition ex_ri (tls : option TLSCerts) (tlsName : string) : L7RuntimeInfo :=
  MkL7RuntimeInfo "ns/ing" "" tls tlsName true "".
Definition ex_l7 : L7 := MkL7 (Namer_LoadBalancer ex_namer "ns/ing") (ex_ri (Some (ex_tls "cert")) "")
  None None None None None None None None (Some ex_be) ex_namer.
Definition ex_cloud : FakeLoadBalancers := NewFakeLoadBalancers "ns-ing--uid1".

Lemma edgeHop_spec_witness :
  wp L7_edgeHop
    (λ _ s, is_Some (first_named fw_Name "k8s-fw-ns-ing--uid1" (flb_Fw s.2)) ∧
       is_Some (first_named fw_Name "k8s-fws-ns-ing--uid1" (flb_Fw s.2))) (λ _ _, True) (ex_l7, ex_cloud).
Proof.
  eapply wp_mono; [apply (edgeHop_spec ex_l7 ex_cloud)| |done]; cbv beta.
  - intros cert Hcert. discriminate Hcert.
  - intros p Hp. discriminate Hp.
  - intros ? s ([Hname _]&(um&_&_&Hhttp&Hhttps)&_).
    destruct (Hhttp eq_refl) as (fw&tp&Hfw&_). destruct (Hhttps eq_refl) as (fws&tps&cert&Hfws&_).
    unfold http_rule in Hfw. unfold https_rule in Hfws. rewrite Hname in Hfw, Hfws.
    rewrite <-!by_name_find. split; [exists fw; exact Hfw|exists fws; exact Hfws].
Defined.

Definition ex_um : UrlMap := MkUrlMap "k8s-um-ns-ing--uid1" "um" "be/30000" [] [].
Definition ex_backend (n : string) : BackendService := MkBackendService n "" "HTTP" [] 0 "" [] ("be/" +:+ n).
(** Two hosts, one with two paths. *)
Definition ex_rules : gmap string (gmap string (option BackendService)) :=
  {[ "foo.example.com" := {["/a" := Some (ex_backend "a"); "/b" := Some (ex_backend "b")]};
     "bar.example.com" := {["/*" := Some (ex_backend "c")]} ]}.
Definition ex_cloud_um : FakeLoadBalancers := flb_set_Um [ex_um] ex_cloud.

Lemma UpdateUrlMap_spec_witness :
  let R := sortedRange in
  wp (L7_UpdateUrlMap ex_rules)
    (λ _ s, ∃ um, first_named um_Name "k8s-um-ns-ing--uid1" (flb_Um s.2) = Some um ∧
       route um "foo.example.com" "/b" = "be/b" ∧ route um "bar.example.com" "/*" = "be/c" ∧
       route um "bar.example.com" "/b" = "be/30000") (λ _ _, True) (set_um (Some ex_um) ex_l7, ex_cloud_um).
Proof.
  intros R. eapply wp_mono; [apply (UpdateUrlMap_spec (set_um (Some ex_um) ex_l7) ex_cloud_um ex_um ex_rules "be/30000")| |done];
    cbv beta; [done..| |].
  - assert (∀ h, is_Some (ex_rules !! h) → h = "foo.example.com" ∨ h = "bar.example.com") as Hhosts.
    { intros h [x Hx]. unfold ex_rules in Hx.
      apply lookup_insert_Some in Hx as [[<- _]|[_ [<- _]%lookup_singleton_Some]]; auto. }
    assert ((GetDefaultBackend ex_rules).2 = ex_rules) as -> by reflexivity. split.
    + intros h paths e be Hh He. unfold ex_rules in Hh.
      apply lookup_insert_Some in Hh as [[_ <-]|[_ [_ <-]%lookup_singleton_Some]].
      * apply lookup_insert_Some in He as [[_ <-]|[_ [_ <-]%lookup_singleton_Some]]; by eexists.
      * apply lookup_singleton_Some in He as [_ <-]. by eexists.
    + intros h h' [-> | ->]%Hhosts [-> | ->]%Hhosts He; [reflexivity| | |reflexivity];
        exfalso; vm_compute in He; discriminate He.
  - intros ? s (um&Hum&Hroute&_). exists um. rewrite <-by_name_find, !Hroute. by repeat split.
Defined.

Lemma Cleanup_spec_witness :
  wp L7_Cleanup (λ _ s, l7_um s.1 = None ∧ first_named um_Name "k8s-um-ns-ing--uid1" (flb_Um s.2) = None)
    (λ _ s, l7_um s.1 = Some ex_um) (set_um (Some ex_um) ex_l7, ex_cloud_um).
Proof.
  eapply wp_mono; [apply (Cleanup_spec (set_um (Some ex_um) ex_l7) ex_cloud_um)|..]; cbv beta.
  - intros ? s (Hs&_&_&_&_&_&_&Hum&_). split; [exact Hum|]. rewrite <-by_name_find.
    destruct Hs as (_&_&_&_&_&_&Hs). destruct (Hs ex_um eq_refl) as [Hs'|[_ Hs']]; [|exact Hs'].
    simpl in Hs'. congruence.
  - intros ? s (_&_&_&Hum&_). exact Hum.
Defined.

Definition ex_user_cert : SslCertificate := MkSslCertificate "user-cert" "pem" "" "certs/user-cert".
Lemma Cleanup_deletes_user_cert_witness :
  wp (_ ← update (set_runtimeInfo (ex_ri None "")); _ ← L7_edgeHop; L7_Cleanup)
    (λ _ s, first_named sc_Name "user-cert" (flb_Certs s.2) = None) (λ _ _, True)
    (set_sslCert (Some ex_user_cert) (set_runtimeInfo (ex_ri None "user-cert") ex_l7),
     flb_set_Certs [ex_user_cert] ex_cloud).
Proof.
  eapply wp_mono; [eapply (Cleanup_deletes_user_cert
    (set_sslCert (Some ex_user_cert) (set_runtimeInfo (ex_ri None "user-cert") ex_l7))
    (flb_set_Certs [ex_user_cert] ex_cloud) ex_user_cert (ex_ri None "")); reflexivity| |done]; cbv beta.
  intros ? s Hs. rewrite <-by_name_find. exact Hs.
Defined.

(** The proxy presents the first certificate, the controller recorded the second. *)
Definition ex_cert2 : SslCertificate :=
  MkSslCertificate "k8s-ssl-1-ns-ing--uid1" "second" "" "certs/k8s-ssl-1-ns-ing--uid1".
Definition ex_cert1 : SslCertificate :=
  MkSslCertificate "k8s-ssl-ns-ing--uid1" "first" "" "certs/k8s-ssl-ns-ing--uid1".
Definition ex_l7_stuck : L7 := set_sslCert (Some ex_cert2)
  (set_runtimeInfo (ex_ri (Some (ex_tls "third")) "") (set_um (Some ex_um) ex_l7)).
Definition ex_cloud_stuck : FakeLoadBalancers := flb_set_Certs [ex_cert1; ex_cert2]
  (flb_set_Tps [MkTargetHttpsProxy "k8s-tps-ns-ing--uid1" "tps" "um" [sc_SelfLink ex_cert1]] ex_cloud_um).

Lemma checkSSLCert_stuck_witness :
  wp L7_edgeHopHttps (λ _ _, False) (λ _ s, flip_flop_stuck s.1 (lbv s.2)) (ex_l7_stuck, ex_cloud_stuck).
Proof.
  apply (checkSSLCert_stuck ex_l7_stuck ex_cloud_stuck).
  - intros n f (pn&p&link&Hp&Hlink&Hn). apply by_name_elem in Hp. simpl. unfold refuse_in_use.
    apply wp_bind, wp_getW. replace (existsb _ _) with true; [by apply wp_throw|]. symmetry.
    apply existsb_exists. exists p. split; [by apply list_elem_of_In|]. apply existsb_exists. exists link.
    split; [by apply list_elem_of_In|]. by apply String.eqb_eq.
  - intros c [= <-]. vm_compute. exact I.
  - done.
  - done.
  - exists ex_cert2, (ex_tls "third"). split; [done|]. split; [done|]. split; [done|].
    split; [|by split; [|split]]. eexists "k8s-tps-ns-ing--uid1", _, _. split; [done|].
    split; [apply list_elem_of_here|done].
Defined.

(** Two load balancers, one of which is to stay. *)
Definition ex_lb (key um : string) : L7 :=
  MkL7 key (ex_ri None "") (Some (MkUrlMap um "um" "be/30000" [] [])) None None None None None None None
    (Some ex_be) ex_namer.
Definition ex_lworld : LWorld := MkLWorld
  (flb_set_Um [MkUrlMap "um1" "um" "be/30000" [] []; MkUrlMap "um2" "um" "be/30000" [] []] ex_cloud)
  {["ns-a--uid1" := ex_lb "ns-a--uid1" "um1"; "ns-b--uid1" := ex_lb "ns-b--uid1" "um2"]} (Some ex_be) true.
Lemma LB_GC_spec_witness :
  let R := sortedRange in
  wp (L7s_GC ex_pool ["ns/a"])
    (λ _ w, lw_pool w !! "ns-b--uid1" = None ∧ is_Some (lw_pool w !! "ns-a--uid1") ∧
       first_named um_Name "um2" (flb_Um (lw_cloud w)) = None ∧ lw_default w = Some ex_be) (λ _ _, True) ex_lworld.
Proof.
  intros R. eapply wp_mono; [eapply (LB_GC_spec ex_pool ["ns/a"] ex_lworld (λ w, lw_be w = true))| |done];
    cbv beta.
  - intros key [x Hx]. unfold lb_pool, ex_lworld in Hx. simpl in Hx.
    apply lookup_insert_Some in Hx as [[<- _]|[_ [<- _]%lookup_singleton_Some]]; done.
  - intros ? w (Hkeep&Hgone&_&Hdef&_).
    destruct (Hgone "ns-b--uid1" (ex_lb "ns-b--uid1" "um2")) as [Hb (_&_&_&_&_&Hum)]; [done|done|].
    split; [exact Hb|]. split.
    + change (is_Some (lb_pool ex_pool w !! "ns-a--uid1")). rewrite (Hkeep "ns-a--uid1") by done. by eexists.
    + rewrite <-by_name_find. split; [|exact Hdef]. apply (Hum "um2"). apply list_elem_of_here.
Defined.
