(* ===== verification/K8s.v ===== *)
(** * K8s: the Kubernetes objects the controllers read

    Ingresses, services, nodes, pods and secrets, with the fields the sources
    use; the informers' stores; and client-go's work queue, as the controllers
    drive it. A nil map is the empty one, a nil pointer is [None]. *)

From S2P Require Import Prelude GoLang GoStrings Compute Utils.

(** ** Objects *)

Record IngressBackend := MkIngressBackend { ib_ServiceName : string; ib_ServicePort : IntOrString }.
Record HTTPIngressPath := MkHTTPIngressPath { hp_Path : string; hp_Backend : IngressBackend }.
(** [HTTP] is the pointer of the rule's value. *)
Record IngressRule := MkIngressRule { ir_Host : string; ir_HTTP : option (list HTTPIngressPath) }.
Record Ingress := MkIngress {
  ing_Namespace : string;
  ing_Name : string;
  ing_Annotations : gmap string string;
  ing_Backend : option IngressBackend;
  ing_Rules : list IngressRule;
  ing_TLS : list string; (* the names of the secrets *)
  ing_StatusIPs : list string;
}.

Record SvcPort := MkSvcPort {
  kp_Name : string;
  kp_Port : Z;
  kp_NodePort : Z;
  kp_TargetPort : IntOrString;
}.
Record Service := MkService {
  svc_Namespace : string;
  svc_Name : string;
  svc_Annotations : gmap string string;
  svc_Selector : gmap string string;
  svc_Ports : list SvcPort;
}.
Global Instance SvcPort_eq_dec : EqDecision SvcPort.
Proof. solve_decision. Defined.
Global Instance Service_eq_dec : EqDecision Service.
Proof. solve_decision. Defined.

Record NodeCondition := MkNodeCondition { nc_Type : string; nc_Status : string }.
Record Node := MkNode {
  node_Name : string;
  node_Labels : gmap string string;
  node_Unschedulable : bool;
  node_Conditions : list NodeCondition;
}.

Record ContainerPort := MkContainerPort { cp_Name : string; cp_ContainerPort : Z }.
Record Container := MkContainer {
  ct_Ports : list ContainerPort;
  ct_ReadinessProbe : option Probe;
}.
Record Pod := MkPod {
  pod_Namespace : string;
  pod_Name : string;
  pod_Labels : gmap string string;
  pod_CreationTimestamp : Z;
  pod_Containers : list Container;
}.

(** ** Stores *)

(** An informer's store: objects by key. [List] gives them in the order of Go's
    map iteration. *)
Abbreviation store A := (gmap string A).
Definition store_List `{MapRange} {A} (s : store A) : list A := (range s).*2.
Definition store_ListKeys `{MapRange} {A} (s : store A) : list string := (range s).*1.

(** [cache.MetaNamespaceKeyFunc] and [cache.SplitMetaNamespaceKey]. *)
Definition metaKey (namespace name : string) : string :=
  if decide (0 < String.length namespace) then namespace +:+ "/" +:+ name else name.
Definition splitMetaKey (key : string) : error + (string * string) :=
  match Split key "/" with
  | [name] => inr ("", name)
  | [namespace; name] => inr (namespace, name)
  | _ => inl (Errorf "unexpected key format: %q" [key] [])
  end.

Lemma elem_of_store_List `{MapRange} {A} (s : store A) x : x ∈ store_List s ↔ ∃ k, s !! k = Some x.
Proof.
  unfold store_List. rewrite list_elem_of_fmap. split.
  - intros ([k y]&->&Hk%range_lookup). eauto.
  - intros [k Hk]. exists (k, x). split; [done|]. by apply range_lookup.
Qed.
Lemma elem_of_store_ListKeys `{MapRange} {A} (s : store A) k : k ∈ store_ListKeys s ↔ is_Some (s !! k).
Proof. apply range_keys. Qed.

(** The key of an object is taken apart into its namespace and name. *)
Lemma splitMetaKey_metaKey namespace name :
  lacks "/" namespace = true → lacks "/" name = true → splitMetaKey (metaKey namespace name) = inr (namespace, name).
Proof.
  intros Hns Hn. unfold splitMetaKey, metaKey.
  assert (∀ s, lacks "/" s = true → Split s "/" = [s]) as Hone.
  { intros s Hs. apply Split_no_sep. by apply lacks_not_contains. }
  case_decide as Hl.
  - change ("/" +:+ name) with (String "/" name). rewrite Split_app_1, !Hone by done. done.
  - rewrite Hone by done. destruct namespace; [done|]. simpl in Hl. lia.
Qed.

(** What an informer tells a handler ([cache.ResourceEventHandlerFuncs]). *)
Inductive informer_event (A : Type) :=
  | EvAdd (obj : A)
  | EvUpdate (old cur : A)
  | EvDelete (obj : A).
Arguments EvAdd {A} _.
Arguments EvUpdate {A} _ _.
Arguments EvDelete {A} _.

(** What an informer hands to a handler; a deleted object can come as a
    tombstone with its key. *)
Inductive informed :=
  | OService (svc : Service)
  | OIngress (ing : Ingress)
  | OEndpoints (namespace name : string)
  | OExplicitKey (key : string)
  | OTombstone (key : string).
Definition informed_key (obj : informed) : string :=
  match obj with
  | OService svc => metaKey (svc_Namespace svc) (svc_Name svc)
  | OIngress ing => metaKey (ing_Namespace ing) (ing_Name ing)
  | OEndpoints namespace name => metaKey namespace name
  | OExplicitKey key | OTombstone key => key
  end.

(** Whether the ingress refers to the service, as the loops
    over the store of both controllers decide it. *)
Definition ingressRefersTo (svc : Service) (ing : Ingress) : bool :=
  bool_decide (ing_Namespace ing = svc_Namespace svc) &&
  (match ing_Backend ing with Some be => bool_decide (ib_ServiceName be = svc_Name svc) | None => false end ||
   existsb (λ rule,
     match ir_HTTP rule with
     | None => false
     | Some paths => existsb (λ p, bool_decide (ib_ServiceName (hp_Backend p) = svc_Name svc)) paths
     end) (ing_Rules ing)).

(** ** The work queue of client-go

    [queue] holds the dirty items that are not being processed; an item added
    while it is processed is dirty and gets back into the queue by [Done].
    [waiting] holds the items [AddRateLimited] delays, until their time comes. *)

Record workqueue := MkQueue {
  q_queue : list string;
  q_dirty : gset string;
  q_processing : gset string;
  q_shuttingDown : bool;
  q_waiting : gset string;
  q_failures : gmap string nat;
}.
Definition newQueue : workqueue := MkQueue [] ∅ ∅ false ∅ ∅.

Definition queue_Add (item : string) (q : workqueue) : workqueue :=
  if q_shuttingDown q then q else
  if decide (item ∈ q_dirty q) then q else
  MkQueue (if decide (item ∈ q_processing q) then q_queue q else q_queue q ++ [item])
    ({[item]} ∪ q_dirty q) (q_processing q) (q_shuttingDown q) (q_waiting q) (q_failures q).
(** [None] is a call that blocks; the result [None] is [quit]. *)
Definition queue_Get (q : workqueue) : option (option string * workqueue) :=
  match q_queue q with
  | [] => if q_shuttingDown q then Some (None, q) else None
  | item :: queue =>
      Some (Some item, MkQueue queue (q_dirty q ∖ {[item]}) ({[item]} ∪ q_processing q)
        (q_shuttingDown q) (q_waiting q) (q_failures q))
  end.
Definition queue_Done (item : string) (q : workqueue) : workqueue :=
  MkQueue (if decide (item ∈ q_dirty q) then q_queue q ++ [item] else q_queue q)
    (q_dirty q) (q_processing q ∖ {[item]}) (q_shuttingDown q) (q_waiting q) (q_failures q).
Definition queue_ShutDown (q : workqueue) : workqueue :=
  MkQueue (q_queue q) (q_dirty q) (q_processing q) true (q_waiting q) (q_failures q).
Definition queue_NumRequeues (item : string) (q : workqueue) : nat := default 0 (q_failures q !! item).
(** The delay of the rate limiter is positive. *)
Definition queue_AddRateLimited (item : string) (q : workqueue) : workqueue :=
  MkQueue (q_queue q) (q_dirty q) (q_processing q) (q_shuttingDown q)
    (if q_shuttingDown q then q_waiting q else {[item]} ∪ q_waiting q)
    (<[item := S (queue_NumRequeues item q)]> (q_failures q)).
Definition queue_Forget (item : string) (q : workqueue) : workqueue :=
  MkQueue (q_queue q) (q_dirty q) (q_processing q) (q_shuttingDown q) (q_waiting q) (delete item (q_failures q)).
(** The time of a delayed item comes; nothing is added after a shutdown. *)
Definition queue_Ready (item : string) (q : workqueue) : option workqueue :=
  if decide (item ∈ q_waiting q) then
    Some (queue_Add item (MkQueue (q_queue q) (q_dirty q) (q_processing q) (q_shuttingDown q)
      (q_waiting q ∖ {[item]}) (q_failures q)))
  else None.

(** The queue holds exactly the dirty items nobody is processing. *)
Definition queue_ok (q : workqueue) : Prop :=
  NoDup (q_queue q) ∧ ∀ item, item ∈ q_queue q ↔ item ∈ q_dirty q ∧ item ∉ q_processing q.

Lemma queue_ok_new : queue_ok newQueue.
Proof. split; [constructor|]. intros item. simpl. rewrite elem_of_nil. set_solver. Qed.
Lemma queue_ok_Add item q : queue_ok q → queue_ok (queue_Add item q).
Proof.
  intros [Hnd Hq]. unfold queue_Add. destruct (q_shuttingDown q); [done|]. case_decide as Hd; [done|].
  split; simpl.
  - case_decide as Hp; [done|]. apply NoDup_app. split; [done|]. split; [|apply NoDup_singleton].
    intros x Hx ->%list_elem_of_singleton. by apply Hq in Hx as [? _].
  - intros x. rewrite elem_of_union, elem_of_singleton. case_decide as Hp; rewrite ?elem_of_app, ?list_elem_of_singleton, Hq.
    + split; [tauto|]. intros [[->|?] ?]; tauto.
    + split; [intros [[? ?]| ->]; tauto|]. intros [[->|?] ?]; tauto.
Qed.
Lemma queue_ok_Get item q q' : queue_ok q → queue_Get q = Some (Some item, q') → queue_ok q'.
Proof.
  intros [Hnd Hq]. unfold queue_Get. destruct (q_queue q) as [|x l] eqn:Hl; [by destruct (q_shuttingDown q)|].
  intros [= -> <-]. apply NoDup_cons in Hnd as [Hx Hnd]. split; [done|]. simpl. intros y.
  rewrite elem_of_difference, elem_of_union, elem_of_singleton. specialize (Hq y). rewrite elem_of_cons in Hq.
  split; [intros Hy; assert (y ≠ item) by (by intros ->); tauto|]. intros [[? ?] ?]. tauto.
Qed.
Lemma queue_ok_Done item q : queue_ok q → item ∈ q_processing q → queue_ok (queue_Done item q).
Proof.
  intros [Hnd Hq] Hp. unfold queue_Done. split; simpl.
  - case_decide as Hd; [|done]. apply NoDup_app. split; [done|]. split; [|apply NoDup_singleton].
    intros x Hx ->%list_elem_of_singleton. by apply Hq in Hx as [_ ?].
  - intros x. rewrite elem_of_difference, elem_of_singleton. case_decide as Hd;
      rewrite ?elem_of_app, ?list_elem_of_singleton, Hq.
    + split; [intros [[? ?]| ->]; tauto|]. destruct (decide (x = item)); tauto.
    + split; [tauto|]. intros [? ?]. destruct (decide (x = item)) as [->|]; tauto.
Qed.
(** The operations that change neither the queue nor the sets. *)
Lemma queue_ok_same q q' :
  q_queue q' = q_queue q → q_dirty q' = q_dirty q → q_processing q' = q_processing q → queue_ok q → queue_ok q'.
Proof. intros Hq Hd Hp [Hnd Hok]. split; rewrite Hq; [done|]. by rewrite Hd, Hp. Qed.
Lemma queue_ok_Ready item q q' : queue_ok q → queue_Ready item q = Some q' → queue_ok q'.
Proof.
  intros Hq. unfold queue_Ready. case_decide; [|done]. intros [= <-]. apply queue_ok_Add. by eapply queue_ok_same, Hq.
Qed.
