(* ===== verification/Translator.v ===== *)
(** * Translator: pkg/controller/utils.go

    From Kubernetes objects to what the cloud needs: which ingresses are the
    controller's, the node port of a backend, the url map of an ingress, zones,
    readiness probes and firewall ports. The informers' stores are read only;
    events sent to the recorder and log lines are left out. *)

From S2P Require Import Prelude GoLang GoStrings Compute Utils Annotations Namer HealthChecks Instances Backends.
From S2P Require Import LoadBalancers K8s.

(** ** Ingresses *)

Definition isGCEIngress (ing : Ingress) : bool :=
  let class := IngAnnotations_IngressClass (ing_Annotations ing) in
  bool_decide (class = "") || bool_decide (class = GceIngressClass).
Definition isGCEMultiClusterIngress (ing : Ingress) : bool :=
  bool_decide (IngAnnotations_IngressClass (ing_Annotations ing) = GceMultiIngressClass).

Definition compareLinks (l1 l2 : string) : bool := bool_decide (l1 = l2) && negb (bool_decide (l1 = "")).

Definition ingLister_ListAll `{MapRange} (st : store Ingress) : list Ingress :=
  filter (λ ing, isGCEIngress ing || isGCEMultiClusterIngress ing = true) (store_List st).
Definition ingLister_ListGCEIngresses `{MapRange} (st : store Ingress) : list Ingress :=
  filter (λ ing, isGCEIngress ing = true) (store_List st).
Definition ingLister_GetServiceIngress `{MapRange} (st : store Ingress) (svc : Service) : error + list Ingress :=
  let ings := filter (λ ing, ingressRefersTo svc ing = true) (store_List st) in
  if decide (length ings = 0) then inl (Errorf "no ingress for service %v" [svc_Name svc] []) else inr ings.

(** ** Endpoints *)

Record EndpointsPort := MkEndpointsPort { enp_Name : string; enp_Port : Z; enp_Protocol : string }.
Definition ProtocolTCP : string := "TCP".
(** The ports of each subset. *)
Abbreviation EndpointsPorts := (list (list EndpointsPort)).
Definition ListEndpointTargetPorts (st : store EndpointsPorts) (namespace name targetPort : string) : list Z :=
  match Atoi targetPort with
  | Some i => [i]
  | None =>
      match st !! metaKey namespace name with
      | None => []
      | Some subsets =>
          enp_Port <$> filter (λ port, enp_Protocol port = ProtocolTCP ∧ enp_Name port = targetPort) (concat subsets)
      end
  end.

(** ** The translator *)

(** The stores and settings it reads; [tr_json] is [json.Unmarshal] of the
    application protocols. *)
Record GCETranslator (W : Type) := MkTranslator {
  tr_svcLister : W → store Service;
  tr_nodeLister : W → store Node;
  tr_podLister : W → store Pod;
  tr_endpointLister : W → store EndpointsPorts;
  tr_negEnabled : bool;
  tr_json : string → gmap string string * option error;
  tr_defaultBackendNodePort : ServicePort;
}.
Arguments MkTranslator {W} _ _ _ _ _ _ _.
Arguments tr_svcLister {W} _ _.
Arguments tr_nodeLister {W} _ _.
Arguments tr_podLister {W} _ _.
Arguments tr_endpointLister {W} _ _.
Arguments tr_negEnabled {W} _.
Arguments tr_json {W} _ _.
Arguments tr_defaultBackendNodePort {W} _.

(** The loop over the ports of the service. *)
Definition matchesBackend (be : IngressBackend) (p : SvcPort) : bool :=
  match ib_ServicePort be with
  | FromInt i => bool_decide (kp_Port p = i)
  | FromString s => bool_decide (kp_Name p = s)
  end.
Definition getServiceNodePort {W} (t : GCETranslator W) (w : W) (be : IngressBackend) (namespace : string) :
    error + ServicePort :=
  match tr_svcLister t w !! metaKey namespace (ib_ServiceName be) with
  | None => inl (NodePortNotFoundErr (ib_ServiceName be)
      (Errorf "service %v/%v not found in store" [namespace; ib_ServiceName be] []))
  | Some svc =>
      match SvcAnnotations_ApplicationProtocols (tr_json t) (svc_Annotations svc) with
      | inl err => inl (SvcAppProtosParsingErr (svc_Name svc) err)
      | inr appProtocols =>
          match List.find (matchesBackend be) (svc_Ports svc) with
          | None => inl (NodePortNotFoundErr (ib_ServiceName be)
              (Errorf "could not find matching nodeport from service" [] []))
          | Some port =>
              inr (MkServicePort (kp_NodePort port)
                (default ProtocolHTTP (appProtocols !! kp_Name port))
                (MkNamespacedName namespace (ib_ServiceName be)) (ib_ServicePort be)
                (IntOrString_String (kp_TargetPort port))
                (tr_negEnabled t && SvcAnnotations_NEGEnabled (svc_Annotations svc)))
          end
      end
  end.

(** The ports found, the others are logged. *)
Definition found_ports {W} (t : GCETranslator W) (w : W) (namespace : string) (bes : list IngressBackend) : list ServicePort :=
  omap (λ be, match getServiceNodePort t w be namespace with inl _ => None | inr p => Some p end) bes.
Definition ingressToNodePorts {W} (t : GCETranslator W) (w : W) (ing : Ingress) : list ServicePort :=
  found_ports t w (ing_Namespace ing) (option_list (ing_Backend ing)) ++
  concat ((λ rule, match ir_HTTP rule with
                   | None => []
                   | Some paths => found_ports t w (ing_Namespace ing) (hp_Backend <$> paths)
                   end) <$> ing_Rules ing).
Definition toNodePorts {W} (t : GCETranslator W) (w : W) (ings : list Ingress) : list ServicePort :=
  concat (ingressToNodePorts t w <$> ings).

Section translator.
Context {W : Type} `{BackendPool W}.
Implicit Types t : GCETranslator W.

(** Return a computed result. *)
Definition ofSum {A} (r : error + A) : M W A := match r with inl err => throw err | inr a => mret a end.

Definition toGCEBackend t (be : IngressBackend) (ns : string) : M W BackendService :=
  port ← getW (λ w, getServiceNodePort t w be ns);
  port ← ofSum port;
  backend ← try (bkp_Get (sp_Port port));
  match backend with
  | inl _ => throw (Errorf "no GCE backend exists for port %v, kube backend %+v" [Itoa (sp_Port port); ib_ServiceName be] [])
  | inr backend => mret backend
  end.

(** The loop over the paths of a rule. *)
Fixpoint toPaths t (ns : string) (paths : list HTTPIngressPath) (pathToBackend : gmap string (option BackendService)) :
    M W (gmap string (option BackendService)) :=
  match paths with
  | [] => mret pathToBackend
  | p :: paths =>
      r ← try (toGCEBackend t (hp_Backend p) ns);
      match r with
      | inl (NodePortNotFoundErr _ _) => toPaths t ns paths pathToBackend
      | inl err => throw err
      | inr backend =>
          let path := if decide (hp_Path p = "") then DefaultPath else hp_Path p in
          toPaths t ns paths (<[path := Some backend]> pathToBackend)
      end
  end.
Fixpoint toHosts t (ns : string) (rules : list IngressRule) (hostPathBackend : GCEURLMap) : M W GCEURLMap :=
  match rules with
  | [] => mret hostPathBackend
  | rule :: rules =>
      match ir_HTTP rule with
      | None => toHosts t ns rules hostPathBackend
      | Some paths =>
          pathToBackend ← toPaths t ns paths ∅;
          let host := if decide (ir_Host rule = "") then DefaultHost else ir_Host rule in
          toHosts t ns rules (<[host := pathToBackend]> hostPathBackend)
      end
  end.
Definition toURLMap t (ing : Ingress) : M W GCEURLMap :=
  hostPathBackend ← toHosts t (ing_Namespace ing) (ing_Rules ing) ∅;
  defaultBackend ← match ing_Backend ing with
    | None => mret None
    | Some be =>
        r ← try (toGCEBackend t be (ing_Namespace ing));
        mret (match r with inl _ => None | inr backend => Some backend end)
    end;
  mret (PutDefaultBackend defaultBackend hostPathBackend).
End translator.

(** ** Nodes *)

Definition getZone (n : Node) : string := default DefaultZone (node_Labels n !! ZoneKey).
(** [getNodeReadyPredicate]: the status of the first Ready condition. *)
Definition nodeReady (n : Node) : bool :=
  match List.find (λ c, bool_decide (nc_Type c = "Ready")) (node_Conditions n) with
  | Some c => bool_decide (nc_Status c = "True")
  | None => false
  end.
Definition readyNodes `{MapRange} (st : store Node) : list Node := filter (λ n, nodeReady n = true) (store_List st).
Definition GetZoneForNode `{MapRange} (st : store Node) (name : string) : error + string :=
  match List.find (λ n, bool_decide (node_Name n = name)) (readyNodes st) with
  | Some n => inr (getZone n)
  | None => inl (Errorf "node not found %v" [name] [])
  end.
Definition ListZones `{MapRange} (st : store Node) : list string :=
  sets_List (list_to_set (getZone <$> readyNodes st)).
Definition getReadyNodeNames `{MapRange} (st : store Node) : list string :=
  node_Name <$> filter (λ n, node_Unschedulable n = false) (readyNodes st).

(** ** Probes *)

Definition isSimpleHTTPProbe (probe : option Probe) : bool :=
  match probe ≫= pb_HTTPGet with
  | None => false
  | Some a =>
      bool_decide (hg_Host a = "") &&
      match hg_HTTPHeaders a with [] => true | [h] => bool_decide (hh_Name h = "Host") | _ => false end
  end.
(** [labels.SelectorFromSet(sel).Matches(l)]: an empty selector matches all. *)
Definition selectorMatches (sel l : gmap string string) : bool := bool_decide (sel ⊆ l).
Definition podLister_List `{MapRange} (st : store Pod) (sel : gmap string string) : list Pod :=
  filter (λ pod, selectorMatches sel (pod_Labels pod) = true) (store_List st).

(** [PodsByCreationTimestamp.Less] *)
Definition podLess (a b : Pod) : bool :=
  if decide (pod_CreationTimestamp a = pod_CreationTimestamp b)
  then String.ltb (pod_Name a) (pod_Name b)
  else bool_decide (pod_CreationTimestamp a < pod_CreationTimestamp b)%Z.
(** [sort.Sort] orders what compares equal as it likes. *)
Class PodSort := {
  pod_sort : list Pod → list Pod;
  pod_sort_perm l : pod_sort l ≡ₚ l;
  pod_sort_sorted l i j a b : i < j → pod_sort l !! i = Some a → pod_sort l !! j = Some b → podLess b a = false;
}.

Definition portMatches (x : IntOrString) (p : ContainerPort) : bool :=
  match x with
  | FromInt i => bool_decide (i = cp_ContainerPort p)
  | FromString s => bool_decide (s = cp_Name p)
  end.
(** The loop over the ports of a container. *)
Definition containerProbe (targetPort : IntOrString) (protocol : string) (c : Container) : option Probe :=
  probe ← ct_ReadinessProbe c;
  a ← pb_HTTPGet probe;
  if isSimpleHTTPProbe (Some probe) && bool_decide (protocol = hg_Scheme a) then
    if existsb (λ p, portMatches targetPort p && portMatches (hg_Port a) p) (ct_Ports c) then Some probe else None
  else None.
Definition getHTTPProbe `{MapRange, PodSort} (st : store Pod) (svc : Service) (targetPort : IntOrString) (protocol : string) :
    option Probe :=
  head (omap (containerProbe targetPort protocol)
    (concat (pod_Containers <$> filter (λ pod, pod_Namespace pod = svc_Namespace svc)
       (pod_sort (podLister_List st (svc_Selector svc)))))).

(** [int32(x)] *)
Definition int32 (z : Z) : Z := ((z + 2 ^ 31) mod 2 ^ 32 - 2 ^ 31)%Z.
(** The first service and port with the node port. *)
Definition findNodePort (port : Z) (svcs : list Service) : option (Service * SvcPort) :=
  head (concat ((λ svc, pair svc <$> filter (λ sp, int32 port = kp_NodePort sp) (svc_Ports svc)) <$> svcs)).
Definition GetProbe {W} `{MapRange, PodSort} (t : GCETranslator W) (port : ServicePort) : M W (option Probe) :=
  found ← getW (λ w, findNodePort (sp_Port port) (store_List (tr_svcLister t w)));
  match found with
  | None => throw (Errorf "unable to find nodeport %v in any service" [Itoa (sp_Port port)] [])
  | Some (service, svcPort) =>
      getW (λ w, getHTTPProbe (tr_podLister t w) service (kp_TargetPort svcPort) (sp_Protocol port))
  end.

(** ** Ports *)

Definition firewallPortsOf {W} (t : GCETranslator W) (w : W) (p : ServicePort) : list Z :=
  if sp_NEGEnabled p
  then ListEndpointTargetPorts (tr_endpointLister t w) (nn_Namespace (sp_SvcName p)) (nn_Name (sp_SvcName p)) (sp_SvcTargetPort p)
  else [sp_Port p].
Definition gatherFirewallPorts {W} `{!KeyRange Z} (t : GCETranslator W) (w : W) (svcPorts : list ServicePort)
    (includeDefaultBackend : bool) : list Z :=
  let svcPorts := if includeDefaultBackend then svcPorts ++ [tr_defaultBackendNodePort t] else svcPorts in
  let portMap : gmap Z bool := foldl (λ m p, <[p := true]> m) ∅ (concat (firewallPortsOf t w <$> svcPorts)) in
  (krange portMap).*1.

Definition uniq `{!KeyRange Z} (nodePorts : list ServicePort) : list ServicePort :=
  (krange (foldl (λ m p, <[sp_Port p := p]> m) (∅ : gmap Z ServicePort) nodePorts)).*2.

(** [json_Marshal] gives the text for the names and zones of the groups. *)
Definition setInstanceGroupsAnnotation (json_Marshal : list (string * string) → string)
    (existing : gmap string string) (igs : list InstanceGroup) : gmap string string :=
  <[InstanceGroupsAnnotationKey := json_Marshal ((λ ig, (ig_Name ig, ig_Zone ig)) <$> igs)]> existing.

(** ** The interfaces it implements *)

(** [zoneLister] of the node pool and [zoneGetter] of the NEG controller. *)
Definition Translator_ZoneLister {W} `{MapRange} (t : GCETranslator W) : ZoneLister W := {|
  zl_ListZones := getW (λ w, ListZones (tr_nodeLister t w));
  zl_GetZoneForNode := λ name, r ← getW (λ w, GetZoneForNode (tr_nodeLister t w) name); ofSum r;
|}.
