(* ===== verification/TaskQueue.v ===== *)
(** * TaskQueue: taskQueue of pkg/controller/utils.go

    A work queue and the worker that takes keys out of it and calls [sync]. The
    informers add keys, delayed keys come back, and [Stop] of the controller
    closes [stopCh] and then shuts the queue down and waits for [workerDone].
    Each step is a call on the queue, the end of a call of [sync], or a look of
    [wait.Until] at [stopCh], which comes before every call of the worker, the
    first one included. *)

From S2P Require Import Prelude GoLang GoStrings Utils K8s.

(** The worker: [run] has not been called, or its [wait.Until] has not looked at
    [stopCh] yet; at [Get]; in [sync] of a key; before [Done] of a key; returned,
    and [wait.Until] has to look at [stopCh] before it calls it again; [run] has
    returned, so that nothing calls the worker any more. *)
Inductive worker :=
  | BeforeRun
  | AtGet
  | Syncing (key : string)
  | Finishing (key : string)
  | Returned
  | AfterRun.
Definition running (w : worker) : bool :=
  match w with AtGet | Syncing _ | Finishing _ => true | BeforeRun | Returned | AfterRun => false end.

Record taskQueue := MkTaskQueue {
  tq_queue : workqueue;
  tq_worker : worker;
  tq_workerDone : bool; (* closed *)
  tq_stopCh : bool; (* closed *)
}.
Definition NewTaskQueue : taskQueue := MkTaskQueue newQueue BeforeRun false false.

Inductive task_event :=
  | Enqueue (key : string)
  | WorkerGet
  | WorkerSync (failed : bool)
  | WorkerDone
  | UntilLoop (* wait.Until looks at stopCh, and calls the worker if it is open *)
  | DelayOver (key : string)
  | CloseStopCh
  | ShutDown.

(** [None]: not possible here. The boolean is set when the step panics. *)
Definition task_step (e : task_event) (t : taskQueue) : option (bool * taskQueue) :=
  let q := tq_queue t in
  let go q w := Some (false, MkTaskQueue q w (tq_workerDone t) (tq_stopCh t)) in
  match e, tq_worker t with
  | Enqueue key, w => go (queue_Add key q) w
  | WorkerGet, AtGet =>
      match queue_Get q with
      | None => None
      | Some (None, q) => Some (tq_workerDone t, MkTaskQueue q Returned true (tq_stopCh t))
      | Some (Some key, q) => go q (Syncing key)
      end
  | WorkerSync failed, Syncing key =>
      go (if failed : bool then queue_AddRateLimited key q else queue_Forget key q) (Finishing key)
  | WorkerDone, Finishing key => go (queue_Done key q) AtGet
  | UntilLoop, (BeforeRun | Returned) => go q (if tq_stopCh t then AfterRun else AtGet)
  | DelayOver key, w => q ← queue_Ready key q; go q w
  | CloseStopCh, w => if tq_stopCh t then None else Some (false, MkTaskQueue q w (tq_workerDone t) true)
  | ShutDown, w => if tq_stopCh t then go (queue_ShutDown q) w else None
  | _, _ => None
  end.

Inductive task_reachable : taskQueue → Prop :=
  | task_start : task_reachable NewTaskQueue
  | task_next e t t' : task_reachable t → task_step e t = Some (false, t') → task_reachable t'.

(** ** Invariant *)

Definition current (w : worker) : gset string :=
  match w with Syncing key | Finishing key => {[key]} | _ => ∅ end.
Definition task_inv (t : taskQueue) : Prop :=
  queue_ok (tq_queue t) ∧ q_processing (tq_queue t) = current (tq_worker t) ∧
  (tq_worker t = BeforeRun ∨ running (tq_worker t) = true → tq_workerDone t = false) ∧
  (tq_worker t = AfterRun → tq_stopCh t = true) ∧
  (q_shuttingDown (tq_queue t) = true → tq_stopCh t = true) ∧
  (tq_worker t = Returned → tq_workerDone t = true ∧ q_shuttingDown (tq_queue t) = true ∧ q_queue (tq_queue t) = []).

Lemma Add_fields item q :
  q_processing (queue_Add item q) = q_processing q ∧ q_shuttingDown (queue_Add item q) = q_shuttingDown q ∧
  (q_shuttingDown q = true → queue_Add item q = q) ∧
  (q_shuttingDown q = false → q_dirty (queue_Add item q) = {[item]} ∪ q_dirty q) ∧
  q_waiting (queue_Add item q) = q_waiting q.
Proof.
  unfold queue_Add. destruct (q_shuttingDown q) eqn:Hs; [by split_and!|]. case_decide; split_and!; try done.
  intros _. symmetry. apply subseteq_union_1_L. by apply singleton_subseteq_l.
Qed.

Lemma task_inv_step e t b t' : task_inv t → task_step e t = Some (b, t') → b = false ∧ task_inv t'.
Proof.
  intros (Hok&Hp&Hd&Hx&Hs&Hr). destruct t as [q w d st]. simpl in *. destruct e; simpl.
  - intros [= <- <-]. destruct (Add_fields key q) as (?&Hsh&Hsame&_). split; [done|].
    split_and!; simpl; try done; [by apply queue_ok_Add|congruence|by rewrite Hsh|].
    intros ->. destruct (Hr eq_refl) as (?&Hsd&Hq). by rewrite Hsame.
  - destruct w; try done. rewrite Hd by auto.
    destruct (queue_Get q) as [[[key|] q']|] eqn:Hg; [| |done]; intros [= <- <-]; (split; [done|]).
    + pose proof (queue_ok_Get _ _ _ Hok Hg). unfold queue_Get in Hg.
      destruct (q_queue q); [by destruct (q_shuttingDown q)|]. simplify_eq/=. split_and!; try done.
      simpl. rewrite Hp. apply union_empty_r_L.
    + unfold queue_Get in Hg. destruct (q_queue q) eqn:Hq; [|done]. destruct (q_shuttingDown q) eqn:Hsd; [|done].
      simplify_eq. split_and!; simpl; auto. by intros [|].
  - destruct w; try done. intros [= <- <-]. split; [done|]. destruct failed; split_and!; try done; simpl;
      first [by (eapply queue_ok_same; [..|exact Hok])|intros _; apply Hd; by right].
  - destruct w; try done. intros [= <- <-]. split; [done|]. split_and!; try done; simpl.
    + apply queue_ok_Done; [done|]. rewrite Hp. simpl. by apply elem_of_singleton.
    + rewrite Hp. simpl. by apply difference_diag_L.
    + intros _. apply Hd. by right.
  - destruct w; try done; intros [= <- <-]; (split; [done|]).
    + rewrite Hd by auto. by destruct st; split_and!.
    + destruct (Hr eq_refl) as (?&Hsd&?). rewrite Hs by done. split_and!; try done. simpl. by intros [|].
  - destruct (queue_Ready key q) as [q'|] eqn:Hq; [|done]. simpl. intros [= <- <-]. split; [done|].
    pose proof (queue_ok_Ready _ _ _ Hok Hq) as Hok'. unfold queue_Ready in Hq. case_decide; [|done]. injection Hq as <-.
    match goal with |- context [queue_Add key ?q0] => destruct (Add_fields key q0) as (Hpr&Hsh&Hsame&_) end.
    split_and!; simpl in *; try done; [congruence|by rewrite Hsh|]. intros ->. destruct (Hr eq_refl) as (?&Hsd&Hq0).
    by rewrite Hsame.
  - destruct st; [done|]. intros [= <- <-]. by split_and!.
  - destruct st; [|done]. intros [= <- <-]. split; [done|]. split_and!; try done. simpl. intros ->.
    by destruct (Hr eq_refl) as (?&_&?).
Qed.
Lemma task_inv_reachable t : task_reachable t → task_inv t.
Proof.
  induction 1 as [|e t t' _ IH Hstep]; [|by eapply task_inv_step in Hstep as [_ ?]].
  split_and!; try done. apply queue_ok_new.
Qed.

(** ** Nothing is lost *)

(** The keys that still have to be synced. *)
Definition pending (t : taskQueue) : gset string := q_dirty (tq_queue t) ∪ q_waiting (tq_queue t).

Lemma pending_step e t b t' key :
  task_step e t = Some (b, t') → q_shuttingDown (tq_queue t) = false → key ∈ pending t →
  key ∈ pending t' ∨ tq_worker t' = Syncing key.
Proof.
  intros Hstep Hs. destruct t as [q w d st]. unfold pending. simpl in *. rewrite elem_of_union.
  destruct e; simpl in Hstep.
  - injection Hstep as <- <-. simpl. destruct (Add_fields key0 q) as (_&_&_&Hd&->). rewrite Hd by done. set_solver.
  - destruct w; try done. unfold queue_Get in Hstep. destruct (q_queue q) as [|x l]; [by rewrite Hs in Hstep|].
    injection Hstep as <- <-. simpl. destruct (decide (key = x)) as [->|]; [by right|]. set_solver.
  - destruct w; try done. injection Hstep as <- <-. destruct failed; simpl; [rewrite Hs|]; set_solver.
  - destruct w; try done. injection Hstep as <- <-. simpl. set_solver.
  - destruct w; try done; injection Hstep as <- <-; simpl; set_solver.
  - unfold queue_Ready in Hstep. case_decide as Hw; [|done]. simpl in Hstep. injection Hstep as <- <-. simpl.
    match goal with |- context [queue_Add key0 ?q0] => destruct (Add_fields key0 q0) as (_&_&_&Hd&Hwait) end.
    rewrite Hd, Hwait by done. simpl. destruct (decide (key = key0)); set_solver.
  - destruct st; [done|]. injection Hstep as <- <-. simpl. set_solver.
  - destruct st; [|done]. injection Hstep as <- <-. simpl. set_solver.
Qed.

(** Keys the worker has to visit after a shutdown, and its position. *)
Definition left (t : taskQueue) : nat :=
  3 * size (q_dirty (tq_queue t)) +
  match tq_worker t with
  | BeforeRun | Returned => 1
  | AtGet => 2
  | Syncing _ => 4
  | Finishing _ => 3
  | AfterRun => 0
  end.
Definition of_worker (e : task_event) : bool :=
  match e with WorkerGet | WorkerSync _ | WorkerDone | UntilLoop => true | _ => false end.

Inductive draining : taskQueue → list task_event → taskQueue → Prop :=
  | draining_nil t : draining t [] t
  | draining_cons e t b t1 l t' : task_step e t = Some (b, t1) → draining t1 l t' → draining t (e :: l) t'.

Lemma left_step e t b t' :
  task_inv t → q_shuttingDown (tq_queue t) = true → task_step e t = Some (b, t') →
  q_shuttingDown (tq_queue t') = true ∧ left t' + (if of_worker e then 1 else 0) ≤ left t.
Proof.
  intros (Hok&Hp&_&_&Hst&_) Hs Hstep. destruct t as [q w d st]. unfold left. simpl in *. specialize (Hst Hs). subst st.
  destruct e; simpl in Hstep.
  - injection Hstep as <- <-. simpl. destruct (Add_fields key q) as (_&_&->&_); [|done]. split; [done|lia].
  - destruct w; try done. unfold queue_Get in Hstep. destruct (q_queue q) as [|x l] eqn:Hq.
    + rewrite Hs in Hstep. injection Hstep as <- <-. simpl. split; [done|lia].
    + injection Hstep as <- <-. simpl. split; [done|].
      assert (x ∈ q_dirty q) as Hx by (apply Hok; rewrite Hq; apply list_elem_of_here).
      rewrite size_difference by (by apply singleton_subseteq_l). rewrite size_singleton.
      assert (size (q_dirty q) ≠ 0) by (intros Hz%size_empty_inv; set_solver). lia.
  - destruct w; try done. injection Hstep as <- <-. destruct failed; simpl; (split; [done|lia]).
  - destruct w; try done. injection Hstep as <- <-. simpl. split; [done|lia].
  - destruct w; try done; injection Hstep as <- <-; simpl; (split; [done|lia]).
  - unfold queue_Ready in Hstep. case_decide; [|done]. simpl in Hstep. injection Hstep as <- <-. simpl.
    match goal with |- context [queue_Add key ?q0] => destruct (Add_fields key q0) as (_&_&->&_) end; [|done].
    simpl. split; [done|lia].
  - done.
  - injection Hstep as <- <-. simpl. split; [done|lia].
Qed.
Lemma draining_bound t l t' :
  draining t l t' → task_inv t → q_shuttingDown (tq_queue t) = true →
  length (filter (λ e, of_worker e = true) l) ≤ left t.
Proof.
  induction 1 as [|e t b t1 l t' Hstep _ IH]; intros Ht Hs; [simpl; lia|].
  pose proof (left_step _ _ _ _ Ht Hs Hstep) as [Hs1 Hl]. pose proof (task_inv_step _ _ _ _ Ht Hstep) as [_ Ht1].
  specialize (IH Ht1 Hs1). rewrite filter_cons. destruct (of_worker e); simpl in *; lia.
Qed.

(** A worker that runs closes [workerDone] before anything else becomes of it. *)
Lemma draining_closes t l t' :
  draining t l t' → running (tq_worker t) = true ∨ tq_workerDone t = true →
  running (tq_worker t') = true ∨ tq_workerDone t' = true.
Proof.
  induction 1 as [|e t b t1 l t' Hstep _ IH]; [done|]. intros Hr. apply IH. clear IH.
  destruct t as [q w d st]. destruct e; simpl in *; [..|by destruct st; simplify_eq/=|by destruct st; simplify_eq/=].
  - by simplify_eq/=.
  - destruct w; try done. destruct (queue_Get q) as [[[key|] q']|]; simplify_eq/=; auto.
  - destruct w; try done. simplify_eq/=. auto.
  - destruct w; try done. simplify_eq/=. auto.
  - destruct w; try done; simplify_eq/=; destruct Hr; auto; done.
  - destruct (queue_Ready key q); by simplify_eq/=.
Qed.
(** A worker that has not started when [stopCh] is closed is never called. *)
Lemma draining_never t l t' :
  draining t l t' → tq_stopCh t = true ∧ tq_workerDone t = false ∧ tq_worker t ∈ [BeforeRun; AfterRun] →
  tq_stopCh t' = true ∧ tq_workerDone t' = false ∧ tq_worker t' ∈ [BeforeRun; AfterRun].
Proof.
  induction 1 as [|e t b t1 l t' Hstep _ IH]; [done|]. intros (Hs&Hd&Hw). apply IH. clear IH.
  destruct t as [q w d st]. simpl in *. subst st d. rewrite !elem_of_cons, elem_of_nil in Hw.
  destruct e; simpl in Hstep; destruct Hw as [->|[->|[]]]; try done; simplify_eq/=;
    try (destruct (queue_Ready key q)); simplify_eq/=; split_and!; try done; set_solver.
Qed.

(** C26. The task queue loses nothing, and it stops if its worker had started.
    In every interleaving of the informers, the worker, the delays, [wait.Until]
    and [Stop]: no step panics (in particular [workerDone] is closed once,
    although [wait.Until] restarts the worker); the worker is on at most one key
    at a time and only that one is processed; until the queue is shut down, a
    key that was added is marked, a key whose sync failed is kept for a retry,
    and a marked key loses its mark only when the worker starts to sync it, so
    an update during a sync causes another one. After the shutdown a worker that
    runs is never blocked, takes at most three steps per marked key and four
    more, and has closed [workerDone] when it no longer runs, so that [shutdown]
    returns. A worker that [wait.Until] has not called when [stopCh] is closed
    is never called: [workerDone] stays open in every continuation, and
    [shutdown], which waits for it, blocks for ever. *)
Theorem taskQueue_progress t :
  task_reachable t →
  (∀ e b t', task_step e t = Some (b, t') → b = false) ∧
  q_processing (tq_queue t) = current (tq_worker t) ∧
  (q_shuttingDown (tq_queue t) = false →
    (∀ key b t', task_step (Enqueue key) t = Some (b, t') → key ∈ pending t') ∧
    (∀ key b t', tq_worker t = Syncing key → task_step (WorkerSync true) t = Some (b, t') → key ∈ pending t') ∧
    (∀ e b t' key, task_step e t = Some (b, t') → key ∈ pending t →
       key ∈ pending t' ∨ tq_worker t' = Syncing key)) ∧
  (q_shuttingDown (tq_queue t) = true →
    (running (tq_worker t) = true → ∃ e b t', of_worker e = true ∧ task_step e t = Some (b, t')) ∧
    (∀ l t', draining t l t' →
       length (filter (λ e, of_worker e = true) l) ≤ 3 * size (q_dirty (tq_queue t)) + 4 ∧
       (running (tq_worker t) = true → running (tq_worker t') = false → tq_workerDone t' = true))) ∧
  (tq_stopCh t = true → tq_worker t = BeforeRun →
    ∀ l t', draining t l t' → tq_workerDone t' = false).
Proof.
  intros Ht%task_inv_reachable. split; [by intros e b t' [? _]%task_inv_step|].
  pose proof Ht as (Hok&Hp&Hd&_). split; [done|]. split_and!.
  - intros Hs. split_and!.
    + intros key b t' [= <- <-]. unfold pending. simpl.
      destruct (Add_fields key (tq_queue t)) as (_&_&_&Hdirty&_). rewrite Hdirty by done. set_solver.
    + intros key b t' Hw Hstep. unfold task_step in Hstep. rewrite Hw in Hstep. injection Hstep as <- <-.
      unfold pending. simpl. rewrite Hs. set_solver.
    + intros e b t' key Hstep. by eapply pending_step.
  - intros Hs. split.
    + destruct (tq_worker t) eqn:Hw; intros Hr; try done.
      * exists WorkerGet. unfold task_step. rewrite Hw. unfold queue_Get. rewrite Hs.
        destruct (q_queue (tq_queue t)); by eexists _, _.
      * exists (WorkerSync false). unfold task_step. rewrite Hw. by eexists _, _.
      * exists WorkerDone. unfold task_step. rewrite Hw. by eexists _, _.
    + intros l t' Hl. split.
      * pose proof (draining_bound _ _ _ Hl Ht Hs) as Hb. unfold left in Hb. destruct (tq_worker t); lia.
      * intros Hr Hr'. destruct (draining_closes _ _ _ Hl) as [?|?]; [by left|congruence|done].
  - intros Hs Hw l t' Hl. apply (draining_never _ _ _ Hl). split_and!; [done|auto|]. rewrite Hw. set_solver.
Qed.

Fixpoint run_tasks (l : list task_event) (t : taskQueue) : option taskQueue :=
  match l with
  | [] => Some t
  | e :: l => match task_step e t with Some (false, t) => run_tasks l t | _ => None end
  end.
Lemma run_tasks_reachable l t t' : task_reachable t → run_tasks l t = Some t' → task_reachable t'.
Proof.
  revert t. induction l as [|e l IH]; simpl; intros t Ht; [by intros [= <-]|].
  destruct (task_step e t) as [[[] t1]|] eqn:He; try done. apply IH. by eapply task_next.
Qed.
(** The worker starts, a key is added again while it is synced, and then the
    controller is stopped; and the controller is stopped before the worker. *)
Definition ex_tasks : list task_event :=
  [UntilLoop; Enqueue "ns/ing"; WorkerGet; Enqueue "ns/ing"; CloseStopCh; ShutDown].
Definition ex_task : taskQueue :=
  MkTaskQueue (MkQueue [] {["ns/ing"]} {["ns/ing"]} true ∅ ∅) (Syncing "ns/ing") false true.
Definition ex_early : taskQueue := MkTaskQueue (MkQueue [] ∅ ∅ true ∅ ∅) BeforeRun false true.
Lemma taskQueue_progress_witness :
  (∃ l t', draining ex_task l t' ∧ tq_worker t' = Returned ∧ tq_workerDone t' = true ∧
    length (filter (λ e, of_worker e = true) l) ≤ 7) ∧
  (∃ t', draining ex_early [UntilLoop] t' ∧ tq_worker t' = AfterRun ∧ tq_workerDone t' = false).
Proof.
  split.
  - destruct (taskQueue_progress ex_task) as (_&_&_&Hs&_).
    { by apply (run_tasks_reachable ex_tasks NewTaskQueue); [apply task_start|vm_compute]. }
    destruct (Hs eq_refl) as [_ Hb].
    assert (∃ t', draining ex_task [WorkerSync false; WorkerDone; WorkerGet; WorkerSync true; WorkerDone; WorkerGet] t' ∧
      tq_worker t' = Returned) as (t'&Hl&Hw).
    { eexists. split; [repeat (eapply draining_cons; [by vm_compute|]); apply draining_nil|reflexivity]. }
    destruct (Hb _ t' Hl) as [Hlen Hdone]. eexists _, t'. split; [exact Hl|]. split; [exact Hw|].
    split; [apply Hdone; [reflexivity|by rewrite Hw]|exact Hlen].
  - destruct (taskQueue_progress ex_early) as (_&_&_&_&Hs).
    { by apply (run_tasks_reachable [CloseStopCh; ShutDown] NewTaskQueue); [apply task_start|vm_compute]. }
    assert (∃ t', draining ex_early [UntilLoop] t' ∧ tq_worker t' = AfterRun) as (t'&Hl&Hw).
    { eexists. split; [repeat (eapply draining_cons; [by vm_compute|]); apply draining_nil|reflexivity]. }
    exists t'. split; [exact Hl|]. split; [exact Hw|]. exact (Hs eq_refl eq_refl _ _ Hl).
Defined.
