(* ===== verification/ClusterManager.v ===== *)
(** * ClusterManager: pkg/controller/cluster_manager.go

    The cluster manager holds the pools and runs them in order. The pools are
    values of the interfaces of their components; [NewClusterManager] puts the
    modelled implementations together. *)

From S2P Require Import Prelude GoLang GoStrings Compute Utils Namer HealthChecks Instances Firewalls Backends.
From S2P Require Import LoadBalancers K8s Translator.

(** [SingleFirewallPool] of pkg/firewalls. *)
Class SingleFirewallPool (W : Type) := {
  fwp_Sync : list Z → list string → M W unit;
  fwp_Shutdown : M W unit;
}.

(** [cm_onL7] calls a method of the load balancer that the pool returns for a
    key: the pool gives out a pointer, so what the method changes stays in it. *)
Record ClusterManager (W : Type) := MkClusterManager {
  cm_ClusterNamer : Namer;
  cm_defaultBackendNodePort : ServicePort;
  cm_instancePool : NodePool W;
  cm_backendPool : BackendPool W;
  cm_l7Pool : LoadBalancerPool W;
  cm_onL7 : ∀ A, string → M (L7 * W) A → M W A;
  cm_firewallPool : SingleFirewallPool W;
}.
Arguments MkClusterManager {W} _ _ _ _ _ _ _.
Arguments cm_ClusterNamer {W} _.
Arguments cm_defaultBackendNodePort {W} _.
Arguments cm_instancePool {W} _.
Arguments cm_backendPool {W} _.
Arguments cm_l7Pool {W} _.
Arguments cm_onL7 {W} _ {A} _ _.
Arguments cm_firewallPool {W} _.

Section cluster.
Context {W : Type} `{!KeyRange Z}.
Implicit Types c : ClusterManager W.

Definition IsHealthy c : M W unit :=
  r ← try (bkp_List (BackendPool := cm_backendPool c));
  match r with
  | inl err => if IsHTTPErrorCode err StatusForbidden then mret tt else throw err
  | inr _ => mret tt
  end.

Definition isFirewallSyncError (err : error) : bool := match err with FirewallSyncErr _ _ => true | _ => false end.

Definition cm_shutdown c : M W unit :=
  _ ← lbp_Shutdown (LoadBalancerPool := cm_l7Pool c);
  r ← try (fwp_Shutdown (SingleFirewallPool := cm_firewallPool c));
  match r with
  | inl err => if isFirewallSyncError err then mret tt else throw err
  | inr _ => bkp_Shutdown (BackendPool := cm_backendPool c)
  end.

Definition cm_EnsureInstanceGroupsAndPorts c (servicePorts : list ServicePort) : M W (list InstanceGroup) :=
  EnsureInstanceGroupsAndPorts (H := cm_instancePool c) (cm_ClusterNamer c) (sp_Port <$> servicePorts).

(** The steps of [Checkpoint] after the instance groups; the groups are returned
    whatever happens to these. Without zones the slice of groups is nil, and
    [Ensure] looks for the groups again. *)
Definition checkpoint_rest c (igs : list InstanceGroup) (lbs : list L7RuntimeInfo) (nodeNames : list string)
    (backendServicePorts : list ServicePort) (firewallPorts : list Z) : M W unit :=
  _ ← bkp_Ensure (BackendPool := cm_backendPool c) backendServicePorts (if decide (length igs = 0) then None else Some igs);
  _ ← nop_Sync (NodePool := cm_instancePool c) nodeNames;
  _ ← lbp_Sync (LoadBalancerPool := cm_l7Pool c) lbs;
  fwp_Sync (SingleFirewallPool := cm_firewallPool c) firewallPorts nodeNames.
Definition Checkpoint c (lbs : list L7RuntimeInfo) (nodeNames : list string)
    (backendServicePorts namedPorts : list ServicePort) (firewallPorts : list Z) :
    M W (list InstanceGroup * option error) :=
  let namedPorts :=
    if decide (length namedPorts ≠ 0) then namedPorts ++ [cm_defaultBackendNodePort c] else namedPorts in
  let namedPorts := uniq namedPorts in
  let backendServicePorts := uniq backendServicePorts in
  igs ← try (cm_EnsureInstanceGroupsAndPorts c namedPorts);
  match igs with
  | inl err => mret ([], Some err)
  | inr igs =>
      r ← try (checkpoint_rest c igs lbs nodeNames backendServicePorts firewallPorts);
      mret (igs, match r with inl err => Some err | inr _ => None end)
  end.

Definition cm_GC c (lbNames : list string) (nodePorts : list ServicePort) : M W unit :=
  lbErr ← try (lbp_GC (LoadBalancerPool := cm_l7Pool c) lbNames);
  beErr ← try (bkp_GC (BackendPool := cm_backendPool c) nodePorts);
  match lbErr, beErr with
  | inl err, _ => throw err
  | inr _, inl err => throw err
  | inr _, inr _ =>
      if decide (length lbNames = 0)
      then nop_DeleteInstanceGroup (NodePool := cm_instancePool c) (Namer_InstanceGroup (cm_ClusterNamer c))
      else mret tt
  end.
End cluster.

(** The pools of [NewClusterManager] over one cloud: two backend pools, one of
    which the load balancer pool uses for the default backend. The lenses are
    where the pools keep their caches; [prober] is what [Init] hands to the
    backend pool. *)
Section new.
Context {W : Type} `{InstanceGroups W, HealthCheckProvider W, BackendServices W, NEGGetter W, LoadBalancers W, FirewallCloud W}.
Context `{ZoneLister W, MapRange}.
Context (createCmd updateCmd : Firewall → string → string) (deleteCmd : string → string → string).
Context (instances_snap : lens W (gmap string unit)) (backends_snap defaults_snap : lens W (gmap string (option BackendService)))
  (l7s_snap : lens W (gmap string L7)) (glbcDefaultBackend : lens W (option BackendService)).

Definition NewClusterManager (prober : ServicePort → M W (option Probe)) (namer : Namer)
    (defaultBackendNodePort : ServicePort) (defaultHealthCheckPath : string) : ClusterManager W :=
  let instancePool := NewNodePool (MkInstances instances_snap namer) in
  let healthChecker := NewHealthChecker (MkHealthChecks defaultHealthCheckPath namer) in
  let defaultBackendHealthChecker := NewHealthChecker (MkHealthChecks "/healthz" namer) in
  let backendPool := Backends_pool (H1 := healthChecker) (H2 := instancePool)
    (Backends_Init prober (NewBackendPool backends_snap namer [sp_Port defaultBackendNodePort])) in
  let defaultBackendPool := Backends_pool (H1 := defaultBackendHealthChecker) (H2 := instancePool)
    (NewBackendPool defaults_snap namer []) in
  let l7s := MkL7s l7s_snap glbcDefaultBackend defaultBackendNodePort namer in
  let firewallPool := NewFirewallPool namer in
  MkClusterManager namer defaultBackendNodePort instancePool backendPool
    (NewLoadBalancerPool (H0 := defaultBackendPool) l7s)
    (λ A key m, lb ← L7s_Get l7s key; L7s_run l7s (Namer_LoadBalancer namer key) lb m)
    {| fwp_Sync := FirewallRules_Sync createCmd updateCmd deleteCmd firewallPool;
       fwp_Shutdown := FirewallRules_Shutdown deleteCmd firewallPool |}.
End new.
