(* ===== verification/Tls.v ===== *)
(** * Tls: pkg/tls/tls.go, the certificates of an ingress *)

From S2P Require Import Prelude GoLang GoStrings Compute Utils LoadBalancers K8s.

Definition TLSCertKey : string := "tls.crt".
Definition TLSPrivateKeyKey : string := "tls.key".

(** The client of the API server: the data of a secret by namespace and name. *)
Class SecretClient (W : Type) := { sec_Get : string → string → M W (gmap string string) }.

(** [TlsLoader]; [Validate] of both loaders accepts everything. *)
Class TlsLoader (W : Type) := { tl_Load : Ingress → M W (option TLSCerts) }.
Definition noOPValidator_Validate {W} (certs : TLSCerts) : M W unit := mret tt.

(** Only the first secret is used. *)
Definition TLSCertsFromSecretsLoader_Load {W} `{SecretClient W} (ing : Ingress) : M W (option TLSCerts) :=
  match ing_TLS ing with
  | [] => mret None
  | secretName :: _ =>
      secret ← sec_Get (ing_Namespace ing) secretName;
      match secret !! TLSCertKey, secret !! TLSPrivateKeyKey with
      | None, _ => throw (Errorf "secret %v has no 'tls.crt'" [secretName] [])
      | Some _, None => throw (Errorf "secret %v has no 'tls.key'" [secretName] [])
      | Some cert, Some key =>
          let certs := MkTLSCerts key cert "" in
          _ ← noOPValidator_Validate certs;
          mret (Some certs)
      end
  end.

(** The loop over the map finds the entry of the secret's name. *)
Definition FakeTLSSecretLoader_Load {W} `{MapRange} (FakeCerts : gmap string (option TLSCerts)) (ing : Ingress) :
    M W (option TLSCerts) :=
  match ing_TLS ing with
  | [] => mret None
  | secretName :: _ =>
      match List.find (λ nc, bool_decide (secretName = nc.1)) (range FakeCerts) with
      | Some nc => mret nc.2
      | None => throw (Errorf "couldn't find secret for ingress %v" [ing_Name ing] [])
      end
  end.
