(* ===== verification/Controller.v ===== *)
(** * Controller: pkg/controller/controller.go

    The load balancer controller: handlers put ingresses into a queue, [sync]
    runs the two phases for one of them (checkpoint and garbage collection) and
    writes the result back to the API server. Events sent to the recorder and
    log lines are left out. *)

From S2P Require Import Prelude GoLang GoStrings Compute Utils Annotations Namer HealthChecks Instances Backends.
From S2P Require Import LoadBalancers K8s TaskQueue Translator ClusterManager Tls.

(** The ingresses at the API server. *)
Class IngressClient (W : Type) := {
  igc_Get : string → string → M W Ingress; (* namespace, name *)
  igc_UpdateStatus : Ingress → M W unit;
  igc_Update : Ingress → M W unit;
}.

Definition set_ing_Annotations (a : gmap string string) (ing : Ingress) : Ingress :=
  MkIngress (ing_Namespace ing) (ing_Name ing) a (ing_Backend ing) (ing_Rules ing) (ing_TLS ing) (ing_StatusIPs ing).
Definition set_ing_StatusIPs (ips : list string) (ing : Ingress) : Ingress :=
  MkIngress (ing_Namespace ing) (ing_Name ing) (ing_Annotations ing) (ing_Backend ing) (ing_Rules ing) (ing_TLS ing) ips.

(** [lbc_hasSynced] tells whether all the stores have been filled. *)
Record LoadBalancerController (W : Type) := MkController {
  lbc_ingLister : lens W (store Ingress);
  lbc_Translator : GCETranslator W;
  lbc_CloudClusterManager : ClusterManager W;
  lbc_ingQueue : lens W taskQueue;
  lbc_nodeQueue : lens W taskQueue;
  lbc_shutdown : lens W bool;
  lbc_hasSynced : W → bool;
  lbc_negEnabled : bool;
}.
Arguments MkController {W} _ _ _ _ _ _ _ _.
Arguments lbc_ingLister {W} _.
Arguments lbc_Translator {W} _.
Arguments lbc_CloudClusterManager {W} _.
Arguments lbc_ingQueue {W} _.
Arguments lbc_nodeQueue {W} _.
Arguments lbc_shutdown {W} _.
Arguments lbc_hasSynced {W} _ _.
Arguments lbc_negEnabled {W} _.

Section controller.
Context {W : Type} `{LoadBalancers W, IngressClient W, TlsLoader W, MapRange, !KeyRange Z}.
(** The JSON texts of the annotations. *)
Context (json_groups : list (string * string) → string) (json_backends : gmap string string → option string).
Implicit Types lbc : LoadBalancerController W.

(** ** Queues *)

(** A step of a queue that is always possible. *)
Definition task_do (e : task_event) (t : taskQueue) : taskQueue :=
  match task_step e t with Some (_, t) => t | None => t end.
Definition enqueue (q : lens W taskQueue) (key : string) : M W unit := zoom q (modW (task_do (Enqueue key))).

(** The handlers of the ingress informer assert the type of the object. *)
Definition onIngress lbc (obj : informed) : M W unit :=
  match obj with
  | OIngress ing =>
      if negb (isGCEIngress ing) && negb (isGCEMultiClusterIngress ing) then mret tt
      else enqueue (lbc_ingQueue lbc) (informed_key obj)
  | _ => panic
  end.
Definition enqueueIngressForService lbc (obj : informed) : M W unit :=
  match obj with
  | OService svc =>
      ings ← getW (λ w, ingLister_GetServiceIngress (lget (lbc_ingLister lbc) w) svc);
      match ings with
      | inl _ => mret tt
      | inr ings =>
          forEach (λ ing,
            if negb (isGCEIngress ing) then mret tt
            else enqueue (lbc_ingQueue lbc) (metaKey (ing_Namespace ing) (ing_Name ing))) ings
      end
  | _ => panic
  end.
(** The other handlers that [NewLoadBalancerController] registers: an update of a
    service matters when the object changed, nodes are queued by name when they
    come and go. *)
Definition onServiceUpdate lbc (old cur : Service) : M W unit :=
  if decide (old = cur) then mret tt else enqueueIngressForService lbc (OService cur).
Definition onNode lbc (node : Node) : M W unit := enqueue (lbc_nodeQueue lbc) (metaKey "" (node_Name node)).

(** The three registrations. The deletion of a service and the update of a node
    have no handler. *)
Definition onIngressEvent lbc (ev : informer_event informed) : M W unit :=
  match ev with EvAdd obj | EvDelete obj | EvUpdate _ obj => onIngress lbc obj end.
Definition onServiceEvent lbc (ev : informer_event Service) : M W unit :=
  match ev with
  | EvAdd svc => enqueueIngressForService lbc (OService svc)
  | EvUpdate old cur => onServiceUpdate lbc old cur
  | EvDelete _ => mret tt
  end.
Definition onNodeEvent lbc (ev : informer_event Node) : M W unit :=
  match ev with EvAdd node | EvDelete node => onNode lbc node | EvUpdate _ _ => mret tt end.

(** The function [NewLoadBalancerController] puts into [hasSynced], of those of
    the five informers; without network endpoint groups there is no informer of
    endpoints, and nothing to wait for. *)
Definition storesSynced (podSynced serviceSynced nodeSynced ingressSynced endpointSynced : W → bool) (w : W) : bool :=
  podSynced w && serviceSynced w && nodeSynced w && ingressSynced w && endpointSynced w.
Definition newHasSynced (negEnabled : bool) (podSynced serviceSynced nodeSynced ingressSynced endpointInformerSynced : W → bool) :
    W → bool :=
  storesSynced podSynced serviceSynced nodeSynced ingressSynced (if negEnabled then endpointInformerSynced else λ _, true).

(** [shutdown] of a queue waits for its worker to return. *)
Definition lbc_Stop lbc (deleteAll : bool) : M W unit :=
  down ← getW (lget (lbc_shutdown lbc));
  _ ← (if negb down then
         _ ← zoom (lbc_ingQueue lbc) (modW (task_do CloseStopCh));
         _ ← zoom (lbc_nodeQueue lbc) (modW (task_do CloseStopCh));
         _ ← zoom (lbc_ingQueue lbc) (modW (task_do ShutDown));
         _ ← zoom (lbc_nodeQueue lbc) (modW (task_do ShutDown));
         zoom (lbc_shutdown lbc) (modW (λ _, true))
       else mret tt);
  if deleteAll then cm_shutdown (lbc_CloudClusterManager lbc) else mret tt.

(** ** Writing back *)

Definition updateAnnotations (name namespace : string) (annotations : gmap string string) : M W unit :=
  currIng ← igc_Get namespace name;
  if decide (ing_Annotations currIng = annotations) then mret tt
  else igc_Update (set_ing_Annotations annotations currIng).
Definition updateIngressStatus lbc (l7 : L7) (ing : Ingress) : M W unit :=
  let ip := L7_GetIP l7 in
  currIng ← igc_Get (ing_Namespace ing) (ing_Name ing);
  let currIng := set_ing_StatusIPs [ip] currIng in
  _ ← (if decide (ip ≠ "") then
         if decide (head (ing_StatusIPs ing) = Some ip) then mret tt else igc_UpdateStatus currIng
       else mret tt);
  annotations ← GetLBAnnotations (H0 := cm_backendPool (lbc_CloudClusterManager lbc)) json_backends l7
    (Some (ing_Annotations currIng));
  updateAnnotations (ing_Name ing) (ing_Namespace ing) annotations.

(** ** Sync *)

(** A certificate that cannot be loaded is left out with a warning. *)
Definition toRuntimeInfo (ings : list Ingress) : M W (list L7RuntimeInfo) :=
  forCollect (λ ing,
    let annotations := ing_Annotations ing in
    tls ← (if decide (IngAnnotations_UseNamedTLS annotations = "") then
             r ← try (tl_Load ing);
             mret (match r with inl _ => None | inr tls => tls end)
           else mret None);
    mret (MkL7RuntimeInfo (metaKey (ing_Namespace ing) (ing_Name ing)) "" tls
      (IngAnnotations_UseNamedTLS annotations) (IngAnnotations_AllowHTTP annotations)
      (IngAnnotations_StaticIPName annotations))) ings.

(** [ing] is a copy of the object in the store, but its annotations are the same
    map, so the store changes too; a nil map is replaced first. *)
Definition annotateGroups lbc (key : string) (ing : Ingress) (igs : list InstanceGroup) : M W (gmap string string) :=
  let annotations := setInstanceGroupsAnnotation json_groups (ing_Annotations ing) igs in
  _ ← (if decide (ing_Annotations ing = ∅) then mret tt
       else zoom (lbc_ingLister lbc) (modW <[key := set_ing_Annotations annotations ing]>));
  mret annotations.

Definition linkNEGs lbc (ing : Ingress) : M W unit :=
  if lbc_negEnabled lbc then
    svcPorts ← getW (λ w, toNodePorts (lbc_Translator lbc) w [ing]);
    forEach (λ svcPort,
      if sp_NEGEnabled svcPort then
        zones ← getW (λ w, ListZones (tr_nodeLister (lbc_Translator lbc) w));
        bkp_Link (BackendPool := cm_backendPool (lbc_CloudClusterManager lbc)) svcPort zones
      else mret tt) svcPorts
  else mret tt.

(** The last part, for an ingress of the controller: what [syncError] becomes. *)
Definition wrapErr (fmt : string) (syncError : option error) (err : error) : option error :=
  Some (Errorf fmt [] (option_list syncError ++ [err])).
Definition syncUrlMap lbc (key : string) (ing : Ingress) (syncError : option error) : M W (option error) :=
  let c := lbc_CloudClusterManager lbc in
  urlMap ← try (toURLMap (H := cm_backendPool c) (lbc_Translator lbc) ing);
  match urlMap with
  | inl err => mret (wrapErr "%v, convert to url map error %v" syncError err)
  | inr urlMap =>
      r ← try (cm_onL7 c key (L7_UpdateUrlMap urlMap));
      match r with
      | inl err => mret (wrapErr "%v, update url map error: %v" syncError err)
      | inr _ =>
          l7 ← cm_onL7 c key self;
          r ← try (updateIngressStatus lbc l7 ing);
          match r with
          | inl err => mret (wrapErr "%v, update ingress error: %v" syncError err)
          | inr _ => mret syncError
          end
      end
  end.

(** The function between the [defer] and its end: [syncError], which the
    deferred function reads, and the returned error. *)
Definition syncBody lbc (key : string) (obj : option Ingress) (lbs : list L7RuntimeInfo) (nodeNames : list string)
    (gceNodePorts allNodePorts : list ServicePort) : M W (option error * option error) :=
  let c := lbc_CloudClusterManager lbc in
  firewallPorts ← getW (λ w, gatherFirewallPorts (lbc_Translator lbc) w gceNodePorts (bool_decide (0 < length lbs)));
  '(igs, err) ← Checkpoint c lbs nodeNames gceNodePorts allNodePorts firewallPorts;
  let syncError :=
    match err with
    | None => None
    | Some err =>
        if isFirewallSyncError err then None
        else Some (if obj is Some _ then err else Errorf "%v, error: %v" ["GCE"] [err])
    end in
  match obj with
  | None => mret (syncError, syncError)
  | Some ing =>
      if isGCEMultiClusterIngress ing then
        annotations ← annotateGroups lbc key ing igs;
        r ← try (updateAnnotations (ing_Name ing) (ing_Namespace ing) annotations);
        mret (syncError, match r with inl err => Some err | inr _ => None end)
      else
        r ← try (linkNEGs lbc ing);
        match r with
        | inl err => mret (syncError, Some err)
        | inr _ =>
            l7 ← try (lbp_Get (LoadBalancerPool := cm_l7Pool c) key);
            match l7 with
            | inl err =>
                let syncError := wrapErr "%v, unable to get loadbalancer: %v" syncError err in
                mret (syncError, syncError)
            | inr _ =>
                syncError ← syncUrlMap lbc key ing syncError;
                mret (syncError, syncError)
            end
        end
  end.

(** A panic ends the process; the collection that the deferred call would still
    run then is left out. *)
Definition lbc_sync lbc (key : string) : M W unit :=
  synced ← getW (lbc_hasSynced lbc);
  if negb synced then throw (Errorf "waiting for stores to sync" [] []) else
  ingresses ← getW (lget (lbc_ingLister lbc));
  let gceIngresses := ingLister_ListGCEIngresses ingresses in
  allNodePorts ← getW (λ w, toNodePorts (lbc_Translator lbc) w (ingLister_ListAll ingresses));
  gceNodePorts ← getW (λ w, toNodePorts (lbc_Translator lbc) w gceIngresses);
  let lbNames := store_ListKeys ingresses in
  lbs ← toRuntimeInfo gceIngresses;
  nodeNames ← getW (λ w, getReadyNodeNames (tr_nodeLister (lbc_Translator lbc) w));
  obj ← getW (λ w, lget (lbc_ingLister lbc) w !! key);
  '(syncError, err) ← syncBody lbc key obj lbs nodeNames gceNodePorts allNodePorts;
  r ← try (cm_GC (lbc_CloudClusterManager lbc) lbNames allNodePorts);
  match r with
  | inl deferErr => throw (Errorf "error during sync %v, error during GC %v" [] (option_list syncError ++ [deferErr]))
  | inr _ => retErr err
  end.

Definition lbc_syncNodes lbc (key : string) : M W unit :=
  nodeNames ← getW (λ w, getReadyNodeNames (tr_nodeLister (lbc_Translator lbc) w));
  nop_Sync (NodePool := cm_instancePool (lbc_CloudClusterManager lbc)) nodeNames.

End controller.
