(* ===== verification/ControllerSpec.v ===== *)
(** * ControllerSpec: when a sync of the controller succeeds

    [sync] juggles several error variables, one of them read by the deferred
    garbage collection. The theorems say which stages have succeeded when it
    returns without an error, and for which ingresses an error gets lost. *)

From S2P Require Import Prelude GoLang GoStrings Compute Utils Annotations Namer HealthChecks Instances Backends.
From S2P Require Import LoadBalancers LoadBalancersFake K8s TaskQueue Translator ClusterManager Tls Controller.

(** ** Reading a result backwards *)

Lemma bind_Ok {W A B} (m : M W A) (f : A → M W B) b w w' :
  (m ≫= f) w = (Ok b, w') → ∃ a w1, m w = (Ok a, w1) ∧ f a w1 = (Ok b, w').
Proof. unfold mbind, M_bind. destruct (m w) as [[a|e|] w1]; [|done..]. eauto. Qed.
Lemma bind_run {W A B} (m : M W A) (f : A → M W B) a w w1 : m w = (Ok a, w1) → (m ≫= f) w = f a w1.
Proof. unfold mbind, M_bind. by intros ->. Qed.
Lemma try_Ok {W A} (m : M W A) r w w' :
  try m w = (Ok r, w') → match r with inl e => m w = (Err e, w') | inr a => m w = (Ok a, w') end.
Proof. unfold try. destruct (m w) as [[a|e|] w1]; by intros [= <- <-]. Qed.
(** Go back through the binds of a hypothesis; reads are taken away. *)
Ltac back H :=
  repeat match type of H with
  | (getW _ ≫= _) _ = (Ok _, _) => unfold mbind at 1, M_bind at 1, getW at 1 in H; cbv beta iota in H
  | (_ ≫= _) _ = (Ok _, _) =>
      let a := fresh "a" in let w := fresh "w" in let Ha := fresh "Ha" in
      apply bind_Ok in H as (a&w&Ha&H); cbv beta iota in H; try apply try_Ok in Ha
  end.

Section sync.
Context {W : Type} `{LoadBalancers W, IngressClient W, TlsLoader W, MapRange, !KeyRange Z}.
Context (json_groups : list (string * string) → string) (json_backends : gmap string string → option string).
Context (lbc : LoadBalancerController W).
Local Abbreviation c := (lbc_CloudClusterManager lbc).
Local Abbreviation ingresses := (lget (lbc_ingLister lbc)).

Lemma toRuntimeInfo_keeps ings :
  (∀ ing, keeps ingresses (tl_Load ing)) → keeps ingresses (toRuntimeInfo ings).
Proof.
  intros Hload. unfold toRuntimeInfo. induction ings as [|ing ings IH]; [apply keeps_ret|]. simpl.
  apply keeps_bind; [|intros ri; apply keeps_bind; [done|intros ris; apply keeps_ret]].
  apply keeps_bind; [|intros tls; apply keeps_ret]. case_decide; [|apply keeps_ret].
  apply keeps_bind; [apply keeps_try, Hload|intros r; apply keeps_ret].
Qed.

(** What [syncUrlMap] leaves of [syncError]: it is nil only if it was and
    everything succeeded. *)
Lemma syncUrlMap_nil key ing syncError w w' :
  syncUrlMap json_backends lbc key ing syncError w = (Ok None, w') →
  syncError = None ∧ ∃ urlMap l7 w1 w2 w3,
    toURLMap (H := cm_backendPool c) (lbc_Translator lbc) ing w = (Ok urlMap, w1) ∧
    cm_onL7 c key (L7_UpdateUrlMap urlMap) w1 = (Ok tt, w2) ∧
    cm_onL7 c key self w2 = (Ok l7, w3) ∧
    updateIngressStatus json_backends lbc l7 ing w3 = (Ok tt, w').
Proof.
  unfold syncUrlMap. intros Hs. back Hs. destruct a as [err|urlMap]; [done|]. back Hs. destruct a as [err|[]]; [done|].
  back Hs. destruct a0 as [err|[]]; [done|]. injection Hs as -> ->. split; [done|].
  by exists urlMap, a, w0, w1, w2.
Qed.

(** The state in which [sync] has read everything and starts the checkpoint. *)
Definition lbNames w : list string := store_ListKeys (ingresses w).
Definition allPorts w : list ServicePort := toNodePorts (lbc_Translator lbc) w (ingLister_ListAll (ingresses w)).
Definition gcePorts w : list ServicePort := toNodePorts (lbc_Translator lbc) w (ingLister_ListGCEIngresses (ingresses w)).

Lemma lbc_sync_back key w w' :
  lbc_sync json_groups json_backends lbc key w = (Ok tt, w') → ∃ lbs w1 w2 syncError,
    lbc_hasSynced lbc w = true ∧
    toRuntimeInfo (ingLister_ListGCEIngresses (ingresses w)) w = (Ok lbs, w1) ∧
    syncBody json_groups json_backends lbc key (ingresses w1 !! key) lbs
      (getReadyNodeNames (tr_nodeLister (lbc_Translator lbc) w1)) (gcePorts w) (allPorts w) w1 = (Ok (syncError, None), w2) ∧
    cm_GC c (lbNames w) (allPorts w) w2 = (Ok tt, w').
Proof.
  unfold lbc_sync. intros Hs. back Hs. destruct (lbc_hasSynced lbc w) eqn:Hsynced; [|done]. cbv beta iota delta [negb] in Hs.
  back Hs. destruct a0 as [syncError err]. back Hs. destruct a0 as [e|[]]; [done|].
  unfold retErr in Hs. destruct err; [done|]. injection Hs as ->. by exists a, w0, w1, syncError.
Qed.

(** The stages of a sync that succeeds. *)
Lemma sync_stages key ing w w' :
  (∀ i, keeps ingresses (tl_Load i)) →
  ingresses w !! key = Some ing → isGCEMultiClusterIngress ing = false →
  lbc_sync json_groups json_backends lbc key w = (Ok tt, w') →
  ∃ lbs igs e urlMap l7 lb w1 w2 w3 w4 w5 w6 w7 w8,
    toRuntimeInfo (ingLister_ListGCEIngresses (ingresses w)) w = (Ok lbs, w1) ∧
    Checkpoint c lbs (getReadyNodeNames (tr_nodeLister (lbc_Translator lbc) w1)) (gcePorts w) (allPorts w)
      (gatherFirewallPorts (lbc_Translator lbc) w1 (gcePorts w) (bool_decide (0 < length lbs))) w1 = (Ok (igs, e), w2) ∧
    (∀ err, e = Some err → isFirewallSyncError err = true) ∧
    linkNEGs lbc ing w2 = (Ok tt, w3) ∧
    lbp_Get (LoadBalancerPool := cm_l7Pool c) key w3 = (Ok lb, w4) ∧
    toURLMap (H := cm_backendPool c) (lbc_Translator lbc) ing w4 = (Ok urlMap, w5) ∧
    cm_onL7 c key (L7_UpdateUrlMap urlMap) w5 = (Ok tt, w6) ∧
    cm_onL7 c key self w6 = (Ok l7, w7) ∧
    updateIngressStatus json_backends lbc l7 ing w7 = (Ok tt, w8) ∧
    cm_GC c (lbNames w) (allPorts w) w8 = (Ok tt, w').
Proof.
  intros Hload Hing Hmulti (lbs&w1&w2&syncError&_&Hri&Hbody&Hgc)%lbc_sync_back.
  pose proof (toRuntimeInfo_keeps (ingLister_ListGCEIngresses (ingresses w)) Hload w) as Hk. rewrite Hri in Hk. simpl in Hk.
  rewrite Hk, Hing in Hbody. unfold syncBody in Hbody. back Hbody. destruct a as [igs e]. rewrite Hmulti in Hbody.
  back Hbody. destruct a as [err|[]]; [done|]. back Hbody. destruct a as [err|lb]; [done|]. back Hbody.
  injection Hbody as <- -> ->. apply syncUrlMap_nil in Ha2 as (Hnil&urlMap&l7&w6&w7&w8&?&?&?&?).
  exists lbs, igs, e, urlMap, l7, lb, w1, w0, w3, w4, w6, w7, w8, w2. split; [exact Hri|]. split; [exact Ha|]. split; [|done].
  intros err ->. by destruct (isFirewallSyncError err).
Qed.

(** C36. An error of the checkpoint is lost for a multi-cluster ingress: [sync]
    returns nil once the annotation with the instance groups is written, although
    the checkpoint failed with whatever error (and the instance groups it
    annotates may be none), if the deferred garbage collection succeeds, whose
    error would be returned. The task queue then forgets the key instead of trying
    again. *)
Theorem sync_multicluster_swallows key ing w :
  lbc_hasSynced lbc w = true →
  (∀ i w1, ∃ r, tl_Load i w1 = (r, w1) ∧ r ≠ Panic) →
  ingresses w !! key = Some ing → isGCEMultiClusterIngress ing = true →
  (∀ lbs nodeNames gce all fw w1, ∃ igs e w2, Checkpoint c lbs nodeNames gce all fw w1 = (Ok (igs, Some e), w2)) →
  (∀ a w1, ∃ w2, updateAnnotations (ing_Name ing) (ing_Namespace ing) a w1 = (Ok tt, w2)) →
  (∀ names ports w1, ∃ w2, cm_GC c names ports w1 = (Ok tt, w2)) →
  ∃ w', lbc_sync json_groups json_backends lbc key w = (Ok tt, w').
Proof.
  intros Hsynced Hload Hing Hmulti Hcp Hua Hgc.
  assert (∀ ings, ∃ lbs, toRuntimeInfo ings w = (Ok lbs, w)) as Hri.
  { induction ings as [|i ings [lbs IH]]; [by exists []|]. unfold toRuntimeInfo in *. cbn [forCollect].
    assert (∃ tls, (if decide (IngAnnotations_UseNamedTLS (ing_Annotations i) = "") then
             r ← try (tl_Load i); mret (match r with inl _ => None | inr tls => tls end)
           else mret None) w = (Ok tls, w)) as [tls Htls].
    { case_decide; [|by eexists]. destruct (Hload i w) as (r&Hr&Hp). unfold mbind, M_bind, try. rewrite Hr.
      destruct r as [o|e|]; [by exists o|by exists None|done]. }
    eexists. erewrite bind_run; [|erewrite bind_run by exact Htls; reflexivity]. by erewrite bind_run by exact IH. }
  destruct (Hri (ingLister_ListGCEIngresses (ingresses w))) as [lbs Hlbs].
  unfold lbc_sync, syncBody. unfold mbind, M_bind, getW. rewrite Hsynced. simpl. rewrite Hlbs, Hing.
  destruct (Hcp lbs (getReadyNodeNames (tr_nodeLister (lbc_Translator lbc) w)) (gcePorts w) (allPorts w)
    (gatherFirewallPorts (lbc_Translator lbc) w (gcePorts w) (bool_decide (0 < length lbs))) w) as (igs&e&w2&Hc).
  unfold gcePorts, allPorts in Hc. rewrite Hc, Hmulti.
  assert (∃ a w3, annotateGroups json_groups lbc key ing igs w2 = (Ok a, w3)) as (a&w3&Ha).
  { unfold annotateGroups. destruct (decide (ing_Annotations ing = ∅)); eexists _, _; reflexivity. }
  rewrite Ha. destruct (Hua a w3) as [w4 Hw4]. unfold try at 1. rewrite Hw4. simpl.
  destruct (Hgc (store_ListKeys (ingresses w)) (allPorts w) w4) as [w5 Hw5]. unfold allPorts in Hw5.
  unfold try. rewrite Hw5. by exists w5.
Qed.
End sync.

(** ** Examples *)

(** A controller with one ingress over the fake cloud; the pools for the other
    objects accept everything, except that the node pool fails when [quota] is
    used up. *)
Section examples.
Context (quota : bool) (class : string).
#[local] Instance ex_range : MapRange := sortedRange.
#[local] Instance ex_zrange : KeyRange Z := listRange Z.

Definition ex_ing : Ingress := MkIngress "ns" "ing" {[IngressClassKey := class]} None [] [] [].
Definition ex_um : UrlMap := MkUrlMap "um" "" "" [] [].
Definition ex_be : BackendService := MkBackendService "be" "" ProtocolHTTP [] 30000 "" [] "link".
Definition ex_l7 : L7 := MkL7 "lb" (MkL7RuntimeInfo "ns/ing" "" None "" true "") (Some ex_um) None None None None None None None
  (Some ex_be) (NewNamer "uid1" "").
Definition ex_cluster : ClusterManager FakeLoadBalancers := MkClusterManager (NewNamer "uid1" "")
  (MkServicePort 30000 ProtocolHTTP (MkNamespacedName "kube-system" "default") (FromInt 80) "8080" false)
  {| nop_EnsureInstanceGroupsAndPorts := λ _ _, if quota then throw FakeGoogleAPIForbiddenErr else mret [];
     nop_DeleteInstanceGroup := λ _, mret tt; nop_Add := λ _ _, mret tt; nop_Remove := λ _ _, mret tt;
     nop_Sync := λ _, mret tt; nop_Get := λ _ _, throw FakeGoogleAPINotFoundErr |}
  {| bkp_Ensure := λ _ _, mret tt; bkp_Get := λ _, mret ex_be; bkp_Delete := λ _, mret tt; bkp_GC := λ _, mret tt;
     bkp_Shutdown := mret tt; bkp_Status := λ _, mret ""; bkp_List := mret []; bkp_Link := λ _ _, mret tt |}
  {| lbp_Get := λ _, mret ex_l7; lbp_Add := λ _, mret tt; lbp_Delete := λ _, mret tt; lbp_Sync := λ _, mret tt;
     lbp_GC := λ _, mret tt; lbp_Shutdown := mret tt |}
  (λ A _ m w, let '(r, (_, w')) := m (ex_l7, w) in (r, w'))
  {| fwp_Sync := λ _ _, mret tt; fwp_Shutdown := mret tt |}.
Definition ex_lbc : LoadBalancerController FakeLoadBalancers := MkController
  (Lens (λ _, {["ns/ing" := ex_ing]}) (λ _ w, w))
  (MkTranslator (λ _, ∅) (λ _, ∅) (λ _, ∅) (λ _, ∅) false (λ _, (∅, None)) (cm_defaultBackendNodePort ex_cluster))
  ex_cluster (Lens (λ _, NewTaskQueue) (λ _ w, w)) (Lens (λ _, NewTaskQueue) (λ _ w, w)) (Lens (λ _, false) (λ _ w, w))
  (λ _, true) false.
#[local] Instance ex_client : IngressClient FakeLoadBalancers :=
  {| igc_Get := λ _ _, mret ex_ing; igc_UpdateStatus := λ _, mret tt; igc_Update := λ _, mret tt |}.
#[local] Instance ex_loader : TlsLoader FakeLoadBalancers := {| tl_Load := λ _, mret None |}.
Definition ex_cloud : FakeLoadBalancers := (FakeLB_CreateUrlMap ex_um (NewFakeLoadBalancers "lb")).2.
End examples.

Lemma sync_multicluster_swallows_witness :
  let R := ex_range in let Z := ex_zrange in let C := ex_client "gce-multi-cluster" in let T := ex_loader in
  ∃ w', lbc_sync (λ _, "") (λ _, None) (ex_lbc true "gce-multi-cluster") "ns/ing" ex_cloud = (Ok tt, w').
Proof.
  intros R Z C T.
  apply (sync_multicluster_swallows (λ _, "") (λ _, None) (ex_lbc true "gce-multi-cluster") "ns/ing" (ex_ing "gce-multi-cluster") ex_cloud).
  - reflexivity.
  - intros i w. by exists (Ok None).
  - reflexivity.
  - by vm_compute.
  - intros. eexists _, _, _. reflexivity.
  - intros a w. exists w. unfold updateAnnotations, mbind, M_bind. simpl. by case_decide.
  - intros names ports w. exists w. unfold cm_GC, mbind, M_bind. simpl. by case_decide.
Defined.
