(* ===== verification/NegSyncer.v ===== *)
(** * NegSyncer: pkg/networkendpointgroup/{syncer,interfaces}.go

    One syncer keeps the network endpoint groups of a service port (one per
    zone) equal to the endpoints of the service. This file has the syncer's
    work; [NegSyncerSM] has its goroutine and [NegSyncerSpec] the theorems.
    Events sent to the recorder are left out. *)

From S2P Require Import Prelude GoLang GoStrings Compute Utils Instances.

Definition MAX_NETWORK_ENDPOINTS_PER_BATCH : nat := 500.
Definition NEGLoadBalancerType : string := "LOAD_BALANCING".
Definition NEGIPPortNetworkEndpointType : string := "GCE_VM_IP_PORT".

Record servicePort := MkServicePort {
  svp_namespace : string;
  svp_name : string;
  svp_targetPort : string;
}.
Global Instance servicePort_eq_dec : EqDecision servicePort.
Proof. solve_decision. Defined.
Global Instance servicePort_countable : Countable servicePort.
Proof.
  refine (inj_countable' (λ s, (svp_namespace s, svp_name s, svp_targetPort s))
    (λ '(a, b, c), MkServicePort a b c) _). by intros [].
Defined.

(** ** Interfaces *)

(** [networkEndpointGroupCloud]: the network of the cluster does not change. A
    group's load balancer field is never nil. *)
Class NEGCloud (W : Type) := {
  negc_Get : string → string → M W NetworkEndpointGroup;
  negc_List : string → M W (list NetworkEndpointGroup);
  negc_AggregatedList : M W (gmap string (list NetworkEndpointGroup));
  negc_Create : NetworkEndpointGroup → string → M W unit;
  negc_Delete : string → string → M W unit;
  negc_Attach : string → string → list NetworkEndpoint → M W unit;
  negc_Detach : string → string → list NetworkEndpoint → M W unit;
  negc_ListEndpoints : string → string → bool → M W (list NetworkEndpoint);
  negc_NetworkURL : string;
  negc_SubnetworkURL : string;
}.

(** [sets.String.PopAny] takes the element Go's map iteration comes to first;
    which one that is, is a parameter. *)
Class PopAny := {
  pick : gset string → option string;
  pick_None s : pick s = None ↔ s = ∅;
  pick_Some s x : pick s = Some x → x ∈ s;
}.
(** Goroutines run in any order. *)
Class Schedule := {
  schedule : ∀ {A : Type}, list A → list A;
  schedule_perm : ∀ {A} (l : list A), schedule l ≡ₚ l;
}.

(** ** Endpoints *)

(** [v1.Endpoints]; a node name can be nil. *)
Record EndpointAddress := MkEndpointAddress { ea_IP : string; ea_NodeName : option string }.
Record EndpointPort := MkEndpointPort { ep_Name : string; ep_Port : Z }.
Record EndpointSubset := MkEndpointSubset {
  es_Addresses : list EndpointAddress;
  es_Ports : list EndpointPort;
}.
Abbreviation Endpoints := (list EndpointSubset).

Definition encodeEndpoint (ip instance port : string) : string :=
  ip +:+ "||" +:+ instance +:+ "||" +:+ port.
(** [None] is an index out of range. *)
Definition decodeEndpoint (str : string) : option (string * string * string) :=
  match Split str "||" with
  | ip :: instance :: port :: _ => Some (ip, instance, port)
  | _ => None
  end.
(** [strs[len(strs)-1]] of a split that is never empty. *)
Definition retrieveName (url : string) : string := last_component url.

(** The first result of [strconv.Atoi]: 0 for what is not a number, and the
    nearest int for a number that does not fit. *)
Definition Atoi_value (s : string) : Z :=
  match (match s with
         | String "+" s' => parse_digits s'
         | String "-" s' => Z.opp <$> parse_digits s'
         | _ => parse_digits s
         end) with
  | Some v => Z.max (- 2 ^ 63) (Z.min v (2 ^ 63 - 1))
  | None => 0
  end.

(** The loop over the ports of a subset. *)
Fixpoint matchPort (targetPortName : string) (targetPort : Z) (ports : list EndpointPort) : string :=
  match ports with
  | [] => ""
  | port :: ports =>
      let matched :=
        if decide (targetPort ≠ 0%Z)
        then (if decide (ep_Port port = targetPort) then targetPortName else "")
        else (if decide (ep_Name port = targetPortName) then Itoa (ep_Port port) else "") in
      if decide (0 < String.length matched) then matched else matchPort targetPortName targetPort ports
  end.

(** Zones and the encoded endpoints in each. *)
Abbreviation ZoneMap := (gmap string (gset string)).

Definition calculateDifference `{MapRange} (targetMap currentMap : ZoneMap) : ZoneMap * ZoneMap :=
  let diffs := λ a b : ZoneMap,
    foldl (λ (acc : ZoneMap) '(zone, endpointSet),
      let diff := endpointSet ∖ default ∅ (b !! zone) in
      if decide (0 < size diff) then <[zone := diff]> acc else acc) ∅ (range a) in
  (diffs targetMap currentMap, diffs currentMap targetMap).

(** ** Batches *)

(** [PopAny] called [n] times; when the set runs out the rest of the list stays
    empty strings. *)
Fixpoint popN `{PopAny} (n : nat) (endpoints : gset string) : list string * gset string :=
  match n with
  | O => ([], endpoints)
  | S n' =>
      match pick endpoints with
      | None => (replicate (S n') "", endpoints)
      | Some x => let '(l, rest) := popN n' (endpoints ∖ {[x]}) in (x :: l, rest)
      end
  end.
(** The translation of a list of encoded endpoints: the error of [Atoi], or the
    panic of [decodeEndpoint]. *)
Fixpoint decodeAll (l : list string) : outcome (list NetworkEndpoint) :=
  match l with
  | [] => Ok []
  | enc :: l =>
      match decodeEndpoint enc with
      | None => Panic
      | Some (ip, instance, port) =>
          match Atoi port with
          | None => Err (Errorf "Failed to decode endpoint %q: %v" [enc] [Errorf "Atoi" [port] []])
          | Some portNum =>
              match decodeAll l with
              | Ok nes => Ok (MkNetworkEndpoint instance ip portNum :: nes)
              | Err e => Err e
              | Panic => Panic
              end
          end
      end
  end.
(** The batch, and the set [PopAny] left. *)
Definition toNetworkEndpointBatch `{PopAny} (endpoints : gset string) :
    outcome (list NetworkEndpoint) * gset string :=
  let '(l, rest) := popN (Nat.min (size endpoints) MAX_NETWORK_ENDPOINTS_PER_BATCH) endpoints in
  (decodeAll l, rest).

(** An attach or detach call of a goroutine. *)
Inductive negOp :=
  | Attach (zone : string) (endpoints : list NetworkEndpoint)
  | Detach (zone : string) (endpoints : list NetworkEndpoint).

(** The inner loop of a zone: the batches handed to goroutines, and how the loop
    ended. Each turn takes at least one element, so [fuel] of the size of the
    set is enough ([batches_spec]); running out of it is a panic here. *)
Fixpoint batches `{PopAny} (fuel : nat) (op : list NetworkEndpoint → negOp) (endpoints : gset string) :
    list negOp * outcome unit :=
  if decide (size endpoints = 0) then ([], Ok tt) else
  match fuel with
  | O => ([], Panic)
  | S fuel =>
      match toNetworkEndpointBatch endpoints with
      | (Ok nes, rest) => let '(ops, r) := batches fuel op rest in (op nes :: ops, r)
      | (Err e, _) => ([], Err e)
      | (Panic, _) => ([], Panic)
      end
  end.
(** The loop over the zones. *)
Fixpoint zoneBatches `{PopAny} (op : string → list NetworkEndpoint → negOp)
    (l : list (string * gset string)) : list negOp * outcome unit :=
  match l with
  | [] => ([], Ok tt)
  | (zone, endpointSet) :: l =>
      match batches (size endpointSet) (op zone) endpointSet with
      | (ops, Ok _) => let '(ops', r) := zoneBatches op l in (ops ++ ops', r)
      | (ops, Err e) => (ops, Err e)
      | (ops, Panic) => (ops, Panic)
      end
  end.

(** ** The syncer *)

(** The constant fields of [syncer]. [endpointLister] answers an error, or the
    endpoints of the service if it has some. *)
Record syncer (W : Type) := MkSyncer {
  sy_servicePort : servicePort;
  sy_negName : string;
  sy_endpointLister : string → string → M W (option Endpoints);
}.
Arguments MkSyncer {W} _ _ _.
Arguments sy_servicePort {W} _.
Arguments sy_negName {W} _.
Arguments sy_endpointLister {W} _.

(** [utilerrors.NewAggregate], returned. *)
Definition retAggregate {W} (errs : list error) : M W unit :=
  if decide (errs = []) then mret tt else throw (Aggregate errs).

Section syncer.
Context {W : Type} `{NEGCloud W, ZoneLister W, MapRange, PopAny, Schedule}.
Implicit Types s : syncer W.

Definition newNEG s : NetworkEndpointGroup :=
  MkNetworkEndpointGroup (sy_negName s) NEGLoadBalancerType NEGIPPortNetworkEndpointType
    negc_NetworkURL negc_SubnetworkURL "".
Definition sameNetwork (neg : NetworkEndpointGroup) : bool :=
  bool_decide (retrieveName (neg_Network neg) = retrieveName negc_NetworkURL) &&
  bool_decide (retrieveName (neg_Subnetwork neg) = retrieveName negc_SubnetworkURL).

(** The body of the loop over the zones: the errors it appends. *)
Definition syncer_ensureZone s (zone : string) : M W (list error) :=
  neg ← try (negc_Get (sy_negName s) zone);
  '(needToCreate, errs) ← match neg with
    | inl _ => mret (true, [])
    | inr neg =>
        if sameNetwork neg then mret (false, []) else
        r ← try (negc_Delete (sy_negName s) zone);
        mret (true, match r with inl err => [err] | inr _ => [] end)
    end;
  if needToCreate : bool then
    r ← try (negc_Create (newNEG s) zone);
    mret (errs ++ match r with inl err => [err] | inr _ => [] end)
  else mret errs.
Definition syncer_ensureNetworkEndpointGroups s : M W unit :=
  zones ← zl_ListZones;
  errs ← forCollect (syncer_ensureZone s) zones;
  retAggregate (concat errs).

(** The addresses of a subset, whose port is known. *)
Fixpoint addAddresses (port : string) (addresses : list EndpointAddress) (m : ZoneMap) : M W ZoneMap :=
  match addresses with
  | [] => mret m
  | address :: addresses =>
      node ← ofOption (ea_NodeName address);
      zone ← zl_GetZoneForNode node;
      addAddresses port addresses
        (<[zone := {[encodeEndpoint (ea_IP address) node port]} ∪ default ∅ (m !! zone)]> m)
  end.
Fixpoint addSubsets (targetPortName : string) (subsets : Endpoints) (m : ZoneMap) : M W ZoneMap :=
  match subsets with
  | [] => mret m
  | subset :: subsets =>
      let port := matchPort targetPortName (Atoi_value targetPortName) (es_Ports subset) in
      m ← (if decide (String.length port = 0) then mret m else addAddresses port (es_Addresses subset) m);
      addSubsets targetPortName subsets m
  end.
Definition syncer_toZoneNetworkEndpointMap s (endpoints : Endpoints) : M W ZoneMap :=
  addSubsets (svp_targetPort (sy_servicePort s)) endpoints ∅.

Definition encodeNE (ne : NetworkEndpoint) : string :=
  encodeEndpoint (ne_IpAddress ne) (ne_Instance ne) (Itoa (ne_Port ne)).
Fixpoint retrieveZones s (zones : list string) (m : ZoneMap) : M W ZoneMap :=
  match zones with
  | [] => mret m
  | zone :: zones =>
      nes ← negc_ListEndpoints (sy_negName s) zone false;
      retrieveZones s zones (<[zone := list_to_set (encodeNE <$> nes)]> m)
  end.
Definition syncer_retrieveExistingZoneNetworkEndpointMap s : M W ZoneMap :=
  zones ← zl_ListZones;
  retrieveZones s zones ∅.

Definition syncer_operationInternal s (op : negOp) : M W unit :=
  match op with
  | Attach zone nes => negc_Attach (sy_negName s) zone nes
  | Detach zone nes => negc_Detach (sy_negName s) zone nes
  end.
(** The goroutines only touch the cloud and the loops only the sets, so the
    loops run first. Those that were started run even when the function returns
    the error of a batch. *)
Definition syncer_syncNetworkEndpoints s (addEndpoints removeEndpoints : ZoneMap) : M W unit :=
  let '(ops, r) :=
    match zoneBatches Detach (range removeEndpoints) with
    | (ops, Ok _) => let '(ops', r) := zoneBatches Attach (range addEndpoints) in (ops ++ ops', r)
    | ops_r => ops_r
    end in
  errList ← forErrs (syncer_operationInternal s) (schedule ops);
  match r with
  | Ok _ => retAggregate errList
  | Err e => throw e
  | Panic => panic
  end.

(** [active] is what [IsStopped] and [IsShuttingDown] tell at the start. *)
Definition syncer_sync s (active : bool) : M W unit :=
  if negb active then mret tt else
  ep ← sy_endpointLister s (svp_namespace (sy_servicePort s)) (svp_name (sy_servicePort s));
  match ep with
  | None => mret tt
  | Some ep =>
      _ ← syncer_ensureNetworkEndpointGroups s;
      targetMap ← syncer_toZoneNetworkEndpointMap s ep;
      currentMap ← syncer_retrieveExistingZoneNetworkEndpointMap s;
      let '(addEndpoints, removeEndpoints) := calculateDifference targetMap currentMap in
      if decide (size addEndpoints = 0 ∧ size removeEndpoints = 0) then mret tt
      else syncer_syncNetworkEndpoints s addEndpoints removeEndpoints
  end.

End syncer.
