(* ===== verification/NegSyncerSM.v ===== *)
(** * NegSyncerSM: the goroutine of a syncer, pkg/networkendpointgroup/syncer.go

    A syncer is driven from two sides: the manager calls [Start], [Stop] and
    [Sync], and the goroutine of [Start] runs [sync] in a loop. They share the
    fields below and the channel [syncCh]. The model is a step relation on the
    shared state, the position of the caller and the positions of the
    goroutines; each step is one access to the shared state. The manager calls
    every method of a syncer under its mutex, so there is one caller.

    Work of [sync] past its two tests is one step with any result: [NegSyncer]
    models what it does to the cloud, and it touches none of these fields. *)

From S2P Require Import Prelude GoLang GoStrings Utils NegSyncer.

Definition maxRetries : Z := 15.

(** [time.Duration] is an int64 of nanoseconds. *)
Definition wrap64 (z : Z) : Z := ((z + 2 ^ 63) mod 2 ^ 64 - 2 ^ 63)%Z.
Definition Second : Z := 1000000000.
Definition minRetryDelay : Z := 5 * Second.
Definition maxRetryDelay : Z := 300 * Second.

(** ** The fields *)

(** A channel with one place: whether it holds an element, and is closed. *)
Record chan1 := MkChan { ch_token : bool; ch_closed : bool }.

Record syncerState := MkSyncerState {
  ss_stopped : bool;
  ss_shuttingDown : bool;
  ss_syncCh : option chan1; (* nil until [init] *)
  ss_lastRetryDelay : Z;
  ss_retryCount : Z;
}.
Definition set_shuttingDown (b : bool) (s : syncerState) : syncerState :=
  MkSyncerState (ss_stopped s) b (ss_syncCh s) (ss_lastRetryDelay s) (ss_retryCount s).
Definition set_syncCh (ch : option chan1) (s : syncerState) : syncerState :=
  MkSyncerState (ss_stopped s) (ss_shuttingDown s) ch (ss_lastRetryDelay s) (ss_retryCount s).
Definition set_retry (delay count : Z) (s : syncerState) : syncerState :=
  MkSyncerState (ss_stopped s) (ss_shuttingDown s) (ss_syncCh s) delay count.

Definition newSyncer : syncerState := MkSyncerState true false None 0 0.

Definition syncer_init (s : syncerState) : syncerState :=
  MkSyncerState false (ss_shuttingDown s) (Some (MkChan false false)) (ss_lastRetryDelay s) (ss_retryCount s).
Definition syncer_IsStopped (s : syncerState) : bool := ss_stopped s.
Definition syncer_IsShuttingDown (s : syncerState) : bool := ss_shuttingDown s.

(** [close] of a channel that is nil or closed panics: [None]. *)
Definition closeCh (ch : option chan1) : option chan1 :=
  match ch with
  | Some (MkChan token false) => Some (MkChan token true)
  | _ => None
  end.
(** A send in a [select] with a default: a nil channel is never ready, a closed
    one panics ([None]), a full one takes the default. *)
Definition sendCh (ch : option chan1) : option (option chan1 * bool) :=
  match ch with
  | None => Some (None, false)
  | Some (MkChan _ true) => None
  | Some (MkChan true false) => Some (ch, false)
  | Some (MkChan false false) => Some (Some (MkChan true false), true)
  end.

Definition syncer_Stop (s : syncerState) : option syncerState :=
  if negb (ss_stopped s) then
    ch ← closeCh (ss_syncCh s);
    Some (MkSyncerState true true (Some ch) (ss_lastRetryDelay s) (ss_retryCount s))
  else Some s.

Definition syncer_nextRetryDelay (s : syncerState) : Z * syncerState :=
  let d := wrap64 (ss_lastRetryDelay s * 2) in
  let d := if decide (d < minRetryDelay)%Z then minRetryDelay
           else if decide (maxRetryDelay < d)%Z then maxRetryDelay else d in
  (d, set_retry d (wrap64 (ss_retryCount s + 1)) s).
Definition syncer_resetRetryDelay (s : syncerState) : syncerState := set_retry 0 0 s.

(** The end of a turn of the loop: what becomes of [retryCh]. *)
Definition syncer_afterSync (failed : bool) (s : syncerState) : option Z * syncerState :=
  if failed then
    if decide (maxRetries < ss_retryCount s)%Z then (None, s)
    else let '(d, s) := syncer_nextRetryDelay s in (Some d, s)
  else (None, syncer_resetRetryDelay s).

(** ** Positions *)

(** The caller: outside; in [Start] after [IsStopped], after [IsShuttingDown],
    after [init]; in [Sync] after [IsStopped]. *)
Inductive caller := Idle | Starting1 | Starting2 | Starting3 | Syncing.
(** A goroutine: at the call of [sync]; between its two tests; past them; in the
    [select], with the timer of [retryCh] if there is one. *)
Inductive routine := AtSync | AtSync2 | Working | Waiting (retryCh : option Z).

Record system := MkSystem {
  sm_state : syncerState;
  sm_caller : caller;
  sm_routines : list routine;
}.
Definition start_system : system := MkSystem newSyncer Idle [].

(** The accesses of the caller, and of the goroutine at an index. *)
Inductive access :=
  | CallStart | TestShuttingDown | CallInit | GoRoutine
  | CallStop | CallSync | CallSend
  | RunTest (i : nat) | RunWork (i : nat) (failed : bool) | RunReceive (i : nat) | RunTimer (i : nat).

(** What an access does: it may not be possible here, or crash the process. *)
Inductive effect := Disabled | Crash | Next (y : system).
Definition orCrash {A} (o : option A) (f : A → effect) : effect :=
  match o with Some a => f a | None => Crash end.

(** One access of a goroutine at the given position: its new position, or
    [None] when it has returned. *)
Definition routine_access (a : access) (r : routine) (s : syncerState) : option (option routine * syncerState) :=
  let afterSync failed := let '(retryCh, s) := syncer_afterSync failed s in Some (Some (Waiting retryCh), s) in
  match a, r with
  | RunTest _, AtSync => if ss_stopped s then afterSync false else Some (Some AtSync2, s)
  | RunTest _, AtSync2 => if ss_shuttingDown s then afterSync false else Some (Some Working, s)
  | RunWork _ failed, Working => afterSync failed
  | RunReceive _, Waiting _ =>
      match ss_syncCh s with
      | Some (MkChan true closed) => Some (Some AtSync, set_syncCh (Some (MkChan false closed)) s)
      | Some (MkChan false true) => Some (None, set_shuttingDown false s)
      | _ => None
      end
  | RunTimer _, Waiting (Some _) => Some (Some AtSync, s)
  | _, _ => None
  end.

Definition access_index (a : access) : option nat :=
  match a with
  | RunTest i | RunWork i _ | RunReceive i | RunTimer i => Some i
  | _ => None
  end.
Definition set_routine (i : nat) (r : option routine) (l : list routine) : list routine :=
  take i l ++ option_list r ++ drop (S i) l.

Definition access_effect (a : access) (y : system) : effect :=
  let s := sm_state y in
  let go c s := Next (MkSystem s c (sm_routines y)) in
  match access_index a with
  | Some i =>
      match r ← sm_routines y !! i; routine_access a r s with
      | Some (r, s) => Next (MkSystem s (sm_caller y) (set_routine i r (sm_routines y)))
      | None => Disabled
      end
  | None =>
      match a, sm_caller y with
      | CallStart, Idle => if negb (syncer_IsStopped s) then go Idle s else go Starting1 s
      | TestShuttingDown, Starting1 => if syncer_IsShuttingDown s then go Idle s else go Starting2 s
      | CallInit, Starting2 => go Starting3 (syncer_init s)
      | GoRoutine, Starting3 => Next (MkSystem s Idle (AtSync :: sm_routines y))
      | CallStop, Idle => orCrash (syncer_Stop s) (go Idle)
      | CallSync, Idle => if syncer_IsStopped s then go Idle s else go Syncing s
      | CallSend, Syncing => orCrash (sendCh (ss_syncCh s)) (λ r, go Idle (set_syncCh r.1 s))
      | _, _ => Disabled
      end
  end.

Inductive reachable : system → Prop :=
  | reachable_start : reachable start_system
  | reachable_step a y y' : reachable y → access_effect a y = Next y' → reachable y'.

(** ** The invariant *)

(** The delay after [n] failures in a row: 5 s, doubled up to 300 s. *)
Definition retryDelay (n : Z) : Z :=
  if decide (n = 0)%Z then 0 else Z.min (minRetryDelay * 2 ^ (n - 1)) maxRetryDelay.
Definition retry_inv (s : syncerState) : Prop :=
  (0 ≤ ss_retryCount s ≤ maxRetries + 1)%Z ∧ ss_lastRetryDelay s = retryDelay (ss_retryCount s).

Definition has_token (s : syncerState) : bool :=
  match ss_syncCh s with Some ch => ch_token ch | None => false end.

(** Which goroutines there are, by the flags and the caller's position. *)
Definition lifecycle (y : system) : Prop :=
  let s := sm_state y in
  match ss_stopped s, ss_shuttingDown s with
  | false, false =>
      (∃ token, ss_syncCh s = Some (MkChan token false)) ∧
      match sm_caller y with
      | Idle | Syncing => ∃ r, sm_routines y = [r]
      | Starting3 => sm_routines y = []
      | _ => False
      end
  | true, true =>
      (∃ token, ss_syncCh s = Some (MkChan token true)) ∧ (∃ r, sm_routines y = [r]) ∧
      (sm_caller y = Idle ∨ sm_caller y = Starting1)
  | true, false =>
      sm_routines y = [] ∧ has_token s = false ∧
      (sm_caller y = Idle ∨ sm_caller y = Starting1 ∨ sm_caller y = Starting2)
  | false, true => False
  end.
Definition waits_ok (y : system) : Prop :=
  ∀ d, Waiting (Some d) ∈ sm_routines y → (minRetryDelay ≤ d ≤ maxRetryDelay)%Z.
Definition sm_inv (y : system) : Prop := retry_inv (sm_state y) ∧ lifecycle y ∧ waits_ok y.

(** The delay [nextRetryDelay] computes from the last one. *)
Definition stepDelay (d : Z) : Z :=
  let d := wrap64 (d * 2) in
  if decide (d < minRetryDelay)%Z then minRetryDelay
  else if decide (maxRetryDelay < d)%Z then maxRetryDelay else d.

(** No doubling before the bound overflows, so the closed form holds. *)
Lemma stepDelay_ok n : (0 ≤ n ≤ maxRetries)%Z →
  stepDelay (retryDelay n) = retryDelay (n + 1) ∧ wrap64 (n + 1) = (n + 1)%Z ∧
  (minRetryDelay ≤ retryDelay (n + 1) ≤ maxRetryDelay)%Z.
Proof.
  intros Hn. assert (n ∈ seqZ 0 16) as Hin by (apply elem_of_seqZ; unfold maxRetries in Hn; lia).
  clear Hn. revert n Hin. apply Forall_forall.
  apply (bool_decide_unpack _). vm_compute. exact I.
Qed.

Lemma nextRetryDelay_ok s d s' :
  retry_inv s → (ss_retryCount s ≤ maxRetries)%Z → syncer_nextRetryDelay s = (d, s') →
  s' = set_retry d (ss_retryCount s + 1) s ∧ retry_inv s' ∧ (minRetryDelay ≤ d ≤ maxRetryDelay)%Z.
Proof.
  intros [Hc Hd] Hle [= <- <-]. fold (stepDelay (ss_lastRetryDelay s)). rewrite Hd.
  destruct (stepDelay_ok (ss_retryCount s)) as (Hs&Hw&Hb); [lia|]. rewrite Hs, Hw.
  split; [done|]. split; [|done]. split; simpl; [lia|done].
Qed.

(** What the end of a turn leaves of the fields. *)
Lemma afterSync_ok failed s retryCh s' :
  retry_inv s → syncer_afterSync failed s = (retryCh, s') →
  retry_inv s' ∧ (∀ d, retryCh = Some d → (minRetryDelay ≤ d ≤ maxRetryDelay)%Z) ∧
  ∃ d c, s' = set_retry d c s.
Proof.
  intros Hr. unfold syncer_afterSync. destruct failed.
  - case_decide; [intros [= <- <-]; split; [done|]; split; [done|]; by exists (ss_lastRetryDelay s), (ss_retryCount s); destruct s|].
    destruct (syncer_nextRetryDelay s) as [d s1] eqn:Hn. intros [= <- <-].
    destruct (nextRetryDelay_ok s d s1) as (Hs&?&?); [done|lia|done|].
    split; [done|]. split; [by intros ? [= <-]|]. eauto.
  - intros [= <- <-]. split; [by split; simpl; unfold maxRetries; [lia|]|]. split; [done|]. by eexists _, _.
Qed.

(** One access of a goroutine: either it goes on, and the flags and whether the
    channel is closed stay, or it found the channel closed and is gone. *)
Definition same_flags (s s' : syncerState) : Prop :=
  ss_stopped s' = ss_stopped s ∧ ss_shuttingDown s' = ss_shuttingDown s ∧
  ∀ token closed, ss_syncCh s = Some (MkChan token closed) → ∃ token', ss_syncCh s' = Some (MkChan token' closed).
Definition routine_after (s : syncerState) (r' : option routine) (s' : syncerState) : Prop :=
  retry_inv s' ∧
  match r' with
  | Some r' => same_flags s s' ∧ ∀ d, r' = Waiting (Some d) → (minRetryDelay ≤ d ≤ maxRetryDelay)%Z
  | None => ss_syncCh s = Some (MkChan false true) ∧ s' = set_shuttingDown false s
  end.
Lemma same_flags_refl s : same_flags s s.
Proof. split_and!; eauto. Qed.
Lemma routine_access_ok a r s r' s' :
  retry_inv s → routine_access a r s = Some (r', s') → routine_after s r' s'.
Proof.
  intros Hr. assert (∀ failed retryCh s', syncer_afterSync failed s = (retryCh, s') →
    routine_after s (Some (Waiting retryCh)) s') as Hafter.
  { intros failed retryCh s1 (?&Hd&d&c&->)%afterSync_ok; [|done].
    split; [done|]. split; [by split_and!; eauto|]. intros d' [= ->]. auto. }
  pose proof (same_flags_refl s). destruct a; simpl; try done; destruct r; try done.
  - destruct (ss_stopped s); intros [= <- <-]; [by apply (Hafter false)|by split].
  - destruct (ss_shuttingDown s); intros [= <- <-]; [by apply (Hafter false)|by split].
  - destruct (syncer_afterSync failed s) as [retryCh s1] eqn:Ha. intros [= <- <-]. by eapply Hafter.
  - destruct (ss_syncCh s) as [[[] closed]|] eqn:Hch; try done.
    + intros [= <- <-]. split; [done|]. split; [|done]. split_and!; [done|done|].
      rewrite Hch. intros ?? [= <- <-]. eauto.
    + destruct closed; [|done]. by intros [= <- <-].
  - destruct retryCh; [|done]. by intros [= <- <-].
Qed.

Lemma inv_start : sm_inv start_system.
Proof. split; [by split; simpl; unfold maxRetries; [lia|]|]. split; [by split_and!; [| |left]|]. intros d []%elem_of_nil. Qed.

Lemma inv_routine a i y y' :
  sm_inv y → access_index a = Some i → access_effect a y = Next y' → sm_inv y'.
Proof.
  intros (Hr&Hl&Hw) Hi. unfold access_effect. rewrite Hi.
  destruct (sm_routines y !! i) as [r|] eqn:Hri; [|done]. simpl.
  destruct (routine_access a r (sm_state y)) as [[r' s']|] eqn:Ha; [|done]. intros [= <-].
  apply routine_access_ok in Ha as [Hr' Ha]; [|done]. split; [done|].
  unfold lifecycle in Hl. destruct (ss_stopped (sm_state y)) eqn:Hst, (ss_shuttingDown (sm_state y)) eqn:Hsh.
  - destruct Hl as ((token&Hch)&(r0&Hrs)&Hc). rewrite Hrs in Hri. destruct i; [|by destruct i].
    unfold lifecycle, waits_ok. simpl. rewrite Hrs. destruct r' as [r'|].
    + destruct Ha as [(->&->&Hch') Hd]. rewrite Hst, Hsh. split; [split_and!; eauto|].
      intros d <-%list_elem_of_singleton. auto.
    + destruct Ha as [Htok ->]. simpl. rewrite Hst. split; [|intros d []%elem_of_nil].
      split_and!; [done|by unfold has_token; simpl; rewrite Htok|tauto].
  - by destruct Hl as [Hrs _]; rewrite Hrs in Hri.
  - done.
  - destruct Hl as [[token Hch] Hc].
    assert (sm_routines y = [r] ∧ i = 0 ∧ (sm_caller y = Idle ∨ sm_caller y = Syncing)) as (Hrs&->&Hcaller).
    { destruct (sm_caller y); try done; try (by rewrite Hc in Hri).
      all: destruct Hc as [? Hrs]; rewrite Hrs in Hri |- *; destruct i; [|by destruct i]; simplify_eq/=; by auto. }
    unfold lifecycle, waits_ok. simpl. rewrite Hrs. destruct r' as [r'|]; [|by destruct Ha; simplify_eq].
    destruct Ha as [(->&->&Hch') Hd]. rewrite Hst, Hsh. split.
    + split; [by eauto|]. destruct Hcaller as [-> | ->]; by eexists.
    + intros d <-%list_elem_of_singleton. auto.
Qed.

Lemma inv_caller a y :
  sm_inv y → access_index a = None →
  match access_effect a y with Next y' => sm_inv y' | Crash => False | Disabled => True end.
Proof.
  intros (Hr&Hl&Hw) Hi. unfold access_effect. rewrite Hi. destruct y as [[stopped shut ch delay count] c rs].
  unfold sm_inv, lifecycle, waits_ok, retry_inv in *. simpl in *.
  destruct a, c; simpl; try done; destruct stopped, shut; simpl in *; destr_ex; subst; simpl; try done;
    repeat match goal with H : _ ∨ _ |- _ => destruct H; try discriminate end; try (split_and!; eauto; tauto).
  - split_and!; eauto. intros d [=]%list_elem_of_singleton.
  - match goal with |- context [orCrash (if ?t then _ else _)] => destruct t end; simpl; split_and!; eauto.
Qed.

Lemma inv_step a y y' : sm_inv y → access_effect a y = Next y' → sm_inv y'.
Proof.
  intros Hy Ha. destruct (access_index a) eqn:Hi; [by eapply inv_routine|].
  pose proof (inv_caller a y Hy Hi) as Hc. by rewrite Ha in Hc.
Qed.
Lemma inv_reachable y : reachable y → sm_inv y.
Proof. induction 1; [apply inv_start|eauto using inv_step]. Qed.
Lemma no_crash a y : sm_inv y → access_effect a y ≠ Crash.
Proof.
  intros Hy Ha. destruct (access_index a) eqn:Hi; [|by pose proof (inv_caller a y Hy Hi) as Hc; rewrite Ha in Hc].
  unfold access_effect in Ha. rewrite Hi in Ha. by destruct (_ ≫= _) as [[]|].
Qed.

Lemma one_goroutine y : sm_inv y → length (sm_routines y) ≤ 1.
Proof.
  intros (_&Hl&_). unfold lifecycle in Hl.
  destruct (ss_stopped _), (ss_shuttingDown _), (sm_caller y); destr_ex; try done;
    match goal with H : sm_routines y = _ |- _ => rewrite H end; simpl; lia.
Qed.

(** C15. The life cycle of a syncer, in every interleaving of one caller with the
    goroutines: no access crashes the process (no send on and no close of a
    closed channel, although [Sync] tests [IsStopped] before it sends); there is
    at most one goroutine, and exactly one while the syncer is shutting down;
    the flag [shuttingDown] falls only when it has returned, and [Start] is
    refused until then. The retry delay is 5 s doubled with each failure up to
    300 s, without overflow, and after the sixteenth failure there is none. *)
Theorem syncer_lifecycle y :
  reachable y →
  (∀ a, access_effect a y ≠ Crash) ∧
  length (sm_routines y) ≤ 1 ∧
  (ss_shuttingDown (sm_state y) = true → ss_stopped (sm_state y) = true ∧ length (sm_routines y) = 1) ∧
  (ss_stopped (sm_state y) = true → ss_shuttingDown (sm_state y) = false → sm_routines y = []) ∧
  (0 ≤ ss_retryCount (sm_state y) ≤ 16)%Z ∧
  ss_lastRetryDelay (sm_state y) = retryDelay (ss_retryCount (sm_state y)) ∧
  (∀ d, Waiting (Some d) ∈ sm_routines y → (5 * Second ≤ d ≤ 300 * Second)%Z).
Proof.
  intros Hy%inv_reachable. split; [by intros a; apply no_crash|].
  destruct Hy as ([Hcount Hdelay]&Hl&Hw). unfold lifecycle in Hl.
  split_and!; try done; unfold maxRetries in *; try lia;
    destruct (ss_stopped _), (ss_shuttingDown _), (sm_caller y); destr_ex; try done; try lia;
    match goal with H : sm_routines y = _ |- _ => rewrite H end; simpl; auto with lia.
Qed.

(** ** Progress *)

(** What a goroutine still has to do before it sees the closed channel. *)
Definition weight (r : routine) : nat :=
  match r with Waiting None => 1 | AtSync | AtSync2 => 2 | Waiting (Some _) => 3 | Working => 4 end.
Definition remaining (y : system) : nat :=
  (if has_token (sm_state y) then 3 else 0) + sum_list (weight <$> sm_routines y).

(** A run during which the syncer is shutting down. *)
Inductive shutdown_run : system → list access → system → Prop :=
  | shutdown_nil y : shutdown_run y [] y
  | shutdown_cons y a y1 l y' : ss_shuttingDown (sm_state y) = true →
      access_effect a y = Next y1 → shutdown_run y1 l y' → shutdown_run y (a :: l) y'.
Definition of_goroutine (a : access) : bool := match access_index a with Some _ => true | None => false end.

Lemma shutdown_shape y :
  sm_inv y → ss_shuttingDown (sm_state y) = true →
  ss_stopped (sm_state y) = true ∧ (∃ token, ss_syncCh (sm_state y) = Some (MkChan token true)) ∧
  ∃ r, sm_routines y = [r].
Proof.
  intros (_&Hl&_) Hs. unfold lifecycle in Hl. rewrite Hs in Hl. destruct (ss_stopped _); [|done]. tauto.
Qed.

(** Each access of the goroutine takes something off; the caller adds nothing. *)
Lemma shutdown_step a y y' :
  sm_inv y → ss_shuttingDown (sm_state y) = true → access_effect a y = Next y' →
  remaining y' + (if of_goroutine a then 1 else 0) ≤ remaining y.
Proof.
  intros Hy Hs. destruct (shutdown_shape y Hy Hs) as (Hst&[token Hch]&[r Hr]).
  destruct Hy as (_&Hl&_). destruct y as [[stopped shut ch delay count] c rs]. simpl in *. subst.
  destruct Hl as (_&_&Hc). simpl in Hc.
  unfold access_effect, of_goroutine. destruct (access_index a) as [i|] eqn:Hi.
  - simpl. destruct i; [|by destruct i]. simpl.
    destruct a; try done; destruct r; try done; simpl.
    + intros [= <-]. unfold remaining, has_token. simpl. lia.
    + intros [= <-]. unfold remaining, has_token. simpl. lia.
    + unfold syncer_afterSync. destruct failed; [case_decide|]; intros [= <-]; unfold remaining, has_token; simpl; lia.
    + destruct token; intros [= <-]; unfold remaining, has_token; destruct retryCh; simpl; lia.
    + destruct retryCh; [|done]. intros [= <-]. unfold remaining, has_token. simpl. lia.
  - destruct a, c; try done; destruct Hc; try done; intros [= <-]; unfold remaining; simpl; lia.
Qed.

Lemma shutdown_bound y l y' :
  shutdown_run y l y' → sm_inv y → length (filter (λ a, of_goroutine a = true) l) ≤ remaining y.
Proof.
  induction 1 as [|y a y1 l y' Hs Ha _ IH]; intros Hy; [simpl; lia|].
  pose proof (shutdown_step _ _ _ Hy Hs Ha) as Hm. specialize (IH (inv_step _ _ _ Hy Ha)).
  rewrite filter_cons. destruct (of_goroutine a); simpl in *; lia.
Qed.

Lemma shutdown_enabled y :
  sm_inv y → ss_shuttingDown (sm_state y) = true → ∃ a y', of_goroutine a = true ∧ access_effect a y = Next y'.
Proof.
  intros Hy Hs. destruct (shutdown_shape y Hy Hs) as (Hst&[token Hch]&[r Hr]).
  exists (match r with AtSync | AtSync2 => RunTest 0 | Working => RunWork 0 false | Waiting _ => RunReceive 0 end).
  destruct y as [[stopped shut ch delay count] c rs]. simpl in *. subst.
  destruct r; simpl; try (by eexists). destruct token; by eexists.
Qed.

(** A token leaves the channel only by a goroutine that goes on to sync. *)
Lemma token_taken a y y' :
  sm_inv y → access_effect a y = Next y' →
  has_token (sm_state y) = true → has_token (sm_state y') = false → AtSync ∈ sm_routines y'.
Proof.
  intros (_&Hl&_). destruct y as [[stopped shut ch delay count] c rs]. unfold access_effect, has_token, lifecycle.
  simpl in *. intros Ha Ht Hn. destruct (access_index a) as [i|] eqn:Hi.
  - destruct (rs !! i) as [r|] eqn:Hr; [|done]. simpl in Ha.
    destruct (routine_access _ _ _) as [[r' s']|] eqn:Hra; [|done]. injection Ha as <-. simpl in *.
    destruct ch as [[token closed]|]; [|done]. simpl in Ht. subst token.
    destruct a; try done; destruct r; try done; simpl in Hra.
    all: unfold syncer_afterSync, syncer_nextRetryDelay in *; repeat case_match; simplify_eq/=.
    apply elem_of_app. right. apply list_elem_of_here.
  - destruct ch as [[token closed]|]; [|done]. simpl in Ht. subst token.
    destruct a, c; try done; repeat case_match; simplify_eq/=.
    all: unfold orCrash, syncer_Stop, sendCh, closeCh in *; repeat case_match; simplify_eq/=.
    unfold lifecycle in Hl. simpl in Hl. destruct stopped, shut; destr_ex; repeat destruct_or!; done.
Qed.

Lemma remaining_bound y : sm_inv y → ss_shuttingDown (sm_state y) = true → remaining y ≤ 7.
Proof.
  intros Hy Hs. destruct (shutdown_shape y Hy Hs) as (_&_&[r Hr]). unfold remaining. rewrite Hr.
  destruct (has_token _), r as [| | |[]]; simpl; lia.
Qed.

(** C25. A stop and a request are served. While a syncer is shutting down, some
    access of its goroutine is possible in every state, it begins no new work on
    the cloud, and it makes at most seven accesses before it returns: whatever
    timers fire and whatever the caller does, [Stop] leads to the end of the
    goroutine. And a [Sync] is never lost: it leaves an element in the channel
    (its own, or one that was not taken yet), and the element leaves the channel
    only by a goroutine that goes on to call [sync] again. *)
Theorem syncer_progress y :
  reachable y →
  (ss_shuttingDown (sm_state y) = true →
    (∃ a y', of_goroutine a = true ∧ access_effect a y = Next y') ∧
    (∀ i y', access_effect (RunTest i) y = Next y' → Working ∉ sm_routines y') ∧
    (∀ l y', shutdown_run y l y' → length (filter (λ a, of_goroutine a = true) l) ≤ 7)) ∧
  (∀ y', access_effect CallSend y = Next y' → has_token (sm_state y') = true) ∧
  (∀ a y', access_effect a y = Next y' →
    has_token (sm_state y) = true → has_token (sm_state y') = false → AtSync ∈ sm_routines y').
Proof.
  intros Hy%inv_reachable. split; [|split].
  - intros Hs. split; [by apply shutdown_enabled|]. split.
    + intros i y' Ha Hin. destruct (shutdown_shape y Hy Hs) as (Hst&_&[r Hr]).
      unfold access_effect in Ha. simpl in Ha. rewrite Hr in Ha. destruct i; [|by destruct i].
      destruct r; try done; simpl in Ha; rewrite ?Hst, ?Hs in Ha; injection Ha as <-;
        by apply list_elem_of_singleton in Hin.
    + intros l y' Hrun. pose proof (shutdown_bound _ _ _ Hrun Hy). pose proof (remaining_bound y Hy Hs). lia.
  - intros y' Ha. destruct Hy as (_&Hl&_). destruct y as [[stopped shut ch delay count] c rs].
    unfold lifecycle in Hl. destruct c; try done. simpl in *.
    destruct stopped, shut; destr_ex; subst; try done; try (repeat destruct_or!; done).
    match goal with H : context [MkChan ?t false] |- _ => destruct t end; injection Ha as <-; done.
  - intros a y' Ha. by apply (token_taken a).
Qed.

(** Started, asked to sync, stopped while the first sync is running. *)
Definition ex_run : list access :=
  [CallStart; TestShuttingDown; CallInit; GoRoutine; RunTest 0; RunTest 0; CallSync; CallSend; CallStop].
Fixpoint run_accesses (l : list access) (y : system) : effect :=
  match l with
  | [] => Next y
  | a :: l => match access_effect a y with Next y => run_accesses l y | e => e end
  end.
Lemma run_reachable l y y' : reachable y → run_accesses l y = Next y' → reachable y'.
Proof.
  revert y. induction l as [|a l IH]; simpl; intros y Hy; [by intros [= <-]|].
  destruct (access_effect a y) eqn:Ha; try done. apply IH. by eapply reachable_step.
Qed.
Definition ex_stopping : system := MkSystem
  (MkSyncerState true true (Some (MkChan true true)) 0 0) Idle [Working].

Lemma syncer_lifecycle_witness : access_effect CallStop ex_stopping ≠ Crash ∧ length (sm_routines ex_stopping) ≤ 1.
Proof.
  destruct (syncer_lifecycle ex_stopping) as (Hc&Hl&_).
  - by apply (run_reachable ex_run start_system); [constructor|].
  - split; [apply Hc|exact Hl].
Defined.
Lemma syncer_progress_witness :
  ∃ l y', shutdown_run ex_stopping l y' ∧ sm_routines y' = [] ∧
    length (filter (λ a, of_goroutine a = true) l) ≤ 7.
Proof.
  destruct (syncer_progress ex_stopping) as [Hs _].
  { by apply (run_reachable ex_run start_system); [constructor|]. }
  destruct (Hs eq_refl) as (_&_&Hb).
  assert (∃ y', shutdown_run ex_stopping [RunWork 0 true; RunTimer 0; RunTest 0; RunReceive 0; RunTest 0; RunReceive 0] y' ∧
    sm_routines y' = []) as (y'&Hrun&Hnil).
  { eexists. split; [repeat (eapply shutdown_cons; [reflexivity|by vm_compute|]); apply shutdown_nil|reflexivity]. }
  exists [RunWork 0 true; RunTimer 0; RunTest 0; RunReceive 0; RunTest 0; RunReceive 0], y'.
  split; [exact Hrun|]. split; [exact Hnil|]. exact (Hb _ y' Hrun).
Defined.

(** The retry count survives a restart: a syncer that gave up (sixteen failures)
    and is stopped and started again does not retry its first failure. *)
Definition ex_gave_up : list access :=
  [CallStart; TestShuttingDown; CallInit; GoRoutine] ++
  concat (replicate 16 [RunTest 0; RunTest 0; RunWork 0 true; RunTimer 0]) ++
  [RunTest 0; RunTest 0; RunWork 0 true; CallStop; RunReceive 0].
Example restart_keeps_count :
  ∃ y, run_accesses (ex_gave_up ++ [CallStart; TestShuttingDown; CallInit; GoRoutine; RunTest 0; RunTest 0; RunWork 0 true])
    start_system = Next y ∧ sm_routines y = [Waiting None].
Proof. eexists. by vm_compute. Qed.
