(* ===== verification/NegSyncerSpec.v ===== *)
(** * NegSyncerSpec: the endpoint groups follow the endpoints

    Theorems on [NegSyncer] (pkg/networkendpointgroup/syncer.go): the encoding
    of endpoints, the batches, the difference of zone maps, and what a sync
    that succeeds leaves in the cloud. *)

From S2P Require Import Prelude GoLang GoStrings Compute Utils Instances NegSyncer.

(** ** Encoded endpoints *)

(** IP addresses and instance names have no bar; ports are not negative. *)
Definition wf_ne (ne : NetworkEndpoint) : Prop :=
  lacks "|" (ne_IpAddress ne) = true ∧ lacks "|" (ne_Instance ne) = true ∧ (0 ≤ ne_Port ne < 2 ^ 63)%Z.

Global Instance wf_ne_dec ne : Decision (wf_ne ne).
Proof. unfold wf_ne. apply _. Defined.

Lemma Split_bars_lacks s : lacks "|" s = true → Split s "||" = [s].
Proof. intros Hs. apply Split_no_sep. by apply (lacks_not_contains "|" _ "|"). Qed.
Lemma decode_encode ip instance port :
  lacks "|" ip = true → lacks "|" instance = true → lacks "|" port = true →
  decodeEndpoint (encodeEndpoint ip instance port) = Some (ip, instance, port).
Proof.
  intros Hip Hinst Hport. unfold decodeEndpoint, encodeEndpoint.
  change ("||" +:+ instance +:+ "||" +:+ port) with (String "|" (String "|" (instance +:+ "||" +:+ port))).
  rewrite Split_app_2 by by apply lacks_not_ending.
  change ("||" +:+ port) with (String "|" (String "|" port)).
  rewrite Split_app_2 by by apply lacks_not_ending.
  by rewrite !Split_bars_lacks.
Qed.
Lemma decode_encodeNE ne :
  wf_ne ne → decodeEndpoint (encodeNE ne) = Some (ne_IpAddress ne, ne_Instance ne, Itoa (ne_Port ne)).
Proof. intros (?&?&?). apply decode_encode; [done..|]. apply Itoa_lacks; [lia|done]. Qed.
Lemma encodeNE_inj ne ne' : wf_ne ne → wf_ne ne' → encodeNE ne = encodeNE ne' → ne = ne'.
Proof.
  intros Hne Hne' He. apply decode_encodeNE in Hne. apply decode_encodeNE in Hne'. rewrite He, Hne' in Hne.
  destruct ne, ne'. injection Hne as -> -> Hp. simpl in *. by rewrite (Itoa_inj _ _ Hp).
Qed.
Lemma decodeAll_encode nes : Forall wf_ne nes → decodeAll (encodeNE <$> nes) = Ok nes.
Proof.
  induction 1 as [|ne nes Hne _ IH]; [done|]. cbn [fmap list_fmap decodeAll]. rewrite decode_encodeNE by done.
  rewrite Atoi_Itoa by apply Hne. fold (encodeNE <$> nes). rewrite IH. by destruct ne.
Qed.

(** ** Batches *)

Lemma elem_of_concat {A} (x : A) (ls : list (list A)) : x ∈ concat ls ↔ ∃ l, l ∈ ls ∧ x ∈ l.
Proof. setoid_rewrite list_elem_of_In. apply in_concat. Qed.

Section batches.
Context `{PopAny}.

Lemma popN_spec n E :
  n ≤ size E →
  let '(l, rest) := popN n E in
  length l = n ∧ NoDup l ∧ (∀ x, x ∈ E ↔ x ∈ l ∨ x ∈ rest) ∧ (∀ x, x ∈ l → x ∉ rest) ∧
  size rest = size E - n.
Proof.
  revert E. induction n as [|n IH]; intros E Hn; simpl.
  { split; [done|]. split; [constructor|]. split; [set_solver|]. split; [set_solver|lia]. }
  destruct (pick E) as [x|] eqn:Hx; [|apply pick_None in Hx; subst; rewrite size_empty in Hn; lia].
  apply pick_Some in Hx. assert (size (E ∖ {[x]}) = size E - 1) as Hsize.
  { rewrite size_difference by set_solver. by rewrite size_singleton. }
  specialize (IH (E ∖ {[x]}) ltac:(lia)). destruct (popN n (E ∖ {[x]})) as [l rest].
  destruct IH as (Hl&Hnd&Hiff&Hdisj&Hr). simpl. split; [lia|]. split; [|split; [|split; [|lia]]].
  - constructor; [|done]. intros Hin. destruct (Hiff x) as [_ Hx']. specialize (Hx' (or_introl Hin)). set_solver.
  - intros y. specialize (Hiff y). destruct (decide (y = x)) as [->|]; set_solver.
  - intros y [->|Hy]%elem_of_cons; [|auto]. intros Hin. destruct (Hiff x) as [_ Hx'].
    specialize (Hx' (or_intror Hin)). set_solver.
Qed.

(** The encoded form of a set of endpoints. *)
Definition encodes (E : gset string) (P : NetworkEndpoint → Prop) : Prop :=
  (∀ ne, P ne → wf_ne ne) ∧ ∀ x, x ∈ E ↔ ∃ ne, P ne ∧ x = encodeNE ne.

Lemma encodes_list l P :
  (∀ x, x ∈ l → ∃ ne, P ne ∧ x = encodeNE ne) → ∃ nes, l = encodeNE <$> nes ∧ Forall P nes.
Proof.
  induction l as [|x l IH]; intros Hl; [by exists []|].
  destruct (Hl x) as (ne&Hne&->); [set_solver|]. destruct IH as (nes&->&Hnes); [set_solver|].
  exists (ne :: nes). by split; [|constructor].
Qed.

Lemma toNetworkEndpointBatch_ok E P :
  encodes E P → 0 < size E →
  ∃ nes rest, toNetworkEndpointBatch E = (Ok nes, rest) ∧ Forall P nes ∧ NoDup nes ∧
    length nes = Nat.min (size E) MAX_NETWORK_ENDPOINTS_PER_BATCH ∧ size rest = size E - length nes ∧
    encodes rest (λ ne, P ne ∧ ne ∉ nes).
Proof.
  intros [Hwf Hiff] Hpos. unfold toNetworkEndpointBatch.
  pose proof (popN_spec (Nat.min (size E) MAX_NETWORK_ENDPOINTS_PER_BATCH) E ltac:(lia)) as Hp.
  destruct (popN _ E) as [l rest]. destruct Hp as (Hl&Hnd&Hel&Hdisj&Hr).
  destruct (encodes_list l P) as (nes&->&Hnes).
  { intros x Hx. apply Hiff, Hel. by left. }
  rewrite length_fmap in Hl. exists nes, rest. rewrite decodeAll_encode by (eapply Forall_impl; eauto).
  split; [done|]. split; [done|]. split; [by apply NoDup_fmap_1 in Hnd|]. split; [done|].
  split; [lia|]. split; [naive_solver|]. intros x. split.
  - intros Hx. destruct (proj1 (Hiff x)) as (ne&Hne&->); [apply Hel; by right|].
    exists ne. split; [|done]. split; [done|]. intros Hin. eapply Hdisj; [|exact Hx]. by apply list_elem_of_fmap_2.
  - intros (ne&[Hne Hn]&->). destruct (proj1 (Hel (encodeNE ne))) as [Hin|]; [apply Hiff; eauto| |done].
    apply list_elem_of_fmap in Hin as (ne'&He&Hin). rewrite Forall_forall in Hnes.
    apply encodeNE_inj in He as ->; auto. by destruct Hn.
Qed.

Lemma batches_ok op fuel E P :
  size E ≤ fuel → encodes E P →
  ∃ parts, batches fuel op E = (op <$> parts, Ok tt) ∧
    Forall (λ nes, 0 < length nes ≤ MAX_NETWORK_ENDPOINTS_PER_BATCH) parts ∧
    NoDup (concat parts) ∧ (∀ ne, ne ∈ concat parts ↔ P ne) ∧
    500 * length parts < size E + 500 ∧ size E ≤ 500 * length parts.
Proof.
  revert E P. induction fuel as [|fuel IH]; intros E P Hf HE; simpl.
  all: case_decide as Hz; [|try lia].
  1, 2: exists []; rewrite Hz; apply size_empty_inv in Hz.
  1, 2: split; [done|]; split; [by apply Forall_nil|]; split; [by apply NoDup_nil|]; split; [|simpl; lia].
  1, 2: intros ne; split; [by intros ?%elem_of_nil|]; intros Hne.
  1, 2: assert (encodeNE ne ∈ E) by (apply HE; by exists ne); set_solver.
  destruct (toNetworkEndpointBatch_ok E P HE) as (nes&rest&->&Hnes&Hnd&Hlen&Hsize&Hrest); [lia|].
  assert (MAX_NETWORK_ENDPOINTS_PER_BATCH = 500) as Hmax by done.
  destruct (IH rest _ ltac:(lia) Hrest) as (parts&->&Hparts&Hnd'&Hel&Hlo&Hhi).
  exists (nes :: parts). simpl. split; [done|]. split; [constructor; [lia|done]|].
  rewrite Forall_forall in Hnes. split.
  { apply NoDup_app. split; [done|]. split; [|done]. intros ne Hin Hin'. by apply Hel in Hin' as [_ ?]. }
  split; [|lia]. intros ne. rewrite elem_of_app, Hel. split; [intros [?|[? _]]; auto|].
  intros Hne. destruct (decide (ne ∈ nes)); auto.
Qed.

(** C28. Batching terminates and loses nothing: the inner loop of
    [syncNetworkEndpoints] splits the encoded endpoints of a zone into batches
    that hold each endpoint exactly once, whatever order [PopAny] takes. Every
    batch has between 1 and 500 endpoints (the limit of the API), there are as
    few batches as possible, and decoding never fails. *)
Theorem batches_spec op E P :
  encodes E P →
  ∃ parts, batches (size E) op E = (op <$> parts, Ok tt) ∧
    Forall (λ nes, 0 < length nes ≤ MAX_NETWORK_ENDPOINTS_PER_BATCH) parts ∧
    NoDup (concat parts) ∧ (∀ ne, ne ∈ concat parts ↔ P ne) ∧
    length parts = (size E + 499) / 500.
Proof.
  intros HE. destruct (batches_ok op (size E) E P) as (parts&Hb&Hlen&Hnd&Hel&Hlo&Hhi); [done..|].
  exists parts. split; [done|]. split; [done|]. split; [done|]. split; [done|].
  apply (Nat.div_unique _ _ _ (size E + 499 - 500 * length parts)); lia.
Qed.
End batches.

(** ** Differences *)

Section diff.
Context `{MapRange}.
Implicit Types a b : ZoneMap.

Definition in_zone a zone x : Prop := ∃ E, a !! zone = Some E ∧ x ∈ E.

(** What [calculateDifference] promises for each of its results. *)
Definition is_diff a b (d : ZoneMap) : Prop :=
  (∀ zone x, in_zone d zone x ↔ in_zone a zone x ∧ ¬ in_zone b zone x) ∧
  ∀ zone E, d !! zone = Some E → E ≠ ∅.

Lemma in_zone_default a zone x : in_zone a zone x ↔ x ∈ default ∅ (a !! zone).
Proof. unfold in_zone. destruct (a !! zone) as [E|] eqn:Ha; simpl; [naive_solver|set_solver]. Qed.

Lemma diffs_ok b (l : list (string * gset string)) acc :
  NoDup l.*1 → (∀ zone, zone ∈ l.*1 → acc !! zone = None) →
  let d := foldl (λ (acc : ZoneMap) '(zone, endpointSet),
    let diff := endpointSet ∖ default ∅ (b !! zone) in
    if decide (0 < size diff) then <[zone := diff]> acc else acc) acc l in
  ∀ zone, d !! zone = match (list_to_map l : ZoneMap) !! zone with
    | Some E => let diff := E ∖ default ∅ (b !! zone) in if decide (0 < size diff) then Some diff else None
    | None => acc !! zone
    end.
Proof.
  revert acc. induction l as [|[z E] l IH]; intros acc Hnd Hacc d zone; [done|].
  apply NoDup_cons in Hnd as [Hz Hnd]. subst d. simpl.
  rewrite IH; [|done|].
  - destruct (decide (zone = z)) as [->|Hne].
    + rewrite lookup_insert_eq. rewrite (not_elem_of_list_to_map_1 l z) by done.
      case_decide; [by rewrite lookup_insert_eq|]. apply Hacc. set_solver.
    + rewrite lookup_insert_ne by done. destruct (list_to_map l !! zone); [done|].
      case_decide; [by rewrite lookup_insert_ne|done].
  - intros y Hy. case_decide; [rewrite lookup_insert_ne by (by intros ->)|]; apply Hacc; set_solver.
Qed.
Lemma diffs_is_diff a b :
  is_diff a b (foldl (λ (acc : ZoneMap) '(zone, endpointSet),
    let diff := endpointSet ∖ default ∅ (b !! zone) in
    if decide (0 < size diff) then <[zone := diff]> acc else acc) ∅ (range a)).
Proof.
  pose proof (diffs_ok b (range a) ∅ (range_NoDup a) ltac:(intros; apply lookup_empty)) as Hd.
  cbv zeta in Hd. rewrite list_to_map_range in Hd. split.
  - intros zone x. rewrite !in_zone_default, Hd. destruct (a !! zone) as [E|]; simpl.
    + case_decide as Hs; simpl; [set_solver|]. split; [set_solver|]. intros Hx. destruct Hs.
      assert (x ∈ E ∖ default ∅ (b !! zone)) as Hin by set_solver.
      destruct (decide (size (E ∖ default ∅ (b !! zone)) = 0)) as [He|]; [|lia].
      apply size_empty_inv in He. set_solver.
    + rewrite lookup_empty. simpl. set_solver.
  - intros zone E. rewrite Hd. destruct (a !! zone); [|by rewrite lookup_empty].
    case_decide as Hs; [|done]. intros [= <-] He. rewrite He, size_empty in Hs. lia.
Qed.
Lemma calculateDifference_ok target current :
  is_diff target current (calculateDifference target current).1 ∧
  is_diff current target (calculateDifference target current).2.
Proof. split; apply diffs_is_diff. Qed.
End diff.

(** ** Convergence *)

(** [negv] is the endpoints of a group by name and zone, [zoneOf] the zone of a
    node, and [ninv] what the worlds of a running controller satisfy. What the
    cloud holds is well formed. *)
Class NEGWorld (W : Type) := {
  negv : W → string → string → gset NetworkEndpoint;
  zoneOf : string → option string;
  listedZones : list string;
  ninv : W → Prop;
}.
Class NEGLaws (W : Type) `{NEGCloud W, ZoneLister W, NEGWorld W} := {
  negv_wf w n z ne : ninv w → ne ∈ negv w n z → wf_ne ne;
  negListZones_ok w : ninv w →
    wp zl_ListZones (λ zs w', zs = listedZones ∧ ninv w' ∧ negv w' = negv w) (λ _, ninv) w;
  negGetZone_ok node w : ninv w →
    wp (zl_GetZoneForNode node) (λ z w', zoneOf node = Some z ∧ ninv w' ∧ negv w' = negv w) (λ _, ninv) w;
  negGet_ok n z w : ninv w → wp (negc_Get n z) (λ _, ninv) (λ _, ninv) w;
  negCreate_ok neg z w : ninv w → wp (negc_Create neg z) (λ _, ninv) (λ _, ninv) w;
  negDelete_ok n z w : ninv w → wp (negc_Delete n z) (λ _, ninv) (λ _, ninv) w;
  negListEndpoints_ok n z b w : ninv w →
    wp (negc_ListEndpoints n z b)
      (λ nes w', ninv w' ∧ negv w' = negv w ∧ ∀ ne, ne ∈ nes ↔ ne ∈ negv w n z) (λ _, ninv) w;
  negAttach_ok n z nes w : ninv w → Forall wf_ne nes →
    wp (negc_Attach n z nes)
      (λ _ w', ninv w' ∧ (∀ ne, ne ∈ negv w' n z ↔ ne ∈ negv w n z ∨ ne ∈ nes) ∧
         ∀ z', z' ≠ z → negv w' n z' = negv w n z') (λ _, ninv) w;
  negDetach_ok n z nes w : ninv w → Forall wf_ne nes →
    wp (negc_Detach n z nes)
      (λ _ w', ninv w' ∧ (∀ ne, ne ∈ negv w' n z ↔ ne ∈ negv w n z ∧ ne ∉ nes) ∧
         ∀ z', z' ≠ z → negv w' n z' = negv w n z') (λ _, ninv) w;
}.

Section converge.
Context {W : Type} `{NEGCloud W, ZoneLister W, NEGWorld W, !NEGLaws W, MapRange, PopAny, Schedule}.
Context (s : syncer W).
Local Abbreviation name := (sy_negName s).
Local Abbreviation tp := (svp_targetPort (sy_servicePort s)).

(** The endpoints the service should have in a zone. *)
Definition portOf (ports : list EndpointPort) : option Z :=
  if decide (Atoi_value tp ≠ 0%Z)
  then ep_Port <$> List.find (λ p, bool_decide (ep_Port p = Atoi_value tp)) ports
  else ep_Port <$> List.find (λ p, bool_decide (ep_Name p = tp)) ports.
Definition wants (ep : Endpoints) (zone : string) (ne : NetworkEndpoint) : Prop :=
  ∃ subset address node port, subset ∈ ep ∧ address ∈ es_Addresses subset ∧
    ea_NodeName address = Some node ∧ zoneOf node = Some zone ∧ portOf (es_Ports subset) = Some port ∧
    ne = MkNetworkEndpoint node (ea_IP address) port.

(** What Kubernetes guarantees of endpoints and target ports. *)
Definition wf_endpoints (ep : Endpoints) : Prop :=
  ∀ subset, subset ∈ ep →
    (∀ p, p ∈ es_Ports subset → 0 < ep_Port p < 65536)%Z ∧
    ∀ address, address ∈ es_Addresses subset → lacks "|" (ea_IP address) = true ∧
      ∃ node, ea_NodeName address = Some node ∧ lacks "|" node = true.
Definition wf_targetPort : Prop := Atoi_value tp ≠ 0%Z → tp = Itoa (Atoi_value tp).

Lemma matchPort_ok ports :
  wf_targetPort → (∀ p, p ∈ ports → 0 < ep_Port p < 65536)%Z →
  matchPort tp (Atoi_value tp) ports = match portOf ports with Some p => Itoa p | None => "" end.
Proof.
  intros Htp Hports. unfold portOf. induction ports as [|p ports IH]; simpl; [by case_decide|].
  assert (Itoa (ep_Port p) ≠ "") as Hne.
  { apply Itoa_nonempty. specialize (Hports p ltac:(set_solver)). lia. }
  assert (∀ t, t ≠ "" → 0 < String.length t) as Hlen by (intros [|? ?]; simpl; [done|lia]).
  specialize (IH ltac:(set_solver)). case_decide as Ht.
  - destruct (decide (ep_Port p = Atoi_value tp)) as [Hp|Hp].
    + rewrite bool_decide_eq_true_2 by done. simpl. rewrite decide_True; [|apply Hlen].
      all: rewrite (Htp Ht), <-Hp; done.
    + by rewrite bool_decide_eq_false_2.
  - destruct (decide (ep_Name p = tp)) as [Hp|Hp].
    + rewrite bool_decide_eq_true_2 by done. by rewrite decide_True by auto.
    + by rewrite bool_decide_eq_false_2.
Qed.

(** ** The target *)

Lemma addAddresses_ok port addrs m w :
  ninv w → (∀ a, a ∈ addrs → is_Some (ea_NodeName a)) →
  wp (addAddresses port addrs m)
    (λ m' w', ninv w' ∧ negv w' = negv w ∧ ∀ zone x, in_zone m' zone x ↔
       in_zone m zone x ∨ ∃ a node, a ∈ addrs ∧ ea_NodeName a = Some node ∧ zoneOf node = Some zone ∧
         x = encodeEndpoint (ea_IP a) node port)
    (λ _, ninv) w.
Proof.
  revert m w. induction addrs as [|a addrs IH]; intros m w Hw Hnodes; simpl.
  { apply wp_ret. split; [done|]. split; [done|]. set_solver. }
  destruct (Hnodes a (list_elem_of_here _ _)) as [node Hnode]. rewrite Hnode. apply wp_bind, wp_ret, wp_bind.
  eapply wp_mono; [by apply negGetZone_ok| |done]. intros zone w1 (Hz&Hw1&Hv1).
  eapply wp_mono; [apply IH; [done|by intros; apply Hnodes, list_elem_of_further]| |done].
  intros m' w2 (Hw2&Hv2&Hiff). split; [done|]. split; [congruence|].
  intros z x. rewrite Hiff, !in_zone_default. setoid_rewrite elem_of_cons.
  destruct (decide (z = zone)) as [->|Hne].
  - rewrite lookup_insert_eq. simpl. rewrite elem_of_union, elem_of_singleton. split.
    + intros [[->|?]|(a'&node'&?&?&?&?)]; [right; exists a, node|left|right; exists a', node']; auto.
    + intros [?|(a'&node'&[->|?]&?&?&?)]; [by left; right|simplify_eq; by left; left|right; exists a', node'; auto].
  - rewrite lookup_insert_ne by done. split.
    + intros [?|(a'&node'&?&?&?&?)]; [by left|right; exists a', node'; auto].
    + intros [?|(a'&node'&[->|?]&?&?&?)]; [by left|simplify_eq|right; exists a', node'; auto].
Qed.

Lemma wants_cons sub ep zone ne : wants (sub :: ep) zone ne ↔ wants [sub] zone ne ∨ wants ep zone ne.
Proof.
  unfold wants. split.
  - intros (sub'&a&node&port&[->|Hin]%elem_of_cons&Hrest); [left; exists sub|right; exists sub'];
      exists a, node, port; (split; [|exact Hrest]); [apply list_elem_of_here|exact Hin].
  - intros [(sub'&a&node&port&->%list_elem_of_singleton&Hrest)|(sub'&a&node&port&Hin&Hrest)];
      [exists sub|exists sub']; exists a, node, port; (split; [|exact Hrest]);
      [apply list_elem_of_here|by apply list_elem_of_further].
Qed.

Lemma addSubsets_ok ep m w :
  ninv w → wf_targetPort → wf_endpoints ep →
  wp (addSubsets tp ep m)
    (λ m' w', ninv w' ∧ negv w' = negv w ∧ ∀ zone x, in_zone m' zone x ↔
       in_zone m zone x ∨ ∃ ne, wants ep zone ne ∧ x = encodeNE ne)
    (λ _, ninv) w.
Proof.
  intros Hw Htp Hep. revert m w Hw. induction ep as [|sub ep IH]; intros m w Hw; simpl.
  { apply wp_ret. split; [done|]. split; [done|]. intros zone x. split; [auto|].
    intros [?|(ne&(?&?&?&?&?%elem_of_nil&_)&_)]; done. }
  destruct (Hep sub (list_elem_of_here _ _)) as [Hports Haddrs].
  assert (wf_endpoints ep) as Hep' by (intros x Hx; by apply Hep, list_elem_of_further).
  rewrite matchPort_ok by done. apply wp_bind.
  apply (wp_mono _ (λ m' w', ninv w' ∧ negv w' = negv w ∧ ∀ zone x, in_zone m' zone x ↔
    in_zone m zone x ∨ ∃ ne, wants [sub] zone ne ∧ x = encodeNE ne) _ (λ _, ninv)); [| |done].
  - destruct (portOf (es_Ports sub)) as [port|] eqn:Hport.
    + assert (0 < port)%Z as Hpos.
      { unfold portOf in Hport. assert (∃ f, ep_Port <$> List.find f (es_Ports sub) = Some port) as [f Hf]
          by (case_decide; eauto).
        apply fmap_Some in Hf as (p&[Hin%list_elem_of_In _]%List.find_some&->). specialize (Hports p Hin). lia. }
      rewrite decide_False; last first.
      { pose proof (Itoa_nonempty port ltac:(lia)). destruct (Itoa port); simpl; [done|lia]. }
      eapply wp_mono; [apply addAddresses_ok; [done|]| |done].
      { intros a Ha. destruct (Haddrs a Ha) as (_&node&?&_). eauto. }
      intros m' w' (?&?&Hiff). split; [done|]. split; [done|]. intros zone x. rewrite Hiff. f_equiv. split.
      * intros (a&node&?&?&?&->). exists (MkNetworkEndpoint node (ea_IP a) port). split; [|done].
        exists sub, a, node, port. split; [apply list_elem_of_here|done].
      * intros (ne&(sub'&a&node&port'&->%list_elem_of_singleton&?&?&?&?&->)&->). simplify_eq.
        exists a, node. done.
    + simpl. apply wp_ret. split; [done|]. split; [done|]. intros zone x. split; [auto|].
      intros [?|(ne&(sub'&a&node&port'&->%list_elem_of_singleton&?&?&?&?&->)&->)]; [done|congruence].
  - intros m1 w1 (Hw1&Hv1&Hiff1). eapply wp_mono; [by apply IH| |done].
    intros m2 w2 (Hw2&Hv2&Hiff2). split; [done|]. split; [congruence|]. intros zone x.
    rewrite Hiff2, Hiff1. setoid_rewrite (wants_cons sub ep). split.
    + intros [[?|(ne&?&?)]|(ne&?&?)]; [by left|right; exists ne; by auto..].
    + intros [?|(ne&[?|?]&?)]; [by left; left|left; right; by exists ne|right; by exists ne].
Qed.

(** ** What the cloud holds *)

Lemma retrieveZones_ok zones m w :
  ninv w →
  wp (retrieveZones s zones m)
    (λ m' w', ninv w' ∧ negv w' = negv w ∧ ∀ zone, 
       (zone ∈ zones → ∀ x, in_zone m' zone x ↔ ∃ ne, ne ∈ negv w name zone ∧ x = encodeNE ne) ∧
       (zone ∉ zones → m' !! zone = m !! zone))
    (λ _, ninv) w.
Proof.
  revert m w. induction zones as [|z zones IH]; intros m w Hw; simpl.
  { apply wp_ret. split; [done|]. split; [done|]. set_solver. }
  apply wp_bind. eapply wp_mono; [by apply negListEndpoints_ok| |done]. intros nes w1 (Hw1&Hv1&Hnes).
  eapply wp_mono; [by apply IH| |done]. intros m' w2 (Hw2&Hv2&Hm'). split; [done|]. split; [congruence|].
  intros zone. destruct (Hm' zone) as [Hin Hout]. rewrite Hv1 in Hin. split.
  - intros Hz. destruct (decide (zone ∈ zones)) as [Hz'|Hz']; [auto|].
    apply elem_of_cons in Hz as [->|]; [|done]. intros x. rewrite in_zone_default, Hout, lookup_insert_eq by done.
    simpl. rewrite elem_of_list_to_set, list_elem_of_fmap. naive_solver.
  - intros [Hne Hz]%not_elem_of_cons. rewrite Hout, lookup_insert_ne by done. done.
Qed.

Lemma ensure_ok w : ninv w → wp (syncer_ensureNetworkEndpointGroups s) (λ _, ninv) (λ _, ninv) w.
Proof.
  intros Hw. unfold syncer_ensureNetworkEndpointGroups. apply wp_bind.
  eapply wp_mono; [by apply negListZones_ok| |done]. intros zs w1 (_&Hw1&_). apply wp_bind.
  eapply wp_mono; [apply (wp_forCollect _ _ (λ _ _, ninv) (λ _, ninv)); [done|]| |done].
  - intros d z ys w2 _ Hw2. unfold syncer_ensureZone. apply wp_bind, wp_try.
    assert (∀ (n : bool) errs w3, ninv w3 → wp (if n then
        r ← try (negc_Create (newNEG s) z); mret (errs ++ match r with inl err => [err] | inr _ => [] end)
      else mret errs) (λ _, ninv) (λ _, ninv) w3) as Hcreate.
    { intros [] errs w3 Hw3; [|by apply wp_ret]. apply wp_bind, wp_try.
      eapply wp_mono; [by apply negCreate_ok|..]; intros; by apply wp_ret. }
    eapply wp_mono; [by apply negGet_ok|..]; cbv beta.
    + intros neg w3 Hw3. apply wp_bind. destruct (sameNetwork neg); [apply wp_ret; by apply (Hcreate false)|].
      apply wp_bind, wp_try. eapply wp_mono; [by apply negDelete_ok|..]; cbv beta; intros ? w4 Hw4;
        apply wp_ret; by apply (Hcreate true).
    + intros e w3 Hw3. apply wp_bind, wp_ret. by apply (Hcreate true).
  - intros errs w2 Hw2. unfold retAggregate. by case_decide; [apply wp_ret|apply wp_throw].
Qed.

(** ** Attaching and detaching *)

Definition adds (ops : list negOp) (zone : string) (ne : NetworkEndpoint) : Prop :=
  ∃ nes, Attach zone nes ∈ ops ∧ ne ∈ nes.
Definition dels (ops : list negOp) (zone : string) (ne : NetworkEndpoint) : Prop :=
  ∃ nes, Detach zone nes ∈ ops ∧ ne ∈ nes.
Definition op_wf (op : negOp) : Prop :=
  match op with Attach _ nes | Detach _ nes => Forall wf_ne nes end.

Lemma adds_snoc ops op zone ne : adds (ops ++ [op]) zone ne ↔ adds ops zone ne ∨ adds [op] zone ne.
Proof. unfold adds. setoid_rewrite elem_of_app. naive_solver. Qed.
Lemma dels_snoc ops op zone ne : dels (ops ++ [op]) zone ne ↔ dels ops zone ne ∨ dels [op] zone ne.
Proof. unfold dels. setoid_rewrite elem_of_app. naive_solver. Qed.
Lemma adds_one zone nes zone' ne : adds [Attach zone nes] zone' ne ↔ zone' = zone ∧ ne ∈ nes.
Proof. unfold adds. setoid_rewrite list_elem_of_singleton. naive_solver. Qed.
Lemma dels_one zone nes zone' ne : dels [Detach zone nes] zone' ne ↔ zone' = zone ∧ ne ∈ nes.
Proof. unfold dels. setoid_rewrite list_elem_of_singleton. naive_solver. Qed.
Lemma adds_detach zone nes zone' ne : ¬ adds [Detach zone nes] zone' ne.
Proof. unfold adds. setoid_rewrite list_elem_of_singleton. naive_solver. Qed.
Lemma dels_attach zone nes zone' ne : ¬ dels [Attach zone nes] zone' ne.
Proof. unfold dels. setoid_rewrite list_elem_of_singleton. naive_solver. Qed.

(** Run in any order, the calls leave what was there, less what is detached,
    and what is attached. *)
Lemma operations_ok ops w :
  ninv w → Forall op_wf ops → (∀ zone ne, adds ops zone ne → dels ops zone ne → False) →
  wp (forErrs (syncer_operationInternal s) ops)
    (λ es w', ninv w' ∧ (es = [] → ∀ zone ne, ne ∈ negv w' name zone ↔
       (ne ∈ negv w name zone ∧ ¬ dels ops zone ne) ∨ adds ops zone ne))
    (λ _ _, False) w.
Proof.
  intros Hw Hwf Hdisj. apply (wp_forErrs_progress _ ops (λ d w', ∀ zone ne, ne ∈ negv w' name zone ↔
    (ne ∈ negv w name zone ∧ ¬ dels d zone ne) ∨ adds d zone ne)); [|done|].
  { intros zone ne. unfold adds, dels. set_solver. }
  intros d op w' [rest ->] Hw'. rewrite !Forall_app, Forall_singleton in Hwf. destruct Hwf as [[_ Hwf] _].
  destruct op as [zone nes|zone nes]; simpl.
  - eapply wp_mono; [by apply negAttach_ok| |done]. intros _ w2 (Hw2&Hin&Hout). split; [done|].
    intros HI z ne. rewrite adds_snoc, dels_snoc, adds_one. pose proof (dels_attach zone nes z ne).
    destruct (decide (z = zone)) as [->|Hz]; [rewrite Hin, HI|rewrite Hout, HI by done]; tauto.
  - eapply wp_mono; [by apply negDetach_ok| |done]. intros _ w2 (Hw2&Hin&Hout). split; [done|].
    intros HI z ne. rewrite adds_snoc, dels_snoc, dels_one. pose proof (adds_detach zone nes z ne) as Hna.
    destruct (decide (z = zone)) as [->|Hz]; [rewrite Hin, HI|rewrite Hout, HI by done]; [|tauto].
    assert (adds d zone ne → ne ∉ nes) as Hd; [|tauto]. intros (nes'&Hnes'&Hne') Hne.
    apply (Hdisj zone ne); [exists nes'|exists nes]; set_solver.
Qed.

Lemma zoneBatches_ok op (l : list (string * gset string)) P :
  (∀ zone E, (zone, E) ∈ l → encodes E (P zone)) →
  ∃ ops, zoneBatches op l = (ops, Ok tt) ∧
    (∀ o, o ∈ ops → ∃ zone nes, o = op zone nes ∧ zone ∈ l.*1 ∧ Forall (P zone) nes) ∧
    (∀ zone ne, zone ∈ l.*1 → P zone ne → ∃ nes, op zone nes ∈ ops ∧ ne ∈ nes).
Proof.
  induction l as [|[z E] l IH]; intros Hl; [exists []; set_solver|]. simpl.
  pose proof (Hl z E ltac:(apply list_elem_of_here)) as HE.
  destruct (batches_ok (op z) (size E) E (P z)) as (parts&->&_&_&Hel&_); [done|done|].
  destruct IH as (ops&->&Hops&Hall). { intros. by apply Hl, list_elem_of_further. }
  eexists. split; [done|]. split.
  - intros o [Ho|Ho]%elem_of_app.
    + apply list_elem_of_fmap in Ho as (nes&->&Hin). exists z, nes. split; [done|]. split; [set_solver|].
      apply Forall_forall. intros ne Hne. apply Hel, elem_of_concat. by exists nes.
    + destruct (Hops o Ho) as (zone&nes&?&?&?). exists zone, nes. set_solver.
  - intros zone ne [->|Hin]%elem_of_cons Hne.
    + apply Hel, elem_of_concat in Hne as (nes&?&?). exists nes. split; [|done].
      apply elem_of_app. left. by apply list_elem_of_fmap_2.
    + destruct (Hall zone ne Hin Hne) as (nes&?&?). exists nes. set_solver.
Qed.

(** What [syncNetworkEndpoints] does to the groups, for maps that hold the
    encoded forms of the endpoints in [A] and [R]. *)
Lemma syncNetworkEndpoints_ok (add rem : ZoneMap) (A R : string → NetworkEndpoint → Prop) w :
  ninv w →
  (∀ zone E, add !! zone = Some E → encodes E (A zone)) → (∀ zone ne, A zone ne → is_Some (add !! zone)) →
  (∀ zone E, rem !! zone = Some E → encodes E (R zone)) → (∀ zone ne, R zone ne → is_Some (rem !! zone)) →
  (∀ zone ne, A zone ne → R zone ne → False) →
  wp (syncer_syncNetworkEndpoints s add rem)
    (λ _ w', ∀ zone ne, ne ∈ negv w' name zone ↔ (ne ∈ negv w name zone ∧ ¬ R zone ne) ∨ A zone ne)
    (λ _ _, True) w.
Proof.
  intros Hw HA HA' HR HR' Hdisj. unfold syncer_syncNetworkEndpoints.
  destruct (zoneBatches_ok Detach (range rem) R) as (dops&->&Hd1&Hd2).
  { intros z E Hin%range_lookup. auto. }
  destruct (zoneBatches_ok Attach (range add) A) as (aops&->&Ha1&Ha2).
  { intros z E Hin%range_lookup. auto. }
  set (ops := dops ++ aops).
  assert (∀ zone ne, adds ops zone ne ↔ A zone ne) as Hadds.
  { intros zone ne. split.
    - intros (nes&[Hin|Hin]%elem_of_app&Hne); [by destruct (Hd1 _ Hin) as (?&?&?&_)|].
      destruct (Ha1 _ Hin) as (z&nes'&[= -> ->]&_&Hall). rewrite Forall_forall in Hall. auto.
    - intros HAne. destruct (Ha2 zone ne) as (nes&Hin&Hne); [by apply range_keys, (HA' zone ne)|done|].
      exists nes. split; [apply elem_of_app; by right|done]. }
  assert (∀ zone ne, dels ops zone ne ↔ R zone ne) as Hdels.
  { intros zone ne. split.
    - intros (nes&[Hin|Hin]%elem_of_app&Hne); [|by destruct (Ha1 _ Hin) as (?&?&?&_)].
      destruct (Hd1 _ Hin) as (z&nes'&[= -> ->]&_&Hall). rewrite Forall_forall in Hall. auto.
    - intros HRne. destruct (Hd2 zone ne) as (nes&Hin&Hne); [by apply range_keys, (HR' zone ne)|done|].
      exists nes. split; [apply elem_of_app; by left|done]. }
  assert (∀ x, x ∈ schedule ops ↔ x ∈ ops) as Hsched by (intros x; by rewrite schedule_perm).
  assert (∀ zone ne, adds (schedule ops) zone ne ↔ A zone ne) as Hadds'.
  { intros zone ne. rewrite <-Hadds. unfold adds. by setoid_rewrite Hsched. }
  assert (∀ zone ne, dels (schedule ops) zone ne ↔ R zone ne) as Hdels'.
  { intros zone ne. rewrite <-Hdels. unfold dels. by setoid_rewrite Hsched. }
  apply wp_bind. eapply wp_mono; [apply operations_ok; [done|..]|..]; cbv beta.
  - apply Forall_forall. intros o Ho%Hsched. apply elem_of_app in Ho as [Ho|Ho].
    + destruct (Hd1 o Ho) as (z&nes&->&Hz&Hall). simpl. eapply Forall_impl; [exact Hall|].
      apply range_keys in Hz as [E HE]. apply (HR z E HE).
    + destruct (Ha1 o Ho) as (z&nes&->&Hz&Hall). simpl. eapply Forall_impl; [exact Hall|].
      apply range_keys in Hz as [E HE]. apply (HA z E HE).
  - intros z ne. rewrite Hadds', Hdels'. apply Hdisj.
  - intros es w' [_ Hes]. unfold retAggregate. case_decide as He; [apply wp_ret|by apply wp_throw].
    intros z ne. by rewrite Hes, Hadds', Hdels'.
  - done.
Qed.

Lemma wants_wf ep zone ne : wf_endpoints ep → wants ep zone ne → wf_ne ne.
Proof.
  intros Hep (sub&a&node&port&Hsub&Ha&Hnode&_&Hport&->). destruct (Hep sub Hsub) as [Hports Haddrs].
  destruct (Haddrs a Ha) as (Hip&node'&Hnode'&Hlacks). simplify_eq. split; [done|]. split; [done|]. simpl.
  unfold portOf in Hport. assert (∃ f, ep_Port <$> List.find f (es_Ports sub) = Some port) as [f Hf]
    by (case_decide; eauto).
  apply fmap_Some in Hf as (p&[Hin%list_elem_of_In _]%List.find_some&->). specialize (Hports p Hin). lia.
Qed.

(** The last step of a sync, once the maps are known. *)
Lemma differences_ok ep (target current : ZoneMap) w :
  ninv w → wf_endpoints ep →
  (∀ zone x, in_zone target zone x ↔ ∃ ne, wants ep zone ne ∧ x = encodeNE ne) →
  (∀ zone x, in_zone current zone x ↔
     zone ∈ listedZones ∧ ∃ ne, ne ∈ negv w name zone ∧ x = encodeNE ne) →
  wp (let '(addEndpoints, removeEndpoints) := calculateDifference target current in
      if decide (size addEndpoints = 0 ∧ size removeEndpoints = 0) then mret tt
      else syncer_syncNetworkEndpoints s addEndpoints removeEndpoints)
    (λ _ w', ∀ zone ne, zone ∈ listedZones → ne ∈ negv w' name zone ↔ wants ep zone ne)
    (λ _ _, True) w.
Proof.
  intros Hw Hep Htarget Hcurrent. destruct (calculateDifference_ok target current) as [[Hadd Hadd'] [Hrem Hrem']].
  destruct (calculateDifference target current) as [add rem]. cbn [fst snd] in *.
  assert (∀ zone ne, wf_ne ne → in_zone target zone (encodeNE ne) ↔ wants ep zone ne) as Ht.
  { intros zone ne Hne. rewrite Htarget. split; [|eauto]. intros (ne'&Hw'&He).
    apply encodeNE_inj in He as ->; eauto using wants_wf. }
  assert (∀ zone ne, wf_ne ne → in_zone current zone (encodeNE ne) ↔
    zone ∈ listedZones ∧ ne ∈ negv w name zone) as Hc.
  { intros zone ne Hne. rewrite Hcurrent. split; [|naive_solver]. intros (Hz&ne'&Hw'&He). split; [done|].
    apply encodeNE_inj in He as ->; eauto using negv_wf. }
  set (A := λ zone ne, wf_ne ne ∧ in_zone add zone (encodeNE ne)).
  set (R := λ zone ne, wf_ne ne ∧ in_zone rem zone (encodeNE ne)).
  assert (∀ w', (∀ zone ne, ne ∈ negv w' name zone ↔ (ne ∈ negv w name zone ∧ ¬ R zone ne) ∨ A zone ne) →
    ∀ zone ne, zone ∈ listedZones → ne ∈ negv w' name zone ↔ wants ep zone ne) as Hfin.
  { intros w' Hw' zone ne Hz. rewrite Hw'. unfold A, R. rewrite Hadd, Hrem.
    destruct (decide (wf_ne ne)) as [Hne|Hne]; last first.
    { split; [intros [[Hin _]|[? _]]; [destruct Hne; by eapply negv_wf|done]|].
      intros Hwants. destruct Hne. by eapply wants_wf. }
    rewrite Hc by done. rewrite <-(Ht zone ne), in_zone_default by done.
    destruct (decide (encodeNE ne ∈ default ∅ (target !! zone))), (decide (ne ∈ negv w name zone)); tauto. }
  assert (∀ zone x, in_zone add zone x → ∃ ne, wf_ne ne ∧ x = encodeNE ne) as HaddE.
  { intros zone x [(ne&Hne&->)%Htarget _]%Hadd. eauto using wants_wf. }
  assert (∀ zone x, in_zone rem zone x → ∃ ne, wf_ne ne ∧ x = encodeNE ne) as HremE.
  { intros zone x [(_&ne&Hne&->)%Hcurrent _]%Hrem. eauto using negv_wf. }
  case_decide as Hz.
  - apply wp_ret, Hfin. destruct Hz as [->%map_size_empty_inv ->%map_size_empty_inv]. intros zone ne.
    unfold A, R. rewrite !in_zone_default, lookup_empty. simpl. set_solver.
  - eapply wp_mono; [apply (syncNetworkEndpoints_ok add rem A R); [done|..]| |done].
    + intros zone E HE. split; [by intros ne [? _]|]. intros x. split.
      * intros Hx. destruct (HaddE zone x) as (ne&Hne&->); [by exists E|]. exists ne. split; [|done].
        split; [done|]. by exists E.
      * intros (ne&[_ (E'&HE'&Hin)]&->). by simplify_eq.
    + intros zone ne [_ (E&HE&_)]. by eexists.
    + intros zone E HE. split; [by intros ne [? _]|]. intros x. split.
      * intros Hx. destruct (HremE zone x) as (ne&Hne&->); [by exists E|]. exists ne. split; [|done].
        split; [done|]. by exists E.
      * intros (ne&[_ (E'&HE'&Hin)]&->). by simplify_eq.
    + intros zone ne [_ (E&HE&_)]. by eexists.
    + intros zone ne [_ [? ?]%Hadd] [_ [? ?]%Hrem]. done.
    + intros ? w'. apply Hfin.
Qed.

(** C7. A sync that is not skipped (the syncer is active and the service has
    an Endpoints object) and succeeds makes the network endpoint groups follow the
    endpoints: in every zone the cluster uses, the group of the service port
    holds exactly the endpoints of the service, that is the address of each
    endpoint on a node of the zone, with its node and the port that matches the
    target port by number or by name. This holds whatever order Go's maps and
    sets are visited in, and whatever order the attach and detach calls run in. *)
Theorem sync_converges ep w :
  ninv w → wf_targetPort → wf_endpoints ep →
  (∀ w1, ninv w1 → wp (sy_endpointLister s (svp_namespace (sy_servicePort s)) (svp_name (sy_servicePort s)))
     (λ o w', o = Some ep ∧ ninv w') (λ _ _, True) w1) →
  wp (syncer_sync s true)
    (λ _ w', ∀ zone ne, zone ∈ listedZones → ne ∈ negv w' name zone ↔ wants ep zone ne)
    (λ _ _, True) w.
Proof.
  intros Hw Htp Hep Hlister. unfold syncer_sync. simpl. apply wp_bind.
  eapply wp_mono; [by apply Hlister| |done]. intros o w1 [-> Hw1]. apply wp_bind.
  eapply wp_mono; [by apply ensure_ok| |done]. intros ? w2 Hw2. apply wp_bind.
  eapply wp_mono; [by apply addSubsets_ok| |done]. intros target w3 (Hw3&Hv3&Ht). apply wp_bind.
  unfold syncer_retrieveExistingZoneNetworkEndpointMap. apply wp_bind.
  eapply wp_mono; [by apply negListZones_ok| |done]. intros zs w4 (->&Hw4&Hv4).
  eapply wp_mono; [by apply retrieveZones_ok| |done]. intros current w5 (Hw5&Hv5&Hc).
  assert (∀ zone x, in_zone target zone x ↔ ∃ ne, wants ep zone ne ∧ x = encodeNE ne) as Htarget.
  { intros zone x. rewrite Ht. rewrite in_zone_default, lookup_empty. simpl. set_solver. }
  assert (∀ zone x, in_zone current zone x ↔
    zone ∈ listedZones ∧ ∃ ne, ne ∈ negv w5 name zone ∧ x = encodeNE ne) as Hcurrent.
  { intros zone x. destruct (Hc zone) as [Hin Hout]. rewrite Hv5. destruct (decide (zone ∈ listedZones)).
    - rewrite Hin by done. tauto.
    - rewrite in_zone_default, Hout, lookup_empty by done. simpl. set_solver. }
  by apply differences_ok.
Qed.
End converge.
