(* ===== verification/NegFakes.v ===== *)
(** * NegFakes: pkg/networkendpointgroup/fakes.go

    The fake cloud and zone getter of the tests of the network endpoint group
    controller. They keep the promises [NegSyncerSpec] relies on, which the
    witnesses of its theorems use. *)

From S2P Require Import Prelude GoLang GoStrings Compute Utils Instances NegSyncer NegSyncerSpec.

Definition TestZone1 : string := "zone1".
Definition TestZone2 : string := "zone2".
Definition TestInstance1 : string := "instance1".
Definition TestInstance2 : string := "instance2".
Definition TestInstance3 : string := "instance3".
Definition TestInstance4 : string := "instance4".
Definition NotFoundError : error := Errorf "Not Found" [] [].

(** ** The zone getter *)

Record fakeZoneGetter := MkFakeZoneGetter { zoneInstanceMap : gmap string (gset string) }.
Definition NewFakeZoneGetter : fakeZoneGetter := MkFakeZoneGetter
  {[ TestZone1 := {[TestInstance1; TestInstance2]}; TestZone2 := {[TestInstance3; TestInstance4]} ]}.

Definition FakeZone_ListZones `{MapRange} (f : fakeZoneGetter) : list string := (range (zoneInstanceMap f)).*1.
(** [None] is [NotFoundError]. *)
Definition FakeZone_GetZoneForNode `{MapRange} (f : fakeZoneGetter) (name : string) : option string :=
  fst <$> List.find (λ zi, bool_decide (name ∈ zi.2)) (range (zoneInstanceMap f)).

(** ** The cloud *)

Record FakeNEGCloud := MkFakeNEGCloud {
  fnc_NetworkEndpointGroups : gmap string (list NetworkEndpointGroup);
  fnc_NetworkEndpoints : gmap string (list NetworkEndpoint);
  fnc_Subnetwork : string;
  fnc_Network : string;
}.
Definition fnc_set (negs : gmap string (list NetworkEndpointGroup)) (nes : gmap string (list NetworkEndpoint))
    (f : FakeNEGCloud) : FakeNEGCloud := MkFakeNEGCloud negs nes (fnc_Subnetwork f) (fnc_Network f).
Definition NewFakeNetworkEndpointGroupCloud (subnetwork network : string) : FakeNEGCloud :=
  MkFakeNEGCloud ∅ ∅ subnetwork network.

Definition networkEndpointKey (name zone : string) : string := zone +:+ "-" +:+ name.

Definition FakeNEG_Get (name zone : string) : M FakeNEGCloud NetworkEndpointGroup :=
  negs ← getW fnc_NetworkEndpointGroups;
  match List.find (λ neg, bool_decide (neg_Name neg = name)) (default [] (negs !! zone)) with
  | Some neg => mret neg
  | None => throw NotFoundError
  end.
Definition FakeNEG_List (zone : string) : M FakeNEGCloud (list NetworkEndpointGroup) :=
  getW (λ f, default [] (fnc_NetworkEndpointGroups f !! zone)).
Definition FakeNEG_AggregatedList : M FakeNEGCloud (gmap string (list NetworkEndpointGroup)) :=
  getW fnc_NetworkEndpointGroups.
Definition FakeNEG_Create (neg : NetworkEndpointGroup) (zone : string) : M FakeNEGCloud unit :=
  let neg := MkNetworkEndpointGroup (neg_Name neg) (neg_Type neg) (neg_NetworkEndpointType neg)
    (neg_Network neg) (neg_Subnetwork neg)
    ("https://fake.google.com/compute/" +:+ zone +:+ "/NetworkEndpointGroup/" +:+ neg_Name neg) in
  modW (λ f, fnc_set
    (<[zone := default [] (fnc_NetworkEndpointGroups f !! zone) ++ [neg]]> (fnc_NetworkEndpointGroups f))
    (<[networkEndpointKey (neg_Name neg) zone := []]> (fnc_NetworkEndpoints f)) f).
(** The endpoints go even when the group is not found. *)
Definition FakeNEG_Delete (name zone : string) : M FakeNEGCloud unit :=
  _ ← modW (λ f, fnc_set (fnc_NetworkEndpointGroups f)
        (delete (networkEndpointKey name zone) (fnc_NetworkEndpoints f)) f);
  negs ← getW (λ f, default [] (fnc_NetworkEndpointGroups f !! zone));
  if existsb (λ neg, bool_decide (neg_Name neg = name)) negs then
    modW (λ f, fnc_set
      (<[zone := filter (λ neg, neg_Name neg ≠ name) negs]> (fnc_NetworkEndpointGroups f))
      (fnc_NetworkEndpoints f) f)
  else throw NotFoundError.
Definition FakeNEG_Attach (name zone : string) (endpoints : list NetworkEndpoint) : M FakeNEGCloud unit :=
  let key := networkEndpointKey name zone in
  modW (λ f, fnc_set (fnc_NetworkEndpointGroups f)
    (<[key := default [] (fnc_NetworkEndpoints f !! key) ++ endpoints]> (fnc_NetworkEndpoints f)) f).
Definition FakeNEG_Detach (name zone : string) (endpoints : list NetworkEndpoint) : M FakeNEGCloud unit :=
  let key := networkEndpointKey name zone in
  modW (λ f, fnc_set (fnc_NetworkEndpointGroups f)
    (<[key := filter (λ ne, ne ∉ endpoints) (default [] (fnc_NetworkEndpoints f !! key))]>
      (fnc_NetworkEndpoints f)) f).
Definition FakeNEG_ListEndpoints (name zone : string) (showHealthStatus : bool) :
    M FakeNEGCloud (list NetworkEndpoint) :=
  nes ← getW (λ f, fnc_NetworkEndpoints f !! networkEndpointKey name zone);
  match nes with
  | Some nes => mret nes
  | None => throw NotFoundError
  end.

(** [NetworkURL] and [SubnetworkURL] are fields of the fake. *)
Definition FakeNEG_cloud (fake : FakeNEGCloud) : NEGCloud FakeNEGCloud := {|
  negc_Get := FakeNEG_Get;
  negc_List := FakeNEG_List;
  negc_AggregatedList := FakeNEG_AggregatedList;
  negc_Create := FakeNEG_Create;
  negc_Delete := FakeNEG_Delete;
  negc_Attach := FakeNEG_Attach;
  negc_Detach := FakeNEG_Detach;
  negc_ListEndpoints := FakeNEG_ListEndpoints;
  negc_NetworkURL := fnc_Network fake;
  negc_SubnetworkURL := fnc_Subnetwork fake;
|}.

(** ** The promises *)

Lemma networkEndpointKey_zone name z z' : networkEndpointKey name z = networkEndpointKey name z' → z = z'.
Proof. unfold networkEndpointKey. apply str_app_inj_tail. Qed.

Section laws.
Context `{MapRange} (fake : FakeNEGCloud) (zones : fakeZoneGetter).

#[local] Instance Fake_zones : ZoneLister FakeNEGCloud := {|
  zl_ListZones := mret (FakeZone_ListZones zones);
  zl_GetZoneForNode := λ node,
    match FakeZone_GetZoneForNode zones node with Some z => mret z | None => throw NotFoundError end;
|}.
#[local] Instance Fake_negworld : NEGWorld FakeNEGCloud := {|
  negv := λ f n z, list_to_set (default [] (fnc_NetworkEndpoints f !! networkEndpointKey n z));
  zoneOf := FakeZone_GetZoneForNode zones;
  listedZones := FakeZone_ListZones zones;
  ninv := λ f, ∀ k nes, fnc_NetworkEndpoints f !! k = Some nes → Forall wf_ne nes;
|}.

Lemma ninv_insert f k nes negs :
  ninv f → Forall wf_ne nes → ninv (fnc_set negs (<[k := nes]> (fnc_NetworkEndpoints f)) f).
Proof. intros Hf Hnes k' nes'. simpl. intros [[_ <-]|[_ ?]]%lookup_insert_Some; [done|eauto]. Qed.
Lemma ninv_default f k : ninv f → Forall wf_ne (default [] (fnc_NetworkEndpoints f !! k)).
Proof.
  intros Hf. destruct (fnc_NetworkEndpoints f !! k) as [nes|] eqn:Hk; [by eapply Hf|by apply Forall_nil].
Qed.

Lemma fake_neg_laws : @NEGLaws FakeNEGCloud (FakeNEG_cloud fake) _ _.
Proof.
  split.
  - intros f n z ne Hf Hin%elem_of_list_to_set. simpl in *.
    pose proof (ninv_default f (networkEndpointKey n z) Hf) as Hall. rewrite Forall_forall in Hall. auto.
  - intros f Hf. by apply wp_ret.
  - intros node f Hf. simpl. case_match; [by apply wp_ret|by apply wp_throw].
  - intros n z f Hf. simpl. unfold FakeNEG_Get. apply wp_bind, wp_getW. case_match; [by apply wp_ret|by apply wp_throw].
  - intros neg z f Hf. simpl. apply wp_modW. apply ninv_insert; [done|by apply Forall_nil].
  - intros n z f Hf. simpl. unfold FakeNEG_Delete. apply wp_bind, wp_modW, wp_bind, wp_getW.
    assert (∀ negs, ninv (fnc_set negs (delete (networkEndpointKey n z) (fnc_NetworkEndpoints f)) f)) as Hd.
    { intros negs k nes. simpl. intros [_ ?]%lookup_delete_Some. by eapply Hf. }
    case_match; [apply wp_modW|apply wp_throw]; apply Hd.
  - intros n z b f Hf. simpl. unfold FakeNEG_ListEndpoints. apply wp_bind, wp_getW.
    case_match eqn:Hk; [apply wp_ret|by apply wp_throw]. split; [done|]. split; [done|].
    intros ne. rewrite elem_of_list_to_set. done.
  - intros n z nes f Hf Hnes. simpl. apply wp_modW. split; [|split].
    + apply ninv_insert; [done|]. apply Forall_app. by split; [apply ninv_default|].
    + intros ne. simpl. rewrite lookup_insert_eq. simpl. rewrite !elem_of_list_to_set. apply elem_of_app.
    + intros z' Hz. simpl. rewrite lookup_insert_ne; [done|]. intros He%networkEndpointKey_zone. done.
  - intros n z nes f Hf Hnes. simpl. apply wp_modW. split; [|split].
    + apply ninv_insert; [done|]. apply Forall_forall. intros ne [_ Hin]%list_elem_of_filter.
      pose proof (ninv_default f (networkEndpointKey n z) Hf) as Hall. rewrite Forall_forall in Hall. auto.
    + intros ne. simpl. rewrite lookup_insert_eq. simpl. rewrite !elem_of_list_to_set, list_elem_of_filter. tauto.
    + intros z' Hz. simpl. rewrite lookup_insert_ne; [done|]. intros He%networkEndpointKey_zone. done.
Qed.
End laws.

(** ** Witnesses *)

Definition ex_pop : PopAny.
Proof.
  refine {| pick := λ s, head (elements s) |}.
  - intros s. destruct (elements s) as [|x l] eqn:He; simpl.
    + split; [|done]. intros _. apply elements_empty_inv in He. by apply leibniz_equiv.
    + split; [done|]. intros ->. by rewrite elements_empty in He.
  - intros s x Hx. apply elem_of_elements. destruct (elements s); [done|]. injection Hx as ->. apply list_elem_of_here.
Defined.
(** The last goroutine runs first. *)
Definition ex_schedule : Schedule :=
  {| schedule := λ A l, reverse l; schedule_perm := λ A l, reverse_Permutation l |}.

Definition ex_ne : NetworkEndpoint := MkNetworkEndpoint TestInstance1 "10.100.1.1" 80.
Lemma batches_spec_witness :
  let P := ex_pop in
  ∃ parts, batches (size ({[encodeNE ex_ne]} : gset string)) (Attach TestZone1) {[encodeNE ex_ne]} =
    (Attach TestZone1 <$> parts, Ok tt) ∧ length parts = 1 ∧ ex_ne ∈ concat parts.
Proof.
  intros P. destruct (batches_spec (Attach TestZone1) {[encodeNE ex_ne]} (λ ne, ne = ex_ne))
    as (parts&Hb&_&_&Hel&Hlen).
  - split; [intros ne ->; by vm_compute|]. intros x. rewrite elem_of_singleton. naive_solver.
  - exists parts. split; [exact Hb|]. split; [rewrite Hlen; by rewrite size_singleton|]. by apply Hel.
Defined.

Definition ex_endpoints : Endpoints :=
  [MkEndpointSubset [MkEndpointAddress "10.100.1.1" (Some TestInstance1); MkEndpointAddress "10.100.3.1" (Some TestInstance3)]
     [MkEndpointPort "http" 80]].
Definition ex_syncer : syncer FakeNEGCloud :=
  MkSyncer (MkServicePort "ns" "svc" "http") "neg1" (λ _ _, mret (Some ex_endpoints)).
Definition ex_negcloud : FakeNEGCloud := NewFakeNetworkEndpointGroupCloud "subnet" "net".
Lemma sync_converges_witness :
  let R := sortedRange in let P := ex_pop in let S := ex_schedule in
  let C := FakeNEG_cloud ex_negcloud in let Z := Fake_zones NewFakeZoneGetter in
  wp (syncer_sync ex_syncer true)
    (λ _ f, ex_ne ∈ default [] (fnc_NetworkEndpoints f !! "zone1-neg1")) (λ _ _, True) ex_negcloud.
Proof.
  intros R P S C Z. pose (NW := Fake_negworld NewFakeZoneGetter).
  pose (L := fake_neg_laws ex_negcloud NewFakeZoneGetter).
  eapply wp_mono; [eapply (sync_converges ex_syncer ex_endpoints ex_negcloud)| |done].
  - intros k nes Hk. discriminate Hk.
  - intros Hn. by destruct Hn.
  - intros sub ->%list_elem_of_singleton. split.
    + intros p ->%list_elem_of_singleton. simpl. lia.
    + intros a [->|[->|[]%elem_of_nil]%elem_of_cons]%elem_of_cons; (split; [done|]); by eexists.
  - intros w Hw. by apply wp_ret.
  - intros ? f Hf. cbv beta in Hf. specialize (Hf TestZone1 ex_ne). apply (elem_of_list_to_set (C := gset NetworkEndpoint)).
    apply Hf; [vm_compute; apply list_elem_of_here|].
    eexists _, _, TestInstance1, 80%Z. split; [apply list_elem_of_here|]. split; [apply list_elem_of_here|].
    split; [done|]. split; [by vm_compute|]. by split.
Defined.
