(* ===== verification/NegManager.v ===== *)
(** * NegManager: pkg/networkendpointgroup/manager.go

    The manager keeps a syncer per service port that needs a network endpoint
    group. Its methods run under its mutex; between two of them the goroutines
    of the syncers go on, and so does a garbage collection, which takes the
    mutex once for the list of stopped syncers and once for each of them. A
    syncer is the system of [NegSyncerSM], whose caller is the manager. *)

From S2P Require Import Prelude GoLang GoStrings Compute Utils Namer NegSyncer NegSyncerSM.

Record serviceKey := MkServiceKey { sk_namespace : string; sk_name : string }.
Global Instance serviceKey_eq_dec : EqDecision serviceKey.
Proof. solve_decision. Defined.
Global Instance serviceKey_countable : Countable serviceKey.
Proof. refine (inj_countable' (λ s, (sk_namespace s, sk_name s)) (λ '(a, b), MkServiceKey a b) _). by intros []. Defined.

Definition getSyncerKey (namespace name port : string) : servicePort := MkServicePort namespace name port.
Definition getServiceKey (namespace name : string) : serviceKey := MkServiceKey namespace name.
(** The service of a syncer. *)
Definition keyOf (k : servicePort) : serviceKey := MkServiceKey (svp_namespace k) (svp_name k).

(** [networkEndpointGroupNamer]; [None] is a panic. *)
Class NEGNamer := {
  ngn_NEG : string → string → string → option string;
  ngn_IsNEG : string → bool;
}.
Definition Namer_negNamer (n : Namer) : NEGNamer :=
  {| ngn_NEG := Namer_NEG n; ngn_IsNEG := Namer_IsNEG n |}.
(** ** A syncer, called by the manager *)

Record managed := MkManaged { ms_negName : string; ms_system : system }.

(** A call of a method, without the interleavings: nothing of the goroutine
    that [Start] reads changes while it runs, except that a test of
    [shuttingDown] may come out false, as if the goroutine had returned before. *)
Definition call_Start (k : servicePort) : M system unit := λ y,
  let args := [svp_namespace k; svp_name k; svp_targetPort k] in
  if negb (syncer_IsStopped (sm_state y)) then (Err (Errorf "NEG syncer for %s/%s-%s is already running." args []), y)
  else if syncer_IsShuttingDown (sm_state y) then (Err (Errorf "NEG syncer for %s/%s-%s is shutting down. " args []), y)
  else (Ok tt, MkSystem (syncer_init (sm_state y)) (sm_caller y) (AtSync :: sm_routines y)).
Definition call_Stop : M system unit := λ y,
  match syncer_Stop (sm_state y) with
  | Some s => (Ok tt, MkSystem s (sm_caller y) (sm_routines y))
  | None => (Panic, y)
  end.
Definition call_Sync : M system bool := λ y,
  if syncer_IsStopped (sm_state y) then (Ok false, y) else
  match sendCh (ss_syncCh (sm_state y)) with
  | Some (ch, sent) => (Ok sent, MkSystem (set_syncCh ch (sm_state y)) (sm_caller y) (sm_routines y))
  | None => (Panic, y)
  end.

(** ** The manager *)

Record syncerManager := MkManager {
  mg_svcPortMap : gmap serviceKey (gset string);
  mg_syncerMap : gmap servicePort managed;
}.
Definition set_svcPortMap (f : gmap serviceKey (gset string) → gmap serviceKey (gset string)) (m : syncerManager) :
  syncerManager := MkManager (f (mg_svcPortMap m)) (mg_syncerMap m).
Definition set_syncerMap (f : gmap servicePort managed → gmap servicePort managed) (m : syncerManager) :
  syncerManager := MkManager (mg_svcPortMap m) (f (mg_syncerMap m)).
Definition newSyncerManager : syncerManager := MkManager ∅ ∅.

(** Call a method of the syncer of a key, if there is one. *)
Definition onSyncer {A} (k : servicePort) (f : M system A) : M syncerManager (option A) := λ m,
  match mg_syncerMap m !! k with
  | None => (Ok None, m)
  | Some s =>
      let '(r, y) := f (ms_system s) in
      (match r with Ok a => Ok (Some a) | Err e => Err e | Panic => Panic end,
       set_syncerMap <[k := MkManaged (ms_negName s) y]> m)
  end.

Section manager.
Context `{NEGNamer, !KeyRange servicePort}.

(** The body of the loop over the added ports. *)
Definition manager_startPort (namespace name port : string) : M syncerManager unit :=
  let k := getSyncerKey namespace name port in
  syncer ← getW (λ m, mg_syncerMap m !! k);
  _ ← (if syncer is None then
         negName ← ofOption (ngn_NEG namespace name port);
         modW (set_syncerMap <[k := MkManaged negName (MkSystem newSyncer Idle [])]>)
       else mret tt);
  stopped ← onSyncer k (getW (λ y, syncer_IsStopped (sm_state y)));
  if decide (stopped = Some true) then _ ← onSyncer k (call_Start k); mret tt else mret tt.

Definition manager_EnsureSyncers (namespace name : string) (targetPorts : gset string) : M syncerManager unit :=
  let key := getServiceKey namespace name in
  currentPorts ← getW (λ m, default ∅ (mg_svcPortMap m !! key));
  let removes := sets_List (currentPorts ∖ targetPorts) in
  let adds := sets_List (targetPorts ∖ currentPorts) in
  _ ← modW (set_svcPortMap <[key := targetPorts]>);
  _ ← forEach (λ port, _ ← onSyncer (getSyncerKey namespace name port) call_Stop; mret tt) removes;
  errList ← forErrs (manager_startPort namespace name) adds;
  retAggregate errList.

Definition manager_StopSyncer (namespace name : string) : M syncerManager unit :=
  let key := getServiceKey namespace name in
  ports ← getW (λ m, mg_svcPortMap m !! key);
  match ports with
  | None => mret tt
  | Some ports =>
      _ ← forEach (λ port, _ ← onSyncer (getSyncerKey namespace name port) call_Stop; mret tt) (sets_List ports);
      modW (set_svcPortMap (delete key))
  end.

Definition manager_Sync (namespace name : string) : M syncerManager unit :=
  portList ← getW (λ m, mg_svcPortMap m !! getServiceKey namespace name);
  match portList with
  | None => mret tt
  | Some portList =>
      forEach (λ port,
        let k := getSyncerKey namespace name port in
        stopped ← onSyncer k (getW (λ y, syncer_IsStopped (sm_state y)));
        if decide (stopped = Some false) then _ ← onSyncer k call_Sync; mret tt else mret tt)
        (sets_List portList)
  end.

Definition manager_ShutDown : M syncerManager unit :=
  keys ← getW (λ m, (krange (mg_syncerMap m)).*1);
  forEach (λ k, _ ← onSyncer k call_Stop; mret tt) keys.

Definition manager_getAllStoppedSyncerKeys : M syncerManager (list servicePort) :=
  getW (λ m, (filter (λ ks, syncer_IsStopped (sm_state (ms_system ks.2)) = true) (krange (mg_syncerMap m))).*1).
(** A missing key gives a nil interface, and the call on it panics. *)
Definition manager_garbageCollectSyncer (key : servicePort) : M syncerManager unit :=
  s ← getW (λ m, mg_syncerMap m !! key);
  s ← ofOption s;
  if syncer_IsStopped (sm_state (ms_system s)) && negb (syncer_IsShuttingDown (sm_state (ms_system s)))
  then modW (set_syncerMap (delete key)) else mret tt.

End manager.

(** ** Garbage collection of the groups *)

Section gc.
Context {W : Type} `{NEGCloud W, NEGNamer, !KeyRange servicePort, !KeyRange serviceKey, MapRange}.
Context (mgr : lens W syncerManager).

Definition manager_ensureDeleteNetworkEndpointGroup (name zone : string) : M W unit :=
  r ← try (negc_Get name zone);
  match r with
  | inl _ => mret tt
  | inr _ => negc_Delete name zone
  end.

(** The names of the groups of the cluster, and of those still wanted. *)
Definition clusterNEGs (zoneNEGList : gmap string (list NetworkEndpointGroup)) : gset string :=
  list_to_set (filter (λ n, ngn_IsNEG n = true) (neg_Name <$> concat (range zoneNEGList).*2)).
Fixpoint deleteWanted (l : list (serviceKey * string)) (negNames : gset string) : option (gset string) :=
  match l with
  | [] => Some negNames
  | (key, port) :: l =>
      name ← ngn_NEG (sk_namespace key) (sk_name key) port;
      deleteWanted l (negNames ∖ {[name]})
  end.
Definition wantedPorts (m : syncerManager) : list (serviceKey * string) :=
  concat ((λ kp : serviceKey * gset string, pair kp.1 <$> sets_List kp.2) <$> krange (mg_svcPortMap m)).

Definition manager_garbageCollectNEG : M W unit :=
  r ← try negc_AggregatedList;
  match r with
  | inl err => throw (Errorf "failed to retrieve aggregated NEG list: %v" [] [err])
  | inr zoneNEGList =>
      m ← getW (lget mgr);
      negNames ← ofOption (deleteWanted (wantedPorts m) (clusterNEGs zoneNEGList));
      forEach (λ zone,
        forEach (λ name,
          r ← try (manager_ensureDeleteNetworkEndpointGroup name zone);
          match r with
          | inl err => throw (Errorf "failed to delete NEG %q in %q: %v" [name; zone] [err])
          | inr _ => mret tt
          end) (sets_List negNames)) (range zoneNEGList).*1
  end.

(** The whole collection, when nothing else takes the mutex. *)
Definition manager_GC : M W unit :=
  keys ← zoom mgr manager_getAllStoppedSyncerKeys;
  _ ← forEach (λ k, zoom mgr (manager_garbageCollectSyncer k)) keys;
  r ← try manager_garbageCollectNEG;
  match r with
  | inl err => throw (Errorf "Failed to garbage collect negs: %v" [] [err])
  | inr _ => mret tt
  end.
End gc.
