(* ===== verification/NegManagerSpec.v ===== *)
(** * NegManagerSpec: what the manager of the syncers promises

    The invariant of the manager under every interleaving of its methods with
    the goroutines and with a garbage collection; what [EnsureSyncers] does,
    and how it can lose a start; which groups the garbage collection deletes. *)

From S2P Require Import Prelude GoLang GoStrings Compute Utils NegSyncer NegSyncerSM NegManager.

(** ** Calls on one syncer *)

Definition idle (y : system) : Prop := sm_inv y ∧ sm_caller y = Idle.
Definition running (y : system) : bool := negb (ss_stopped (sm_state y)).

Lemma run_inv l y y' : sm_inv y → run_accesses l y = Next y' → sm_inv y'.
Proof.
  revert y. induction l as [|a l IH]; simpl; intros y Hy; [by intros [= <-]|].
  destruct (access_effect a y) eqn:Ha; try done. apply IH. by eapply inv_step.
Qed.

(** [Start] is the accesses of [NegSyncerSM] one after the other. *)
Lemma call_Start_ok k y :
  idle y → wp (call_Start k)
    (λ _ y', idle y' ∧ running y' = true ∧ running y = false ∧ ss_shuttingDown (sm_state y) = false)
    (λ _ y', y' = y ∧ (running y = true ∨ ss_shuttingDown (sm_state y) = true)) y.
Proof.
  intros [Hy Hc]. unfold wp, call_Start, running, syncer_IsStopped, syncer_IsShuttingDown.
  destruct (ss_stopped (sm_state y)) eqn:Hst; simpl; [|by auto].
  destruct (ss_shuttingDown (sm_state y)) eqn:Hsh; simpl; [by auto|]. split_and!; try done. split; [|done].
  apply (run_inv [CallStart; TestShuttingDown; CallInit; GoRoutine] y); [done|].
  unfold run_accesses, access_effect. simpl. rewrite Hc. unfold syncer_IsStopped. rewrite Hst. simpl.
  unfold syncer_IsShuttingDown. rewrite Hsh. done.
Qed.
Lemma call_Stop_ok y : idle y → wp call_Stop (λ _ y', idle y' ∧ running y' = false) (λ _ _, False) y.
Proof.
  intros [Hy Hc]. pose proof (no_crash CallStop y Hy) as Hn. pose proof (inv_step CallStop y) as Hs.
  unfold access_effect in Hn, Hs. simpl in Hn, Hs. rewrite Hc in Hn, Hs. unfold wp, call_Stop.
  destruct (syncer_Stop (sm_state y)) as [s|] eqn:Hstop; [|done]. split; [split; [by eapply Hs; rewrite ?Hc|done]|].
  unfold syncer_Stop in Hstop. unfold running. simpl. destruct (ss_stopped (sm_state y)) eqn:Hst; simplify_eq/=.
  - by rewrite Hst.
  - destruct (closeCh _); by simplify_eq/=.
Qed.
Lemma call_Sync_ok y : idle y → wp call_Sync (λ _ y', idle y' ∧ running y' = running y) (λ _ _, False) y.
Proof.
  intros [Hy Hc]. unfold wp, call_Sync. destruct (syncer_IsStopped (sm_state y)) eqn:Hst; [by split|].
  pose proof (run_inv [CallSync; CallSend] y) as Hs. unfold run_accesses, access_effect in Hs. simpl in Hs.
  rewrite Hc, Hst in Hs. simpl in Hs.
  assert (sm_inv (MkSystem (sm_state y) Syncing (sm_routines y))) as Hsyncing.
  { apply (inv_step CallSync y); [done|]. unfold access_effect. simpl. by rewrite Hc, Hst. }
  pose proof (no_crash CallSend _ Hsyncing) as Hn. unfold access_effect in Hn. simpl in Hn.
  destruct (sendCh _) as [[ch sent]|]; [|done]. split; [|done]. split; [|done]. simpl in Hs |- *. rewrite Hc. by eapply Hs.
Qed.

(** ** The invariant of the manager *)

Section manager.
Context `{NEGNamer, !KeyRange servicePort}.
Implicit Types m : syncerManager.

Definition entry_ok (k : servicePort) (s : managed) : Prop :=
  idle (ms_system s) ∧ ngn_NEG (svp_namespace k) (svp_name k) (svp_targetPort k) = Some (ms_negName s).
Definition entries_ok m : Prop := ∀ k s, mg_syncerMap m !! k = Some s → entry_ok k s.
Definition runs m (k : servicePort) : bool :=
  match mg_syncerMap m !! k with Some s => running (ms_system s) | None => false end.
Definition shutting m (k : servicePort) : bool :=
  match mg_syncerMap m !! k with Some s => ss_shuttingDown (sm_state (ms_system s)) | None => false end.
Definition portsOf m (key : serviceKey) : gset string := default ∅ (mg_svcPortMap m !! key).
Definition wantedPort m (k : servicePort) : Prop := svp_targetPort k ∈ portsOf m (keyOf k).
Definition minv m : Prop := entries_ok m ∧ ∀ k, runs m k = true → wantedPort m k.

(** A call that touches only the syncer of [k]. *)
Definition only (k : servicePort) m m' : Prop :=
  mg_svcPortMap m' = mg_svcPortMap m ∧ ∀ k', k' ≠ k → mg_syncerMap m' !! k' = mg_syncerMap m !! k'.
Lemma only_refl k m : only k m m.
Proof. by split. Qed.

Lemma wp_onSyncer {A} k (f : M system A) (Q : option A → syncerManager → Prop) (E : error → syncerManager → Prop) m :
  entries_ok m →
  (∀ s, mg_syncerMap m !! k = Some s → wp f
    (λ a y, idle y ∧ Q (Some a) (set_syncerMap <[k := MkManaged (ms_negName s) y]> m))
    (λ e y, idle y ∧ E e (set_syncerMap <[k := MkManaged (ms_negName s) y]> m)) (ms_system s)) →
  (mg_syncerMap m !! k = None → Q None m) →
  wp (onSyncer k f)
    (λ a m', entries_ok m' ∧ only k m m' ∧ Q a m') (λ e m', entries_ok m' ∧ only k m m' ∧ E e m') m.
Proof.
  intros Hok Hf HN. unfold wp, onSyncer. destruct (mg_syncerMap m !! k) as [s|] eqn:Hk; [|by split_and!; eauto].
  specialize (Hf s eq_refl). unfold wp in Hf.
  assert (∀ y, idle y → entries_ok (set_syncerMap <[k := MkManaged (ms_negName s) y]> m) ∧
    only k m (set_syncerMap <[k := MkManaged (ms_negName s) y]> m)) as Hins.
  { intros y Hy. split.
    - intros k' s'. simpl. intros [[<- <-]|[_ ?]]%lookup_insert_Some; [|eauto]. split; [done|]. by apply Hok in Hk as [_ ?].
    - split; [done|]. intros k' Hne. simpl. by rewrite lookup_insert_ne. }
  destruct (f (ms_system s)) as [[a|e|] y]; [| |done]; destruct Hf as [Hy ?]; destruct (Hins y Hy); by split_and!.
Qed.

Lemma onSyncer_Stop_ok k m :
  entries_ok m → wp (_ ← onSyncer k call_Stop; mret tt)
    (λ _ m', entries_ok m' ∧ only k m m' ∧ runs m' k = false) (λ _ _, False) m.
Proof.
  intros Hok. apply wp_bind. eapply wp_mono.
  - apply (wp_onSyncer k call_Stop (λ _ m', runs m' k = false) (λ _ _, False)); [done| |].
    + intros s Hs. eapply wp_mono; [apply call_Stop_ok; by eapply Hok| |done].
      intros _ y [? Hr]. split; [done|]. unfold runs. simpl. by rewrite lookup_insert_eq.
    + intros Hn. unfold runs. by rewrite Hn.
  - intros a m' Hm'. by apply wp_ret.
  - intros e m1 (_&_&[]).
Qed.

Lemma stop_ports_ok {A} (f : A → servicePort) (ports : list A) m :
  entries_ok m → wp (forEach (λ port, _ ← onSyncer (f port) call_Stop; mret tt) ports)
    (λ _ m', entries_ok m' ∧ mg_svcPortMap m' = mg_svcPortMap m ∧
      (∀ k, k ∈ f <$> ports → runs m' k = false) ∧
      (∀ k, k ∉ f <$> ports → mg_syncerMap m' !! k = mg_syncerMap m !! k)) (λ _ _, False) m.
Proof.
  intros Hok. apply (wp_forEach _ ports (λ d m', entries_ok m' ∧ mg_svcPortMap m' = mg_svcPortMap m ∧
      (∀ k, k ∈ f <$> d → runs m' k = false) ∧
      (∀ k, k ∉ f <$> d → mg_syncerMap m' !! k = mg_syncerMap m !! k))).
  - split_and!; try done. intros k []%elem_of_nil.
  - intros d x m1 _ (Hok1&Hsvc&Hst&Hfr). eapply wp_mono; [by apply onSyncer_Stop_ok| |done].
    intros _ m2 (Hok2&[Hsvc2 Hfr2]&Hr). split; [done|]. split; [congruence|]. rewrite fmap_app.
    split; intros k Hk.
    + destruct (decide (k = f x)) as [->|Hne]; [done|]. unfold runs. rewrite Hfr2 by done. apply Hst.
      apply elem_of_app in Hk as [?|Hk]; [done|]. by apply list_elem_of_singleton in Hk.
    + rewrite not_elem_of_app in Hk. destruct Hk as [Hk Hne]. rewrite Hfr2; [by apply Hfr|].
      intros ->. apply Hne, list_elem_of_here.
Qed.

(** The loop over the added ports: a syncer that is not shutting down runs. *)
Lemma startPort_ok ns name port m :
  let k := getSyncerKey ns name port in
  entries_ok m → is_Some (ngn_NEG ns name port) →
  wp (manager_startPort ns name port)
    (λ _ m', entries_ok m' ∧ only k m m' ∧ shutting m k = false ∧ runs m' k = true)
    (λ _ m', entries_ok m' ∧ only k m m' ∧ shutting m k = true ∧ runs m' k = false) m.
Proof.
  intros k Hok [negName Hneg]. unfold manager_startPort. fold k. apply wp_bind, wp_getW, wp_bind.
  assert (∀ m1, entries_ok m1 → only k m m1 → is_Some (mg_syncerMap m1 !! k) → shutting m1 k = shutting m k →
    wp (stopped ← onSyncer k (getW (λ y, syncer_IsStopped (sm_state y)));
        if decide (stopped = Some true) then _ ← onSyncer k (call_Start k); mret tt else mret tt)
    (λ _ m', entries_ok m' ∧ only k m m' ∧ shutting m k = false ∧ runs m' k = true)
    (λ _ m', entries_ok m' ∧ only k m m' ∧ shutting m k = true ∧ runs m' k = false) m1) as Hgo.
  { intros m1 Hok1 [Hsvc1 Hfr1] [s Hs] Hsh. destruct (Hok1 _ _ Hs) as [Hidle _].
    apply wp_bind. unfold onSyncer at 1, wp at 1, getW at 1. rewrite Hs. cbn.
    replace (MkManaged (ms_negName s) (ms_system s)) with s by (by destruct s).
    rewrite <-Hsh. clear Hsh. unfold set_syncerMap. rewrite insert_id by done.
    assert (Hm1 : MkManager (mg_svcPortMap m1) (mg_syncerMap m1) = m1) by (by destruct m1). rewrite Hm1.
    case_decide as Hst.
    - apply wp_bind. eapply wp_mono.
      + apply (wp_onSyncer k (call_Start k) (λ _ m', runs m' k = true ∧ shutting m1 k = false)
          (λ _ m', runs m' k = false ∧ shutting m1 k = true)); [done| |by rewrite Hs].
        intros s' Hs'. simplify_eq.
        assert (∀ y, runs (set_syncerMap <[k := MkManaged (ms_negName s) y]> m1) k = running y) as Hins.
        { intros y. unfold runs. simpl. by rewrite lookup_insert_eq. }
        assert (running (ms_system s) = false) as Hnr.
        { unfold running. unfold syncer_IsStopped in Hst. by rewrite Hst. }
        unfold shutting. rewrite Hs.
        eapply wp_mono; [by apply (call_Start_ok k)|intros _ y (?&?&?&?); by rewrite Hins|].
        intros e y [-> [?|?]]; [congruence|by rewrite Hins].
      + intros _ m2 (?&[Hsvc2 Hfr2]&?&?). apply wp_ret. split_and!; [done| |done|done].
        split; [congruence|]. intros k' Hne. rewrite Hfr2; auto.
      + intros _ m2 (?&[Hsvc2 Hfr2]&?&?). split_and!; [done| |done|done].
        split; [congruence|]. intros k' Hne. rewrite Hfr2; auto.
    - apply wp_ret. split_and!; [done|by split| |].
      + unfold shutting. rewrite Hs. unfold syncer_IsStopped in Hst. destruct Hidle as [(_&Hl&_) _].
        unfold lifecycle in Hl. destruct (ss_stopped (sm_state (ms_system s))), (ss_shuttingDown _); done.
      + unfold runs. rewrite Hs. unfold syncer_IsStopped in Hst. unfold running. destruct (ss_stopped (sm_state (ms_system s))); done. }
  destruct (mg_syncerMap m !! k) as [s|] eqn:Hk.
  - apply wp_ret. apply Hgo; [done|apply only_refl|by eexists|done].
  - rewrite Hneg. apply wp_bind, wp_ret, wp_modW. apply Hgo.
    + intros k' s'. simpl. intros [[<- <-]|[_ ?]]%lookup_insert_Some; [|eauto].
      split; [|done]. split; [apply inv_start|done].
    + split; [done|]. intros k' Hne. simpl. by rewrite lookup_insert_ne.
    + simpl. rewrite lookup_insert_eq. by eexists.
    + unfold shutting. simpl. by rewrite lookup_insert_eq, Hk.
Qed.

Lemma startPorts_ok ns name ports m :
  let k := getSyncerKey ns name in
  entries_ok m → (∀ p, p ∈ ports → is_Some (ngn_NEG ns name p)) → NoDup ports →
  wp (forErrs (manager_startPort ns name) ports)
    (λ es m', entries_ok m' ∧ mg_svcPortMap m' = mg_svcPortMap m ∧
      (∀ k', (∀ p, p ∈ ports → k' ≠ k p) → mg_syncerMap m' !! k' = mg_syncerMap m !! k') ∧
      (∀ p, p ∈ ports → runs m' (k p) = negb (shutting m (k p))) ∧
      (es = [] ↔ ∀ p, p ∈ ports → shutting m (k p) = false)) (λ _ _, False) m.
Proof.
  intros k. revert m. induction ports as [|p ports IH]; intros m Hok Hneg Hnd; simpl.
  { apply wp_ret. split_and!; try done; [by intros p []%elem_of_nil|]. split; [by intros _ p []%elem_of_nil|done]. }
  apply NoDup_cons in Hnd as [Hp Hnd].
  assert (∀ m1 (b : bool) (r : error + unit), entries_ok m1 → only (k p) m m1 → shutting m (k p) = b →
    runs m1 (k p) = negb b → (r = inr tt ↔ b = false) →
    wp (es ← forErrs (manager_startPort ns name) ports;
        mret (match r with inl e => e :: es | inr _ => es end))
    (λ es m', entries_ok m' ∧ mg_svcPortMap m' = mg_svcPortMap m ∧
      (∀ k', (∀ q, q ∈ p :: ports → k' ≠ k q) → mg_syncerMap m' !! k' = mg_syncerMap m !! k') ∧
      (∀ q, q ∈ p :: ports → runs m' (k q) = negb (shutting m (k q))) ∧
      (es = [] ↔ ∀ q, q ∈ p :: ports → shutting m (k q) = false)) (λ _ _, False) m1) as Hrest.
  { intros m1 b r Hok1 [Hsvc1 Hfr1] Hsh Hr Hb. apply wp_bind.
    assert (∀ q, q ∈ ports → k q ≠ k p) as Hne by (intros q Hq [= ->]; done).
    assert (∀ q, q ∈ ports → shutting m1 (k q) = shutting m (k q)) as Hsame.
    { intros q Hq. unfold shutting. by rewrite Hfr1 by (by apply Hne). }
    eapply wp_mono; [apply (IH m1); [done|by intros q Hq; apply Hneg, list_elem_of_further|done]| |done].
    intros es m2 (Hok2&Hsvc2&Hfr2&Hrun&Hes). apply wp_ret. split_and!; [done|congruence|..].
    - intros k' Hk'. rewrite Hfr2 by (intros q Hq; by apply Hk', list_elem_of_further).
      apply Hfr1, Hk', list_elem_of_here.
    - intros q [->|Hq]%elem_of_cons; [|by rewrite Hrun, Hsame].
      unfold runs. rewrite Hfr2 by (intros q Hq ?; by apply (Hne q)). fold (runs m1 (k p)). congruence.
    - rewrite <-Forall_forall, Forall_cons, Forall_forall. trans (r = inr tt ∧ es = []); [|rewrite Hb, Hes, Hsh].
      + destruct r as [|[]]; split; naive_solver.
      + f_equiv. split; intros Hall q Hq; [rewrite <-Hsame|rewrite Hsame]; auto. }
  apply wp_bind, wp_try. eapply wp_mono; [apply (startPort_ok ns name p m); [done|apply Hneg, list_elem_of_here]|..].
  - intros [] m1 (?&?&?&?). by apply (Hrest m1 false (inr tt)).
  - intros e m1 (?&?&?&?). by apply (Hrest m1 true (inl e)).
Qed.

(** What [EnsureSyncers] leaves, with or without an error. *)
Definition ensured ns name (ports : gset string) m m' : Prop :=
  let k := getSyncerKey ns name in let key := getServiceKey ns name in
  minv m' ∧ mg_svcPortMap m' = <[key := ports]> (mg_svcPortMap m) ∧
  (∀ p, p ∈ ports → p ∉ portsOf m key → runs m' (k p) = negb (shutting m (k p))) ∧
  (∀ p, p ∈ ports → p ∈ portsOf m key → runs m' (k p) = runs m (k p)) ∧
  (∀ p, p ∉ ports → runs m' (k p) = false) ∧
  (∀ k', keyOf k' ≠ key → mg_syncerMap m' !! k' = mg_syncerMap m !! k').

Lemma EnsureSyncers_ok ns name ports m :
  let k := getSyncerKey ns name in let key := getServiceKey ns name in
  minv m → (∀ p, p ∈ ports → is_Some (ngn_NEG ns name p)) →
  wp (manager_EnsureSyncers ns name ports)
    (λ _ m', ensured ns name ports m m' ∧ ∀ p, p ∈ ports → p ∉ portsOf m key → shutting m (k p) = false)
    (λ _ m', ensured ns name ports m m' ∧ ¬ ∀ p, p ∈ ports → p ∉ portsOf m key → shutting m (k p) = false) m.
Proof.
  intros k key [Hok Hw] Hneg. unfold manager_EnsureSyncers. fold key.
  apply wp_bind, wp_getW, wp_bind, wp_modW, wp_bind. fold (portsOf m key).
  set (m0 := set_svcPortMap <[key:=ports]> m).
  eapply wp_mono; [apply (stop_ports_ok k); exact Hok| |done].
  intros _ m1 (Hok1&Hsvc1&Hst1&Hfr1). apply wp_bind.
  eapply wp_mono; [apply startPorts_ok; [done| |apply NoDup_sets_List]| |done].
  { intros p [? _]%elem_of_sets_List%elem_of_difference. auto. }
  intros es m2 (Hok2&Hsvc2&Hfr2&Hrun2&Hes).
  assert (∀ p, k p ∈ k <$> sets_List (portsOf m key ∖ ports) ↔ p ∈ portsOf m key ∧ p ∉ ports) as Hrem.
  { intros p. rewrite list_elem_of_fmap. setoid_rewrite elem_of_sets_List. setoid_rewrite elem_of_difference.
    split; [by intros (q&[= ->]&?)|intros ?; by exists p]. }
  assert (∀ k', keyOf k' ≠ key → mg_syncerMap m2 !! k' = mg_syncerMap m !! k') as Hother.
  { intros k' Hne. rewrite Hfr2 by (intros p _ ->; done). rewrite Hfr1; [done|].
    intros (p&->&_)%list_elem_of_fmap. done. }
  assert (∀ p, ¬ (p ∈ ports ∧ p ∉ portsOf m key) → mg_syncerMap m2 !! k p = mg_syncerMap m1 !! k p) as Hkeep2.
  { intros p Hp. apply Hfr2. intros q Hq [= ->]. apply Hp.
    by apply elem_of_sets_List, elem_of_difference in Hq. }
  assert (∀ p, p ∉ portsOf m key → runs m2 (k p) = true → p ∈ ports) as Hnew.
  { intros p Hp Hr. destruct (decide (p ∈ ports)) as [|Hq]; [done|]. exfalso.
    unfold runs in Hr. rewrite Hkeep2 in Hr by tauto. rewrite Hfr1 in Hr by (rewrite Hrem; tauto).
    apply Hp, (Hw (k p)). exact Hr. }
  assert (∀ p, p ∉ ports → runs m2 (k p) = false) as Hgone.
  { intros p Hp. destruct (decide (p ∈ portsOf m key)).
    - unfold runs. rewrite Hkeep2 by tauto. fold (runs m1 (k p)). apply Hst1, Hrem. tauto.
    - destruct (runs m2 (k p)) eqn:Hr; [|done]. apply Hnew in Hr; done. }
  assert (mg_svcPortMap m2 = <[key := ports]> (mg_svcPortMap m)) as Hsvc by (by rewrite Hsvc2, Hsvc1).
  assert (∀ p, p ∉ portsOf m key → shutting m1 (k p) = shutting m (k p)) as Hshut.
  { intros p Hp. unfold shutting. rewrite Hfr1 by (rewrite Hrem; tauto). done. }
  assert (ensured ns name ports m m2) as Hens.
  { split_and!; try done.
    - split; [done|]. intros k' Hr. unfold wantedPort, portsOf. rewrite Hsvc. destruct (decide (keyOf k' = key)) as [Heq|Hne].
      + rewrite Heq, lookup_insert_eq. simpl. destruct k' as [ns' name' p]. injection Heq as -> ->. simpl.
        destruct (decide (p ∈ ports)); [done|]. by rewrite Hgone in Hr.
      + rewrite lookup_insert_ne by done. apply Hw. unfold runs in *. by rewrite Hother in Hr.
    - intros p Hp Hnp. rewrite Hrun2; [by rewrite Hshut|]. by apply elem_of_sets_List, elem_of_difference.
    - intros p Hp Hc. unfold runs. rewrite Hkeep2 by tauto. rewrite Hfr1 by (rewrite Hrem; tauto). done. }
  assert (es = [] ↔ ∀ p, p ∈ ports → p ∉ portsOf m key → shutting m (k p) = false) as Hes'.
  { rewrite Hes. setoid_rewrite elem_of_sets_List. setoid_rewrite elem_of_difference.
    split; intros Hall p; [intros ? ?; rewrite <-Hshut by done; by apply Hall|intros [? ?]; rewrite Hshut by done; by apply Hall]. }
  unfold retAggregate. case_decide; [apply wp_ret|apply wp_throw]; split; [done|tauto|done|tauto].
Qed.

Lemma StopSyncer_ok ns name m : minv m →
  wp (manager_StopSyncer ns name)
    (λ _ m', minv m' ∧ mg_svcPortMap m' !! getServiceKey ns name = None) (λ _ _, False) m.
Proof.
  intros [Hok Hw]. unfold manager_StopSyncer. set (key := getServiceKey ns name). apply wp_bind, wp_getW.
  destruct (mg_svcPortMap m !! key) as [ports|] eqn:Hports; [|by apply wp_ret]. apply wp_bind.
  eapply wp_mono; [by apply (stop_ports_ok (getSyncerKey ns name))| |done].
  intros _ m1 (Hok1&Hsvc1&Hst1&Hfr1). apply wp_modW. split; [|simpl; apply lookup_delete_eq]. split; [done|]. intros k Hr.
  change (runs m1 k = true) in Hr. unfold wantedPort, portsOf. simpl. rewrite Hsvc1.
  destruct (decide (k ∈ getSyncerKey ns name <$> sets_List ports)) as [Hin|Hnin]; [by rewrite Hst1 in Hr|].
  unfold runs in Hr. rewrite Hfr1 in Hr by done. apply Hw in Hr. unfold wantedPort, portsOf in Hr.
  destruct (decide (key = keyOf k)) as [Heq|Hne]; [|by rewrite lookup_delete_ne].
  exfalso. apply Hnin. rewrite <-Heq, Hports in Hr. simpl in Hr. destruct k as [ns' name' p]. injection Heq as <- <-.
  apply list_elem_of_fmap. exists p. split; [done|]. by apply elem_of_sets_List.
Qed.

(** Calls that change no flag but may send: the frame of [Sync]. *)
Lemma managerSync_ok ns name m : minv m → wp (manager_Sync ns name) (λ _, minv) (λ _ _, False) m.
Proof.
  intros Hm. unfold manager_Sync. apply wp_bind, wp_getW.
  destruct (mg_svcPortMap m !! _) as [ports|]; [|by apply wp_ret].
  apply (wp_forEach_inv _ _ minv); [done|]. intros p m1 _ [Hok Hw]. set (k := getSyncerKey ns name p).
  apply wp_bind. unfold onSyncer at 1, wp at 1, getW at 1.
  destruct (mg_syncerMap m1 !! k) as [s|] eqn:Hs; [|by apply wp_ret]. cbn.
  replace (MkManaged (ms_negName s) (ms_system s)) with s by (by destruct s).
  unfold set_syncerMap. rewrite insert_id by done. destruct m1 as [svc sys]. simpl in *.
  case_decide; [|by apply wp_ret]. apply wp_bind. eapply wp_mono.
  - apply (wp_onSyncer k call_Sync (λ _ m', runs m' k = runs (MkManager svc sys) k) (λ _ _, False)); [done| |by simpl; rewrite Hs].
    intros s' Hs'. simpl in Hs'. simplify_eq. eapply wp_mono; [apply call_Sync_ok; by eapply Hok| |done].
    intros b y [? Hr]. split; [done|]. unfold runs. simpl. rewrite lookup_insert_eq. simpl in Hs. by rewrite Hs.
  - intros b m2 (?&[Hsvc Hfr]&Hr). apply wp_ret. split; [done|]. intros k' Hk'.
    unfold wantedPort, portsOf. rewrite Hsvc. apply Hw. destruct (decide (k' = k)) as [->|Hne]; [congruence|].
    unfold runs in *. by rewrite Hfr in Hk'.
  - intros ? ? (_&_&[]).
Qed.

Lemma ShutDown_ok m : minv m → wp manager_ShutDown (λ _, minv) (λ _ _, False) m.
Proof.
  intros [Hok Hw]. unfold manager_ShutDown. apply wp_bind, wp_getW.
  eapply wp_mono; [by apply (stop_ports_ok (λ k, k))| |done]. intros _ m1 (Hok1&Hsvc1&Hst1&Hfr1). rewrite list_fmap_id in *.
  split; [done|]. intros k Hr. unfold wantedPort, portsOf. rewrite Hsvc1. apply Hw. unfold runs in *.
  destruct (decide (k ∈ (krange (mg_syncerMap m)).*1)) as [Hin|Hnin]; [by rewrite (Hst1 k Hin) in Hr|].
  by rewrite Hfr1 in Hr.
Qed.

Lemma gcSyncer_ok key m : minv m → is_Some (mg_syncerMap m !! key) →
  wp (manager_garbageCollectSyncer key)
    (λ _ m', minv m' ∧ (∀ k, k ≠ key → mg_syncerMap m' !! k = mg_syncerMap m !! k) ∧
      ∀ s, mg_syncerMap m !! key = Some s → mg_syncerMap m' !! key = None → sm_routines (ms_system s) = [])
    (λ _ _, False) m.
Proof.
  intros [Hok Hw] [s Hs]. unfold manager_garbageCollectSyncer. apply wp_bind, wp_getW. rewrite Hs.
  apply wp_bind, wp_ret. case_match eqn:Hc; [apply wp_modW|apply wp_ret].
  - split_and!.
    + split; [by intros k s'; simpl; intros [_ ?]%lookup_delete_Some; eapply Hok|]. intros k. unfold runs. simpl.
      destruct (decide (k = key)) as [->|Hne]; [by rewrite lookup_delete_eq|]. rewrite lookup_delete_ne by done. apply Hw.
    + intros k Hne. simpl. by rewrite lookup_delete_ne.
    + intros s' Hs' _. simplify_eq. apply andb_true_iff in Hc as [Hst Hsh%negb_true_iff].
      destruct (Hok _ _ Hs) as [[(_&Hl&_) _] _]. unfold lifecycle in Hl.
      unfold syncer_IsStopped in Hst. unfold syncer_IsShuttingDown in Hsh. rewrite Hst, Hsh in Hl. by destruct Hl.
  - split_and!; [done|done|]. intros s' ? ?. congruence.
Qed.

(** ** Interleavings *)

(** The manager and the keys a garbage collection has still to visit. *)
Definition mgr_state : Type := syncerManager * list servicePort.
(** A critical section of the manager, or an access of a goroutine. *)
Inductive mgr_event :=
  | EvEnsureSyncers (namespace name : string) (ports : gset string)
  | EvStopSyncer (namespace name : string)
  | EvSync (namespace name : string)
  | EvShutDown
  | EvGoroutine (k : servicePort) (a : access)
  | EvGCStart
  | EvGCNext.

Definition critical (f : M syncerManager unit) (pending : list servicePort) (m : syncerManager) :
    option (outcome unit * mgr_state) := let '(r, m') := f m in Some (r, (m', pending)).
Definition mgr_event_effect (e : mgr_event) (ms : mgr_state) : option (outcome unit * mgr_state) :=
  let '(m, pending) := ms in
  match e with
  | EvEnsureSyncers ns name ports => critical (manager_EnsureSyncers ns name ports) pending m
  | EvStopSyncer ns name => critical (manager_StopSyncer ns name) pending m
  | EvSync ns name => critical (manager_Sync ns name) pending m
  | EvShutDown => critical manager_ShutDown pending m
  | EvGoroutine k a =>
      s ← mg_syncerMap m !! k;
      if of_goroutine a then
        match access_effect a (ms_system s) with
        | Disabled => None
        | Crash => Some (Panic, ms)
        | Next y => Some (Ok tt, (set_syncerMap <[k := MkManaged (ms_negName s) y]> m, pending))
        end
      else None
  | EvGCStart =>
      match pending, manager_getAllStoppedSyncerKeys m with
      | [], (Ok keys, m) => Some (Ok tt, (m, keys))
      | _, _ => None
      end
  | EvGCNext =>
      match pending with
      | [] => None
      | k :: pending => critical (manager_garbageCollectSyncer k) pending m
      end
  end.
(** [EnsureSyncers] is called with ports that have a group name. *)
Definition event_ok (e : mgr_event) : Prop :=
  match e with
  | EvEnsureSyncers ns name ports => ∀ p, p ∈ ports → is_Some (ngn_NEG ns name p)
  | _ => True
  end.
Inductive mgr_reachable : mgr_state → Prop :=
  | mgr_start : mgr_reachable (newSyncerManager, [])
  | mgr_event_step e ms r ms' : mgr_reachable ms → event_ok e →
      mgr_event_effect e ms = Some (r, ms') → mgr_reachable ms'.

Definition ms_inv (ms : mgr_state) : Prop :=
  minv ms.1 ∧ NoDup ms.2 ∧ ∀ k, k ∈ ms.2 → is_Some (mg_syncerMap ms.1 !! k).

(** Nothing but the garbage collection drops a syncer. *)
Definition grows {A} (f : M syncerManager A) : Prop :=
  ∀ m k, is_Some (mg_syncerMap m !! k) → is_Some (mg_syncerMap (f m).2 !! k).
Lemma grows_bind {A B} (f : M syncerManager A) (g : A → M syncerManager B) :
  grows f → (∀ a, grows (g a)) → grows (f ≫= g).
Proof.
  intros Hf Hg m k Hk. unfold mbind, M_bind. specialize (Hf m k Hk).
  destruct (f m) as [[a|e|] m']; simpl in *; [by apply Hg|done..].
Qed.
Lemma grows_same {A} (f : M syncerManager A) : (∀ m, mg_syncerMap (f m).2 = mg_syncerMap m) → grows f.
Proof. intros Hf m k. by rewrite Hf. Qed.
Lemma grows_onSyncer {A} k (f : M system A) : grows (onSyncer k f).
Proof.
  intros m k' Hk. unfold onSyncer. destruct (mg_syncerMap m !! k) as [s|]; [|done].
  destruct (f (ms_system s)) as [r y]. simpl. destruct (decide (k = k')) as [->|]; [rewrite lookup_insert_eq; eauto|].
  by rewrite lookup_insert_ne.
Qed.
Lemma grows_insert k s : grows (modW (set_syncerMap <[k := s]>)).
Proof.
  intros m k' Hk. simpl. destruct (decide (k = k')) as [->|]; [rewrite lookup_insert_eq; eauto|by rewrite lookup_insert_ne].
Qed.
Lemma grows_ofOption {A} (o : option A) : grows (ofOption o).
Proof. by destruct o; apply grows_same. Qed.
Lemma grows_try {A} (f : M syncerManager A) : grows f → grows (try f).
Proof. intros Hf m k Hk. unfold try. specialize (Hf m k Hk). by destruct (f m) as [[] ?]. Qed.
Lemma grows_forEach {A} (f : A → M syncerManager unit) l : (∀ x, grows (f x)) → grows (forEach f l).
Proof. intros Hf. induction l; simpl; [by apply grows_same|by apply grows_bind]. Qed.
Lemma grows_forErrs {A} (f : A → M syncerManager unit) l : (∀ x, grows (f x)) → grows (forErrs f l).
Proof.
  intros Hf. induction l as [|x l IH]; simpl; [by apply grows_same|].
  apply grows_bind; [by apply grows_try|]. intros r. apply grows_bind; [done|]. intros es. by apply grows_same.
Qed.
End manager.
Ltac solve_grows :=
  cbv zeta; repeat match goal with
  | |- ∀ _, _ => intro
  | |- grows (mbind _ _) => apply grows_bind
  | |- grows (onSyncer _ _) => apply grows_onSyncer
  | |- grows (modW (set_syncerMap <[_ := _]>)) => apply grows_insert
  | |- grows (forEach _ _) => apply grows_forEach
  | |- grows (forErrs _ _) => apply grows_forErrs
  | |- grows (try _) => apply grows_try
  | |- grows (match ?x with _ => _ end) => destruct x
  | |- grows (ofOption _) => apply grows_ofOption
  | |- grows (mret _) => by apply grows_same
  | |- grows (throw _) => by apply grows_same
  | |- grows panic => by apply grows_same
  | |- grows (getW _) => by apply grows_same
  | |- grows (modW (set_svcPortMap _)) => by apply grows_same
  end.

Section interleavings.
Context `{NEGNamer, !KeyRange servicePort}.
Implicit Types (m : syncerManager) (ms : mgr_state).

Lemma EnsureSyncers_grows ns name ports : grows (manager_EnsureSyncers ns name ports).
Proof. unfold manager_EnsureSyncers, manager_startPort, retAggregate. solve_grows. Qed.
Lemma StopSyncer_grows ns name : grows (manager_StopSyncer ns name).
Proof. unfold manager_StopSyncer. solve_grows. Qed.
Lemma Sync_grows ns name : grows (manager_Sync ns name).
Proof. unfold manager_Sync. solve_grows. Qed.
Lemma ShutDown_grows : grows manager_ShutDown.
Proof. unfold manager_ShutDown. solve_grows. Qed.

(** What an event leaves: the invariant, no panic, and every syncer that had a
    goroutine. *)
Definition event_post (e : mgr_event) ms (r : outcome unit) ms' : Prop :=
  r ≠ Panic ∧ ms_inv ms' ∧
  ∀ k s, mg_syncerMap ms.1 !! k = Some s → mg_syncerMap ms'.1 !! k = None → sm_routines (ms_system s) = [].

Lemma critical_ok (f : M syncerManager unit) (E : error → syncerManager → Prop) m pending r ms' e :
  ms_inv (m, pending) → grows f → wp f (λ _, minv) E m → (∀ err m', E err m' → minv m') →
  critical f pending m = Some (r, ms') → event_post e (m, pending) r ms'.
Proof.
  intros (_&Hnd&Hp) Hg Hf HE. unfold critical. pose proof (Hg m) as Hg'. unfold wp in Hf.
  destruct (f m) as [r1 m1]. simpl in *. intros [= <- <-].
  split; [by destruct r1|]. split.
  - split; [destruct r1; naive_solver|]. split; [done|]. simpl. eauto.
  - intros k s Hs Hn. simpl in *. destruct (Hg' k) as [? ?]; [by eexists|congruence].
Qed.

Lemma goroutine_ok k a m pending r ms' :
  ms_inv (m, pending) → mgr_event_effect (EvGoroutine k a) (m, pending) = Some (r, ms') →
  event_post (EvGoroutine k a) (m, pending) r ms'.
Proof.
  intros ([Hok Hw]&Hnd&Hp). simpl in *. destruct (mg_syncerMap m !! k) as [s|] eqn:Hs; [|done]. simpl.
  destruct (of_goroutine a) eqn:Hg; [|done]. destruct (Hok _ _ Hs) as [[Hinv Hidle] Hneg].
  destruct (access_effect a (ms_system s)) as [| |y] eqn:Ha; [done|by apply no_crash in Ha|]. intros [= <- <-].
  assert (sm_caller y = Idle ∧ ss_stopped (sm_state y) = ss_stopped (sm_state (ms_system s))) as [Hc Hst].
  { unfold access_effect, of_goroutine in *. destruct (access_index a) as [i|]; [|done].
    destruct (sm_routines _ !! i) as [ro|]; [|done]. simpl in Ha.
    destruct (routine_access a ro _) as [[r' s']|] eqn:Hra; [|done]. injection Ha as <-. split; [done|].
    apply routine_access_ok in Hra as [_ Hra]; [|by destruct Hinv]. simpl.
    destruct r'; [by destruct Hra as [(?&?&?) _]|by destruct Hra as [_ ->]]. }
  split; [done|]. split; [split; [split|split; [done|]]|].
  - intros k' s'. simpl. intros [[<- <-]|[_ ?]]%lookup_insert_Some; [|by eapply Hok].
    split; [|done]. split; [by eapply inv_step|done].
  - intros k' Hr. apply Hw. unfold runs in *. simpl in Hr. destruct (decide (k = k')) as [<-|].
    + rewrite lookup_insert_eq in Hr. rewrite Hs. unfold running in *. simpl in Hr. congruence.
    + by rewrite lookup_insert_ne in Hr.
  - intros k' Hk'. simpl in *. destruct (decide (k = k')) as [<-|]; [rewrite lookup_insert_eq; eauto|].
    rewrite lookup_insert_ne by done. auto.
  - intros k' s'. simpl. destruct (decide (k = k')) as [<-|]; [by rewrite lookup_insert_eq|].
    rewrite lookup_insert_ne by done. congruence.
Qed.

Lemma event_ok_inv e ms r ms' :
  ms_inv ms → event_ok e → mgr_event_effect e ms = Some (r, ms') → event_post e ms r ms'.
Proof.
  destruct ms as [m pending]. intros Hms He Heff. pose proof Hms as (Hm&Hnd&Hp). destruct e; simpl in Heff.
  - eapply critical_ok; [done|apply EnsureSyncers_grows|eapply wp_mono; [by apply EnsureSyncers_ok|..]| |done].
    + intros _ m1 [[? _] _]. done.
    + intros e m1 HE. exact HE.
    + intros e m1 [[? _] _]. done.
  - eapply critical_ok; [done|apply StopSyncer_grows|eapply wp_mono; [by apply StopSyncer_ok|by intros ?? [? _]|done]|done|done].
  - by eapply critical_ok; [done|apply Sync_grows|apply managerSync_ok| |].
  - by eapply critical_ok; [done|apply ShutDown_grows|apply ShutDown_ok| |].
  - by apply goroutine_ok.
  - destruct pending; [|done]. injection Heff as <- <-. split; [done|]. split.
    + split; [done|]. simpl. split.
      * apply NoDup_fmap_2_strong; [|apply NoDup_filter; rewrite krange_perm; apply NoDup_map_to_list].
        intros [k s] [k' s'] [_ Hx%krange_lookup]%list_elem_of_filter [_ Hy%krange_lookup]%list_elem_of_filter ?.
        by simplify_eq/=.
      * intros k ([k' s]&->&[_ Hin]%list_elem_of_filter)%list_elem_of_fmap. apply krange_lookup in Hin. simpl. eauto.
    + simpl. congruence.
  - destruct pending as [|k pending]; [done|]. simpl in Hnd. apply NoDup_cons in Hnd as [Hk Hnd].
    assert (is_Some (mg_syncerMap m !! k)) as Hs by (apply Hp, list_elem_of_here).
    pose proof (gcSyncer_ok k m Hm Hs) as Hgc. unfold wp, critical in *.
    destruct (manager_garbageCollectSyncer k m) as [[[]|?|] m1]; [|done..].
    injection Heff as <- <-. destruct Hgc as (Hm1&Hfr&Hdrop). split; [done|]. split; [split; [done|split; [done|]]|].
    + intros k' Hk'. simpl in *. rewrite Hfr by (intros ->; done). apply Hp, list_elem_of_further, Hk'.
    + simpl. intros k' s Hs' Hn. destruct (decide (k' = k)) as [->|]; [by apply Hdrop|]. rewrite Hfr in Hn by done. congruence.
Qed.
Lemma ms_inv_reachable ms : mgr_reachable ms → ms_inv ms.
Proof.
  induction 1 as [|e ms r ms' _ IH He Heff].
  - split; [split; [done|]|split; [constructor|]]; [done|intros k []%elem_of_nil].
  - by eapply event_ok_inv in Heff as (_&?&_).
Qed.

(** C13. The manager is safe in every interleaving of its critical sections
    (those of a garbage collection included) with the accesses of all the
    goroutines: nothing panics, though the collection looks keys up that it read
    under an earlier lock; a syncer that is not stopped is of a port that its
    service still wants, so no stopped service keeps a running syncer; there is
    at most one goroutine per service port, and its syncer has the port's group
    name; and a syncer whose goroutine has not returned is never dropped. *)
Theorem manager_safe ms :
  mgr_reachable ms →
  (∀ e r ms', event_ok e → mgr_event_effect e ms = Some (r, ms') → r ≠ Panic ∧
     ∀ k s, mg_syncerMap ms.1 !! k = Some s → mg_syncerMap ms'.1 !! k = None → sm_routines (ms_system s) = []) ∧
  (∀ k s, mg_syncerMap ms.1 !! k = Some s →
     length (sm_routines (ms_system s)) ≤ 1 ∧
     ngn_NEG (svp_namespace k) (svp_name k) (svp_targetPort k) = Some (ms_negName s) ∧
     (ss_stopped (sm_state (ms_system s)) = false →
        svp_targetPort k ∈ default ∅ (mg_svcPortMap ms.1 !! keyOf k))).
Proof.
  intros Hms%ms_inv_reachable. split.
  - intros e r ms' He Heff. by eapply event_ok_inv in Heff as (?&_&?).
  - intros k s Hs. destruct Hms as ([Hok Hw]&_). destruct (Hok _ _ Hs) as [[Hinv _] Hneg].
    split; [by apply one_goroutine|]. split; [done|]. intros Hst. apply Hw. unfold runs, running. by rewrite Hs, Hst.
Qed.
End interleavings.

Section ensure.
Context `{NEGNamer, !KeyRange servicePort} (ns name : string).
Implicit Types m : syncerManager.
Local Abbreviation k := (getSyncerKey ns name).
Local Abbreviation key := (getServiceKey ns name).

(** If every recorded port had a running syncer, then on success the running
    syncers of the service are those of the given ports. *)
Lemma EnsureSyncers_synced ports m :
  minv m → (∀ p, p ∈ ports → is_Some (ngn_NEG ns name p)) →
  (∀ p, p ∈ portsOf m key → runs m (k p) = true) →
  wp (manager_EnsureSyncers ns name ports)
    (λ _ m', minv m' ∧ (∀ p, runs m' (k p) = bool_decide (p ∈ ports)) ∧
      mg_svcPortMap m' = <[key := ports]> (mg_svcPortMap m) ∧
      ∀ k', keyOf k' ≠ key → mg_syncerMap m' !! k' = mg_syncerMap m !! k')
    (λ _ m', minv m' ∧ ∃ p, p ∈ ports ∧ shutting m (k p) = true ∧ runs m' (k p) = false) m.
Proof.
  intros Hm Hneg Hrun. eapply wp_mono; [by apply EnsureSyncers_ok|..].
  - intros _ m' [(Hm'&Hsvc&Hadd&Hkeep&Hrem&Hfr) Hsh]. split_and!; try done. intros p.
    case_bool_decide as Hp; [|by apply Hrem]. destruct (decide (p ∈ portsOf m key)) as [Hc|Hc].
    + rewrite Hkeep by done. by apply Hrun.
    + rewrite Hadd by done. by rewrite Hsh.
  - intros _ m' [(Hm'&Hsvc&Hadd&Hkeep&Hrem&Hfr) Hsh]. split; [done|].
    destruct (decide (set_Exists (λ p, shutting m (k p) = true) (ports ∖ portsOf m key))) as [(p&Hp&Hs)|Hn].
    + apply elem_of_difference in Hp as [Hp Hc]. exists p. split_and!; [done|done|]. by rewrite Hadd, Hs.
    + exfalso. apply Hsh. intros p Hp Hc. destruct (shutting m (k p)) eqn:Hs; [|done].
      exfalso. apply Hn. exists p. split; [|done]. by apply elem_of_difference.
Qed.

(** C37. A start can be lost: [EnsureSyncers] records the ports before it starts
    the syncers. When a port is enabled again while the syncer of it is still
    shutting down, the call fails without starting it, and every later call with
    the same ports succeeds without doing anything, whatever happened to the
    syncers in between: the port has no running syncer although it is recorded,
    and the retries of the controller do not help. *)
Theorem EnsureSyncers_lost_start ports p m :
  minv m → (∀ q, q ∈ ports → is_Some (ngn_NEG ns name q)) →
  p ∈ ports → p ∉ portsOf m key → shutting m (k p) = true →
  ∃ e m', manager_EnsureSyncers ns name ports m = (Err e, m') ∧ runs m' (k p) = false ∧
    ∀ m'', mg_svcPortMap m'' = mg_svcPortMap m' → manager_EnsureSyncers ns name ports m'' = (Ok tt, m'').
Proof.
  intros Hm Hneg Hp Hc Hs. pose proof (EnsureSyncers_ok ns name ports m Hm Hneg) as [(a&m'&_&_&Hn)|(e&m'&He&Hens&_)]%wp_run.
  { exfalso. specialize (Hn p Hp Hc). congruence. }
  exists e, m'. split; [done|]. destruct Hens as (_&Hsvc&Hadd&_). split; [by rewrite Hadd, Hs|].
  intros [svc sys] Heq. simpl in Heq. subst svc. rewrite Hsvc. unfold manager_EnsureSyncers.
  cbv [mbind M_bind getW]. simpl. rewrite lookup_insert_eq. simpl. rewrite difference_diag_L.
  unfold set_svcPortMap. simpl. rewrite insert_insert_eq. done.
Qed.
End ensure.

(** ** Garbage collection of the groups *)

(** Which groups there are, by zone and name. *)
Class NEGGroups (W : Type) := { has_neg : W → string → string → Prop }.
(** The promises of the cloud. A failing [Get] says nothing: the error may be
    another one than that there is no such group. *)
Class NEGGroupLaws (W : Type) `{NEGCloud W, NEGGroups W} (mgr : lens W syncerManager) := {
  ggl_lens :: LensLaws mgr;
  ggl_frame w m z n : has_neg (lset mgr m w) z n ↔ has_neg w z n;
  ggl_Get n z w : wp (negc_Get n z)
    (λ _ w', ∀ z' n', has_neg w' z' n' ↔ has_neg w z' n')
    (λ _ w', ∀ z' n', has_neg w' z' n' ↔ has_neg w z' n') w;
  ggl_Delete n z w : wp (negc_Delete n z)
    (λ _ w', ∀ z' n', has_neg w' z' n' ↔ has_neg w z' n' ∧ (z', n') ≠ (z, n))
    (λ _ w', ∀ z' n', (has_neg w' z' n' → has_neg w z' n') ∧
       ((z', n') ≠ (z, n) → has_neg w z' n' → has_neg w' z' n')) w;
  ggl_List w : wp negc_AggregatedList
    (λ l w', (∀ z n, has_neg w' z n ↔ has_neg w z n) ∧
      ∀ z n, has_neg w z n ↔ ∃ negs, l !! z = Some negs ∧ n ∈ neg_Name <$> negs)
    (λ _ w', ∀ z n, has_neg w' z n ↔ has_neg w z n) w;
  ggl_keeps_Get n z : keeps (lget mgr) (negc_Get n z);
  ggl_keeps_Delete n z : keeps (lget mgr) (negc_Delete n z);
  ggl_keeps_List : keeps (lget mgr) negc_AggregatedList;
}.

Section gc.
Context {W : Type} `{NEGCloud W, NEGGroups W, NEGNamer, !KeyRange servicePort, !KeyRange serviceKey, MapRange}.
Context (mgr : lens W syncerManager) `{!NEGGroupLaws W mgr}.

(** The groups of the service ports the manager was asked for. *)
Definition wantedNEG (m : syncerManager) (n : string) : Prop :=
  ∃ key ports port, mg_svcPortMap m !! key = Some ports ∧ port ∈ ports ∧
    ngn_NEG (sk_namespace key) (sk_name key) port = Some n.
Definition names_ok (m : syncerManager) : Prop :=
  ∀ key ports port, mg_svcPortMap m !! key = Some ports → port ∈ ports →
    is_Some (ngn_NEG (sk_namespace key) (sk_name key) port).
Definition doomed (m : syncerManager) (n : string) : Prop := ngn_IsNEG n = true ∧ ¬ wantedNEG m n.

Lemma deleteWanted_ok l s :
  (∀ key port, (key, port) ∈ l → is_Some (ngn_NEG (sk_namespace key) (sk_name key) port)) →
  ∃ s', deleteWanted l s = Some s' ∧
    ∀ n, n ∈ s' ↔ n ∈ s ∧ ¬ ∃ key port, (key, port) ∈ l ∧ ngn_NEG (sk_namespace key) (sk_name key) port = Some n.
Proof.
  revert s. induction l as [|[key port] l IH]; intros s Hl; simpl.
  { exists s. split; [done|]. intros n. split; [|tauto]. intros Hn. split; [done|]. by intros (?&?&[]%elem_of_nil&_). }
  destruct (Hl key port) as [name Hname]; [apply list_elem_of_here|]. rewrite Hname. simpl.
  destruct (IH (s ∖ {[name]})) as (s'&Hs'&Hin); [intros k' p' ?; by apply Hl, list_elem_of_further|].
  exists s'. split; [done|]. intros n. rewrite Hin, elem_of_difference, elem_of_singleton. split.
  - intros [[? Hne] Hno]. split; [done|]. intros (k'&p'&[[= -> ->]|?]%elem_of_cons&Hn); [congruence|]. apply Hno. eauto.
  - intros [? Hno]. split; [split; [done|]|].
    + intros ->. apply Hno. exists key, port. split; [apply list_elem_of_here|done].
    + intros (k'&p'&?&?). apply Hno. exists k', p'. split; [by apply list_elem_of_further|done].
Qed.
Lemma elem_of_wantedPorts m key port :
  (key, port) ∈ wantedPorts m ↔ ∃ ports, mg_svcPortMap m !! key = Some ports ∧ port ∈ ports.
Proof.
  unfold wantedPorts. rewrite list_elem_of_In, in_concat. setoid_rewrite <-list_elem_of_In. split.
  - intros (x&([k' ports]&->&Hk%krange_lookup)%list_elem_of_fmap&(p'&[= -> ->]&?%elem_of_sets_List)%list_elem_of_fmap).
    eauto.
  - intros (ports&Hk&Hp). eexists. split.
    + apply list_elem_of_fmap. exists (key, ports). split; [done|]. by apply krange_lookup.
    + apply list_elem_of_fmap. exists port. split; [done|]. by apply elem_of_sets_List.
Qed.
Lemma elem_of_clusterNEGs l n :
  n ∈ clusterNEGs l ↔ ngn_IsNEG n = true ∧ ∃ z negs, l !! z = Some negs ∧ n ∈ neg_Name <$> negs.
Proof.
  unfold clusterNEGs. rewrite elem_of_list_to_set, list_elem_of_filter. f_equiv.
  rewrite list_elem_of_fmap. setoid_rewrite list_elem_of_In. setoid_rewrite in_concat. setoid_rewrite <-list_elem_of_In. split.
  - intros (neg&->&negs&([z negs']&->&Hz%range_lookup)%list_elem_of_fmap&Hin). exists z, negs'.
    split; [done|]. apply list_elem_of_fmap. eauto.
  - intros (z&negs&Hz&(neg&->&Hin)%list_elem_of_fmap). exists neg. split; [done|]. exists negs. split; [|done].
    apply list_elem_of_fmap. exists (z, negs). split; [done|]. by apply range_lookup.
Qed.

(** A group that was there when reading it failed, in a world whose groups are
    among those of [w]. *)
Definition unread (w : W) (z n : string) : Prop :=
  ∃ w1 e w2, (∀ z' n', has_neg w1 z' n' → has_neg w z' n') ∧ has_neg w1 z n ∧ negc_Get n z w1 = (Err e, w2).
(** At most the groups of some zones and names are gone. *)
Definition within_negs (P : string → string → Prop) (w w' : W) : Prop :=
  ∀ z n, (has_neg w' z n → has_neg w z n) ∧ (has_neg w z n → ¬ P z n → has_neg w' z n).
(** They are all gone, but for those that could not be read. *)
Definition minus_negs (P : string → string → Prop) (w w' : W) : Prop :=
  within_negs P w w' ∧ ∀ z n, P z n → has_neg w' z n → unread w z n.

Lemma within_trans P Q R w1 w2 w3 :
  (∀ z n, P z n ∨ Q z n → R z n) → within_negs P w1 w2 → within_negs Q w2 w3 → within_negs R w1 w3.
Proof.
  intros HR Hp Hq z n. destruct (Hp z n) as [Ha Hb], (Hq z n) as [Ha' Hb']. split; [auto|].
  intros Hn Hno. apply Hb'; [apply Hb; [done|]|]; intros ?; apply Hno, HR; auto.
Qed.
Lemma minus_trans P Q R w1 w2 w3 :
  (∀ z n, R z n ↔ P z n ∨ Q z n) → minus_negs P w1 w2 → minus_negs Q w2 w3 → minus_negs R w1 w3.
Proof.
  intros HR [Hp Hpu] [Hq Hqu]. split; [eapply within_trans; [|done..]; intros; by apply HR|].
  intros z n [HP|HQ]%HR Hn; [apply Hpu; [done|]; by apply Hq|].
  destruct (Hqu z n HQ Hn) as (w4&e&w5&Hsub&?&?). exists w4, e, w5. split; [|done]. intros ?? ?%Hsub. by apply Hp.
Qed.
Lemma within_same P w w' : (∀ z n, has_neg w' z n ↔ has_neg w z n) → within_negs P w w'.
Proof. intros Hs z n. rewrite (Hs z n). tauto. Qed.
Lemma minus_none w : minus_negs (λ _ _, False) w w.
Proof. by split; [apply within_same|]. Qed.
Lemma minus_ext P Q w w' : (∀ z n, has_neg w z n → P z n ↔ Q z n) → minus_negs P w w' → minus_negs Q w w'.
Proof.
  intros HPQ [Hp Hu]. split.
  - intros z n. destruct (Hp z n) as [Ha Hb]. split; [done|]. intros Hn Hq. apply Hb; [done|]. by rewrite (HPQ z n Hn).
  - intros z n Hq Hn. assert (has_neg w z n) as Hw by (by apply Hp). apply Hu; [by apply HPQ|done].
Qed.
Lemma minus_from P w w1 w' : (∀ z n, has_neg w1 z n ↔ has_neg w z n) → minus_negs P w1 w' → minus_negs P w w'.
Proof.
  intros Hs Hm. eapply (minus_trans (λ _ _, False) P); [|split; [by apply within_same|done]|exact Hm]. tauto.
Qed.

Lemma ensureDelete_ok n z w :
  wp (manager_ensureDeleteNetworkEndpointGroup n z)
    (λ _, minus_negs (λ z' n', z' = z ∧ n' = n) w) (λ _, within_negs (λ z' n', z' = z ∧ n' = n) w) w.
Proof.
  unfold manager_ensureDeleteNetworkEndpointGroup. apply wp_bind, wp_try. pose proof (ggl_Get n z w) as Hget.
  unfold wp in Hget |- * at 1. destruct (negc_Get n z w) as [[a|e|] w1] eqn:Hg; [| |done].
  - eapply wp_mono; [apply ggl_Delete|..]; cbv beta.
    + intros ? w2 Hs2. split; intros z' n'; rewrite (Hs2 z' n'), (Hget z' n').
      * split; [tauto|]. intros ? Hne. split; [done|]. intros [= ? ?]. by apply Hne.
      * intros [-> ->] [_ Hne]. by destruct Hne.
    + intros ? w2 Hs2 z' n'. destruct (Hs2 z' n') as [Ha Hb]. rewrite (Hget z' n') in Ha, Hb. split; [done|].
      intros ? Hne. apply Hb; [|done]. intros [= ? ?]. by apply Hne.
  - apply wp_ret. split; [by apply within_same|]. intros z' n' [-> ->] Hn. exists w, e, w1. split; [done|].
    split; [by apply Hget|done].
Qed.
Lemma deleteZone_ok (names : list string) zone w :
  wp (forEach (λ name,
        r ← try (manager_ensureDeleteNetworkEndpointGroup name zone);
        match r with
        | inl err => throw (Errorf "failed to delete NEG %q in %q: %v" [name; zone] [err])
        | inr _ => mret tt
        end) names)
    (λ _, minus_negs (λ z n, z = zone ∧ n ∈ names) w) (λ _, within_negs (λ z n, n ∈ names) w) w.
Proof.
  apply (wp_forEach _ names (λ d, minus_negs (λ z n, z = zone ∧ n ∈ d) w) (λ _, within_negs (λ z n, n ∈ names) w)).
  - eapply minus_ext; [|apply minus_none]. intros z n _. split; [done|]. by intros [_ []%elem_of_nil].
  - intros ns name w1 [rest Hpre] Hs1. apply wp_bind, wp_try. eapply wp_mono; [apply ensureDelete_ok|..]; cbv beta.
    + intros ? w2 Hs2. apply wp_ret. eapply minus_trans; [|exact Hs1|exact Hs2]. intros z n.
      rewrite elem_of_app, list_elem_of_singleton. tauto.
    + intros err w2 Hs2. apply wp_throw. eapply within_trans; [|exact (proj1 Hs1)|exact Hs2].
      intros z n. rewrite Hpre, !elem_of_app, list_elem_of_singleton. tauto.
Qed.
Lemma deleteGroups_ok (names : gset string) (zones : list string) w :
  wp (forEach (λ zone,
        forEach (λ name,
          r ← try (manager_ensureDeleteNetworkEndpointGroup name zone);
          match r with
          | inl err => throw (Errorf "failed to delete NEG %q in %q: %v" [name; zone] [err])
          | inr _ => mret tt
          end) (sets_List names)) zones)
    (λ _, minus_negs (λ z n, z ∈ zones ∧ n ∈ names) w) (λ _, within_negs (λ z n, n ∈ names) w) w.
Proof.
  apply (wp_forEach _ zones (λ d, minus_negs (λ z n, z ∈ d ∧ n ∈ names) w) (λ _, within_negs (λ z n, n ∈ names) w)).
  - eapply minus_ext; [|apply minus_none]. intros z n _. split; [done|]. by intros [[]%elem_of_nil _].
  - intros zs zone w1 _ Hs1. eapply wp_mono; [apply deleteZone_ok|..]; cbv beta.
    + intros ? w2 Hs2. eapply minus_trans; [|exact Hs1|exact Hs2]. intros z n.
      rewrite elem_of_app, list_elem_of_singleton, elem_of_sets_List. tauto.
    + intros err w2 Hs2. eapply within_trans; [|exact (proj1 Hs1)|exact Hs2]. intros z n. rewrite elem_of_sets_List. tauto.
Qed.

Lemma garbageCollectNEG_ok w :
  names_ok (lget mgr w) →
  wp (manager_garbageCollectNEG mgr)
    (λ _, minus_negs (λ _, doomed (lget mgr w)) w) (λ _, within_negs (λ _, doomed (lget mgr w)) w) w.
Proof.
  intros Hok. unfold manager_garbageCollectNEG. apply wp_bind, wp_try.
  eapply wp_mono; [eapply (wp_keeps (lget mgr)); [apply ggl_keeps_List|apply ggl_List]|..].
  - intros l w1 [[Hs1 Hl] Hm]. apply wp_bind, wp_getW. rewrite Hm.
    destruct (deleteWanted_ok (wantedPorts (lget mgr w)) (clusterNEGs l)) as (names&Hd&Hnames).
    { intros key port (ports&?&?)%elem_of_wantedPorts. by eapply Hok. }
    rewrite Hd. apply wp_bind, wp_ret.
    assert (∀ z n, has_neg w z n → n ∈ names ↔ doomed (lget mgr w) n) as Hdoom.
    { intros z n Hz. rewrite Hnames, elem_of_clusterNEGs. unfold doomed, wantedNEG. setoid_rewrite elem_of_wantedPorts.
      apply Hl in Hz as (negs&?&?). split; intros [Ha Hb]; (split; [|naive_solver]); [tauto|]. eauto. }
    eapply wp_mono; [apply deleteGroups_ok|..]; cbv beta.
    + intros ? w2 Hs2. apply (minus_from _ w w1 w2 Hs1). eapply minus_ext; [|exact Hs2]. intros z n Hz%Hs1.
      rewrite <-(Hdoom z n Hz). split; [tauto|]. intros ?. split; [|done]. apply range_keys. apply Hl in Hz as (negs&?&?). eauto.
    + intros ? w2 Hs2 z n. destruct (Hs2 z n) as [Ha Hb]. rewrite (Hs1 z n) in Ha, Hb. split; [done|].
      intros Hz Hnd. apply Hb; [done|]. intros Hin. by apply Hnd, (Hdoom z).
  - intros e w1 [Hs1 _]. apply wp_throw. by apply within_same.
Qed.

(** A syncer that is stopped and whose goroutine has returned. *)
Definition finished (s : managed) : bool :=
  ss_stopped (sm_state (ms_system s)) && negb (ss_shuttingDown (sm_state (ms_system s))).
Lemma gcSyncers_ok keys w :
  NoDup keys → (∀ k, k ∈ keys → is_Some (mg_syncerMap (lget mgr w) !! k)) →
  wp (forEach (λ k, zoom mgr (manager_garbageCollectSyncer k)) keys)
    (λ _ w', ∃ m', w' = lset mgr m' w ∧ mg_svcPortMap m' = mg_svcPortMap (lget mgr w) ∧
      ∀ k s, mg_syncerMap m' !! k = Some s ↔
        mg_syncerMap (lget mgr w) !! k = Some s ∧ ¬ (k ∈ keys ∧ finished s = true)) (λ _ _, False) w.
Proof.
  intros Hnd Hin. pose proof (ggl_lens (mgr := mgr)) as Hlens.
  apply (wp_forEach _ keys (λ d w', ∃ m', w' = lset mgr m' w ∧ mg_svcPortMap m' = mg_svcPortMap (lget mgr w) ∧
      ∀ k s, mg_syncerMap m' !! k = Some s ↔
        mg_syncerMap (lget mgr w) !! k = Some s ∧ ¬ (k ∈ d ∧ finished s = true))).
  { exists (lget mgr w). rewrite lens_set_get. split_and!; [done|done|]. intros k s. split; [|tauto].
    intros ?. split; [done|]. by intros [[]%elem_of_nil _]. }
  intros d k ? [rest Hpre] (m1&->&Hsvc&Hm1). apply wp_zoom. rewrite lens_get_set.
  destruct (Hin k) as [s Hs]; [rewrite Hpre, !elem_of_app, list_elem_of_singleton; tauto|].
  assert (k ∉ d) as Hkd.
  { rewrite Hpre in Hnd. apply NoDup_app in Hnd as [(_&Hd&_)%NoDup_app _]. intros Hk. by apply (Hd k Hk), list_elem_of_here. }
  assert (mg_syncerMap m1 !! k = Some s) as Hs1 by (apply Hm1; tauto).
  unfold manager_garbageCollectSyncer. apply wp_bind, wp_getW. rewrite Hs1. apply wp_bind, wp_ret.
  change (_ && _) with (finished s).
  destruct (finished s) eqn:Hf; [apply wp_modW|apply wp_ret];
    (eexists; split; [apply lens_set_set|]; split; [exact Hsvc|]; intros k' s'); simpl.
  - rewrite lookup_delete_Some, Hm1, elem_of_app, list_elem_of_singleton. split.
    { intros (Hne&?&Hno). split; [done|]. intros [[?| ->] ?]; tauto. }
    intros [Hs' Hno]. split; [|tauto]. intros <-. apply Hno. split; [by right|congruence].
  - rewrite Hm1, elem_of_app, list_elem_of_singleton. split; [|tauto]. intros [Hs' Hno]. split; [done|].
    intros [[?| ->] Hf']; [tauto|congruence].
Qed.

Lemma gcNEG_keeps : keeps (lget mgr) (manager_garbageCollectNEG mgr).
Proof.
  unfold manager_garbageCollectNEG. apply keeps_bind; [apply keeps_try, ggl_keeps_List|]. intros [?|l]; [done|].
  apply keeps_bind; [done|]. intros m. apply keeps_bind; [apply keeps_ofOption|]. intros names.
  apply keeps_forEach. intros zone. apply keeps_forEach. intros n. apply keeps_bind; [|by intros [|]].
  apply keeps_try, keeps_bind; [apply keeps_try, ggl_keeps_Get|]. intros [|]; [done|apply ggl_keeps_Delete].
Qed.

(** C22. Garbage collection of the network endpoint groups, when no other call
    interferes: if [GC] succeeds, then in every zone the groups that are gone are
    among those whose name has the cluster's prefix and that no service port
    asks for, and such a group is left only if reading it failed during the
    collection, which the code takes for its absence whatever the error; and of
    the syncers exactly those that are stopped and whose goroutine has returned
    are dropped. Whatever it returns, it deletes no group of another kind of name
    and none that a service port asks for. (A name with the prefix may be of
    another cluster, whose uid extends this one's.) *)
Theorem manager_GC_spec w :
  names_ok (lget mgr w) →
  wp (manager_GC mgr)
    (λ _ w', (∀ z n, has_neg w' z n → has_neg w z n) ∧
      (∀ z n, has_neg w z n → ¬ doomed (lget mgr w) n → has_neg w' z n) ∧
      (∀ z n, doomed (lget mgr w) n → has_neg w' z n → unread w z n) ∧
      mg_svcPortMap (lget mgr w') = mg_svcPortMap (lget mgr w) ∧
      ∀ k s, mg_syncerMap (lget mgr w') !! k = Some s ↔
        mg_syncerMap (lget mgr w) !! k = Some s ∧ finished s = false)
    (λ _ w', ∀ z n, (has_neg w' z n → has_neg w z n) ∧
      (has_neg w z n → ¬ doomed (lget mgr w) n → has_neg w' z n)) w.
Proof.
  intros Hok. pose proof (ggl_lens (mgr := mgr)) as Hlens. unfold manager_GC. apply wp_bind, wp_zoom, wp_getW.
  rewrite lens_set_get. set (keys := (filter _ _).*1). apply wp_bind.
  assert (∀ k, k ∈ keys ↔ ∃ s, mg_syncerMap (lget mgr w) !! k = Some s ∧ ss_stopped (sm_state (ms_system s)) = true) as Hkeys.
  { intros k. unfold keys. rewrite list_elem_of_fmap. setoid_rewrite list_elem_of_filter. split.
    - intros ([k' s]&->&?&?%krange_lookup). eauto.
    - intros (s&?&?). exists (k, s). split_and!; [done|done|]. by apply krange_lookup. }
  eapply wp_mono; [apply gcSyncers_ok| |done].
  { apply NoDup_fmap_2_strong; [|apply NoDup_filter; rewrite krange_perm; apply NoDup_map_to_list].
    intros [k s] [k' s'] [_ Hx%krange_lookup]%list_elem_of_filter [_ Hy%krange_lookup]%list_elem_of_filter ?. by simplify_eq/=. }
  { intros k (s&?&?)%Hkeys. eauto. }
  intros ? w1 (m1&->&Hsvc&Hm1).
  assert (∀ n, doomed m1 n ↔ doomed (lget mgr w) n) as Hdoom by (intros n; unfold doomed, wantedNEG; by rewrite Hsvc).
  apply wp_bind, wp_try. eapply wp_mono.
  - eapply (wp_keeps (lget mgr)); [apply gcNEG_keeps|apply garbageCollectNEG_ok].
    rewrite lens_get_set. unfold names_ok. by rewrite Hsvc.
  - intros ? w2 [[Hs2 Hu] Hm2]. apply wp_ret. rewrite lens_get_set in Hs2, Hu, Hm2. rewrite Hm2. split_and!; [..|done|].
    + intros z n Hn. apply (ggl_frame w m1). by apply Hs2.
    + intros z n Hn Hd. apply Hs2; [by apply ggl_frame|]. by rewrite Hdoom.
    + intros z n Hd Hn. destruct (Hu z n) as (w3&e&w4&Hsub&?&?); [by apply Hdoom|done|]. exists w3, e, w4.
      split; [|done]. intros ?? ?%Hsub. by apply (ggl_frame w m1).
    + intros k s. rewrite Hm1, Hkeys. split; intros [Hs Hf]; (split; [done|]).
      * destruct (finished s) eqn:Hfs; [|done]. exfalso. apply Hf. split; [|done]. exists s. split; [done|].
        by apply andb_true_iff in Hfs as [? _].
      * intros [_ ?]. congruence.
  - intros ? w2 [Hs2 _]. apply wp_throw. rewrite lens_get_set in Hs2. intros z n. destruct (Hs2 z n) as [Ha Hb].
    rewrite (ggl_frame w m1) in Ha, Hb. rewrite Hdoom in Hb. done.
Qed.
End gc.
