(* ===== verification/NegManagerExample.v ===== *)
(** * NegManagerExample: the theorems on the manager, applied

    A manager with the names of [utils.Namer] over the fake cloud of
    [NegFakes]: the theorems of [NegManagerSpec] at concrete states. *)

From S2P Require Import Prelude GoLang GoStrings Compute Utils Namer NegSyncer NegSyncerSM NegFakes.
From S2P Require Import NegManager NegManagerSpec.

#[local] Instance ex_negNamer : NEGNamer := Namer_negNamer (NewNamer "uid1" "").
#[local] Instance ex_portRange : KeyRange servicePort := listRange servicePort.
#[local] Instance ex_serviceRange : KeyRange serviceKey := listRange serviceKey.

(** ** The manager *)

Fixpoint run_events (l : list mgr_event) (ms : mgr_state) : option mgr_state :=
  match l with
  | [] => Some ms
  | e :: l => '(_, ms) ← mgr_event_effect e ms; run_events l ms
  end.
Lemma run_events_reachable l ms ms' :
  mgr_reachable ms → Forall event_ok l → run_events l ms = Some ms' → mgr_reachable ms'.
Proof.
  revert ms. induction l as [|e l IH]; simpl; intros ms Hms Hok; [by intros [= <-]|].
  apply Forall_cons in Hok as [He Hl]. destruct (mgr_event_effect e ms) as [[r ms1]|] eqn:Heff; [|done]. simpl.
  apply IH; [|done]. by eapply mgr_event_step.
Qed.

(** A service with one port, enabled and disabled again while its first sync is
    running. *)
Definition ex_disabled : list mgr_event :=
  [EvEnsureSyncers "ns" "svc" {["80"]}; EvGoroutine (getSyncerKey "ns" "svc" "80") (RunTest 0);
   EvGoroutine (getSyncerKey "ns" "svc" "80") (RunTest 0); EvStopSyncer "ns" "svc"].
Definition ex_manager : mgr_state :=
  (MkManager ∅ {[ getSyncerKey "ns" "svc" "80" :=
     MkManaged (default "" (ngn_NEG "ns" "svc" "80"))
       (MkSystem (MkSyncerState true true (Some (MkChan false true)) 0 0) Idle [Working]) ]}, []).
Lemma ex_NEG p : p ∈ ({["80"]} : gset string) → is_Some (ngn_NEG "ns" "svc" p).
Proof. intros ->%elem_of_singleton. eexists. vm_compute. reflexivity. Qed.
Lemma ex_reachable : mgr_reachable ex_manager.
Proof.
  apply (run_events_reachable ex_disabled (newSyncerManager, [])); [apply mgr_start| |by vm_compute].
  apply Forall_cons. split; [exact ex_NEG|]. by repeat (apply Forall_cons; split); [..|apply Forall_nil].
Qed.

Lemma manager_safe_witness :
  ∃ r ms', mgr_event_effect (EvEnsureSyncers "ns" "svc" {["80"]}) ex_manager = Some (r, ms') ∧ r ≠ Panic.
Proof.
  destruct (manager_safe ex_manager ex_reachable) as [Hev _].
  assert (∃ r ms', mgr_event_effect (EvEnsureSyncers "ns" "svc" {["80"]}) ex_manager = Some (r, ms')) as (r&ms'&Heff).
  { eexists _, _. by vm_compute. }
  exists r, ms'. split; [exact Heff|]. exact (proj1 (Hev (EvEnsureSyncers "ns" "svc" {["80"]}) r ms' ex_NEG Heff)).
Defined.
Lemma EnsureSyncers_lost_start_witness :
  ∃ e m', manager_EnsureSyncers "ns" "svc" {["80"]} ex_manager.1 = (Err e, m') ∧
    runs m' (getSyncerKey "ns" "svc" "80") = false ∧
    manager_EnsureSyncers "ns" "svc" {["80"]} m' = (Ok tt, m').
Proof.
  destruct (EnsureSyncers_lost_start "ns" "svc" {["80"]} "80" ex_manager.1) as (e&m'&He&Hr&Hrest).
  - apply (ms_inv_reachable ex_manager), ex_reachable.
  - exact ex_NEG.
  - by apply elem_of_singleton.
  - by vm_compute.
  - by vm_compute.
  - exists e, m'. split; [exact He|]. split; [exact Hr|]. by apply Hrest.
Defined.

(** ** The cloud *)

Section laws.
Context `{MapRange} (fake : FakeNEGCloud).

#[local] Instance gc_cloud : NEGCloud (FakeNEGCloud * syncerManager) := {|
  negc_Get := λ n z, zoom lens_fst (FakeNEG_Get n z);
  negc_List := λ z, zoom lens_fst (FakeNEG_List z);
  negc_AggregatedList := zoom lens_fst FakeNEG_AggregatedList;
  negc_Create := λ neg z, zoom lens_fst (FakeNEG_Create neg z);
  negc_Delete := λ n z, zoom lens_fst (FakeNEG_Delete n z);
  negc_Attach := λ n z nes, zoom lens_fst (FakeNEG_Attach n z nes);
  negc_Detach := λ n z nes, zoom lens_fst (FakeNEG_Detach n z nes);
  negc_ListEndpoints := λ n z b, zoom lens_fst (FakeNEG_ListEndpoints n z b);
  negc_NetworkURL := fnc_Network fake;
  negc_SubnetworkURL := fnc_Subnetwork fake;
|}.
#[local] Instance gc_groups : NEGGroups (FakeNEGCloud * syncerManager) := {|
  has_neg := λ w z n, n ∈ neg_Name <$> default [] (fnc_NetworkEndpointGroups w.1 !! z);
|}.

Lemma keeps_zoom_fst {A B X} (f : M A X) : keeps (W := A * B) snd (zoom lens_fst f).
Proof. intros [a b]. unfold zoom. simpl. by destruct (f a). Qed.
Lemma find_named (negs : list NetworkEndpointGroup) n :
  is_Some (List.find (λ neg, bool_decide (neg_Name neg = n)) negs) ↔ n ∈ neg_Name <$> negs.
Proof.
  rewrite list_elem_of_fmap. induction negs as [|neg negs IH]; simpl.
  { split; [by intros [? [=]]|by intros (?&_&[]%elem_of_nil)]. }
  case_bool_decide as Hn.
  - split; [|by eexists]. intros _. exists neg. split; [done|apply list_elem_of_here].
  - rewrite IH. setoid_rewrite elem_of_cons. naive_solver.
Qed.
Lemma existsb_named (negs : list NetworkEndpointGroup) n :
  existsb (λ neg, bool_decide (neg_Name neg = n)) negs = true ↔ n ∈ neg_Name <$> negs.
Proof.
  rewrite existsb_exists, list_elem_of_fmap. setoid_rewrite bool_decide_eq_true. setoid_rewrite <-list_elem_of_In. naive_solver.
Qed.

Lemma gc_laws : NEGGroupLaws (FakeNEGCloud * syncerManager) lens_snd.
Proof.
  split; try (intros; apply keeps_zoom_fst).
  - apply _.
  - done.
  - intros n z [f m]. apply wp_zoom. unfold FakeNEG_Get. apply wp_bind, wp_getW. simpl.
    by case_match; [apply wp_ret|apply wp_throw].
  - intros n z [f m]. apply wp_zoom. unfold FakeNEG_Delete. apply wp_bind, wp_modW, wp_bind, wp_getW. simpl.
    case_match eqn:He; [apply wp_modW|apply wp_throw]; simpl; intros z' n'.
    + destruct (decide (z = z')) as [<-|Hne].
      * rewrite lookup_insert_eq. simpl. rewrite !list_elem_of_fmap. setoid_rewrite list_elem_of_filter.
        split; [intros (neg&->&Hn&?); split; [by exists neg|congruence]|].
        intros [(neg&->&?) Hn]. exists neg. split_and!; try done. intros Hnn. apply Hn. by rewrite Hnn.
      * rewrite lookup_insert_ne by done. split; [|tauto]. intros ?. split; [done|congruence].
    + done.
  - intros [f m]. apply wp_zoom, wp_getW. simpl. split; [done|]. intros z n.
    destruct (fnc_NetworkEndpointGroups f !! z) as [negs|] eqn:Hz; simpl; [naive_solver|].
    split; [by intros []%elem_of_nil|naive_solver].
Qed.
End laws.

(** One group that nobody asks for and one of another cluster. *)
Definition ex_groups : FakeNEGCloud :=
  MkFakeNEGCloud {[ "zone1" := [MkNetworkEndpointGroup "k8s1-uid1-old" "" "" "" "" "";
                                MkNetworkEndpointGroup "k8s1-uid2-other" "" "" "" "" ""] ]} ∅ "" "".
Lemma manager_GC_spec_witness :
  let R := sortedRange in let C := gc_cloud ex_groups in
  wp (manager_GC lens_snd)
    (λ _ w', "k8s1-uid1-old" ∉ neg_Name <$> default [] (fnc_NetworkEndpointGroups w'.1 !! "zone1"))
    (λ _ _, True) (ex_groups, newSyncerManager).
Proof.
  intros R C. pose (L := gc_laws ex_groups).
  eapply wp_mono; [apply (manager_GC_spec (H0 := gc_groups) lens_snd (ex_groups, newSyncerManager))|..].
  - intros key ports port Hk. discriminate Hk.
  - intros ? w' (_&_&Hu&_) Hin.
    destruct (Hu "zone1" "k8s1-uid1-old") as ([f m]&e&w2&_&Hn&Hget); [|exact Hin|].
    { split; [by vm_compute|]. intros (key&ports&port&Hk&_). discriminate Hk. }
    simpl in Hn, Hget. apply find_named in Hn as [neg Hneg]. unfold zoom, FakeNEG_Get in Hget. simpl in Hget.
    unfold mbind, M_bind, getW in Hget. rewrite Hneg in Hget. discriminate Hget.
  - done.
Defined.
