(* ===== verification/NegController.v ===== *)
(** * NegController: pkg/networkendpointgroup/controller.go

    The controller watches services, ingresses and endpoints, works out which
    target ports of a service need network endpoint groups, and tells the
    manager. Its queue is the work queue of [K8s]; the manager is called through
    its interface. Events sent to the recorder are left out. *)

From S2P Require Import Prelude GoLang GoStrings Compute Utils Annotations K8s NegSyncer NegSyncerSM NegManager.

(** ** Ports *)

(** All the paths of an ingress; [None] when a rule has no HTTP value and the
    code dereferences it. *)
Fixpoint rulePaths (rules : list IngressRule) : option (list HTTPIngressPath) :=
  match rules with
  | [] => Some []
  | rule :: rules => paths ← ir_HTTP rule; rest ← rulePaths rules; Some (paths ++ rest)
  end.

Definition defaultPorts (svc : Service) (ing : Ingress) : list string :=
  match ing_Backend ing with
  | Some be => if decide (ib_ServiceName be = svc_Name svc) then [IntOrString_String (ib_ServicePort be)] else []
  | None => []
  end.
Definition pathPorts (svc : Service) (paths : list HTTPIngressPath) : list string :=
  (λ p, IntOrString_String (ib_ServicePort (hp_Backend p))) <$>
    filter (λ p, ib_ServiceName (hp_Backend p) = svc_Name svc) paths.
(** The two loops over the ingresses. *)
Definition referencedPorts (ings : list Ingress) (svc : Service) : option (gset string) :=
  paths ← rulePaths (concat (ing_Rules <$> ings));
  Some (list_to_set (concat (defaultPorts svc <$> ings) ++ pathPorts svc paths)).

(** Whether a reference of an ingress means this port: by number if it is one. *)
Definition refersTo (svcPort : SvcPort) (refSvcPort : string) : bool :=
  match Atoi refSvcPort with
  | None => bool_decide (refSvcPort = kp_Name svcPort)
  | Some port => bool_decide (port = kp_Port svcPort)
  end.
Definition gatherSerivceTargetPortUsedByIngress (ings : list Ingress) (svc : Service) : option (gset string) :=
  servicePorts ← referencedPorts ings svc;
  Some (list_to_set ((λ svcPort, IntOrString_String (kp_TargetPort svcPort)) <$>
    filter (λ svcPort, existsb (refersTo svcPort) (sets_List servicePorts) = true) (svc_Ports svc))).

Definition serviceKeyFunc (namespace name : string) : string := namespace +:+ "/" +:+ name.

Definition gatherIngressServiceKeys (obj : informed) : option (gset string) :=
  match obj with
  | OIngress ing =>
      paths ← rulePaths (ing_Rules ing);
      Some (list_to_set (option_list (serviceKeyFunc (ing_Namespace ing) ∘ ib_ServiceName <$> ing_Backend ing) ++
        ((λ p, serviceKeyFunc (ing_Namespace ing) (ib_ServiceName (hp_Backend p))) <$> paths)))
  | _ => Some ∅
  end.

Definition getIngressServicesFromStore `{MapRange} (st : store Ingress) (svc : Service) : list Ingress :=
  filter (λ ing, ingressRefersTo svc ing = true) (store_List st).

(** ** The controller *)

(** [negSyncerManager] *)
Class NEGSyncerManager (W : Type) := {
  nsm_EnsureSyncers : string → string → gset string → M W unit;
  nsm_StopSyncer : string → string → M W unit;
  nsm_Sync : string → string → M W unit;
  nsm_GC : M W unit;
  nsm_ShutDown : M W unit;
}.

Record NEGController (W : Type) := MkNEGController {
  nc_ingressLister : W → store Ingress;
  nc_serviceLister : W → store Service;
  nc_serviceQueue : lens W workqueue;
}.
Arguments MkNEGController {W} _ _ _.
Arguments nc_ingressLister {W} _ _.
Arguments nc_serviceLister {W} _ _.
Arguments nc_serviceQueue {W} _.

Section controller.
Context {W : Type} `{NEGSyncerManager W, MapRange}.
Implicit Types c : NEGController W.

Definition on_queue c (f : workqueue → workqueue) : M W unit := zoom (nc_serviceQueue c) (modW f).

Definition controller_stop c : M W unit := _ ← on_queue c queue_ShutDown; nsm_ShutDown.

Definition controller_processEndpoint c (obj : informed) : M W unit :=
  match splitMetaKey (informed_key obj) with
  | inl _ => mret tt
  | inr (namespace, name) => nsm_Sync namespace name
  end.

Definition controller_processService c (key : string) : M W unit :=
  match splitMetaKey key with
  | inl err => throw err
  | inr (namespace, name) =>
      svc ← getW (λ w, nc_serviceLister c w !! key);
      match svc with
      | None => nsm_StopSyncer namespace name
      | Some service =>
          if negb (SvcAnnotations_NEGEnabled (svc_Annotations service)) then nsm_StopSyncer namespace name
          else
            ings ← getW (λ w, getIngressServicesFromStore (nc_ingressLister c w) service);
            ports ← ofOption (gatherSerivceTargetPortUsedByIngress ings service);
            nsm_EnsureSyncers namespace name ports
      end
  end.

Definition controller_handleErr c (err : option error) (key : string) : M W unit :=
  match err with
  | None => on_queue c (queue_Forget key)
  | Some _ =>
      requeues ← getW (λ w, queue_NumRequeues key (lget (nc_serviceQueue c) w));
      if decide (Z.of_nat requeues < maxRetries)%Z then on_queue c (queue_AddRateLimited key)
      else on_queue c (queue_Forget key)
  end.

(** One turn of [serviceWorker]: the result is false when the call of [Get]
    blocks. A turn that is told to quit only leaves the closure, and the loop
    goes on. *)
Definition controller_serviceWorker c : M W bool :=
  got ← getW (λ w, queue_Get (lget (nc_serviceQueue c) w));
  match got with
  | None => mret false
  | Some (item, q) =>
      _ ← on_queue c (λ _, q);
      match item with
      | None => mret true
      | Some key =>
          r ← try (controller_processService c key);
          _ ← controller_handleErr c (match r with inl err => Some err | inr _ => None end) key;
          _ ← on_queue c (queue_Done key);
          mret true
      end
  end.

Definition controller_enqueueService c (obj : informed) : M W unit := on_queue c (queue_Add (informed_key obj)).
Definition controller_enqueueKeys c (keys : gset string) : M W unit :=
  forEach (λ key, controller_enqueueService c (OExplicitKey key)) (sets_List keys).
(** A range over the set itself, in Go's order. *)
Definition controller_enqueueIngressServices c (obj : informed) : M W unit :=
  keys ← ofOption (gatherIngressServiceKeys obj);
  forEach (λ key, controller_enqueueService c (OExplicitKey key)) (range (gset_to_gmap tt keys)).*1.
Definition controller_updateIngress c (old cur : informed) : M W unit :=
  keys ← ofOption (gatherIngressServiceKeys old);
  keys' ← ofOption (gatherIngressServiceKeys cur);
  controller_enqueueKeys c (keys ∪ keys').
Definition controller_gc c : M W unit := r ← try nsm_GC; mret tt.

(** The registrations of [NewController] with the informers. *)
Definition controller_onService c (ev : informer_event informed) : M W unit :=
  match ev with EvAdd obj | EvDelete obj | EvUpdate _ obj => controller_enqueueService c obj end.
Definition controller_onIngress c (ev : informer_event informed) : M W unit :=
  match ev with
  | EvAdd obj | EvDelete obj => controller_enqueueIngressServices c obj
  | EvUpdate old cur => controller_updateIngress c old cur
  end.
Definition controller_onEndpoint c (ev : informer_event informed) : M W unit :=
  match ev with EvAdd obj | EvDelete obj | EvUpdate _ obj => controller_processEndpoint c obj end.
(** What [Run] polls before it starts the worker. *)
Definition controller_synced (endpointSynced serviceSynced ingressSynced : W → bool) (w : W) : bool :=
  endpointSynced w && serviceSynced w && ingressSynced w.
End controller.

(** The manager of [NegManager], as the controller sees it. *)
Definition manager_interface {W} `{NEGCloud W, NEGNamer, !KeyRange servicePort, !KeyRange serviceKey, MapRange}
    (mgr : lens W syncerManager) : NEGSyncerManager W := {|
  nsm_EnsureSyncers := λ ns name ports, zoom mgr (manager_EnsureSyncers ns name ports);
  nsm_StopSyncer := λ ns name, zoom mgr (manager_StopSyncer ns name);
  nsm_Sync := λ ns name, zoom mgr (manager_Sync ns name);
  nsm_GC := manager_GC mgr;
  nsm_ShutDown := zoom mgr manager_ShutDown;
|}.
