(* ===== verification/NegControllerSpec.v ===== *)
(** * NegControllerSpec: which syncers run for a service

    The controller and the manager together: after a service was processed, its
    running syncers are those of the target ports that ingresses refer to. *)

From S2P Require Import Prelude GoLang GoStrings Compute Utils Annotations K8s NegSyncer NegSyncerSM NegManager.
From S2P Require Import Namer NegManagerSpec NegFakes NegManagerExample NegController TaskQueue.

(** ** The ports *)

(** The backends an ingress mentions. *)
Definition backendsOf (ing : Ingress) : list IngressBackend :=
  option_list (ing_Backend ing) ++
  (hp_Backend <$> concat (default [] ∘ ir_HTTP <$> ing_Rules ing)).
(** The port a backend means, by number or by name. *)
Definition namesPort (be : IngressBackend) (svcPort : SvcPort) : Prop :=
  match ib_ServicePort be with
  | FromInt i => i = kp_Port svcPort
  | FromString s => s = kp_Name svcPort
  end.
(** What the API server checks of an ingress: port numbers are positive, and
    names are not numbers; and every rule has an HTTP value, which it does not
    check. *)
Definition wf_backend (be : IngressBackend) : Prop :=
  match ib_ServicePort be with FromInt i => (0 ≤ i < 2 ^ 31)%Z | FromString s => Atoi s = None end.
Definition wf_ingress (ing : Ingress) : Prop :=
  Forall wf_backend (backendsOf ing) ∧ Forall (λ rule, is_Some (ir_HTTP rule)) (ing_Rules ing).

Lemma rulePaths_ok rules :
  Forall (λ rule, is_Some (ir_HTTP rule)) rules → rulePaths rules = Some (concat (default [] ∘ ir_HTTP <$> rules)).
Proof. induction 1 as [|rule rules [paths Hp] _ IH]; [done|]. simpl. by rewrite Hp, IH. Qed.

Lemma refersTo_names be svcPort :
  wf_backend be → refersTo svcPort (IntOrString_String (ib_ServicePort be)) = true ↔ namesPort be svcPort.
Proof.
  unfold wf_backend, refersTo, namesPort. destruct (ib_ServicePort be) as [i|s]; simpl.
  - intros Hi. change (pretty i) with (Itoa i). rewrite Atoi_Itoa by lia. apply bool_decide_eq_true.
  - intros ->. apply bool_decide_eq_true.
Qed.

Lemma elem_of_concat_fmap {A B} (f : A → list B) (l : list A) y : y ∈ concat (f <$> l) ↔ ∃ x, x ∈ l ∧ y ∈ f x.
Proof.
  rewrite list_elem_of_In, in_concat. setoid_rewrite <-list_elem_of_In. split.
  - intros (z&(x&->&?)%list_elem_of_fmap&?). eauto.
  - intros (x&?&?). exists (f x). split; [|done]. apply list_elem_of_fmap. eauto.
Qed.

Lemma referencedPorts_ok ings svc :
  Forall wf_ingress ings →
  ∃ refs, referencedPorts ings svc = Some refs ∧
    ∀ r, r ∈ refs ↔ ∃ ing be, ing ∈ ings ∧ be ∈ backendsOf ing ∧ ib_ServiceName be = svc_Name svc ∧
      r = IntOrString_String (ib_ServicePort be).
Proof.
  intros Hwf. unfold referencedPorts. rewrite rulePaths_ok; [|].
  2: { apply Forall_forall. intros rule (ing&Hing&Hrule)%elem_of_concat_fmap. rewrite Forall_forall in Hwf.
       destruct (Hwf ing Hing) as [_ Hr]. rewrite Forall_forall in Hr. by apply Hr. }
  simpl. eexists. split; [done|]. intros r. rewrite elem_of_list_to_set, elem_of_app. unfold pathPorts.
  rewrite elem_of_concat_fmap, list_elem_of_fmap. setoid_rewrite list_elem_of_filter.
  assert (∀ p, p ∈ concat (default [] ∘ ir_HTTP <$> concat (ing_Rules <$> ings)) ↔
    ∃ ing, ing ∈ ings ∧ p ∈ concat (default [] ∘ ir_HTTP <$> ing_Rules ing)) as Hpaths.
  { intros p. rewrite !elem_of_concat_fmap. setoid_rewrite elem_of_concat_fmap. naive_solver. }
  setoid_rewrite Hpaths. unfold backendsOf. setoid_rewrite elem_of_app. split.
  - intros [(ing&Hing&Hd)|(p&->&Hn&ing&Hing&Hp)].
    + unfold defaultPorts in Hd. destruct (ing_Backend ing) as [be|] eqn:Hbe; [|by apply elem_of_nil in Hd].
      case_decide; [|by apply elem_of_nil in Hd]. apply list_elem_of_singleton in Hd as ->.
      exists ing, be. split_and!; try done. left. rewrite Hbe. apply list_elem_of_here.
    + exists ing, (hp_Backend p). split_and!; try done. right. apply list_elem_of_fmap. eauto.
  - intros (ing&be&Hing&[Hbe|(p&->&Hp)%list_elem_of_fmap]&Hn&->).
    + left. exists ing. split; [done|]. unfold defaultPorts. destruct (ing_Backend ing) as [be'|]; [|by apply elem_of_nil in Hbe].
      apply list_elem_of_singleton in Hbe as ->. rewrite decide_True by done. apply list_elem_of_here.
    + right. exists p. eauto.
Qed.

(** The target ports of a service that ingresses refer to. *)
Definition usesPort (ings : list Ingress) (svc : Service) (t : string) : Prop :=
  ∃ ing be svcPort, ing ∈ ings ∧ be ∈ backendsOf ing ∧ ib_ServiceName be = svc_Name svc ∧
    svcPort ∈ svc_Ports svc ∧ namesPort be svcPort ∧ t = IntOrString_String (kp_TargetPort svcPort).
Lemma gather_ok ings svc :
  Forall wf_ingress ings →
  ∃ ports, gatherSerivceTargetPortUsedByIngress ings svc = Some ports ∧ ∀ t, t ∈ ports ↔ usesPort ings svc t.
Proof.
  intros Hwf. destruct (referencedPorts_ok ings svc Hwf) as (refs&Href&Hrefs).
  unfold gatherSerivceTargetPortUsedByIngress. rewrite Href. simpl. eexists. split; [done|]. intros t.
  rewrite elem_of_list_to_set, list_elem_of_fmap. setoid_rewrite list_elem_of_filter.
  setoid_rewrite existsb_exists. setoid_rewrite <-list_elem_of_In. setoid_rewrite elem_of_sets_List. setoid_rewrite Hrefs.
  assert (∀ ing be, ing ∈ ings → be ∈ backendsOf ing → wf_backend be) as Hbe.
  { intros ing be Hing Hin. rewrite Forall_forall in Hwf. destruct (Hwf ing Hing) as [Hb _].
    rewrite Forall_forall in Hb. auto. }
  split.
  - intros (svcPort&->&(r&(ing&be&Hing&Hb&Hn&->)&Hr)&Hp). exists ing, be, svcPort. split_and!; try done.
    apply refersTo_names; [by eapply Hbe|done].
  - intros (ing&be&svcPort&Hing&Hb&Hn&Hp&Hnames&->). exists svcPort. split; [done|]. split; [|done].
    eexists. split; [by exists ing, be|]. apply refersTo_names; [by eapply Hbe|done].
Qed.

(** The ingresses of the store that the controller looks at are those of the
    namespace that mention the service. *)
Lemma ingressRefersTo_ok svc ing :
  ingressRefersTo svc ing = true ↔
  ing_Namespace ing = svc_Namespace svc ∧ ∃ be, be ∈ backendsOf ing ∧ ib_ServiceName be = svc_Name svc.
Proof.
  unfold ingressRefersTo, backendsOf. rewrite andb_true_iff, orb_true_iff, bool_decide_eq_true, existsb_exists.
  f_equiv. setoid_rewrite elem_of_app. setoid_rewrite <-list_elem_of_In. setoid_rewrite list_elem_of_fmap.
  setoid_rewrite elem_of_concat_fmap. split.
  - intros [Hb|(rule&Hrule&Hp)].
    + destruct (ing_Backend ing) as [be|]; [|done]. apply bool_decide_eq_true in Hb. exists be. split; [|done].
      left. apply list_elem_of_here.
    + destruct (ir_HTTP rule) as [paths|] eqn:Hh; [|done]. apply existsb_exists in Hp as (p&Hp&Hn%bool_decide_eq_true).
      apply list_elem_of_In in Hp. exists (hp_Backend p). split; [|done]. right. exists p. split; [done|].
      exists rule. split; [done|]. simpl. by rewrite Hh.
  - intros (be&[Hb|(p&->&rule&Hrule&Hp)]&Hn).
    + left. destruct (ing_Backend ing); [|by apply elem_of_nil in Hb]. apply list_elem_of_singleton in Hb as ->.
      by apply bool_decide_eq_true.
    + right. exists rule. split; [done|]. simpl in Hp. destruct (ir_HTTP rule) as [paths|]; [|by apply elem_of_nil in Hp].
      simpl in Hp. apply existsb_exists. exists p. split; [by apply list_elem_of_In|]. by apply bool_decide_eq_true.
Qed.

(** The target ports that need a group, by the stores alone: the service exists
    and is annotated, and some ingress of its namespace has a backend with one of
    its ports. *)
Definition needsNEG (ingresses : store Ingress) (services : store Service) (key t : string) : Prop :=
  ∃ svc, services !! key = Some svc ∧ SvcAnnotations_NEGEnabled (svc_Annotations svc) = true ∧
  ∃ k ing be svcPort, ingresses !! k = Some ing ∧ ing_Namespace ing = svc_Namespace svc ∧
    be ∈ backendsOf ing ∧ ib_ServiceName be = svc_Name svc ∧
    svcPort ∈ svc_Ports svc ∧ namesPort be svcPort ∧ t = IntOrString_String (kp_TargetPort svcPort).

Lemma usesPort_store `{MapRange} ingresses svc t :
  usesPort (getIngressServicesFromStore ingresses svc) svc t ↔
  ∃ k ing be svcPort, ingresses !! k = Some ing ∧ ing_Namespace ing = svc_Namespace svc ∧
    be ∈ backendsOf ing ∧ ib_ServiceName be = svc_Name svc ∧
    svcPort ∈ svc_Ports svc ∧ namesPort be svcPort ∧ t = IntOrString_String (kp_TargetPort svcPort).
Proof.
  unfold usesPort, getIngressServicesFromStore. setoid_rewrite list_elem_of_filter.
  setoid_rewrite elem_of_store_List. setoid_rewrite ingressRefersTo_ok. split.
  - intros (ing&be&svcPort&((?&_)&k&?)&?&?&?&?&?). by exists k, ing, be, svcPort.
  - intros (k&ing&be&svcPort&?&?&?&?&?&?&?). exists ing, be, svcPort. split_and!; eauto.
Qed.

(** ** The controller with the manager *)

Section process.
Context {W : Type} `{NEGCloud W, NEGNamer, !KeyRange servicePort, !KeyRange serviceKey, MapRange}.
Context (mgr : lens W syncerManager) `{!LensLaws mgr} (c : NEGController W).
#[local] Instance process_manager : NEGSyncerManager W := manager_interface mgr.

(** C14. After the controller has processed a service without error, the syncers
    of the service that run are exactly those of the target ports that need a
    network endpoint group: the service exists and asks for them, and an ingress
    of its namespace has a backend that means the port, by number or by name. The
    call fails only when a syncer it would start is still shutting down. This
    composes the controller with the manager. The backend ports of the stored
    ingresses are taken to be as the API server checks them and their rules to
    have the http part ([wf_ingress]; without it the code dereferences nil), and
    every port the manager had recorded to have a running syncer before. *)
Theorem processService_spec ns name w :
  let key := metaKey ns name in let k := getSyncerKey ns name in let m := lget mgr w in
  lacks "/" ns = true → lacks "/" name = true → minv m →
  (∀ key' ing, nc_ingressLister c w !! key' = Some ing → wf_ingress ing) →
  (∀ p, needsNEG (nc_ingressLister c w) (nc_serviceLister c w) key p → is_Some (ngn_NEG ns name p)) →
  (∀ p, p ∈ portsOf m (getServiceKey ns name) → runs m (k p) = true) →
  wp (controller_processService c key)
    (λ _ w', minv (lget mgr w') ∧ ∀ p, runs (lget mgr w') (k p) = true ↔
       needsNEG (nc_ingressLister c w) (nc_serviceLister c w) key p)
    (λ _ w', minv (lget mgr w') ∧ ∃ p, needsNEG (nc_ingressLister c w) (nc_serviceLister c w) key p ∧
       shutting m (k p) = true) w.
Proof.
  intros key k m Hns Hname Hm Hwf Hneg Hrun. unfold controller_processService, key. rewrite splitMetaKey_metaKey by done.
  fold key. apply wp_bind, wp_getW.
  assert ((∀ p, ¬ needsNEG (nc_ingressLister c w) (nc_serviceLister c w) key p) →
    wp (nsm_StopSyncer ns name) (λ _ w', minv (lget mgr w') ∧ ∀ p, runs (lget mgr w') (k p) = true ↔
       needsNEG (nc_ingressLister c w) (nc_serviceLister c w) key p)
    (λ _ w', minv (lget mgr w') ∧ ∃ p, needsNEG (nc_ingressLister c w) (nc_serviceLister c w) key p ∧
       shutting m (k p) = true) w) as Hstop.
  { intros Hno. apply wp_zoom. fold m. eapply wp_mono; [by apply StopSyncer_ok| |done].
    intros ? m' [Hm' Hgone]. rewrite lens_get_set. split; [done|]. intros p. split; [|by intros ?%Hno].
    intros Hr. apply Hm' in Hr. unfold wantedPort, portsOf in Hr. simpl in Hr. unfold keyOf in Hr. simpl in Hr.
    unfold getServiceKey in Hgone. rewrite Hgone in Hr. by apply elem_of_empty in Hr. }
  destruct (nc_serviceLister c w !! key) as [svc|] eqn:Hsvc; [|apply Hstop; intros p (?&?&_); congruence].
  destruct (SvcAnnotations_NEGEnabled (svc_Annotations svc)) eqn:Hen; simpl.
  2: { apply Hstop. intros p (svc'&?&?&_). congruence. }
  apply wp_bind, wp_getW, wp_bind.
  destruct (gather_ok (getIngressServicesFromStore (nc_ingressLister c w) svc) svc) as (ports&Hports&Hin).
  { apply Forall_forall. intros ing [_ [k' Hk']%elem_of_store_List]%list_elem_of_filter. by eapply Hwf. }
  rewrite Hports. apply wp_ret. apply wp_zoom. fold m.
  assert (∀ p, p ∈ ports ↔ needsNEG (nc_ingressLister c w) (nc_serviceLister c w) key p) as Hneeds.
  { intros p. rewrite Hin, usesPort_store. unfold needsNEG. rewrite Hsvc. split; [intros Hp; by exists svc|].
    intros (svc'&?&_&Hp). by simplify_eq. }
  eapply wp_mono; [apply EnsureSyncers_synced; [done|by intros p ?%Hneeds; apply Hneg|done]|..].
  - intros ? m' (Hm'&Hr&_). rewrite lens_get_set. split; [done|]. intros p. rewrite Hr, bool_decide_eq_true. apply Hneeds.
  - intros ? m' (Hm'&p&Hp&Hsh&_). rewrite lens_get_set. split; [done|]. exists p. split; [by apply Hneeds|done].
Qed.
End process.

(** A service with two ports, of which one ingress uses the second by name. *)
Definition ex_service : Service := MkService "ns" "svc" {[NetworkEndpointGroupAlphaAnnotation := "true"]} ∅
  [MkSvcPort "http" 80 30080 (FromInt 8080); MkSvcPort "admin" 81 30081 (FromString "adm")].
Definition ex_ingress : Ingress := MkIngress "ns" "ing" ∅ None
  [MkIngressRule "foo.bar" (Some [MkHTTPIngressPath "/" (MkIngressBackend "svc" (FromString "admin"))])] [] [].
Definition ex_controller : NEGController (FakeNEGCloud * syncerManager) := MkNEGController
  (λ _, {["ns/ing" := ex_ingress]}) (λ _, {["ns/svc" := ex_service]}) (Lens (λ _, newQueue) (λ _ w, w)).
Lemma processService_spec_witness :
  let R := sortedRange in let C := gc_cloud ex_groups in let N := Namer_negNamer (NewNamer "uid1" "") in
  let P := listRange servicePort in let K := listRange serviceKey in
  let S := manager_interface lens_snd in
  wp (controller_processService ex_controller "ns/svc")
    (λ _ w', runs w'.2 (getSyncerKey "ns" "svc" "adm") = true) (λ _ _, True) (ex_groups, newSyncerManager).
Proof.
  intros R C N P K S.
  eapply wp_mono; [apply (processService_spec lens_snd ex_controller "ns" "svc" (ex_groups, newSyncerManager))|..].
  - reflexivity.
  - reflexivity.
  - split; [intros k s Hk; discriminate Hk|]. intros k Hk. discriminate Hk.
  - simpl. intros key ing [_ <-]%lookup_singleton_Some. split; apply Forall_singleton; [by vm_compute|by eexists].
  - intros p (svc&Hsvc&_&k&ing&be&port&Hing&_&Hbe&_&Hport&Hn&->).
    simpl in Hsvc, Hing. apply lookup_singleton_Some in Hsvc as [_ <-], Hing as [_ <-].
    apply elem_of_cons in Hport as [->| ->%list_elem_of_singleton]; apply (bool_decide_unpack _); vm_compute; exact I.
  - intros p Hp. by apply elem_of_empty in Hp.
  - intros ? w' [_ Hr]. apply Hr. exists ex_service. split; [done|]. split; [done|].
    eexists "ns/ing", ex_ingress, _, _. split; [done|]. split; [done|]. split; [apply list_elem_of_here|].
    split; [done|]. split; [apply list_elem_of_further, list_elem_of_here|]. done.
  - done.
Defined.

(** ** Events *)

Section events.
Context {W : Type} `{NEGSyncerManager W, MapRange} (c : NEGController W) `{!LensLaws (nc_serviceQueue c)}.

Definition event_objects {A} (ev : informer_event A) : list A :=
  match ev with EvAdd obj | EvDelete obj => [obj] | EvUpdate old cur => [old; cur] end.
Definition queued (w : W) (key : string) : Prop := key ∈ q_dirty (lget (nc_serviceQueue c) w).

Lemma enqueue_keys keys w :
  q_shuttingDown (lget (nc_serviceQueue c) w) = false →
  wp (forEach (λ key, controller_enqueueService c (OExplicitKey key)) keys)
    (λ _ w', ∀ key, key ∈ keys → queued w' key) (λ _ _, False) w.
Proof.
  intros Hs. eapply wp_mono; [apply (wp_forEach _ keys (λ d w', q_shuttingDown (lget (nc_serviceQueue c) w') = false ∧
    ∀ key, key ∈ d → queued w' key) (λ _ _, False))| |done].
  - split; [done|]. by intros key ?%elem_of_nil.
  - intros d key w1 _ [Hs1 Hd]. unfold controller_enqueueService, on_queue, queued. apply wp_zoom, wp_modW.
    rewrite lens_get_set. cbn [informed_key]. destruct (Add_fields key (lget (nc_serviceQueue c) w1)) as (_&->&_&Hdirty&_). simpl. rewrite (Hdirty Hs1).
    split; [done|]. intros k [Hk| ->%list_elem_of_singleton]%elem_of_app; apply elem_of_union; [right; by apply Hd|left; by apply elem_of_singleton].
  - by intros _ w' [_ ?].
Qed.

(** No event of an ingress is lost: while the queue is open, whatever the
    informer reports of an ingress puts every service that the ingress refers
    to into the queue, and after an update every service of the old and of the
    new version. *)
Theorem ingress_event_queues ev w :
  q_shuttingDown (lget (nc_serviceQueue c) w) = false →
  (∀ obj, obj ∈ event_objects ev → is_Some (gatherIngressServiceKeys obj)) →
  wp (controller_onIngress c ev)
    (λ _ w', ∀ obj keys key, obj ∈ event_objects ev → gatherIngressServiceKeys obj = Some keys → key ∈ keys → queued w' key)
    (λ _ _, False) w.
Proof.
  intros Hs Hobjs.
  assert (∀ obj, event_objects ev = [obj] → wp (controller_enqueueIngressServices c obj) (λ _ w', ∀ obj keys key,
    obj ∈ event_objects ev → gatherIngressServiceKeys obj = Some keys → key ∈ keys → queued w' key) (λ _ _, False) w) as Hone.
  { intros obj Hev. rewrite Hev in *. destruct (Hobjs obj) as [keys Hk]; [apply list_elem_of_here|].
    unfold controller_enqueueIngressServices. apply wp_bind. eapply wp_ofOption; [exact Hk|].
    eapply wp_mono; [by apply enqueue_keys|cbv beta|done]. intros _ w' Hq o ks key ->%list_elem_of_singleton Hks Hkey. apply Hq.
    rewrite Hk in Hks. injection Hks as <-. apply range_keys. rewrite lookup_gset_to_gmap, option_guard_True by done. by eexists. }
  destruct ev as [obj|old cur|obj]; [by apply Hone| |by apply Hone].
  destruct (Hobjs old) as [k1 Hk1]; [apply list_elem_of_here|]. destruct (Hobjs cur) as [k2 Hk2]; [apply list_elem_of_further, list_elem_of_here|].
  simpl. unfold controller_updateIngress. apply wp_bind. eapply wp_ofOption; [exact Hk1|].
  apply wp_bind. eapply wp_ofOption; [exact Hk2|].
  eapply wp_mono; [by apply enqueue_keys|cbv beta|done]. intros _ w' Hq o ks key Ho Hks Hkey. apply Hq, elem_of_sets_List, elem_of_union.
  apply elem_of_cons in Ho as [-> | ->%list_elem_of_singleton]; [left|right]; congruence.
Qed.
End events.
