(* ===== verification/SharedContext.v ===== *)
(** * SharedContext: pkg/context/context.go and the construction of the controllers

    The informers that both controllers share, how [NewLoadBalancerController] of
    pkg/controller/controller.go and [NewController] of
    pkg/networkendpointgroup/controller.go are put together from them, the life
    of the network endpoint group controller ([Run]), and the part of [main] of
    cmd/glbc/main.go that starts everything. The informers themselves are
    client-go's: what makes one is a parameter. *)

From S2P Require Import Prelude GoLang GoStrings Compute Utils Annotations Namer HealthChecks Instances Backends.
From S2P Require Import LoadBalancers Frames K8s TaskQueue Translator ClusterManager Tls Controller.
From S2P Require Import NegSyncer NegSyncerSM NegManager NegController.

Global Instance IngressBackend_eq_dec : EqDecision IngressBackend.
Proof. solve_decision. Defined.
Global Instance HTTPIngressPath_eq_dec : EqDecision HTTPIngressPath.
Proof. solve_decision. Defined.
Global Instance IngressRule_eq_dec : EqDecision IngressRule.
Proof. solve_decision. Defined.
Global Instance Ingress_eq_dec : EqDecision Ingress.
Proof. solve_decision. Defined.
Global Instance informed_eq_dec : EqDecision informed.
Proof. solve_decision. Defined.

(** ** The shared context *)

(** The kinds of objects that are watched. *)
Inductive resource := RIngress | RService | RPod | RNode | REndpoints.
Global Instance resource_eq_dec : EqDecision resource.
Proof. solve_decision. Defined.

(** [cache.SharedIndexInformer]: the kind of its objects, the store that it fills
    and whether it has been filled for the first time. *)
Record informer (W A : Type) := MkInformer {
  inf_kind : resource;
  inf_Store : lens W (store A);
  inf_HasSynced : W → bool;
}.
Arguments MkInformer {W A} _ _ _.
Arguments inf_kind {W A} _.
Arguments inf_Store {W A} _.
Arguments inf_HasSynced {W A} _ _.

(** client-go's constructors, of a namespace and a resync period. *)
Class InformerFactory (W : Type) := {
  NewIngressInformer : string → Z → informer W Ingress;
  NewServiceInformer : string → Z → informer W Service;
  NewPodInformer : string → Z → informer W Pod;
  NewNodeInformer : Z → informer W Node;
  NewEndpointsInformer : string → Z → informer W EndpointsPorts;
  inf_running : lens W (list resource); (* the informers whose [Run] was called *)
}.

(** A field that is not set is nil. The stop channel is read through the queues of
    the controller that closes it. *)
Record ControllerContext (W : Type) := MkContext {
  ctx_IngressInformer : informer W Ingress;
  ctx_ServiceInformer : informer W Service;
  ctx_PodInformer : informer W Pod;
  ctx_NodeInformer : informer W Node;
  ctx_EndpointInformer : option (informer W EndpointsPorts);
}.
Arguments MkContext {W} _ _ _ _ _.
Arguments ctx_IngressInformer {W} _.
Arguments ctx_ServiceInformer {W} _.
Arguments ctx_PodInformer {W} _.
Arguments ctx_NodeInformer {W} _.
Arguments ctx_EndpointInformer {W} _.

Section context.
Context {W : Type} `{InformerFactory W}.
Implicit Types ctx : ControllerContext W.

Definition NewControllerContext (namespace : string) (resyncPeriod : Z) (enableEndpointsInformer : bool) : ControllerContext W :=
  MkContext (NewIngressInformer namespace resyncPeriod) (NewServiceInformer namespace resyncPeriod)
    (NewPodInformer namespace resyncPeriod) (NewNodeInformer resyncPeriod)
    (if enableEndpointsInformer then Some (NewEndpointsInformer namespace resyncPeriod) else None).

Definition go_Run (kind : resource) : M W unit := zoom inf_running (modW (λ l, l ++ [kind])).
Definition ctx_Start ctx : M W unit :=
  _ ← go_Run (inf_kind (ctx_IngressInformer ctx));
  _ ← go_Run (inf_kind (ctx_ServiceInformer ctx));
  _ ← go_Run (inf_kind (ctx_PodInformer ctx));
  _ ← go_Run (inf_kind (ctx_NodeInformer ctx));
  match ctx_EndpointInformer ctx with Some i => go_Run (inf_kind i) | None => mret tt end.
End context.

(** The functions registered with the informers. *)
Record handlers (W : Type) := MkHandlers {
  h_ingress : informer_event informed → M W unit;
  h_service : informer_event informed → M W unit;
  h_node : informer_event Node → M W unit;
  h_endpoint : informer_event informed → M W unit;
}.
Arguments MkHandlers {W} _ _ _ _.
Arguments h_ingress {W} _ _.
Arguments h_service {W} _ _.
Arguments h_node {W} _ _.
Arguments h_endpoint {W} _ _.
Definition no_handler {W A} (ev : informer_event A) : M W unit := mret tt.

(** ** The controllers *)

Section controllers.
Context {W : Type} `{InformerFactory W, MapRange}.
(** The controllers' own places: their queues, the flag of [Stop], the manager. *)
Context (ingQueue nodeQueue : lens W taskQueue) (shutdown : lens W bool).
Context (serviceQueue : lens W workqueue) (manager : lens W syncerManager).
(** The JSON parser of the application protocols. *)
Context (json : string → gmap string string * option error).
Implicit Types ctx : ControllerContext W.
Implicit Types clusterManager : ClusterManager W.

(** The handler of services as it is registered, for what the informer hands it. *)
Definition onServiceInformed (lbc : LoadBalancerController W) (ev : informer_event informed) : M W unit :=
  match ev with
  | EvAdd obj => enqueueIngressForService lbc obj
  | EvUpdate old cur => if decide (old = cur) then mret tt else enqueueIngressForService lbc cur
  | EvDelete _ => mret tt
  end.

(** The lister of endpoints is nil without network endpoint groups, and nothing
    reads it then. With them, the method values of the endpoint informer are
    taken, which panics when it is nil. *)
Definition NewLoadBalancerController ctx clusterManager (negEnabled : bool) : M W (LoadBalancerController W * handlers W) :=
  _ ← zoom nodeQueue (modW (λ _, NewTaskQueue));
  _ ← zoom ingQueue (modW (λ _, NewTaskQueue));
  _ ← zoom shutdown (modW (λ _, false));
  endpoint ← (if negEnabled then i ← ofOption (ctx_EndpointInformer ctx); mret (Some i) else mret None);
  let endpointSynced := match endpoint with Some i => inf_HasSynced i | None => λ _, true end in
  let endpointLister := match endpoint with Some i => lget (inf_Store i) | None => λ _, ∅ end in
  let translator := MkTranslator (lget (inf_Store (ctx_ServiceInformer ctx))) (lget (inf_Store (ctx_NodeInformer ctx)))
    (lget (inf_Store (ctx_PodInformer ctx))) endpointLister negEnabled json (cm_defaultBackendNodePort clusterManager) in
  let lbc := MkController (inf_Store (ctx_IngressInformer ctx)) translator clusterManager ingQueue nodeQueue shutdown
    (storesSynced (inf_HasSynced (ctx_PodInformer ctx)) (inf_HasSynced (ctx_ServiceInformer ctx))
      (inf_HasSynced (ctx_NodeInformer ctx)) (inf_HasSynced (ctx_IngressInformer ctx)) endpointSynced) negEnabled in
  mret (lbc, MkHandlers (onIngressEvent lbc) (onServiceInformed lbc) (onNodeEvent lbc) no_handler).

(** The controller of network endpoint groups, what its [synced] returns, and its
    handlers; the manager is called through [manager_interface]. *)
Definition NewController `{NEGSyncerManager W} ctx : M W (NEGController W * (W → bool) * handlers W) :=
  endpoint ← ofOption (ctx_EndpointInformer ctx);
  _ ← zoom manager (modW (λ _, newSyncerManager));
  _ ← zoom serviceQueue (modW (λ _, newQueue));
  let c := MkNEGController (lget (inf_Store (ctx_IngressInformer ctx))) (lget (inf_Store (ctx_ServiceInformer ctx)))
    serviceQueue in
  mret (c, controller_synced (inf_HasSynced endpoint) (inf_HasSynced (ctx_ServiceInformer ctx))
    (inf_HasSynced (ctx_IngressInformer ctx)),
    MkHandlers (controller_onIngress c) (controller_onService c) no_handler (controller_onEndpoint c)).

(** [main] from the context on, up to the point where the load balancer
    controller runs: the load balancer controller, the other one if it is enabled
    (its [Run] is started), and the informers are started last. [Init] hands the
    translator to the node pool and to the backend pool as their zone lister and
    prober, which are arguments of the model of the cluster manager; the HTTP server
    and the handler of the signal are left out here (see [Glbc]). *)
Record started := MkStarted {
  st_lbc : LoadBalancerController W;
  st_neg : option (NEGController W * (W → bool));
  st_handlers : list (handlers W);
}.
Definition startControllers `{NEGSyncerManager W} (watchNamespace : string) (resyncPeriod : Z) (enableNEG : bool)
    clusterManager : M W started :=
  let ctx := NewControllerContext watchNamespace resyncPeriod enableNEG in
  '(lbc, h) ← NewLoadBalancerController ctx clusterManager enableNEG;
  neg ← (if enableNEG then '(c, synced, h') ← NewController ctx; mret (Some (c, synced, h')) else mret None);
  _ ← ctx_Start ctx;
  mret (MkStarted lbc (fst <$> neg) (h :: option_list (snd <$> neg))).

(** ** What is started is what is waited for *)

(** The constructors make informers of the kinds they are named for, and the
    places of the controllers are none of the factory's. *)
Class StartLaws : Prop := {
  factory_kinds : ∀ ns p, inf_kind (NewIngressInformer (W := W) ns p) = RIngress ∧
    inf_kind (NewServiceInformer (W := W) ns p) = RService ∧ inf_kind (NewPodInformer (W := W) ns p) = RPod ∧
    inf_kind (NewNodeInformer (W := W) p) = RNode ∧ inf_kind (NewEndpointsInformer (W := W) ns p) = REndpoints;
  running_laws :: LensLaws (inf_running (W := W));
  running_ingQueue : ∀ x w, lget inf_running (lset ingQueue x w) = lget inf_running w;
  running_nodeQueue : ∀ x w, lget inf_running (lset nodeQueue x w) = lget inf_running w;
  running_shutdown : ∀ x w, lget inf_running (lset shutdown x w) = lget inf_running w;
  running_serviceQueue : ∀ x w, lget inf_running (lset serviceQueue x w) = lget inf_running w;
  running_manager : ∀ x w, lget inf_running (lset manager x w) = lget inf_running w;
}.
Context `{StartLaws}.

(** The informer of a kind has been filled. *)
Definition kind_synced (ns : string) (p : Z) (kind : resource) (w : W) : bool :=
  match kind with
  | RIngress => inf_HasSynced (NewIngressInformer ns p) w
  | RService => inf_HasSynced (NewServiceInformer ns p) w
  | RPod => inf_HasSynced (NewPodInformer ns p) w
  | RNode => inf_HasSynced (NewNodeInformer p) w
  | REndpoints => inf_HasSynced (NewEndpointsInformer ns p) w
  end.
Definition started_kinds (enableNEG : bool) : list resource :=
  [RIngress; RService; RPod; RNode] ++ (if enableNEG then [REndpoints] else []).

Lemma ctx_Start_ok ns p enable w :
  ∃ w', ctx_Start (NewControllerContext ns p enable) w = (Ok tt, w') ∧
    lget inf_running w' = lget inf_running w ++ started_kinds enable.
Proof.
  unfold ctx_Start, go_Run, started_kinds, mbind, M_bind, zoom, modW. simpl.
  destruct (factory_kinds ns p) as (->&->&->&->&Hend).
  destruct enable; simpl; rewrite ?Hend; (eexists; split; [reflexivity|]);
    by rewrite !lens_get_set, <-!(assoc_L (++)).
Qed.

(** The start of the process never fails, whether network endpoint groups are
    enabled or not: the informer of endpoints is there exactly if a controller
    takes its methods. It calls [Run] of exactly the informers that the
    controllers wait for: the load balancer controller starts to sync once all of
    them have been filled, and the controller of network endpoint groups is then
    ready too. *)
Theorem startControllers_spec `{NEGSyncerManager W} ns p enableNEG clusterManager w :
  ∃ st w', startControllers ns p enableNEG clusterManager w = (Ok st, w') ∧
    lget inf_running w' = lget inf_running w ++ started_kinds enableNEG ∧
    (∀ w1, lbc_hasSynced (st_lbc st) w1 = true ↔ ∀ kind, kind ∈ started_kinds enableNEG → kind_synced ns p kind w1 = true) ∧
    (∀ c synced w1, st_neg st = Some (c, synced) → lbc_hasSynced (st_lbc st) w1 = true → synced w1 = true) ∧
    (is_Some (st_neg st) ↔ enableNEG = true).
Proof.
  assert (∀ w1, (∀ kind, kind ∈ started_kinds enableNEG → kind_synced ns p kind w1 = true) ↔
    Forall (λ kind, kind_synced ns p kind w1 = true) (started_kinds enableNEG)) as Hall by (intros; by rewrite Forall_forall).
  unfold startControllers, NewLoadBalancerController, NewController, mbind, M_bind.
  destruct enableNEG; cbn.
  - edestruct (ctx_Start_ok ns p true) as (w'&->&Hrun). eexists _, w'. split; [reflexivity|]. split_and!; cbn.
    + by rewrite Hrun, running_serviceQueue, running_manager, running_shutdown, running_ingQueue, running_nodeQueue.
    + intros w1. rewrite Hall. unfold started_kinds, storesSynced. rewrite !andb_true_iff. cbn. rewrite !Forall_cons, Forall_nil. simpl. naive_solver.
    + intros c synced w1 [= <- <-]. unfold storesSynced, controller_synced. rewrite !andb_true_iff. naive_solver.
    + done.
  - edestruct (ctx_Start_ok ns p false) as (w'&->&Hrun). eexists _, w'. split; [reflexivity|]. split_and!; cbn.
    + by rewrite Hrun, running_shutdown, running_ingQueue, running_nodeQueue.
    + intros w1. rewrite Hall. unfold started_kinds, storesSynced. rewrite !andb_true_iff. cbn. rewrite !Forall_cons, Forall_nil. simpl. naive_solver.
    + done.
    + split; [by intros []|done].
Qed.
End controllers.

(** ** Run of the network endpoint group controller *)

(** [Run] polls until the informers are synced or the stop channel is closed (the
    error that tells the two apart is ignored), starts two go routines with
    [wait.Until] and waits for the stop channel. *)
Inductive run_phase := RunPolling | RunServing | RunEnded.
(** A go routine of [wait.Until]: not started, about to look at the stop channel,
    in the function (or, for [gc], waiting for the period to pass), returned. *)
Inductive routine := NotStarted | Looping | Inside | Exited.
Record negRun := MkNegRun { nr_phase : run_phase; nr_worker : routine; nr_gc : routine }.
Definition newNegRun : negRun := MkNegRun RunPolling NotStarted NotStarted.

Inductive run_event :=
  | Poll (* a tick of [PollUntil], or its last look after the channel was closed *)
  | WorkerLoop
  | WorkerTurn (* one turn of the loop of [serviceWorker] *)
  | GcLoop
  | GcTimer
  | SeeStop.
Global Instance run_event_eq_dec : EqDecision run_event.
Proof. solve_decision. Defined.

Section run.
Context {W : Type} `{NEGSyncerManager W, MapRange}.
Context (c : NEGController W) (synced stopped : W → bool).

(** [None]: not possible in this state. *)
Definition controller_Run (e : run_event) (s : negRun) : M W (option negRun) :=
  closed ← getW stopped;
  let '(MkNegRun phase worker gc) := s in
  match e, phase, worker, gc with
  | Poll, RunPolling, _, _ =>
      ok ← getW synced;
      mret (Some (if ok || closed then MkNegRun RunServing Looping Looping else s))
  | WorkerLoop, _, Looping, _ => mret (Some (MkNegRun phase (if closed then Exited else Inside) gc))
  | WorkerTurn, _, Inside, _ =>
      went ← controller_serviceWorker c;
      mret (if went : bool then Some s else None)
  | GcLoop, _, _, Looping =>
      if closed : bool then mret (Some (MkNegRun phase worker Exited))
      else _ ← controller_gc c; mret (Some (MkNegRun phase worker Inside))
  | GcTimer, _, _, Inside => mret (Some (MkNegRun phase worker Looping))
  | SeeStop, RunServing, _, _ =>
      if closed : bool then _ ← controller_stop c; mret (Some (MkNegRun RunEnded worker gc)) else mret None
  | _, _, _, _ => mret None
  end.

(** The reachable states: steps of [Run] between steps of everything else. A
    channel that is closed stays closed. The flag remembers whether a poll has
    found the informers synced. *)
Inductive run_reach : bool → negRun → W → Prop :=
  | run_start w : run_reach false newNegRun w
  | run_own seen e s s' w w' :
      run_reach seen s w → controller_Run e s w = (Ok (Some s'), w') → (stopped w = true → stopped w' = true) →
      run_reach (seen || bool_decide (e = Poll) && synced w) s' w'
  | run_other seen s w w' : run_reach seen s w → (stopped w = true → stopped w' = true) → run_reach seen s w'.

Definition run_inv (seen : bool) (s : negRun) (w : W) : Prop :=
  match nr_phase s with
  | RunPolling => nr_worker s = NotStarted ∧ nr_gc s = NotStarted
  | RunServing => seen = true ∨ stopped w = true
  | RunEnded => stopped w = true
  end ∧ (nr_worker s = Inside → seen = true) ∧ (nr_gc s = Inside → seen = true).

(** What the steps do to the phase and the go routines. *)
Lemma controller_Run_steps e s s' w w' :
  controller_Run e s w = (Ok (Some s'), w') →
  match e with
  | Poll => nr_phase s = RunPolling ∧ (s' = s ∨ (synced w = true ∨ stopped w = true) ∧ s' = MkNegRun RunServing Looping Looping)
  | WorkerLoop => nr_worker s = Looping ∧ s' = MkNegRun (nr_phase s) (if stopped w then Exited else Inside) (nr_gc s)
  | WorkerTurn => nr_worker s = Inside ∧ s' = s
  | GcLoop => nr_gc s = Looping ∧ s' = MkNegRun (nr_phase s) (nr_worker s) (if stopped w then Exited else Inside)
  | GcTimer => nr_gc s = Inside ∧ s' = MkNegRun (nr_phase s) (nr_worker s) Looping
  | SeeStop => nr_phase s = RunServing ∧ stopped w = true ∧ s' = MkNegRun RunEnded (nr_worker s) (nr_gc s)
  end.
Proof.
  destruct s as [phase worker gc]. unfold controller_Run. unfold mbind at 1, M_bind at 1, getW at 1.
  destruct e; simpl.
  - destruct phase; [|done..]. unfold mbind, M_bind, getW. destruct (synced w), (stopped w); intros [= <- <-]; auto 6.
  - destruct phase, worker; try done; by intros [= <- <-].
  - destruct phase, worker; try done; unfold mbind, M_bind;
      (destruct (controller_serviceWorker c w) as [[[]| |] ?]; [by intros [= <- <-]|done..]).
  - destruct phase, worker, gc; try done; (destruct (stopped w); [by intros [= <- <-]|]); unfold mbind, M_bind;
      (destruct (controller_gc c w) as [[[]| |] ?]; [by intros [= <- <-]|done..]).
  - destruct phase, worker, gc; try done; by intros [= <- <-].
  - destruct phase; try done. destruct (stopped w); [|done]. unfold mbind, M_bind.
    destruct (controller_stop c w) as [[[]| |] ?]; [by intros [= <- <-]|done..].
Qed.

Lemma run_reach_inv seen s w : run_reach seen s w → run_inv seen s w.
Proof.
  unfold run_inv.
  induction 1 as [w|seen e s s' w w' _ (Hp&Hw&Hg) Hstep%controller_Run_steps Hstop|seen s w w' _ (Hp&?&?) Hstop].
  - done.
  - destruct e; cbn; rewrite ?andb_false_l, ?orb_false_r; [|destruct Hstep as (Hl&->)..|]; cbn.
    + destruct Hstep as (Hphase&[->|[Hs ->]]); cbn; [rewrite Hphase in *; intuition congruence|].
      split; [|done]. destruct Hs as [->| ]; [left; apply orb_true_r|auto].
    + destruct (nr_phase s); [intuition congruence|..]; destruct (stopped w); intuition congruence.
    + destruct (nr_phase s); intuition.
    + destruct (nr_phase s); [intuition congruence|..]; destruct (stopped w); intuition congruence.
    + destruct (nr_phase s); intuition congruence.
    + destruct Hstep as (_&?&->). cbn. auto.
  - destruct (nr_phase s); intuition.
Qed.

(** A step changes the world in three ways only. *)
Lemma controller_Run_world e s w :
  (controller_Run e s w).2 = w ∨ (e = WorkerTurn ∧ nr_worker s = Inside) ∨
  (e = GcLoop ∧ nr_gc s = Looping ∧ stopped w = false) ∨
  (e = SeeStop ∧ nr_phase s = RunServing ∧ stopped w = true ∧ (controller_Run e s w).2 = (controller_stop c w).2).
Proof.
  destruct s as [phase worker gc]. unfold controller_Run, mbind, M_bind, getW.
  destruct e; simpl.
  - left. by destruct phase.
  - left. by destruct phase, worker.
  - destruct worker; [left; by destruct phase..|auto|left; by destruct phase].
  - destruct gc; [left; by destruct phase, worker| |left; by destruct phase, worker..].
    destruct (stopped w); [left; by destruct phase, worker|auto 6].
  - left. by destruct phase, worker, gc.
  - destruct phase; [by left| |by left]. destruct (stopped w); [|by left]. right; right; right.
    split_and!; [done..|]. by destruct (controller_stop c w) as [[[]| |] ?].
Qed.

(** C24. The controller of network endpoint groups waits for its informers: as long
    as no poll has found them synced, no step of [Run] changes anything (no
    service is processed, no syncer is started or stopped and nothing is garbage
    collected, which with empty stores would delete the groups in use), but
    for the clean shut down after the stop channel was closed, which [Run] enters
    although the poll has failed. This holds for all interleavings of its go
    routines with the rest of the process. *)
Theorem negRun_waits e s w :
  run_reach false s w →
  (controller_Run e s w).2 = w ∨
  (e = SeeStop ∧ stopped w = true ∧ (controller_Run e s w).2 = (controller_stop c w).2).
Proof.
  intros (Hphase&Hworker&Hgc)%run_reach_inv.
  destruct (controller_Run_world e s w) as [?|[[_ Hin]|[(_&Hl&Hopen)|(?&_&?&?)]]]; [by left|..|by right].
  - by specialize (Hworker Hin).
  - destruct (nr_phase s); [destruct Hphase; congruence|destruct Hphase; congruence|congruence].
Qed.

(** Once the stop channel is closed, [Run] ends after at most two more steps of
    its own. *)
Lemma run_ends s w w' :
  stopped w = true → controller_stop c w = (Ok tt, w') → nr_phase s ≠ RunEnded →
  ∃ s1 s2, (s1 = s ∨ controller_Run Poll s w = (Ok (Some s1), w)) ∧
    controller_Run SeeStop s1 w = (Ok (Some s2), w') ∧ nr_phase s2 = RunEnded.
Proof.
  intros Hst Hstop Hne. destruct s as [phase worker gc]. destruct phase; [| |done].
  - exists (MkNegRun RunServing Looping Looping), (MkNegRun RunEnded Looping Looping). unfold controller_Run, mbind, M_bind, getW.
    rewrite Hst, Hstop. split_and!; [right|done..]. by destruct (synced w).
  - exists (MkNegRun RunServing worker gc), (MkNegRun RunEnded worker gc). unfold controller_Run, mbind, M_bind, getW.
    rewrite Hst, Hstop. split_and!; [by left|done..].
Qed.

(** But the go routine of the worker never returns once it has entered
    [serviceWorker], whatever happens to the stop channel and the queue. *)
Lemma worker_never_returns e s s' w w' :
  nr_worker s = Inside → nr_phase s ≠ RunPolling → controller_Run e s w = (Ok (Some s'), w') → nr_worker s' = Inside.
Proof.
  intros Hin Hne Hstep%controller_Run_steps. destruct e; [destruct Hstep as [Hp _]; congruence|..|by destruct Hstep as (_&_&->)];
    by (destruct Hstep as [Hl ->]; cbn; congruence).
Qed.
End run.

(** [Stop] of the load balancer controller closes the channel that [Run] of the
    other controller waits for; the bit is read in the ingress queue. *)
Lemma lbc_Stop_closes {W} (lbc : LoadBalancerController W) w w' :
  LensLaws (lbc_ingQueue lbc) →
  (∀ q w1, lget (lbc_ingQueue lbc) (lset (lbc_nodeQueue lbc) q w1) = lget (lbc_ingQueue lbc) w1) →
  (∀ b w1, lget (lbc_ingQueue lbc) (lset (lbc_shutdown lbc) b w1) = lget (lbc_ingQueue lbc) w1) →
  lget (lbc_shutdown lbc) w = false → lbc_Stop lbc false w = (Ok tt, w') →
  tq_stopCh (lget (lbc_ingQueue lbc) w') = true.
Proof.
  intros ? Hnode Hdown Hw. unfold lbc_Stop, mbind, M_bind, getW. rewrite Hw. cbn. intros [= <-].
  rewrite Hdown, Hnode, lens_get_set, Hnode, lens_get_set. unfold task_do, task_step.
  by destruct (tq_stopCh (lget (lbc_ingQueue lbc) w)) eqn:Hs; cbn; rewrite ?Hs.
Qed.

(** ** Examples *)

(** A world with the queue of the controller, whether the informers are synced,
    and whether the stop channel is closed; the manager does nothing. *)
#[local] Instance run_ex_range : MapRange := sortedRange.
#[local] Instance run_ex_manager : NEGSyncerManager (workqueue * (bool * bool)) := {|
  nsm_EnsureSyncers := λ _ _ _, mret tt; nsm_StopSyncer := λ _ _, mret tt; nsm_Sync := λ _ _, mret tt;
  nsm_GC := mret tt; nsm_ShutDown := mret tt |}.
Definition run_ex_controller : NEGController (workqueue * (bool * bool)) := MkNEGController (λ _, ∅) (λ _, ∅) lens_fst.
Definition run_ex (e : run_event) (s : negRun) : M (workqueue * (bool * bool)) (option negRun) :=
  controller_Run run_ex_controller (λ w, w.2.1) (λ w, w.2.2) e s.
Definition run_ex_queue : workqueue := queue_Add "ns/svc" newQueue.

(** The worker takes the service only after the poll that finds the stores
    filled. *)
Example run_ex_works :
  let serving := MkNegRun RunServing Inside Looping in
  run_ex WorkerTurn newNegRun (run_ex_queue, (true, false)) = (Ok None, (run_ex_queue, (true, false))) ∧
  run_ex Poll newNegRun (run_ex_queue, (false, false)) = (Ok (Some newNegRun), (run_ex_queue, (false, false))) ∧
  (run_ex Poll newNegRun (run_ex_queue, (true, false))).1 = Ok (Some (MkNegRun RunServing Looping Looping)) ∧
  (run_ex WorkerLoop (MkNegRun RunServing Looping Looping) (run_ex_queue, (true, false))).1 = Ok (Some serving) ∧
  (run_ex WorkerTurn serving (run_ex_queue, (true, false))).1 = Ok (Some serving) ∧
  q_queue (run_ex WorkerTurn serving (run_ex_queue, (true, false))).2.1 = [] ∧
  q_queue run_ex_queue = ["ns/svc"].
Proof. split_and!; by vm_compute. Qed.

Lemma negRun_waits_witness :
  let s := MkNegRun RunServing Looping Looping in let w := (run_ex_queue, (false, true)) in
  (run_ex GcLoop s w).2 = w ∨ (GcLoop = SeeStop ∧ w.2.2 = true ∧ (run_ex GcLoop s w).2 = (controller_stop run_ex_controller w).2).
Proof.
  apply (negRun_waits run_ex_controller (λ w, w.2.1) (λ w, w.2.2) GcLoop (MkNegRun RunServing Looping Looping)
    (run_ex_queue, (false, true))).
  refine (run_own run_ex_controller (λ w, w.2.1) (λ w, w.2.2) false Poll newNegRun _ (run_ex_queue, (false, true)) _
    (run_start _ _ _ _) _ _); [by vm_compute|done].
Defined.

(** The laws of the start hold where the places are different parts of a world. *)
Section start_example.
Abbreviation world := ((taskQueue * taskQueue) * ((bool * workqueue) * (syncerManager * list resource)))%type.
Definition st_ingQueue : lens world taskQueue := lens_comp lens_fst lens_fst.
Definition st_nodeQueue : lens world taskQueue := lens_comp lens_fst lens_snd.
Definition st_shutdown : lens world bool := lens_comp lens_snd (lens_comp lens_fst lens_fst).
Definition st_serviceQueue : lens world workqueue := lens_comp lens_snd (lens_comp lens_fst lens_snd).
Definition st_manager : lens world syncerManager := lens_comp lens_snd (lens_comp lens_snd lens_fst).
Definition st_running : lens world (list resource) := lens_comp lens_snd (lens_comp lens_snd lens_snd).
Definition st_informer {A} (kind : resource) : informer world A :=
  MkInformer kind (Lens (λ _, ∅) (λ _ w, w)) (λ w, bool_decide (kind ∈ lget st_running w)).
#[local] Instance st_factory : InformerFactory world := {|
  NewIngressInformer := λ _ _, st_informer RIngress; NewServiceInformer := λ _ _, st_informer RService;
  NewPodInformer := λ _ _, st_informer RPod; NewNodeInformer := λ _, st_informer RNode;
  NewEndpointsInformer := λ _ _, st_informer REndpoints; inf_running := st_running |}.
Lemma st_laws : StartLaws st_ingQueue st_nodeQueue st_shutdown st_serviceQueue st_manager.
Proof. split; try done. change (LensLaws st_running). unfold st_running. apply _. Qed.
End start_example.
