(* ===== verification/TranslatorSpec.v ===== *)
(** * TranslatorSpec: what the translation of an ingress gives

    The url map of an ingress against a declarative reading of its rules; how
    the ports of the controllers fit together; what the probes and zones are. *)

From S2P Require Import Prelude GoLang GoStrings Compute Utils Annotations Namer HealthChecks Instances Backends.
From S2P Require Import LoadBalancers K8s Translator NegSyncer NegManager NegController NegControllerSpec.

(** ** The url map *)

Definition hostOf (rule : IngressRule) : string := if decide (ir_Host rule = "") then DefaultHost else ir_Host rule.
Definition pathOf (p : HTTPIngressPath) : string := if decide (hp_Path p = "") then DefaultPath else hp_Path p.
Definition isNodePortNotFound (err : error) : bool := match err with NodePortNotFoundErr _ _ => true | _ => false end.

Section urlmap.
Context {W : Type} `{BackendPool W} (t : GCETranslator W) (ns : string).
(** The services do not change meanwhile; the pool answers [backend port], or
    fails, which it can only do for the ports of [fails]. *)
Context (I : W → Prop) (w0 : W) (backend : Z → option BackendService) (fails : Z → Prop).
Hypothesis Hw0 : I w0.
Hypothesis Hstore : ∀ w, I w → tr_svcLister t w = tr_svcLister t w0.
Definition port_of (be : IngressBackend) : error + ServicePort := getServiceNodePort t w0 be ns.
Hypothesis Hget : ∀ be sp w, port_of be = inr sp → I w →
  wp (bkp_Get (sp_Port sp)) (λ be w', I w' ∧ backend (sp_Port sp) = Some be) (λ _ w', I w' ∧ fails (sp_Port sp)) w.

(** The backend service of a backend whose node port is known. *)
Definition serviceOf (be : IngressBackend) : option BackendService :=
  match port_of be with inr p => backend (sp_Port p) | inl _ => None end.
(** A path that does not count: its node port is not found. *)
Definition skipped (p : HTTPIngressPath) : bool :=
  match port_of (hp_Backend p) with inl err => isNodePortNotFound err | inr _ => false end.
(** The last rule of a host, and the last path of a rule that counts. *)
Definition lastRule (rules : list IngressRule) (host : string) : option (list HTTPIngressPath) :=
  last (omap (λ rule, if decide (hostOf rule = host) then ir_HTTP rule else None) rules).
Definition lastPath (paths : list HTTPIngressPath) (path : string) : option HTTPIngressPath :=
  last (filter (λ p, pathOf p = path ∧ skipped p = false) paths).
(** A backend that stops the translation: a broken annotation, or no answer of
    the pool for its port. *)
Definition unserved (be : IngressBackend) : Prop := match port_of be with inr p => fails (sp_Port p) | inl _ => True end.
Definition blocks (be : IngressBackend) : Prop :=
  unserved be ∧ ∀ err, port_of be = inl err → isNodePortNotFound err = false.

Lemma getServiceNodePort_same w be : I w → getServiceNodePort t w be ns = port_of be.
Proof. intros Hw. unfold port_of, getServiceNodePort. by rewrite Hstore. Qed.

Lemma toGCEBackend_ok be w :
  I w → wp (toGCEBackend t be ns) (λ b w', I w' ∧ serviceOf be = Some b)
    (λ err w', I w' ∧ unserved be ∧
       isNodePortNotFound err = match port_of be with inl e => isNodePortNotFound e | inr _ => false end) w.
Proof.
  intros Hw. unfold toGCEBackend, serviceOf, unserved. apply wp_bind, wp_getW, wp_bind. rewrite getServiceNodePort_same by done.
  destruct (port_of be) as [err|p] eqn:Hp; simpl; [by apply wp_throw|]. apply wp_ret, wp_bind, wp_try.
  eapply wp_mono; [by eapply Hget|..].
  - intros b w' [? ?]. by apply wp_ret.
  - intros e w' [? ?]. by apply wp_throw.
Qed.

(** A table of paths agrees with the last entries. *)
Definition table_ok (paths : list HTTPIngressPath) (m : gmap string (option BackendService)) : Prop :=
  ∀ path, m !! path = (λ p, serviceOf (hp_Backend p)) <$> lastPath paths path.
Definition all_served (paths : list HTTPIngressPath) : Prop :=
  ∀ p, p ∈ paths → skipped p = false → is_Some (serviceOf (hp_Backend p)).

Lemma last_filter_snoc {A} (P : A → Prop) `{∀ x, Decision (P x)} l x :
  last (filter P (l ++ [x])) = if decide (P x) then Some x else last (filter P l).
Proof.
  rewrite filter_app, filter_cons, filter_nil. case_decide; [by rewrite last_snoc|by rewrite app_nil_r].
Qed.

Lemma toPaths_ok done paths m w :
  I w → table_ok done m → all_served done →
  wp (toPaths t ns paths m) (λ m' w', I w' ∧ table_ok (done ++ paths) m' ∧ all_served (done ++ paths))
    (λ _ w', ∃ p, p ∈ paths ∧ blocks (hp_Backend p)) w.
Proof.
  revert done m w. induction paths as [|p paths IH]; intros d m w Hw Hm Hs; simpl.
  { rewrite app_nil_r. by apply wp_ret. }
  replace (d ++ p :: paths) with ((d ++ [p]) ++ paths) by (by rewrite <-app_assoc).
  apply wp_bind, wp_try. eapply wp_mono; [by apply toGCEBackend_ok|..].
  - intros b w' [Hw' Hb]. assert (skipped p = false) as Hsk.
    { unfold serviceOf in Hb. unfold skipped. by destruct (port_of (hp_Backend p)). }
    eapply wp_mono; [apply (IH (d ++ [p])); [done|..]|done|].
    + intros path. unfold lastPath. rewrite last_filter_snoc. fold (pathOf p). case_decide as Hc.
      * destruct Hc as [<- _]. rewrite lookup_insert_eq. simpl. by rewrite Hb.
      * rewrite lookup_insert_ne; [apply Hm|]. intros <-. by apply Hc.
    + intros q [?| ->%list_elem_of_singleton]%elem_of_app ?; [by apply Hs|by rewrite Hb].
    + intros e w2 (q&?&?). exists q. split; [by apply list_elem_of_further|done].
  - intros err w' (Hw'&Hb&Herr).
    assert (isNodePortNotFound err = skipped p) as Hsk by exact Herr.
    destruct (skipped p) eqn:Hskip.
    + destruct err; try done. eapply wp_mono; [apply (IH (d ++ [p])); [done|..]|done|].
      * intros path. unfold lastPath. rewrite last_filter_snoc, decide_False by (intros [_ ?]; congruence). apply Hm.
      * intros q [?| ->%list_elem_of_singleton]%elem_of_app ?; [by apply Hs|congruence].
      * intros e w2 (q&?&?). exists q. split; [by apply list_elem_of_further|done].
    + assert (∃ q, q ∈ p :: paths ∧ blocks (hp_Backend q)) as Hex.
      { exists p. split; [apply list_elem_of_here|]. split; [done|]. intros e He. unfold skipped in Hskip. by rewrite He in Hskip. }
      destruct err; by apply wp_throw || done.
Qed.

(** A url map agrees with the last rules of the hosts. *)
Definition hosts_ok (rules : list IngressRule) (g : GCEURLMap) : Prop :=
  ∀ host, match lastRule rules host with
          | None => g !! host = None
          | Some paths => ∃ m, g !! host = Some m ∧ table_ok paths m ∧ all_served paths
          end.
Lemma last_omap_snoc {A B} (f : A → option B) l x :
  last (omap f (l ++ [x])) = match f x with Some y => Some y | None => last (omap f l) end.
Proof. rewrite omap_app. simpl. destruct (f x); [by rewrite last_snoc|by rewrite app_nil_r]. Qed.

Lemma toHosts_ok d rules g w :
  I w → hosts_ok d g →
  wp (toHosts t ns rules g) (λ g' w', I w' ∧ hosts_ok (d ++ rules) g')
    (λ _ _, ∃ rule paths p, rule ∈ rules ∧ ir_HTTP rule = Some paths ∧ p ∈ paths ∧ blocks (hp_Backend p)) w.
Proof.
  revert d g w. induction rules as [|rule rules IH]; intros d g w Hw Hg; simpl.
  { rewrite app_nil_r. by apply wp_ret. }
  replace (d ++ rule :: rules) with ((d ++ [rule]) ++ rules) by (by rewrite <-app_assoc).
  assert (∀ g w, I w → hosts_ok (d ++ [rule]) g →
    wp (toHosts t ns rules g) (λ g' w', I w' ∧ hosts_ok ((d ++ [rule]) ++ rules) g')
      (λ _ _, ∃ rule' paths p, rule' ∈ rule :: rules ∧ ir_HTTP rule' = Some paths ∧ p ∈ paths ∧ blocks (hp_Backend p)) w) as Hrest.
  { intros g' w' ? ?. eapply wp_mono; [by apply IH|done|].
    intros e w2 (rule'&paths&p&?&?). exists rule', paths, p. split; [by apply list_elem_of_further|done]. }
  destruct (ir_HTTP rule) as [paths|] eqn:Hhttp.
  - apply wp_bind. eapply wp_mono; [apply (toPaths_ok [] paths ∅ w Hw)|..].
    + intros path. by rewrite lookup_empty.
    + intros p []%elem_of_nil.
    + intros m w' (Hw'&Hm&Hs). simpl in Hm, Hs. apply Hrest; [done|]. fold (hostOf rule).
      intros host. unfold lastRule. rewrite last_omap_snoc. case_decide as Hh.
      * rewrite Hhttp. exists m. by rewrite Hh, lookup_insert_eq.
      * rewrite lookup_insert_ne by done. apply Hg.
    + intros e w' (p&?&?). exists rule, paths, p. split; [apply list_elem_of_here|done].
  - apply Hrest; [done|]. intros host. unfold lastRule. rewrite last_omap_snoc, Hhttp. case_decide; apply Hg.
Qed.

(** What the rules say. *)
Definition translates (ing : Ingress) (g : GCEURLMap) : Prop :=
  (∀ host, host ≠ DefaultBackendKey → (is_Some (g !! host) ↔ is_Some (lastRule (ing_Rules ing) host))) ∧
  (∀ host path, host ≠ DefaultBackendKey →
     mjoin (m ← g !! host; m !! path) =
       (paths ← lastRule (ing_Rules ing) host; p ← lastPath paths path; serviceOf (hp_Backend p))) ∧
  (∀ host path m be, host ≠ DefaultBackendKey → g !! host = Some m → m !! path = Some be → is_Some be) ∧
  ((GetDefaultBackend g).1 = (be ← ing_Backend ing; serviceOf be) ∨
   (GetDefaultBackend g).1 = None ∧ ∃ be, ing_Backend ing = Some be ∧ unserved be).
Lemma toURLMap_ok ing :
  ing_Namespace ing = ns →
  wp (toURLMap t ing) (λ g w, I w ∧ translates ing g)
    (λ _ _, ∃ rule paths p, rule ∈ ing_Rules ing ∧ ir_HTTP rule = Some paths ∧ p ∈ paths ∧ blocks (hp_Backend p)) w0.
Proof.
  intros Hns. unfold toURLMap. rewrite Hns. apply wp_bind. eapply wp_mono; [apply (toHosts_ok [] _ ∅ w0 Hw0)|..].
  { intros host. done. }
  2: { done. }
  intros g w1 [Hw1 Hg]. simpl in Hg. apply wp_bind. eapply wp_mono with
    (Q := λ d w, I w ∧ (d = (be ← ing_Backend ing; serviceOf be) ∨ d = None ∧ ∃ be, ing_Backend ing = Some be ∧ unserved be))
    (E := λ _ _, False).
  - destruct (ing_Backend ing) as [be|]; [|apply wp_ret; by split; [|left]]. apply wp_bind, wp_try.
    eapply wp_mono; [by apply toGCEBackend_ok|intros b w2 [? Hb]; apply wp_ret; split; [done|by left]|].
    intros err w2 (?&Hb&_). apply wp_ret. split; [done|]. right. split; [done|]. by exists be.
  - intros def w2 [Hw2 Hdef]. apply wp_ret. split; [done|]. split; [|split; [|split]].
    + intros host Hh. unfold PutDefaultBackend. rewrite lookup_insert_ne by done. specialize (Hg host).
      destruct (lastRule (ing_Rules ing) host); [|by rewrite Hg]. destruct Hg as (m&->&_). by split.
    + intros host path Hh. unfold PutDefaultBackend. rewrite lookup_insert_ne by done. specialize (Hg host).
      destruct (lastRule (ing_Rules ing) host) as [paths|]; [|by rewrite Hg].
      destruct Hg as (m&->&Hm&_). simpl. rewrite Hm. by destruct (lastPath paths path).
    + intros host path m be Hh. unfold PutDefaultBackend. rewrite lookup_insert_ne by done. specialize (Hg host).
      destruct (lastRule (ing_Rules ing) host) as [paths|]; [|by rewrite Hg].
      destruct Hg as (m'&->&Hm&Hs). intros [= <-]. rewrite Hm.
      destruct (lastPath paths path) as [p|] eqn:Hp; [|done]. intros [= <-].
      apply last_Some_elem_of, list_elem_of_filter in Hp as [[_ ?] ?]. by apply Hs.
    + unfold GetDefaultBackend, PutDefaultBackend. rewrite lookup_insert_eq. simpl. by rewrite lookup_singleton_eq.
  - done.
Qed.
(** C12. The url map of an ingress says what its rules say: it has the hosts of
    the rules with paths; for every host, the
    last rule with the host (the empty host is [*]) decides, and in it the last
    entry for the path (the empty path is [/*]) whose service has the port;
    entries whose node port is not found are left out, and the default backend is
    the backend service of the ingress' own; if the pool fails for that one it is
    left out. No entry is nil, so the update of the url map does not crash on it.
    The translation fails only because of an entry whose service has the port but
    for which the pool fails, or which has a broken annotation. *)
Theorem toURLMap_spec ing :
  ing_Namespace ing = ns →
  wp (toURLMap t ing) (λ g _, translates ing g)
    (λ _ _, ∃ rule paths p, rule ∈ ing_Rules ing ∧ ir_HTTP rule = Some paths ∧ p ∈ paths ∧ blocks (hp_Backend p)) w0.
Proof. intros Hns. eapply wp_mono; [by apply toURLMap_ok|by intros g w [_ ?]|done]. Qed.
End urlmap.

(** ** Ports *)

Section ports.
Context {W : Type} `{MapRange, !KeyRange Z} (t : GCETranslator W) (w : W).

Lemma elem_of_found_ports ns bes p :
  p ∈ found_ports t w ns bes ↔ ∃ be, be ∈ bes ∧ getServiceNodePort t w be ns = inr p.
Proof.
  unfold found_ports. rewrite list_elem_of_omap. split; intros (be&?&Hp); exists be; (split; [done|]).
  - by destruct (getServiceNodePort t w be ns); simplify_eq.
  - by rewrite Hp.
Qed.
Lemma elem_of_ingressToNodePorts ing p :
  p ∈ ingressToNodePorts t w ing ↔
  ∃ be, be ∈ backendsOf ing ∧ getServiceNodePort t w be (ing_Namespace ing) = inr p.
Proof.
  unfold ingressToNodePorts, backendsOf. rewrite elem_of_app, elem_of_found_ports, elem_of_concat_fmap.
  setoid_rewrite elem_of_app. setoid_rewrite list_elem_of_fmap. setoid_rewrite elem_of_concat_fmap. split.
  - intros [(be&?&?)|(rule&Hrule&Hp)]; [by exists be; auto|].
    destruct (ir_HTTP rule) as [paths|] eqn:Hh; [|by apply elem_of_nil in Hp].
    apply elem_of_found_ports in Hp as (be&(q&->&?)%list_elem_of_fmap&?). exists (hp_Backend q). split; [|done].
    right. exists q. split; [done|]. exists rule. split; [done|]. simpl. by rewrite Hh.
  - intros (be&[?|(q&->&rule&Hrule&Hq)]&Hp); [left; eauto|]. right. exists rule. split; [done|]. simpl in Hq.
    destruct (ir_HTTP rule) as [paths|]; [|by apply elem_of_nil in Hq]. apply elem_of_found_ports.
    exists (hp_Backend q). split; [|done]. apply list_elem_of_fmap. eauto.
Qed.
Lemma elem_of_toNodePorts ings p :
  p ∈ toNodePorts t w ings ↔
  ∃ ing be, ing ∈ ings ∧ be ∈ backendsOf ing ∧ getServiceNodePort t w be (ing_Namespace ing) = inr p.
Proof.
  unfold toNodePorts. rewrite elem_of_concat_fmap. setoid_rewrite elem_of_ingressToNodePorts. naive_solver.
Qed.

(** One service port per node port is left, and none is lost. *)
Lemma foldl_insert_lookup {K A B} `{Countable K} (key : A → K) (val : A → B) (l : list A) (m : gmap K B) k :
  foldl (λ m x, <[key x := val x]> m) m l !! k =
  match last (filter (λ x, key x = k) l) with Some x => Some (val x) | None => m !! k end.
Proof.
  induction l as [|x l IH] using rev_ind; [done|]. rewrite foldl_snoc, last_filter_snoc.
  case_decide as Hk; [by rewrite Hk, lookup_insert_eq|]. by rewrite lookup_insert_ne.
Qed.
Lemma elem_of_uniq l p :
  p ∈ uniq l ↔ last (filter (λ q, sp_Port q = sp_Port p) l) = Some p.
Proof.
  unfold uniq. rewrite list_elem_of_fmap. split.
  - intros ([k q]&->&Hk%krange_lookup). simpl. rewrite (foldl_insert_lookup sp_Port (λ p, p)) in Hk.
    destruct (last (filter _ l)) as [q'|] eqn:Hl; [|by rewrite lookup_empty in Hk]. injection Hk as ->.
    pose proof Hl as [Hq _]%last_Some_elem_of%list_elem_of_filter. by rewrite Hq.
  - intros Hl. exists (sp_Port p, p). split; [done|]. apply krange_lookup.
    rewrite (foldl_insert_lookup sp_Port (λ p, p)). by rewrite Hl.
Qed.
Lemma uniq_covers l p : p ∈ l → ∃ q, q ∈ uniq l ∧ q ∈ l ∧ sp_Port q = sp_Port p.
Proof.
  intros Hp. destruct (last (filter (λ q, sp_Port q = sp_Port p) l)) as [q|] eqn:Hl.
  - pose proof Hl as [Hq Hin]%last_Some_elem_of%list_elem_of_filter. exists q. split; [|done].
    apply elem_of_uniq. by rewrite Hq.
  - apply last_None in Hl. exfalso. assert (p ∈ filter (λ q, sp_Port q = sp_Port p) l) as Hin by (by apply list_elem_of_filter).
    rewrite Hl in Hin. by apply elem_of_nil in Hin.
Qed.
Lemma uniq_NoDup l : NoDup (sp_Port <$> uniq l).
Proof.
  apply NoDup_fmap_2_strong.
  - intros p q Hp%elem_of_uniq Hq%elem_of_uniq Heq. rewrite Heq in Hp. congruence.
  - unfold uniq. apply NoDup_fmap_2_strong; [|rewrite krange_perm; apply NoDup_map_to_list].
    intros [k p] [k' q] Hp%krange_lookup Hq%krange_lookup. simpl. intros <-.
    rewrite (foldl_insert_lookup sp_Port (λ p, p)) in Hp, Hq. repeat case_match; simplify_eq.
    repeat match goal with Hl : last _ = Some _ |- _ => apply last_Some_elem_of, list_elem_of_filter in Hl as [? _] end. congruence.
Qed.

Lemma elem_of_gatherFirewallPorts svcPorts b z :
  z ∈ gatherFirewallPorts t w svcPorts b ↔
  ∃ p, (p ∈ svcPorts ∨ b = true ∧ p = tr_defaultBackendNodePort t) ∧ z ∈ firewallPortsOf t w p.
Proof.
  unfold gatherFirewallPorts. set (l := if b then _ else _).
  assert (∀ p, p ∈ l ↔ p ∈ svcPorts ∨ b = true ∧ p = tr_defaultBackendNodePort t) as Hl.
  { intros p. unfold l. destruct b; [rewrite elem_of_app, list_elem_of_singleton; naive_solver|naive_solver]. }
  setoid_rewrite <-Hl. rewrite <-elem_of_concat_fmap, list_elem_of_fmap. set (zs := concat _). split.
  - intros ([k v]&->&Hk%krange_lookup). rewrite (foldl_insert_lookup (λ p, p) (λ _, true)) in Hk. simpl.
    destruct (last (filter _ zs)) as [x|] eqn:Hx; [|by rewrite lookup_empty in Hk].
    by apply last_Some_elem_of, list_elem_of_filter in Hx as [-> ?].
  - intros Hz. exists (z, true). split; [done|]. apply krange_lookup. rewrite (foldl_insert_lookup (λ p, p) (λ _, true)).
    destruct (last (filter _ zs)) as [x|] eqn:Hx; [done|]. apply last_None in Hx. exfalso.
    assert (z ∈ filter (λ x, x = z) zs) as Hin by (by apply list_elem_of_filter). rewrite Hx in Hin. by apply elem_of_nil in Hin.
Qed.

(** The store of services is keyed as informers key it, with valid names. *)
Definition services_ok (services : store Service) : Prop :=
  ∀ key svc, services !! key = Some svc → key = metaKey (svc_Namespace svc) (svc_Name svc) ∧
    lacks "/" (svc_Namespace svc) = true ∧ lacks "/" (svc_Name svc) = true.

(** C23. The controllers agree on the ports of a backend. For a backend of a GCE
    ingress in the store whose service port is found: the checkpoint is given a
    service port with its node port, exactly one, so a backend service is made
    for it; the garbage collection is given it, so the backend service is kept;
    the firewall is opened for its node port if it has an instance group; and if
    it has network endpoint groups, the NEG controller is to run a syncer for the
    target port under which [Link] looks the groups up. *)
Theorem ports_agree ingresses k ing be p b :
  services_ok (tr_svcLister t w) →
  lacks "/" (ing_Namespace ing) = true → lacks "/" (ib_ServiceName be) = true →
  ingresses !! k = Some ing → isGCEIngress ing = true → be ∈ backendsOf ing →
  getServiceNodePort t w be (ing_Namespace ing) = inr p →
  let gceNodePorts := toNodePorts t w (ingLister_ListGCEIngresses ingresses) in
  (∃ q, q ∈ uniq gceNodePorts ∧ sp_Port q = sp_Port p) ∧ NoDup (sp_Port <$> uniq gceNodePorts) ∧
  p ∈ toNodePorts t w (ingLister_ListAll ingresses) ∧
  (sp_NEGEnabled p = false → sp_Port p ∈ gatherFirewallPorts t w gceNodePorts b) ∧
  (sp_NEGEnabled p = true →
     needsNEG ingresses (tr_svcLister t w) (metaKey (nn_Namespace (sp_SvcName p)) (nn_Name (sp_SvcName p))) (sp_SvcTargetPort p)).
Proof.
  intros Hsvcs Hns Hname Hk Hgce Hbe Hp gce.
  assert (p ∈ gce) as Hin.
  { apply elem_of_toNodePorts. exists ing, be. split_and!; try done. apply list_elem_of_filter. split; [done|].
    apply elem_of_store_List. eauto. }
  split_and!.
  - destruct (uniq_covers gce p Hin) as (q&?&_&?). eauto.
  - apply uniq_NoDup.
  - apply elem_of_toNodePorts. exists ing, be. split_and!; try done. apply list_elem_of_filter. split; [by rewrite Hgce|].
    apply elem_of_store_List. eauto.
  - intros Hneg. apply elem_of_gatherFirewallPorts. exists p. split; [by left|]. unfold firewallPortsOf. rewrite Hneg.
    apply list_elem_of_here.
  - intros Hneg. unfold getServiceNodePort in Hp.
    destruct (tr_svcLister t w !! _) as [svc|] eqn:Hsvc; [|done].
    destruct (SvcAnnotations_ApplicationProtocols _ _); [done|].
    destruct (List.find _ _) as [port|] eqn:Hf; [|done]. injection Hp as <-. simpl in *.
    apply andb_true_iff in Hneg as [_ Hen]. exists svc. split; [done|]. split; [done|].
    destruct (Hsvcs _ _ Hsvc) as (Hkey&Hl1&Hl2).
    assert (inr (ing_Namespace ing, ib_ServiceName be) = (inr (svc_Namespace svc, svc_Name svc) : error + string * string)) as Heq.
    { rewrite <-!splitMetaKey_metaKey by done. by rewrite Hkey. }
    injection Heq as Hns' Hname'. exists k, ing, be, port. split_and!; try done.
    + apply find_some in Hf as [Hf _]. by apply list_elem_of_In.
    + apply find_some in Hf as [_ Hf]. unfold matchesBackend in Hf. unfold namesPort.
      destruct (ib_ServicePort be); by apply bool_decide_eq_true in Hf.
Qed.
End ports.

(** ** Zones and probes *)

(** A node's zone is among the zones of the cluster. *)
Lemma GetZoneForNode_listed `{MapRange} (st : store Node) name z :
  GetZoneForNode st name = inr z → z ∈ ListZones st.
Proof.
  unfold GetZoneForNode, ListZones. destruct (List.find _ _) as [n|] eqn:Hf; [|done]. intros [= <-].
  apply find_some in Hf as [Hn%list_elem_of_In _]. apply elem_of_sets_List, elem_of_list_to_set, list_elem_of_fmap. eauto.
Qed.

(** The probe of a service port is the simple HTTP probe of a container of a pod
    of the service, for the very port the traffic goes to. *)
Definition probes_port (pods : store Pod) (svc : Service) (targetPort : IntOrString) (protocol : string) (probe : Probe) : Prop :=
  ∃ key pod c p a, pods !! key = Some pod ∧ pod_Namespace pod = svc_Namespace svc ∧
    svc_Selector svc ⊆ pod_Labels pod ∧ c ∈ pod_Containers pod ∧ ct_ReadinessProbe c = Some probe ∧
    pb_HTTPGet probe = Some a ∧ hg_Host a = "" ∧ hg_Scheme a = protocol ∧
    p ∈ ct_Ports c ∧ portMatches targetPort p = true ∧ portMatches (hg_Port a) p = true.
Lemma getHTTPProbe_ok `{MapRange, PodSort} pods svc targetPort protocol probe :
  getHTTPProbe pods svc targetPort protocol = Some probe → probes_port pods svc targetPort protocol probe.
Proof.
  intros Hh. unfold getHTTPProbe in Hh. apply head_Some_elem_of in Hh.
  apply list_elem_of_omap in Hh as (c&(pod&Hpod&Hc)%elem_of_concat_fmap&Hp).
  apply list_elem_of_filter in Hpod as [Hns Hpod]. rewrite pod_sort_perm in Hpod.
  apply list_elem_of_filter in Hpod as [Hsel [key Hkey]%elem_of_store_List].
  unfold containerProbe in Hp. destruct (ct_ReadinessProbe c) as [pb|] eqn:Hr; [|done]. simpl in Hp.
  destruct (pb_HTTPGet pb) as [a|] eqn:Ha; [|done]. simpl in Hp. case_match eqn:Hs; [|done].
  case_match eqn:Hex; [|done]. injection Hp as <-. apply andb_true_iff in Hs as [Hsimple Hsch%bool_decide_eq_true].
  unfold isSimpleHTTPProbe in Hsimple. simpl in Hsimple. rewrite Ha in Hsimple.
  apply andb_true_iff in Hsimple as [Hhost%bool_decide_eq_true _].
  apply existsb_exists in Hex as (p&Hp%list_elem_of_In&[? ?]%andb_true_iff).
  exists key, pod, c, p, a. apply bool_decide_eq_true in Hsel. split_and!; done.
Qed.
(** So the health checks are never built from a probe without an HTTP action. *)
Lemma GetProbe_ok {W} `{MapRange, PodSort} (t : GCETranslator W) port w :
  wp (GetProbe t port)
    (λ r w', w' = w ∧ ∀ probe, r = Some probe → is_Some (pb_HTTPGet probe)) (λ _ w', w' = w) w.
Proof.
  unfold GetProbe. apply wp_bind, wp_getW. destruct (findNodePort _ _) as [[svc sp]|]; [|by apply wp_throw].
  apply wp_getW. split; [done|]. intros probe (key&pod&c&p&a&?&?&?&?&?&Ha&_)%getHTTPProbe_ok. by rewrite Ha.
Qed.

(** ** Examples *)

Definition ex_translator : GCETranslator unit := MkTranslator
  (λ _, {["ns/svc" := MkService "ns" "svc" ∅ ∅ [MkSvcPort "http" 80 30080 (FromInt 8080)]]}) (λ _, ∅) (λ _, ∅) (λ _, ∅)
  false (λ _, (∅, None)) (Backends.MkServicePort 30000 ProtocolHTTP (MkNamespacedName "kube-system" "default") (FromInt 80) "8080" false).
Definition ex_backend : BackendService := MkBackendService "k8s-be-30080--uid" "" ProtocolHTTP [] 30080 "port30080" [] "link".
Definition ex_pool : BackendPool unit := {|
  bkp_Ensure := λ _ _, mret tt; bkp_Get := λ p, if decide (p = 30080%Z) then mret ex_backend else throw FakeGoogleAPINotFoundErr;
  bkp_Delete := λ _, mret tt; bkp_GC := λ _, mret tt; bkp_Shutdown := mret tt; bkp_Status := λ _, mret "";
  bkp_List := mret []; bkp_Link := λ _ _, mret tt;
|}.
Definition ex_backend_http : IngressBackend := MkIngressBackend "svc" (FromInt 80).
(** Two rules for a host: the second one decides. *)
Definition ex_rules : Ingress := MkIngress "ns" "ing" ∅ (Some ex_backend_http)
  [MkIngressRule "foo.bar" (Some [MkHTTPIngressPath "/old" ex_backend_http]);
   MkIngressRule "foo.bar" (Some [MkHTTPIngressPath "" ex_backend_http; MkHTTPIngressPath "/gone" (MkIngressBackend "none" (FromInt 80))])] [] [].

Lemma toURLMap_spec_witness :
  let B := ex_pool in
  wp (toURLMap ex_translator ex_rules)
    (λ g _, mjoin (m ← g !! "foo.bar"; m !! "/*") = Some ex_backend ∧ mjoin (m ← g !! "foo.bar"; m !! "/old") = None)
    (λ _ _, True) tt.
Proof.
  intros B. eapply wp_mono.
  - apply (toURLMap_spec ex_translator "ns" (λ _, True) tt (λ p, if decide (p = 30080%Z) then Some ex_backend else None) (λ p, p ≠ 30080%Z)).
    + done.
    + done.
    + intros be sp w _ _. simpl. case_decide; [by apply wp_ret|by apply wp_throw].
    + reflexivity.
  - intros g ? (_&Hr&_). rewrite !Hr by done. by vm_compute.
  - done.
Defined.
Lemma ports_agree_witness :
  let R := sortedRange in let N := listRange Z in
  30080%Z ∈ gatherFirewallPorts ex_translator tt
    (toNodePorts ex_translator tt (ingLister_ListGCEIngresses {["ns/ing" := ex_rules]})) true.
Proof.
  intros R N.
  destruct (ports_agree ex_translator tt {["ns/ing" := ex_rules]} "ns/ing" ex_rules ex_backend_http
    (Backends.MkServicePort 30080 ProtocolHTTP (MkNamespacedName "ns" "svc") (FromInt 80) "8080" false) true)
    as (_&_&_&Hfw&_).
  - intros key svc Hs. simpl in Hs. apply lookup_singleton_Some in Hs as [<- <-]. split_and!; reflexivity.
  - reflexivity.
  - reflexivity.
  - by apply lookup_singleton_Some.
  - by vm_compute.
  - apply list_elem_of_here.
  - by vm_compute.
  - by apply Hfw.
Defined.
