(* ===== verification/CheckpointSpec.v ===== *)
(** * CheckpointSpec: one checkpoint of the cluster manager

    [ClusterManager.Checkpoint] (pkg/controller/cluster_manager.go) runs the
    pools one after the other over one cloud. Each pool is correct by itself
    ([Instances], [InstancesSync], [BackendsSpec], [LoadBalancersSync],
    [Firewalls]); here they are put together: no pool undoes the work of
    another, so a checkpoint that succeeds leaves all of it done. *)

From S2P Require Import Prelude GoLang GoStrings Compute Utils Namer HealthChecks Instances InstancesSync Firewalls Backends BackendsSpec.
From S2P Require Import LoadBalancers LoadBalancersSpec Frames LoadBalancersSync K8s Translator TranslatorSpec ClusterManager.

Local Ltac split_sides :=
  repeat match goal with H : (_, _) = (_, _) |- _ => apply pair_equal_spec in H as [? ?] end.

(** ** Frames of functions of a part *)

Section comp.
Context {W F G : Type} (g : F → G) (f : W → F).

Lemma keeps_comp {A} (m : M W A) : keeps f m → keeps (λ w, g (f w)) m.
Proof. intros Hm w. by rewrite Hm. Qed.
Lemma IGKeeps_comp `{InstanceGroups W, ZoneLister W, !IGKeeps f} : IGKeeps (λ w, g (f w)).
Proof. split; intros; apply keeps_comp; eauto with keeps. Qed.
Lemma MembersKeeps_comp `{InstanceGroups W, ZoneLister W, !MembersKeeps f} : MembersKeeps (λ w, g (f w)).
Proof. split; intros; apply keeps_comp; eauto with keeps. Qed.
Lemma HCPKeeps_comp `{HealthCheckProvider W, HK : !HCPKeeps f} : HCPKeeps (λ w, g (f w)).
Proof. split; intros; apply keeps_comp; by destruct HK. Qed.
Lemma LegacyKeeps_comp `{HealthCheckProvider W, HK : !LegacyKeeps f} : LegacyKeeps (λ w, g (f w)).
Proof. split; intros; apply keeps_comp; by destruct HK. Qed.
Lemma BSKeeps_comp `{BackendServices W, HK : !BSKeeps f} : BSKeeps (λ w, g (f w)).
Proof. split; intros; apply keeps_comp; by destruct HK. Qed.
Lemma LBKeeps_comp `{LoadBalancers W, HK : !LBKeeps f} : LBKeeps (λ w, g (f w)).
Proof. split; intros; apply keeps_comp; by destruct HK. Qed.
Lemma LBDeletesKeep_comp `{LoadBalancers W, HK : !LBDeletesKeep f} : LBDeletesKeep (λ w, g (f w)).
Proof. split; intros; apply keeps_comp; by destruct HK. Qed.
End comp.
Section pair.
Context {W F G : Type} (f : W → F) (g : W → G).

Lemma keeps_pair {A} (m : M W A) : keeps f m → keeps g m → keeps (λ w, (f w, g w)) m.
Proof. intros Hf Hg w. by rewrite Hf, Hg. Qed.
Lemma LBDeletesKeep_pair `{LoadBalancers W, HF : !LBDeletesKeep f, HG : !LBDeletesKeep g} : LBDeletesKeep (λ w, (f w, g w)).
Proof. split; intros; apply keeps_pair; first [by destruct HF | by destruct HG]. Qed.
End pair.

(** ** Load balancers that share nothing *)

(** [l] has recorded no object of [a]. *)
Definition unrelated (l a : L7) : Prop :=
  url_map a ∉ option_list (um_Name <$> l7_um l) ∧ http_rule a ∉ fw_names l ∧ https_rule a ∉ fw_names l ∧
  http_proxy a ∉ option_list (tp_Name <$> l7_tp l) ∧ https_proxy a ∉ option_list (tps_Name <$> l7_tps l).
Lemma lb_serves_spared (P : L7 → Prop) a v v' :
  (∀ l, P l → unrelated l a) → spares P v v' → lb_serves v a → lb_serves v' a.
Proof.
  intros Hu (S1&_&S3&_&S5&S6) (um&Hum&Hv&Hh&Hs). exists um.
  split; [done|]. split; [rewrite S6; [done|]; intros l Hl; by apply Hu|]. split.
  - intros Ha. destruct (Hh Ha) as (fw&tp&Hfw&?&Htp&?). exists fw, tp.
    rewrite S1, S5 by (intros l Hl; by apply Hu). done.
  - intros Ha. destruct (Hs Ha) as (fw&tps&cert&?). exists fw, tps, cert.
    rewrite S1, S3 by (intros l Hl; by apply Hu). done.
Qed.

Section checkpoint.
Context {W : Type} `{InstanceGroups W, HealthCheckProvider W, BackendServices W, NEGGetter W, LoadBalancers W, FirewallCloud W}.
Context `{ZoneLister W, MapRange, !KeyRange Z}.
Context (createCmd updateCmd : Firewall → string → string) (deleteCmd : string → string → string).
Context (instances_snap : lens W (gmap string unit)) (backends_snap defaults_snap : lens W (gmap string (option BackendService)))
  (l7s_snap : lens W (gmap string L7)) (glbcDefaultBackend : lens W (option BackendService)).
Context (prober : ServicePort → M W (option Probe)) (namer : Namer) (defaultPort : ServicePort) (path : string).

(** The pools of [NewClusterManager]. *)
Definition cp_instances : Instances W := MkInstances instances_snap namer.
Definition cp_backends : Backends W :=
  Backends_Init prober (NewBackendPool backends_snap namer [sp_Port defaultPort]).
Definition cp_defaults : Backends W := NewBackendPool defaults_snap namer [].
Definition cp_l7s : L7s W := MkL7s l7s_snap glbcDefaultBackend defaultPort namer.
Local Instance cp_nodes : NodePool W := NewNodePool cp_instances.
Let checker := NewHealthChecker (MkHealthChecks path namer).
Let defaultChecker := NewHealthChecker (MkHealthChecks "/healthz" namer).
Let ig_name := Namer_InstanceGroup namer.

(** ** What the pools share *)

Context `{!GroupLaws W, !MemberLaws W, !BackendWorld W, !BackendLaws (H1 := checker) cp_backends}.
Context `{!BackendLaws (H1 := defaultChecker) cp_defaults, !LBWorld W, !LBLaws W, !FirewallLaws W}.
Context `{!LensLaws instances_snap, !LensLaws l7s_snap}.

Definition ig_side (w : W) := (igv w, mem w, lget instances_snap w).
Definition be_side (w : W) := (bsv w, hcv w, binv w, lget backends_snap w).
Definition lb_side (w : W) := (lbv w, lget l7s_snap w).

(** The objects of the pools are different kinds of objects, and the caches of
    the pools are not part of the cloud: a call of one kind keeps the others. *)
Class ClusterFrames := {
  igs_frame :: IGKeeps (λ w, (mem w, lget instances_snap w, be_side w, lb_side w));
  members_frame :: MembersKeeps (λ w, (be_side w, lb_side w));
  hc_frame :: HCPKeeps (λ w, (ig_side w, lb_side w, lget backends_snap w));
  legacy_frame :: LegacyKeeps (λ w, (ig_side w, lb_side w, lget backends_snap w));
  bs_frame :: BSKeeps (λ w, (ig_side w, lb_side w, lget backends_snap w));
  lb_frames :: LBKeeps (λ w, (ig_side w, be_side w, lget l7s_snap w));
  fw_frame :: FWKeeps (λ w, (ig_side w, be_side w, lb_side w));
  probe_frame sp : keeps (λ w, (ig_side w, lb_side w)) (prober sp);
  instances_snap_frame s w : let w' := lset instances_snap s w in
    igv w' = igv w ∧ mem w' = mem w ∧ be_side w' = be_side w ∧ lb_side w' = lb_side w;
  backends_snap_frame s w : let w' := lset backends_snap s w in ig_side w' = ig_side w ∧ lb_side w' = lb_side w;
  defaults_snap_frame s w : let w' := lset defaults_snap s w in
    ig_side w' = ig_side w ∧ lb_side w' = lb_side w ∧ lget backends_snap w' = lget backends_snap w;
  l7s_snap_frame s w : let w' := lset l7s_snap s w in
    ig_side w' = ig_side w ∧ be_side w' = be_side w ∧ lbv w' = lbv w;
  default_frame d w : let w' := lset glbcDefaultBackend d w in
    ig_side w' = ig_side w ∧ be_side w' = be_side w ∧ lb_side w' = lb_side w;
  (** The link of an instance group names its collection. *)
  group_links w k ig : igv w !! k = Some ig → Contains (ig_SelfLink ig) "instanceGroups" = true;
}.
Context `{!ClusterFrames}.

(** ** The stages *)

(** All zones have the cluster's group, with a named port for each port. *)
Definition groups_ready (ports : list Z) (w : W) : Prop :=
  ∀ z, z ∈ cluster_zones → ∃ ig, igv w !! (z, ig_name) = Some ig ∧
    ∀ p, p ∈ ports → ∃ np, np ∈ ig_NamedPorts ig ∧ np_Port np = p.

(** The cluster's groups, and a list of groups that has the links of all of them. *)
Definition zone_groups (w : W) : list InstanceGroup := omap (λ z, igv w !! (z, ig_name)) cluster_zones.
Definition covers (igs : list InstanceGroup) (w : W) : Prop :=
  ∀ ig, ig ∈ zone_groups w → ∃ ig0, ig0 ∈ igs ∧ ig_SelfLink ig0 = ig_SelfLink ig.
(** What a call that only adds groups and named ports keeps. *)
Definition groups_kept (w w' : W) : Prop :=
  (∀ ports, groups_ready ports w → groups_ready ports w') ∧ links_kept ig_name (igv w) (igv w') ∧ mem w' = mem w ∧
  delete ig_name (lget instances_snap w') = delete ig_name (lget instances_snap w) ∧
  (is_Some (lget instances_snap w !! ig_name) → is_Some (lget instances_snap w' !! ig_name)).

Lemma elem_of_zone_groups ig w : ig ∈ zone_groups w ↔ ∃ z, z ∈ cluster_zones ∧ igv w !! (z, ig_name) = Some ig.
Proof. apply list_elem_of_omap. Qed.
Lemma groups_kept_trans w1 w2 w3 : groups_kept w1 w2 → groups_kept w2 w3 → groups_kept w1 w3.
Proof.
  intros (?&Hl&?&?&?) (?&Hl'&?&?&?). split_and!; [auto| |congruence..|auto]. intros z old Ho. specialize (Hl z old Ho).
  unfold has_link in Hl. apply fmap_Some in Hl as (ig&Hig&Hl). unfold has_link. rewrite (Hl' _ _ Hig). congruence.
Qed.
Lemma groups_kept_same w w' : ig_side w' = ig_side w → groups_kept w w'.
Proof.
  unfold ig_side. intros [= Hv Hm Hs]. unfold groups_kept, groups_ready. rewrite Hv, Hm, Hs. split_and!; try done.
  intros z old Ho. unfold has_link. by rewrite Ho.
Qed.
(** Groups that are all there keep their links, so what covered them does. *)
Lemma covers_kept ports igs w w' : groups_ready ports w → groups_kept w w' → covers igs w → covers igs w'.
Proof.
  intros Hg (_&Hl&_) Hc ig' (z&Hz&Hig')%elem_of_zone_groups. destruct (Hg z Hz) as (ig&Hig&_).
  specialize (Hl z ig Hig). unfold has_link in Hl. rewrite Hig' in Hl. injection Hl as ->. apply Hc, elem_of_zone_groups. eauto.
Qed.
Lemma covers_self w : covers (zone_groups w) w.
Proof. intros ig Hig. eauto. Qed.
Lemma covers_same igs w w' : igv w' = igv w → covers igs w → covers igs w'.
Proof. unfold covers, zone_groups. by intros ->. Qed.

Lemma snap_groups s w : igv (lset (ins_snapshotter cp_instances) s w) = igv w.
Proof. by destruct (instances_snap_frame s w) as (?&_). Qed.

Lemma groups_stage ports w :
  wp (Instances_EnsureInstanceGroupsAndPorts cp_instances ig_name ports)
    (λ igs w', (ig_links igs ∧ covers igs w') ∧ groups_ready ports w' ∧ is_Some (lget instances_snap w' !! ig_name) ∧
       groups_kept w w' ∧ be_side w' = be_side w ∧ lb_side w' = lb_side w)
    (λ _ _, True) w.
Proof.
  pose proof (ListZones_spec w) as Hzones. unfold wp in Hzones. destruct (zl_ListZones w) as [[zs|e|] wz] eqn:Hz.
  - destruct Hzones as (->&Hvz&_). pose (g := λ '(m, s, b, l), (m, delete ig_name s, b, l)
      : (string → string → gset string) * gmap string unit * (gmap string BackendService * (Z → option string) * Prop * gmap string (option BackendService)) * (LBView * gmap string L7)).
    pose proof (IGKeeps_comp g (λ w, (mem w, lget instances_snap w, be_side w, lb_side w))) as HK.
    eapply wp_mono; [eapply wp_keeps; [eapply (EnsureInstanceGroups_keeps _ cp_instances)|
      eapply (EnsureInstanceGroups_ok cp_instances snap_groups (λ ig, Contains (ig_SelfLink ig) "instanceGroups" = true)); [|exact Hz|exact Hvz]]|..].
    + intros w1. cbv beta. simpl. destruct (instances_snap_frame (<[ig_name := tt]> (lget instances_snap w1)) w1) as (_&->&->&->).
      by rewrite lens_get_set, delete_insert_eq.
    + exact group_links.
    + cbv beta. intros igs w' [((_&Hlk&Hret)&Hlinks&[Hnew Hold]&_&Hpool) Hk]. simpl in Hk. injection Hk as Hm Hs Hb1 Hb2 Hb3 Hb4 Hl1 Hl2.
      unfold groups_kept, be_side, lb_side. rewrite Hm, Hs, Hb1, Hb2, Hb3, Hb4, Hl1, Hl2. split_and!; try done.
      * intros ig Hig. by eapply Forall_forall in Hlinks.
      * intros ig (z&Hz'&Hig)%elem_of_zone_groups. destruct (Hret z Hz') as (ig0&Hin&Hl). exists ig0. split; [done|].
        unfold has_link in Hl. fold ig_name in Hl. rewrite Hig in Hl. by injection Hl.
      * intros ports' Hr z Hz'. destruct (Hr z Hz') as (old&Ho&Hp). destruct (Hnew z Hz') as (ig&Hig&_).
        exists ig. split; [done|]. intros p Hpp. destruct (Hp p Hpp) as (np&Hnp&Heq).
        destruct (Hold z old np Ho Hnp) as (ig'&Hig'&Hin). exists np. split; [congruence|done].
    + done.
  - unfold Instances_EnsureInstanceGroupsAndPorts. apply wp_bind. unfold wp at 1. by rewrite Hz.
  - done.
Qed.

(** The backend services of the ports, with the groups of the first stage. *)
Lemma services_stage svcPorts igs w :
  binv w → Forall (λ p, port_range (sp_Port p)) svcPorts → ig_links igs →
  wp (Backends_Ensure (H1 := checker) cp_backends (uniq svcPorts) (Some igs))
    (λ _ w', (Forall (port_ready cp_backends igs w') (uniq svcPorts) ∧ binv w' ∧ cached_ports cp_backends (sp_Port <$> svcPorts) w w') ∧
       (ig_side w', lb_side w') = (ig_side w, lb_side w))
    (λ _ _, True) w.
Proof.
  intros Hi Hr Higs. set (f := λ w, (ig_side w, lb_side w, lget backends_snap w)).
  pose proof (HCPKeeps_comp fst f : HCPKeeps (λ w, (ig_side w, lb_side w))) as HK1.
  pose proof (LegacyKeeps_comp fst f : LegacyKeeps (λ w, (ig_side w, lb_side w))) as HK2.
  pose proof (BSKeeps_comp fst f : BSKeeps (λ w, (ig_side w, lb_side w))) as HK3.
  pose proof (HealthChecker_keeps (λ w, (ig_side w, lb_side w)) (MkHealthChecks path namer)) as HK.
  eapply wp_mono; [eapply (wp_keeps (λ w, (ig_side w, lb_side w))); [|apply (Ensure_ok (H1 := checker) cp_backends)]|..]; [|done| | |done| |done].
  - apply (BackendsEnsure_keeps (H1 := checker) (λ w, (ig_side w, lb_side w)) cp_backends); [|by intros ? sp [= <-]; apply probe_frame|done].
    intros s w1. destruct (backends_snap_frame s w1) as [Hig Hlb]. exact (f_equal2 pair Hig Hlb).
  - apply Forall_forall. intros p [_ Hp]%elem_of_uniq%last_Some_elem_of%list_elem_of_filter.
    rewrite Forall_forall in Hr. by apply Hr.
  - apply uniq_NoDup.
  - intros _ w' [(?&(?&_)&Hc) ?]. split_and!; [done..| |done]. intros k Hk. apply Hc. intros q Hq. apply Hk.
    apply list_elem_of_fmap in Hq as (p&->&Hp). apply elem_of_uniq, last_Some_elem_of, list_elem_of_filter in Hp as [_ Hp].
    by apply list_elem_of_fmap_2.
Qed.
(** All services of the ports are linked to the cluster's groups. *)
Definition services_ready (svcPorts : list ServicePort) (w : W) : Prop :=
  Forall (port_ready cp_backends (zone_groups w) w) (uniq svcPorts).
Lemma backends_stage svcPorts ports igs w :
  binv w → Forall (λ p, port_range (sp_Port p)) svcPorts → ig_links igs → covers igs w → groups_ready ports w →
  wp (Backends_Ensure (H1 := checker) cp_backends (uniq svcPorts) (if decide (length igs = 0) then None else Some igs))
    (λ _ w', services_ready svcPorts w' ∧ binv w' ∧ cached_ports cp_backends (sp_Port <$> svcPorts) w w' ∧
       groups_kept w w' ∧ lb_side w' = lb_side w)
    (λ _ _, True) w.
Proof.
  intros Hi Hr Higs Hcov Hg.
  assert (∀ igs w1, ig_links igs → covers igs w1 → binv w1 → groups_kept w w1 → lb_side w1 = lb_side w →
    lget backends_snap w1 = lget backends_snap w →
    wp (Backends_Ensure (H1 := checker) cp_backends (uniq svcPorts) (Some igs))
      (λ _ w', services_ready svcPorts w' ∧ binv w' ∧ cached_ports cp_backends (sp_Port <$> svcPorts) w w' ∧
         groups_kept w w' ∧ lb_side w' = lb_side w)
      (λ _ _, True) w1) as Hgiven.
  { intros igs1 w1 Hl1 Hc1 Hi1 Hk1 Hlb1 Hp1. eapply wp_mono; [by apply services_stage|cbv beta|done].
    intros _ w2 [(Hready&?&Hcp) [Hig Hlb]%pair_equal_spec]. split_and!; [|done| | |congruence].
    - eapply Forall_impl; [exact Hready|]. intros p. apply port_ready_groups. eapply covers_same; [|exact Hc1].
      by unfold ig_side in Hig; injection Hig.
    - unfold cached_ports, bk_pool in *. simpl in *. by rewrite Hp1 in Hcp.
    - eapply groups_kept_trans; [done|]. by apply groups_kept_same. }
  case_decide as Hlen; [|by apply Hgiven; try apply groups_kept_same].
  unfold Backends_Ensure. apply wp_bind. eapply wp_mono; [apply groups_stage|cbv beta|done].
  intros igs1 w1 ([Hl1 Hc1]&_&_&Hk1&Hb1&Hlb1). unfold be_side in Hb1. injection Hb1 as _ _ Hi1 Hp1.
  specialize (Hgiven igs1 w1). unfold Backends_Ensure in Hgiven. apply wp_unbind in Hgiven; [exact Hgiven|done..| |done|done|done].
  by rewrite Hi1.
Qed.

(** The members of the groups. *)
Definition members_ready (nodes : list string) (w : W) : Prop :=
  ∀ z, z ∈ cluster_zones → mem w z ig_name = list_to_set (in_zone z nodes).

Lemma nodes_stage nodes ports w :
  Forall instance_name nodes → groups_ready ports w → is_Some (lget instances_snap w !! ig_name) →
  delete ig_name (lget instances_snap w) = ∅ →
  (∀ z n, z ∈ cluster_zones → n ∈ mem w z ig_name → zone_of n = Some z) →
  wp (Instances_Sync cp_instances nodes)
    (λ _ w', (igv w' = igv w ∧ members_ready nodes w') ∧ (be_side w', lb_side w') = (be_side w, lb_side w))
    (λ _ _, True) w.
Proof.
  intros Hn Hg Hin Hpool Hz.
  pose proof (IGKeeps_comp (λ '(m, s, b, l), (b, l)) (λ w, (mem w, lget instances_snap w, be_side w, lb_side w)) : IGKeeps (λ w, (be_side w, lb_side w))) as HK.
  eapply wp_mono; [eapply (wp_keeps (λ w, (be_side w, lb_side w)));
    [apply (InstancesSync_keeps (λ w, (be_side w, lb_side w))), members_frame|apply MemberSync_ok; [done|]]| |done].
  - intros g z Hg' Hz'. assert (g = ig_name) as ->.
    { destruct (decide (g = ig_name)) as [|Hne]; [done|]. destruct Hg' as [[] Hg'].
      assert (delete ig_name (lget instances_snap w) !! g = Some tt) as He by (by rewrite lookup_delete_ne).
      rewrite Hpool in He. by rewrite lookup_empty in He. }
    destruct (Hg z Hz') as (ig&?&_). split; [by exists ig|]. intros n. by apply Hz.
  - intros _ w' [[? Hm] ?]. split; [split; [done|]|done]. intros z Hz'. by apply Hm.
Qed.

(** The first part of [L7s.Sync]: the default backend. *)
Definition default_backend : M W unit :=
  _ ← Backends_Ensure (H1 := defaultChecker) cp_defaults [defaultPort] None;
  d ← Backends_Get cp_defaults (sp_Port defaultPort);
  zoom glbcDefaultBackend (modW (λ _, Some d)).

Lemma default_stage w :
  binv w → port_range (sp_Port defaultPort) →
  wp default_backend
    (λ _ w', groups_kept w w' ∧ lb_side w' = lb_side w ∧
       lget backends_snap w' = lget backends_snap w ∧ only_ports cp_backends [sp_Port defaultPort] w w' ∧
       port_ready cp_backends (zone_groups w') w' defaultPort)
    (λ _ _, True) w.
Proof.
  intros Hi Hr. set (f := λ w, (ig_side w, lb_side w, lget backends_snap w)).
  pose proof (HealthChecker_keeps f (MkHealthChecks "/healthz" namer)) as HK.
  assert (∀ s w1, f (lset defaults_snap s w1) = f w1) as Hsnap
    by (intros s w1; unfold f; by destruct (defaults_snap_frame s w1) as (->&->&->)).
  apply wp_bind, wp_bind. eapply wp_mono; [apply groups_stage|cbv beta|done].
  intros igs w1 ([Hl Hcov]&_&_&Hg1&Hb1&Hlb1). apply wp_bind.
  unfold be_side in Hb1. injection Hb1 as Hbs1 Hhc1 Hbi1 Hc1.
  assert (binv w1) as Hi1 by (by rewrite Hbi1).
  eapply wp_mono; [eapply (wp_keeps f);
    [by apply (ensureBackendService_keeps _ cp_defaults)|by apply (ensureBackendService_ok (H1 := defaultChecker) cp_defaults)]|cbv beta|done].
  intros _ w2 [(Hready&_&Ho2) Hk2]. apply wp_ret, wp_bind.
  assert (binv w2) as Hi2 by (by destruct Ho2).
  eapply wp_mono; [eapply (wp_keeps f);
    [by apply (BackendsGet_keeps _ cp_defaults)|by apply (Get_spec (H1 := defaultChecker) cp_defaults)]|cbv beta|done].
  intros d w3 [(Ho3&Hbs3&_&Hhc3) Hk3]. apply wp_zoom, wp_modW. destruct (default_frame (Some d) w3) as (Hi4&Hb4&Hl4).
  set (w4 := lset glbcDefaultBackend (Some d) w3) in *.
  unfold be_side in Hb4. injection Hb4 as Hbs4 Hhc4 Hbi4 Hc4. unfold f in *. split_sides.
  assert (ig_side w4 = ig_side w1) as Hig by congruence.
  split_and!; [|congruence..| |].
  - eapply groups_kept_trans; [exact Hg1|]. by apply groups_kept_same.
  - eapply (only_ports_trans _ _ _ w1); [|eapply (only_ports_trans _ _ _ w2)].
    + split; [done|]. rewrite Hbs1, Hhc1. done.
    + eapply (only_port_ports cp_defaults); [apply list_elem_of_here|exact Ho2].
    + eapply (only_ports_trans _ _ _ w3); [eapply (only_port_ports cp_defaults); [apply list_elem_of_here|exact Ho3]|].
      split; [rewrite Hbi4; by destruct Ho3|]. rewrite Hbs4, Hhc4. done.
  - apply (port_ready_groups cp_backends igs).
    + eapply covers_same; [|exact Hcov]. by unfold ig_side in Hig; injection Hig.
    + destruct Hready as (link&be&Hhc&Hbe&Hs). exists link, be. rewrite Hhc4, Hbs4, Hbs3, Hhc3 by done. done.
Qed.

(** ** The checkpoint *)

Let cluster := NewClusterManager createCmd updateCmd deleteCmd instances_snap backends_snap defaults_snap l7s_snap
  glbcDefaultBackend prober namer defaultPort path.

(** The load balancers to sync, and those of the pool: see [AddAll_ok]. *)
Definition lbs_wf (lbs : list L7RuntimeInfo) (w : W) : Prop :=
  NoDup lbs ∧
  (∀ a b, a ∈ lbs → b ∈ lbs → a ≠ b → lb_name cp_l7s a ≠ lb_name cp_l7s b ∧ apart (fresh_lb cp_l7s a None) (fresh_lb cp_l7s b None)) ∧
  (∀ ri, ri ∈ lbs → Namer_LoadBalancer namer (lb_name cp_l7s ri) = lb_name cp_l7s ri) ∧
  (∀ k lb, lget l7s_snap w !! k = Some lb → lb_entry cp_l7s k lb) ∧
  (∀ n tps, v_tps (lbv w) !! n = Some tps → tps_SslCertificates tps ≠ []).
Definition lbs_ready (lbs : list L7RuntimeInfo) (w : W) : Prop :=
  ∀ ri, ri ∈ lbs → ∃ lb, lget l7s_snap w !! lb_name cp_l7s ri = Some lb ∧ lb_is cp_l7s ri lb ∧ lb_serves (lbv w) lb.
(** The cache of the pool, but for the load balancers of the list. *)
Definition cached_lbs (lbs : list L7RuntimeInfo) (w w' : W) : Prop :=
  ∀ k, (∀ ri, ri ∈ lbs → k ≠ lb_name cp_l7s ri) → lget l7s_snap w' !! k = lget l7s_snap w !! k.
(** The services point to the health checks of their ports and, unless the port
    has network endpoint groups, to the cluster's groups of all zones. A port of
    the default backend is the default backend pool's, if there is a load
    balancer. *)
Definition backends_ready (lbs : list L7RuntimeInfo) (svcPorts : list ServicePort) (w : W) : Prop :=
  (∀ p, p ∈ uniq svcPorts → lbs = [] ∨ sp_Port p ≠ sp_Port defaultPort → port_ready cp_backends (zone_groups w) w p) ∧
  (lbs ≠ [] → port_ready cp_backends (zone_groups w) w defaultPort).
(** The pool of groups has only the cluster's, and their members are in the
    zones they are listed in. *)
Definition nodes_wf (w : W) : Prop :=
  delete ig_name (lget instances_snap w) = ∅ ∧
  ∀ z n, z ∈ cluster_zones → n ∈ mem w z ig_name → zone_of n = Some z.

Lemma adds_stage lbs w :
  lbs_wf lbs w →
  wp (forEach (L7s_Add cp_l7s) lbs)
    (λ _ w', (lbs_ready lbs w' ∧ cached_lbs lbs w w') ∧ (ig_side w', be_side w') = (ig_side w, be_side w)) (λ _ _, True) w.
Proof.
  intros (?&?&?&?&?). set (f := λ w, (ig_side w, be_side w, lget l7s_snap w)).
  pose proof (LBKeeps_comp fst f : LBKeeps (λ w, (ig_side w, be_side w))) as HK1.
  pose proof (LBKeeps_comp snd f : LBKeeps (lb_pool cp_l7s)) as HK2.
  eapply wp_mono; [eapply (wp_keeps (λ w, (ig_side w, be_side w)));
    [apply keeps_forEach; intros ri; apply (L7sAdd_keeps _ cp_l7s)|apply (AddAll_ok cp_l7s); [|done..]]|done..].
  - intros s w1. destruct (l7s_snap_frame s w1) as (Hi&Hb&_). exact (f_equal2 pair Hi Hb).
  - intros s w1. by destruct (l7s_snap_frame s w1) as (_&_&?).
Qed.

Lemma L7sSync_stage ports lbs svcPorts w :
  lbs_wf lbs w → binv w → Forall (λ p, port_range (sp_Port p)) svcPorts → port_range (sp_Port defaultPort) →
  groups_ready ports w → services_ready svcPorts w →
  wp (lbp_Sync (LoadBalancerPool := cm_l7Pool cluster) lbs)
    (λ _ w', lbs_ready lbs w' ∧ backends_ready lbs svcPorts w' ∧ groups_kept w w' ∧
       cached_lbs lbs w w' ∧ lget backends_snap w' = lget backends_snap w ∧ binv w') (λ _ _, True) w.
Proof.
  intros Hl Hi Hr Hd Hg Hready. unfold services_ready in Hready. rewrite Forall_forall in Hready.
  change (wp (_ ← (if decide (length lbs ≠ 0) then default_backend else mret tt); forEach (L7s_Add cp_l7s) lbs)
    (λ _ w', lbs_ready lbs w' ∧ backends_ready lbs svcPorts w' ∧ groups_kept w w' ∧
       cached_lbs lbs w w' ∧ lget backends_snap w' = lget backends_snap w ∧ binv w') (λ _ _, True) w).
  apply wp_bind. case_decide as Hlen.
  - eapply wp_mono; [by apply default_stage|cbv beta|done]. intros _ w1 (Hg1&Hl1&Hc1&Ho1&Hd1).
    apply pair_equal_spec in Hl1 as [Hv1 Hp1].
    eapply wp_mono; [apply (adds_stage lbs); unfold lbs_wf; by rewrite Hv1, Hp1|cbv beta|done].
    intros _ w2 [[Hs2 Hp2] [Hk2 Hb2]%pair_equal_spec]. unfold be_side in Hb2. injection Hb2 as Hb2 Hh2 Hi2 Hc2.
    pose proof Hk2 as Hk2'. unfold ig_side in Hk2'. injection Hk2' as Hv2 _ _.
    split; [done|]. unfold backends_ready, port_ready, zone_groups, cached_lbs in *. rewrite Hv2, Hb2, Hh2, Hi2, Hc2.
    split; [|split; [by eapply groups_kept_trans; [|apply groups_kept_same]|split; [by rewrite <-Hp1|split; [done|by destruct Ho1]]]].
    split; [|done]. intros p Hp [->|Hne]; [done|].
    apply (port_ready_groups cp_backends (zone_groups w)); [by apply (covers_kept ports _ w), covers_self|].
    apply (port_ready_kept cp_backends _ p [sp_Port defaultPort] w w1); [..|done|by apply Hready].
    + apply elem_of_uniq, last_Some_elem_of, list_elem_of_filter in Hp as [_ Hp]. rewrite Forall_forall in Hr. by apply Hr.
    + by intros q ->%list_elem_of_singleton.
    + by intros ?%list_elem_of_singleton.
  - destruct lbs; [|done]. apply wp_ret, wp_ret. split; [by intros ? ?%elem_of_nil|]. split; [split; [auto|done]|].
    split; [by apply groups_kept_same|done].
Qed.

(** All of it together, and what a checkpoint leaves in the caches. *)
Definition checkpoint_done (lbs : list L7RuntimeInfo) (nodes : list string) (svcPorts : list ServicePort) (ports fwPorts : list Z)
    (w : W) : Prop :=
  groups_ready ports w ∧ members_ready nodes w ∧ backends_ready lbs svcPorts w ∧ lbs_ready lbs w ∧
  rule_wanted namer fwPorts (fwv w).
Definition caches_kept (lbs : list L7RuntimeInfo) (svcPorts : list ServicePort) (w w' : W) : Prop :=
  cached_lbs lbs w w' ∧ cached_ports cp_backends (sp_Port <$> svcPorts) w w' ∧ binv w'.

Lemma rest_stage lbs nodes svcPorts igs ports fwPorts w :
  lbs_wf lbs w → nodes_wf w → binv w → Forall (λ p, port_range (sp_Port p)) svcPorts → port_range (sp_Port defaultPort) →
  Forall instance_name nodes → ig_links igs → covers igs w → groups_ready ports w → is_Some (lget instances_snap w !! ig_name) →
  wp (checkpoint_rest cluster igs lbs nodes (uniq svcPorts) fwPorts)
    (λ _ w', checkpoint_done lbs nodes svcPorts ports fwPorts w' ∧ caches_kept lbs svcPorts w w') (λ _ _, True) w.
Proof.
  intros Hl [Hp Hz] Hi Hr Hd Hn Higs Hcov Hg Hin.
  apply wp_bind. eapply wp_mono; [by apply (backends_stage svcPorts ports igs)|cbv beta|done].
  intros _ w1 (Hready&Hi1&Hc1&(Hg1&_&Hm1&Hs1&Hin1)&Hlb1). unfold lb_side in Hlb1. injection Hlb1 as Hlv1 Hlp1.
  apply wp_bind. eapply wp_mono; [apply (nodes_stage nodes ports)|cbv beta|done];
    [done|by apply Hg1|by apply Hin1|by rewrite Hs1|by rewrite Hm1|].
  intros _ w2 [[Hv2 Hm2] Hk2]. unfold be_side, lb_side in Hk2. injection Hk2 as Hb2 Hh2 Hi2 Hc2 Hlv2 Hlp2.
  assert (groups_ready ports w2) as Hg2 by (unfold groups_ready; rewrite Hv2; by apply Hg1).
  apply wp_bind. eapply wp_mono; [apply (L7sSync_stage ports lbs svcPorts)|cbv beta|done];
    [unfold lbs_wf; by rewrite Hlv2, Hlp2, Hlv1, Hlp1|by rewrite Hi2|done|done|done|
     unfold services_ready, port_ready, zone_groups; by rewrite Hv2, Hb2, Hh2|].
  intros _ w3 (Hl3&Hb3&(Hg3&_&Hm3&_)&Hpool3&Hc3&Hi3).
  eapply wp_mono; [eapply (wp_keeps (λ w, (ig_side w, be_side w, lb_side w))); [apply FirewallSync_keeps, fw_frame|apply FirewallSync_ok]|cbv beta|done].
  intros _ w4 [(_&Hfw&_) Hk4]. unfold ig_side, be_side, lb_side in Hk4. injection Hk4 as Hv4 Hm4 _ Hbs4 Hh4 Hi4 Hc4 Hlv4 Hlp4.
  specialize (Hg3 ports Hg2). unfold checkpoint_done, groups_ready, members_ready, backends_ready, port_ready, zone_groups, lbs_ready in *.
  rewrite Hv4, Hm4, Hbs4, Hh4, Hlv4, Hlp4, Hm3. split; [split; [done|split; [exact Hm2|split; [exact Hb3|done]]]|].
  unfold caches_kept, cached_lbs, cached_ports, bk_pool in *. simpl in *. rewrite Hlp4, Hc4, Hi4, Hc3, Hc2, Hlp2, Hlp1 in *. done.
Qed.

(** The ports of the groups, with the default backend's. *)
Definition all_named (namedPorts : list ServicePort) : list ServicePort :=
  if decide (length namedPorts ≠ 0) then namedPorts ++ [defaultPort] else namedPorts.
Lemma groups_ready_all ports ports' w : (∀ p, p ∈ ports' → p ∈ ports) → groups_ready ports w → groups_ready ports' w.
Proof. intros Hs Hg z Hz. destruct (Hg z Hz) as (ig&?&Hp). exists ig. split; [done|]. intros p ?. by apply Hp, Hs. Qed.
Lemma named_uniq l p : p ∈ sp_Port <$> l → p ∈ sp_Port <$> uniq l.
Proof. intros (q&->&(q'&Hq'&_&<-)%uniq_covers)%list_elem_of_fmap. by apply list_elem_of_fmap_2. Qed.

Lemma Checkpoint_ok lbs nodes svcPorts namedPorts fwPorts w :
  lbs_wf lbs w → nodes_wf w → binv w → Forall (λ p, port_range (sp_Port p)) svcPorts → port_range (sp_Port defaultPort) →
  Forall instance_name nodes →
  wp (Checkpoint cluster lbs nodes svcPorts namedPorts fwPorts)
    (λ '(igs, err) w', err = None →
       checkpoint_done lbs nodes svcPorts (sp_Port <$> all_named namedPorts) fwPorts w' ∧ caches_kept lbs svcPorts w w')
    (λ _ _, False) w.
Proof.
  intros Hl [Hp Hz] Hi Hr Hd Hn. unfold Checkpoint. cbv zeta. fold (all_named namedPorts).
  apply wp_bind, wp_try. eapply wp_mono; [apply groups_stage|cbv beta; fold ig_name|intros e w' _; by apply wp_ret].
  intros igs w1 ([Higs Hcov]&Hg1&Hin1&(_&_&Hm1&Hp1&_)&Hb1&Hl1). unfold be_side, lb_side in *. injection Hb1 as _ _ Hi1 Hc1. injection Hl1 as Hlv1 Hlp1.
  apply wp_bind, wp_try. eapply wp_mono; [eapply (rest_stage lbs nodes svcPorts igs)|cbv beta|intros e w' _; by apply wp_ret];
    [unfold lbs_wf; by rewrite Hlv1, Hlp1|unfold nodes_wf; by rewrite Hp1, Hm1|by rewrite Hi1|done..|].
  intros [] w2 [(Hg2&Hdone) Hk2]. apply wp_ret. intros _. split.
  - split; [|done]. eapply groups_ready_all; [|exact Hg2]. apply named_uniq.
  - unfold caches_kept, cached_lbs, cached_ports, bk_pool in *. simpl in *. by rewrite Hc1, Hlp1 in Hk2.
Qed.

(** C2. One checkpoint, over any cloud that keeps the promises of the pools.
    It never panics, and a failure is reported in the result. When it returns
    no error, all of the following hold at once at its end: every zone of the
    cluster has the cluster's instance group with a named port for every port
    of the ingresses, and for the default backend's; the members of the group
    are exactly the nodes of the zone; every port of the ingresses has a health
    check and a backend service that points to this check and, unless the port
    has network endpoint groups, to the group of every zone, as the cloud holds
    it at the end; with a load balancer, so has the default backend's port;
    every load balancer serves; and the firewall rule grants exactly the given
    ports. *)
Theorem Checkpoint_spec lbs nodes svcPorts namedPorts fwPorts w :
  lbs_wf lbs w → nodes_wf w → binv w → Forall (λ p, port_range (sp_Port p)) svcPorts → port_range (sp_Port defaultPort) →
  Forall instance_name nodes →
  wp (Checkpoint cluster lbs nodes svcPorts namedPorts fwPorts)
    (λ '(igs, err) w', err = None →
       groups_ready (sp_Port <$> namedPorts) w' ∧ (namedPorts ≠ [] → groups_ready [sp_Port defaultPort] w') ∧
       members_ready nodes w' ∧ backends_ready lbs svcPorts w' ∧ lbs_ready lbs w' ∧ rule_wanted namer fwPorts (fwv w'))
    (λ _ _, False) w.
Proof.
  intros. eapply wp_mono; [by apply Checkpoint_ok|cbv beta|done]. intros [igs err] w' Hok ->.
  destruct (Hok eq_refl) as [(Hg&?&?&?&?) _]. unfold all_named in Hg. case_decide as Hlen.
  - split; [|split; [|done]]; [|intros _]; (eapply groups_ready_all; [|exact Hg]); intros p Hp; rewrite fmap_app; apply elem_of_app; auto.
  - split; [done|]. split; [by destruct namedPorts|done].
Qed.

(** ** Garbage collection after the checkpoint *)

(** The deletions keep what is not theirs, too. *)
Class GCFrames := {
  gc_lb_frame :: LBDeletesKeep (λ w, (ig_side w, be_side w, fwv w, (lget l7s_snap w, lget glbcDefaultBackend w)));
  gc_bs_frame n : keeps (λ w, (ig_side w, lb_side w, fwv w)) (bsc_DeleteGlobalBackendService n);
  gc_hc_frame n : keeps (λ w, (ig_side w, lb_side w, fwv w)) (hcp_DeleteHealthCheck n);
  l7s_snap_gc s w : fwv (lset l7s_snap s w) = fwv w ∧ lget glbcDefaultBackend (lset l7s_snap s w) = lget glbcDefaultBackend w;
  backends_snap_gc s w : fwv (lset backends_snap s w) = fwv w;
}.
Context `{!GCFrames}.

(** The keys of the caches are those the controller makes. *)
Definition port_keys (w : W) : Prop := port_keyed cp_backends w.
Definition keys_wf (w : W) : Prop :=
  port_keys w ∧ (∀ k, is_Some (lget l7s_snap w !! k) → Namer_LoadBalancer namer k = k).
Local Instance cp_fields : L7sFields cp_l7s.
Proof.
  split; [done| |].
  - intros s w. destruct (l7s_snap_gc s w) as [_ Hd]. destruct (l7s_snap_frame s w) as (_&_&Hv). done.
  - set (f := λ w, (ig_side w, be_side w, fwv w, (lget l7s_snap w, lget glbcDefaultBackend w))).
    split; intros; apply (keeps_comp snd f); apply gc_lb_frame.
Qed.

Lemma gc_lbs_stage names w :
  names ≠ [] → keys_wf w →
  let kept w' := (ig_side w', be_side w', fwv w') = (ig_side w, be_side w, fwv w) in
  wp (lbp_GC (LoadBalancerPool := cm_l7Pool cluster) names)
    (λ _ w', (gc_done cp_l7s names w w' ∧ gc_safe cp_l7s names w w') ∧ kept w')
    (λ _ w', gc_safe cp_l7s names w w' ∧ kept w') w.
Proof.
  intros Hne [_ Hk] kept. set (f := λ w, (ig_side w, be_side w, fwv w, (lget l7s_snap w, lget glbcDefaultBackend w))).
  pose proof (LBDeletesKeep_comp fst f : LBDeletesKeep (λ w, (ig_side w, be_side w, fwv w))) as HK.
  eapply (wp_keeps (λ w, (ig_side w, be_side w, fwv w))); [eapply (L7sGC_keeps _ cp_l7s); [|done]|by apply (LB_GC_ok cp_l7s)].
  intros s w1. destruct (l7s_snap_gc s w1) as [Hf _]. destruct (l7s_snap_frame s w1) as (Hi&Hb&_).
  exact (f_equal2 pair (f_equal2 pair Hi Hb) Hf).
Qed.
Lemma gc_backends_stage ports w :
  binv w → port_keys w →
  let kept w' := (ig_side w', lb_side w', fwv w') = (ig_side w, lb_side w, fwv w) in
  wp (bkp_GC (BackendPool := cm_backendPool cluster) ports)
    (λ _ w', deleted_ports cp_backends (garbage cp_backends ports w) w w' ∧ kept w')
    (λ _ w', spared cp_backends (garbage cp_backends ports w) w w' ∧ kept w') w.
Proof.
  intros Hi Hk kept.
  eapply (wp_keeps (λ w, (ig_side w, lb_side w, fwv w))); [eapply (BackendsGC_keeps (H0 := checker) _ cp_backends)|
    by apply (BackendsGC_ok (H1 := checker) cp_backends)].
  - apply gc_bs_frame.
  - intros n. apply gc_hc_frame.
  - intros s w1. pose proof (backends_snap_gc s w1) as Hf. destruct (backends_snap_frame s w1) as [Hi1 Hl1].
    exact (f_equal2 pair (f_equal2 pair Hi1 Hl1) Hf).
Qed.

(** The names and ports cover what the checkpoint was for, and no load balancer
    to be collected has recorded an object of one that was synced. *)
Definition gc_covers (lbs : list L7RuntimeInfo) (svcPorts : list ServicePort) (names : list string) (allPorts : list ServicePort)
    (w : W) : Prop :=
  (∀ ri, ri ∈ lbs → ri_Name ri ∈ names) ∧
  (∀ p, p ∈ svcPorts → port_range (sp_Port p) ∧ ∃ q, q ∈ allPorts ∧ sp_Port q = sp_Port p) ∧
  (∀ l, doomed cp_l7s names w l → ∀ ri, ri ∈ lbs → unrelated l (fresh_lb cp_l7s ri None)).

Lemma lbs_ready_kept lbs names w w' :
  (∀ ri, ri ∈ lbs → ri_Name ri ∈ names) → (∀ l, doomed cp_l7s names w l → ∀ ri, ri ∈ lbs → unrelated l (fresh_lb cp_l7s ri None)) →
  gc_safe cp_l7s names w w' → lbs_ready lbs w → lbs_ready lbs w'.
Proof.
  intros Hn Hu [Hsp Hpool] Hr ri Hri. destruct (Hr ri Hri) as (lb&Hlb&(Hi&Hna&Hnm)&Hs). exists lb.
  assert (lb_name cp_l7s ri ∈ known cp_l7s names) as Hk.
  { apply elem_of_list_to_set, list_elem_of_fmap. exists (ri_Name ri). split; [done|by apply Hn]. }
  destruct (Hpool _ _ Hlb) as [(lb'&Hlb'&_&Heq)|(_&?&_)]; [|done]. rewrite <-(Heq Hk). split; [exact Hlb'|]. rewrite (Heq Hk).
  split; [done|]. eapply lb_serves_spared; [|exact Hsp|done]. intros l Hl. specialize (Hu l Hl ri Hri).
  unfold unrelated, url_map, http_rule, https_rule, http_proxy, https_proxy in *. by rewrite Hna, Hnm.
Qed.
Lemma port_ready_spared igs p D w w' :
  port_range (sp_Port p) → ¬ D (sp_Port p) → spared cp_backends D w w' → port_ready cp_backends igs w p → port_ready cp_backends igs w' p.
Proof. intros Hr Hd (_&Hk&_). unfold port_ready. by destruct (Hk _ Hr Hd) as (->&->&_). Qed.

(** What the two collections together leave. *)
Lemma done_kept lbs nodes svcPorts ports fwPorts names allPorts w1 w2 w3 :
  port_range (sp_Port defaultPort) → gc_covers lbs svcPorts names allPorts w1 →
  gc_safe cp_l7s names w1 w2 → (ig_side w2, be_side w2, fwv w2) = (ig_side w1, be_side w1, fwv w1) →
  spared cp_backends (garbage cp_backends allPorts w2) w2 w3 → (ig_side w3, lb_side w3, fwv w3) = (ig_side w2, lb_side w2, fwv w2) →
  checkpoint_done lbs nodes svcPorts ports fwPorts w1 → checkpoint_done lbs nodes svcPorts ports fwPorts w3.
Proof.
  intros Hd (Hn&Hp&Hu) Hsafe Hk2 Hsp Hk3 (Hg&Hm&[Hb Hdef]&Hl&Hf).
  unfold ig_side, be_side in Hk2. injection Hk2 as Hv2 Hm2 _ Hbs2 Hh2 _ _ Hf2.
  unfold ig_side, lb_side in Hk3. injection Hk3 as Hv3 Hm3 _ Hlv3 Hlp3 Hf3.
  eapply lbs_ready_kept in Hl; [|done..].
  unfold checkpoint_done, groups_ready, members_ready, lbs_ready in *. rewrite Hv3, Hm3, Hf3, Hlv3, Hlp3, Hv2, Hm2, Hf2.
  split; [done|]. split; [done|]. split; [|done].
  assert (zone_groups w3 = zone_groups w1) as Hzg by (unfold zone_groups; by rewrite Hv3, Hv2).
  assert (∀ igs p, port_ready cp_backends igs w1 p → port_ready cp_backends igs w2 p) as H12
    by (intros ??; unfold port_ready; by rewrite Hbs2, Hh2).
  unfold backends_ready. rewrite Hzg. split.
  - intros p Hin Hne. assert (p ∈ svcPorts) as Hin'
      by (by apply elem_of_uniq, last_Some_elem_of, list_elem_of_filter in Hin as [_ Hin]).
    destruct (Hp p Hin') as [Hr (q&Hq&Heq)]. eapply port_ready_spared; [done| |done|by apply H12, Hb].
    intros (_&_&Hno). by apply (Hno q).
  - intros Hne. eapply port_ready_spared; [done| |done|by apply H12, Hdef].
    intros (_&Hno&_). apply Hno. simpl. set_solver.
Qed.

(** What is collected: load balancers that no name asks for, with the objects
    that [Cleanup] is for ([cleaned]), and the backends of ports that nothing
    uses. *)
Definition collected (names : list string) (allPorts : list ServicePort) (w w' : W) : Prop :=
  (∀ k l, lget l7s_snap w !! k = Some l → k ∉ known cp_l7s names → lget l7s_snap w' !! k = None ∧ cleaned l (lbv w')) ∧
  (∀ p, port_range p → garbage cp_backends allPorts w p → bsv w' !! be_name cp_backends p = None ∧ hcv w' p = None).

(** [GC] once the load balancers are collected, with the error of that. *)
Definition gc_rest (names : list string) (allPorts : list ServicePort) (lbErr : error + unit) : M W unit :=
  beErr ← try (bkp_GC (BackendPool := cm_backendPool cluster) allPorts);
  match lbErr, beErr with
  | inl err, _ => throw err
  | inr _, inl err => throw err
  | inr _, inr _ =>
      if decide (length names = 0)
      then nop_DeleteInstanceGroup (NodePool := cm_instancePool cluster) (Namer_InstanceGroup (cm_ClusterNamer cluster))
      else mret tt
  end.

Section gc.
Context (lbs : list L7RuntimeInfo) (nodes : list string) (svcPorts : list ServicePort) (ports fwPorts : list Z)
  (names : list string) (allPorts : list ServicePort) (w : W).
Hypothesis (Hne : names ≠ []) (Hd : port_range (sp_Port defaultPort)) (Hi : binv w) (Hkeys : keys_wf w).
Hypothesis (Hcovers : gc_covers lbs svcPorts names allPorts w).
Let done := checkpoint_done lbs nodes svcPorts ports fwPorts.
Hypothesis Hdone : done w.

(** The load balancers and services that are asked for stay as they were. *)
Let asked_kept (w' : W) : Prop :=
  (∀ k, k ∈ known cp_l7s names → lget l7s_snap w' !! k = lget l7s_snap w !! k) ∧
  (∀ q, q ∈ allPorts → port_range (sp_Port q) → bsv w' !! be_name cp_backends (sp_Port q) = bsv w !! be_name cp_backends (sp_Port q)).
Lemma gc_rest_ok r w1 :
  gc_safe cp_l7s names w w1 → (ig_side w1, be_side w1, fwv w1) = (ig_side w, be_side w, fwv w) →
  (∀ u, r = inr u → gc_done cp_l7s names w w1) →
  wp (gc_rest names allPorts r) (λ _ w', done w' ∧ collected names allPorts w w' ∧ asked_kept w') (λ _ w', done w') w1.
Proof.
  intros Hsafe Hk Hr. pose proof Hk as Hk'. unfold ig_side, be_side in Hk'. injection Hk' as _ _ _ Hbs1 Hh1 Hi1 Hc1 _.
  apply wp_bind, wp_try. eapply wp_mono; [apply gc_backends_stage|..]; cbv beta.
  - by rewrite Hi1.
  - unfold port_keys, port_keyed, bk_pool. simpl. rewrite Hc1. apply Hkeys.
  - intros [] w2 [Hdel Hk2]. pose proof (deleted_spared _ _ _ _ Hdel) as Hsp.
    assert (done w2) by (by eapply (done_kept _ _ _ _ _ names allPorts w w1)).
    destruct r as [err|u]; [by apply wp_throw|]. rewrite decide_False by (by destruct names). apply wp_ret. split; [done|].
    unfold ig_side, lb_side in Hk2. injection Hk2 as _ _ _ Hlv2 Hlp2 _. destruct (Hr u eq_refl) as (Hsame&Hgone&_). split; [split|].
    + intros k l Hl Hk'. rewrite Hlp2, Hlv2. by apply Hgone.
    + intros p Hp Hg. destruct Hdel as (_&Hdel&_). destruct (Hdel p Hp) as (?&?&_); [|done].
      unfold garbage, bk_pool in *. simpl in *. by rewrite Hc1.
    + split; [intros k Hk'; rewrite Hlp2; by apply Hsame|]. intros q Hq Hr'. destruct Hdel as (_&_&Hkept&_).
      destruct (Hkept _ Hr') as (->&_); [|by rewrite Hbs1]. intros (_&_&Hno). by apply (Hno q).
  - intros e w2 [Hsp Hk2]. assert (done w2) by (by eapply (done_kept _ _ _ _ _ names allPorts w w1)).
    destruct r; by apply wp_throw.
Qed.
Lemma GC_stage :
  wp (cm_GC cluster names allPorts) (λ _ w', done w' ∧ collected names allPorts w w' ∧ asked_kept w') (λ _ w', done w') w.
Proof.
  apply wp_bind, wp_try. eapply wp_mono; [by apply gc_lbs_stage|..]; cbv beta.
  - intros [] w1 [[? ?] ?]. by apply (gc_rest_ok (inr tt)).
  - intros e w1 [? ?]. by apply (gc_rest_ok (inl e)).
Qed.
End gc.

(** From the world before the checkpoint to the one after it. *)
Section before.
Context (lbs : list L7RuntimeInfo) (svcPorts : list ServicePort) (names : list string) (allPorts : list ServicePort) (w w1 : W).
Hypothesis (Hl : lbs_wf lbs w) (Hcovers : gc_covers lbs svcPorts names allPorts w) (Hcaches : caches_kept lbs svcPorts w w1).

Lemma known_synced k : k ∉ known cp_l7s names → lget l7s_snap w1 !! k = lget l7s_snap w !! k.
Proof.
  intros Hk. apply Hcaches. intros ri Hri ->. apply Hk, elem_of_list_to_set, list_elem_of_fmap.
  exists (ri_Name ri). split; [done|by apply Hcovers].
Qed.
Lemma keys_wf_after : keys_wf w → keys_wf w1.
Proof.
  intros [Hp Hk]. destruct Hcaches as (Hcl&Hcp&_). unfold cached_ports, bk_pool in Hcp. simpl in Hcp. split.
  - intros k Hin. destruct (decide (k ∈ portKey <$> (sp_Port <$> svcPorts))) as [(q&->&(p&->&Hps)%list_elem_of_fmap)%list_elem_of_fmap|Hno].
    + exists (sp_Port p). split; [by apply Hcovers|done].
    + apply Hp. rewrite <-Hcp; [done|]. intros q Hq ->. by apply Hno, list_elem_of_fmap_2.
  - intros k Hin. destruct (decide (k ∈ lb_name cp_l7s <$> lbs)) as [(ri&->&Hri)%list_elem_of_fmap|Hno]; [by apply Hl|].
    apply Hk. rewrite <-Hcl; [done|]. intros ri Hri ->. by apply Hno, list_elem_of_fmap_2.
Qed.
Lemma gc_covers_after : gc_covers lbs svcPorts names allPorts w1.
Proof.
  destruct Hcovers as (?&?&Hu). split; [done|]. split; [done|]. intros l (k&Hk&Hno). apply Hu. exists k. split; [|done].
  unfold lb_pool in *. simpl in *. by rewrite <-known_synced.
Qed.
Lemma collected_before w' : collected names allPorts w1 w' → collected names allPorts w w'.
Proof.
  intros [Hlb Hbe]. split.
  - intros k l Hk Hno. apply Hlb; [by rewrite known_synced|done].
  - intros p Hp (Hin&Hig&Hno). apply Hbe; [done|]. split; [|done]. destruct Hcaches as (_&Hcp&_). rewrite Hcp; [done|].
    intros q (sp&->&Hsp)%list_elem_of_fmap Heq%Itoa_inj. destruct Hcovers as (_&Hcov&_).
    destruct (Hcov sp Hsp) as [_ (sp'&Hin'&Heq')]. apply (Hno sp' Hin'). congruence.
Qed.
End before.

(** C3. Garbage collection does not undo the checkpoint. Let the load balancers
    be known under the keys of their names, and let [GC] be given at least one
    name, as [sync] does as long as there is an ingress, and names and ports that
    cover those the checkpoint was for ([gc_covers]: no load balancer to collect
    has recorded an object of one that was synced). Then after a checkpoint without error
    everything it achieved is still there when [GC] returns, even if [GC] fails
    half way. If it succeeds, the load balancers of other names have left the pool,
    and their rules, proxies, url map, static address and, unless the ingress
    named a certificate of its own, the current certificate are gone (an old
    certificate is not deleted, see [LB_GC_spec]); and the services and health
    checks of the ports that nothing uses are gone. *)
Theorem Checkpoint_GC_spec lbs nodes svcPorts namedPorts fwPorts names allPorts w :
  lbs_wf lbs w → nodes_wf w → binv w → port_range (sp_Port defaultPort) → Forall instance_name nodes →
  names ≠ [] → keys_wf w → gc_covers lbs svcPorts names allPorts w →
  let done := checkpoint_done lbs nodes svcPorts (sp_Port <$> all_named namedPorts) fwPorts in
  wp (Checkpoint cluster lbs nodes svcPorts namedPorts fwPorts)
    (λ '(igs, err) w1, err = None →
       wp (cm_GC cluster names allPorts) (λ _ w', done w' ∧ collected names allPorts w w') (λ _ w', done w') w1)
    (λ _ _, False) w.
Proof.
  intros Hl Hn Hi Hd Hnodes Hne Hkeys Hc done. eapply wp_mono; [apply (Checkpoint_ok lbs nodes svcPorts)|cbv beta|done]; try done.
  { apply Forall_forall. intros p Hp. by apply Hc. }
  intros [igs err] w1 Hok ->. destruct (Hok eq_refl) as [Hdone Hcaches].
  eapply wp_mono; [apply (GC_stage lbs nodes svcPorts (sp_Port <$> all_named namedPorts) fwPorts)|cbv beta|done].
  - done.
  - done.
  - by destruct Hcaches as (_&_&?).
  - by eapply keys_wf_after.
  - by eapply gc_covers_after.
  - exact Hdone.
  - intros _ w' (?&?&_). split; [done|]. by eapply collected_before.
Qed.
End checkpoint.
