(* ===== verification/ShutdownSpec.v ===== *)
(** * ShutdownSpec: what a shutdown of the cluster manager deletes

    [ClusterManager.shutdown] (pkg/controller/cluster_manager.go) empties the
    pools: the load balancers with the default backend, the firewall rule, and
    the backends. Each pool is the subject of its own file; here they are put
    together as in [CheckpointSpec]. *)

From S2P Require Import Prelude GoLang GoStrings Compute Utils Namer HealthChecks Instances InstancesSync Firewalls Backends BackendsSpec.
From S2P Require Import LoadBalancers LoadBalancersSpec Frames LoadBalancersSync K8s Translator TranslatorSpec ClusterManager CheckpointSpec.

Section shutdown.
Context {W : Type} `{InstanceGroups W, HealthCheckProvider W, BackendServices W, NEGGetter W, LoadBalancers W, FirewallCloud W}.
Context `{ZoneLister W, MapRange, !KeyRange Z}.
Context (createCmd updateCmd : Firewall → string → string) (deleteCmd : string → string → string).
Context (instances_snap : lens W (gmap string unit)) (backends_snap defaults_snap : lens W (gmap string (option BackendService)))
  (l7s_snap : lens W (gmap string L7)) (glbcDefaultBackend : lens W (option BackendService)).
Context (prober : ServicePort → M W (option Probe)) (namer : Namer) (defaultPort : ServicePort) (path : string).

Local Abbreviation instances := (cp_instances instances_snap namer).
Local Abbreviation backends := (cp_backends backends_snap prober namer defaultPort).
Local Abbreviation defaults := (cp_defaults defaults_snap namer).
Local Abbreviation l7s := (cp_l7s l7s_snap glbcDefaultBackend namer defaultPort).
Local Abbreviation checker := (NewHealthChecker (MkHealthChecks path namer)).
Local Abbreviation defaultChecker := (NewHealthChecker (MkHealthChecks "/healthz" namer)).
Local Existing Instance cp_nodes.

Context `{!GroupLaws W, !MemberLaws W, !BackendWorld W, !BackendLaws (H1 := checker) backends}.
Context `{!BackendLaws (H1 := defaultChecker) defaults, !LBWorld W, !LBLaws W, !FirewallLaws W}.
Context `{!LensLaws instances_snap, !LensLaws l7s_snap}.
Context `{!ClusterFrames instances_snap backends_snap defaults_snap l7s_snap glbcDefaultBackend prober}.
Context `{!GCFrames instances_snap backends_snap l7s_snap glbcDefaultBackend}.

(** The cache of the default backend is not part of the cloud either. *)
Class ShutdownFrames := {
  sd_lb_frame :: LBDeletesKeep (lget defaults_snap);
  sd_bs_frame n : keeps (lget backends_snap) (bsc_DeleteGlobalBackendService n);
  sd_hc_frame n : keeps (lget backends_snap) (hcp_DeleteHealthCheck n);
  sd_l7s_frame s w : lget defaults_snap (lset l7s_snap s w) = lget defaults_snap w;
  sd_default_frame d w : let w' := lset glbcDefaultBackend d w in
    fwv w' = fwv w ∧ lget defaults_snap w' = lget defaults_snap w;
  sd_defaults_frame s w : fwv (lset defaults_snap s w) = fwv w;
}.
Context `{!ShutdownFrames}.
Local Existing Instance cp_fields.

Let cluster := NewClusterManager createCmd updateCmd deleteCmd instances_snap backends_snap defaults_snap l7s_snap
  glbcDefaultBackend prober namer defaultPort path.
Local Abbreviation ig := (ig_side instances_snap).
Local Abbreviation be := (be_side backends_snap).
Local Abbreviation lb := (lb_side l7s_snap).

Lemma set_l7s s w :
  let w' := lset l7s_snap s w in (ig w', be w', fwv w', lget defaults_snap w') = (ig w, be w, fwv w, lget defaults_snap w).
Proof.
  destruct GCFrames0 as [_ _ _ Hgc _]. destruct (Hgc s w) as [Hf _]. destruct ClusterFrames0 as [_ _ _ _ _ _ _ _ _ _ _ Hcf _ _].
  destruct (Hcf s w) as (Hi&Hb&_). simpl. by rewrite Hi, Hb, Hf, sd_l7s_frame.
Qed.
Lemma set_default d w :
  let w' := lset glbcDefaultBackend d w in
  (ig w', lb w', fwv w', lget backends_snap w') = (ig w, lb w, fwv w, lget backends_snap w) ∧
  be w' = be w ∧ lget defaults_snap w' = lget defaults_snap w.
Proof.
  destruct ClusterFrames0 as [_ _ _ _ _ _ _ _ _ _ _ _ Hcf _]. destruct (Hcf d w) as (Hi&Hb&Hl).
  destruct (sd_default_frame d w) as [Hf Hd]. simpl. split; [|done].
  pose proof (f_equal snd Hb) as Hs. simpl in Hs. by rewrite Hi, Hl, Hf, Hs.
Qed.
Lemma set_defaults s w :
  let w' := lset defaults_snap s w in
  (ig w', lb w', fwv w', lget backends_snap w') = (ig w, lb w, fwv w, lget backends_snap w).
Proof.
  destruct ClusterFrames0 as [_ _ _ _ _ _ _ _ _ _ Hcf _ _ _]. destruct (Hcf s w) as (Hi&Hl&Hb).
  simpl. by rewrite Hi, Hl, Hb, sd_defaults_frame.
Qed.

(** ** The load balancers *)

Lemma delete_all_stage w :
  (∀ k, is_Some (lget l7s_snap w !! k) → Namer_LoadBalancer namer k = k) →
  let kept w' := (ig w', be w', fwv w', lget defaults_snap w') = (ig w, be w, fwv w, lget defaults_snap w) in
  wp (forEach (λ kv, if decide (kv.1 ∈ known l7s []) then mret tt else L7s_Delete l7s kv.1) (range (lb_pool l7s w)))
    (λ _ w', (gc_done l7s [] w w' ∧ gc_safe l7s [] w w') ∧ kept w') (λ _ w', gc_safe l7s [] w w' ∧ kept w') w.
Proof.
  intros Hk kept. pose proof (cp_fields instances_snap backends_snap defaults_snap l7s_snap glbcDefaultBackend prober namer defaultPort) as Hfields.
  set (f := λ w, (ig w, be w, fwv w, (lget l7s_snap w, lget glbcDefaultBackend w))).
  pose proof (LBDeletesKeep_comp fst f : LBDeletesKeep (λ w, (ig w, be w, fwv w))) as HK1.
  pose proof (LBDeletesKeep_pair (λ w, (ig w, be w, fwv w)) (lget defaults_snap)) as HK.
  eapply (wp_keeps (λ w, (ig w, be w, fwv w, lget defaults_snap w))).
  - apply keeps_forEach. intros kv. case_decide; [apply keeps_ret|]. apply (L7sDelete_keeps _ l7s).
    apply set_l7s.
  - eapply wp_mono; [exact (gc_loop l7s [] w Hk)|cbv beta|done]. by intros _ w' (?&_&?).
Qed.

(** ** The two backend pools *)

Local Abbreviation rest w := (ig w, lb w, fwv w, lget backends_snap w).
Lemma defaults_keep_bs n : keeps (λ w, rest w) (bsc_DeleteGlobalBackendService n).
Proof. apply (keeps_pair (λ w, (ig w, lb w, fwv w)) (lget backends_snap)); [by eapply gc_bs_frame|apply sd_bs_frame]. Qed.
Lemma defaults_keep_hc p : keeps (λ w, rest w) (hcr_Delete (HealthChecker := defaultChecker) p).
Proof. apply (keeps_pair (λ w, (ig w, lb w, fwv w)) (lget backends_snap)); [by eapply gc_hc_frame|apply sd_hc_frame]. Qed.
(** The default backend's service and health check, and then what else its pool
    has. *)
Definition default_gone (w w' : W) : Prop :=
  binv w' ∧ bsv w' !! be_name backends (sp_Port defaultPort) = None ∧ hcv w' (sp_Port defaultPort) = None ∧
  ∀ p, port_range p → p ≠ sp_Port defaultPort → lget defaults_snap w !! portKey p = None →
    bsv w' !! be_name backends p = bsv w !! be_name backends p ∧ hcv w' p = hcv w p.

Lemma defaults_stage w :
  binv w → port_range (sp_Port defaultPort) → port_keyed defaults w →
  wp (_ ← Backends_Delete (H1 := defaultChecker) defaults (sp_Port defaultPort); zoom glbcDefaultBackend (modW (λ _, None)))
    (λ _, wp (Backends_Shutdown (H1 := defaultChecker) defaults)
       (λ _ w', default_gone w w' ∧ rest w' = rest w) (λ _ w', rest w' = rest w))
    (λ _ w', rest w' = rest w) w.
Proof.
  intros Hi Hr Hkeys. apply wp_bind.
  eapply wp_mono; [eapply (wp_keeps (λ w, rest w)); [apply (BackendsDelete_keeps (H0 := defaultChecker) _ defaults)|
    by apply (Delete_spec (H1 := defaultChecker) defaults)]|cbv beta|by intros e w' [_ ?]];
    [apply defaults_keep_bs|apply defaults_keep_hc|apply set_defaults|].
  intros _ w1 [Hall1 Hr1]. pose proof Hall1 as (Hi1&Hdel1&Hk1&_). apply wp_zoom, wp_modW. cbv beta.
  destruct (set_default None w1) as (Hr2&Hb2&Hd2). set (w2 := lset glbcDefaultBackend None w1) in *. unfold be_side in Hb2. injection Hb2 as Hbs2 Hhc2 Hbi2 _.
  eapply wp_mono; [eapply (wp_keeps (λ w, rest w)); [apply (BackendsGC_keeps (H0 := defaultChecker) _ defaults)|
    apply (BackendsGC_ok (H1 := defaultChecker) defaults)]|cbv beta|]; [apply defaults_keep_bs|apply defaults_keep_hc|apply set_defaults|..].
  - by rewrite Hbi2.
  - unfold port_keyed, bk_pool. simpl. rewrite Hd2. by apply (deleted_keyed defaults _ w w1 Hall1).
  - intros _ w3 [(Hi3&_&Hk3&_) Hr3]. split; [|by rewrite Hr3, Hr2, Hr1].
    assert (∀ p, port_range p → lget defaults_snap w1 !! portKey p = None →
      bsv w3 !! be_name backends p = bsv w1 !! be_name backends p ∧ hcv w3 p = hcv w1 p) as Hsame.
    { intros p Hp Hno. destruct (Hk3 p Hp) as (Hb&Hh&_); [|by rewrite Hbs2 in Hb; rewrite Hhc2 in Hh].
      intros [[x Hx] _]. unfold bk_pool in Hx. simpl in Hx. by rewrite Hd2, Hno in Hx. }
    destruct (Hdel1 _ Hr eq_refl) as (Hb1&Hh1&Hp1). destruct (Hsame _ Hr Hp1) as [Hb Hh].
    split; [done|]. split; [by rewrite Hb|]. split; [by rewrite Hh|]. intros p Hp Hne Hno.
    destruct (Hk1 p Hp Hne) as (Hb1'&Hh1'&Hp1'). destruct (Hsame p Hp) as [-> ->]; [|done].
    unfold bk_pool in Hp1'. simpl in Hp1'. by rewrite Hp1'.
  - intros e w3 [_ Hr3]. by rewrite Hr3, Hr2, Hr1.
Qed.

(** ** The shutdown *)

(** What is gone after a shutdown, whatever the firewall said. *)
Definition lbs_gone (w w' : W) : Prop :=
  ∀ k l, lget l7s_snap w !! k = Some l → lget l7s_snap w' !! k = None ∧ cleaned l (lbv w').
(** Everything but the load balancers and the default backend: it is gone, or it
    is left because the deletion of the firewall rule was forbidden in a shared
    network. *)
Definition all_gone (w w' : W) : Prop :=
  fwv w' !! Namer_FirewallRule namer = None ∧
  ∀ p, port_range p → is_Some (lget backends_snap w !! portKey p) → bsv w' !! be_name backends p = None ∧ hcv w' p = None.
Definition all_left (w w' : W) : Prop :=
  (∃ w1, fwv w1 = fwv w ∧ delete_refused namer w1) ∧ fwv w' = fwv w ∧
  ∀ p, port_range p → p ≠ sp_Port defaultPort → lget defaults_snap w !! portKey p = None →
    bsv w' !! be_name backends p = bsv w !! be_name backends p ∧ hcv w' p = hcv w p.

(** The shutdown of the firewall and of the backends. *)
Lemma rest_gone w0 w :
  default_gone w0 w → port_range (sp_Port defaultPort) → port_keyed backends w →
  lget backends_snap w = lget backends_snap w0 → fwv w = fwv w0 →
  wp (r ← try (FirewallRules_Shutdown deleteCmd (NewFirewallPool namer));
      match r with
      | inl err => if isFirewallSyncError err then mret tt else throw err
      | inr _ => Backends_Shutdown (H1 := checker) backends
      end)
    (λ _ w', (bsv w' !! be_name backends (sp_Port defaultPort) = None ∧ hcv w' (sp_Port defaultPort) = None) ∧
       (all_gone w0 w' ∨ all_left w0 w') ∧ (ig w', lb w') = (ig w, lb w))
    (λ _ w', (ig w', lb w') = (ig w, lb w)) w.
Proof.
  intros (Hi&Hb&Hh&Hk) Hr Hkeys Hc Hf. set (f := λ w, (ig w, be w, lb w)).
  apply wp_bind, wp_try.
  eapply wp_mono; [eapply (wp_keeps f); [apply FirewallShutdown_keeps; unfold f; apply _|apply (Firewalls.Shutdown_spec deleteCmd)]|cbv beta..].
  - intros [] w1 [Hf1 Hk1]. unfold f, be_side in Hk1. apply pair_equal_spec in Hk1 as [[Hi1 Hb1]%pair_equal_spec Hl1].
    injection Hb1 as Hbs1 Hhc1 Hbi1 Hc1. eapply wp_mono; [apply (gc_backends_stage createCmd updateCmd deleteCmd instances_snap backends_snap
      defaults_snap l7s_snap glbcDefaultBackend prober namer defaultPort path [] w1)|cbv beta..].
    + by rewrite Hbi1.
    + unfold port_keys, port_keyed, bk_pool. simpl. by rewrite Hc1.
    + intros [] w2 [(_&Hdel&Hkept&_) Hk2]. apply pair_equal_spec in Hk2 as [[Hi2 Hl2]%pair_equal_spec Hf2].
      assert (bsv w2 !! be_name backends (sp_Port defaultPort) = None ∧ hcv w2 (sp_Port defaultPort) = None) as Hdef.
      { destruct (Hkept _ Hr) as (Hb2&Hh2&_); [|by rewrite Hb2, Hh2, Hbs1, Hhc1].
        intros (_&Hno&_). apply Hno. simpl. set_solver. }
      split; [done|]. split; [left|by rewrite Hi2, Hl2, Hi1, Hl1].
      split; [rewrite Hf2, Hf1; by apply lookup_delete_eq|]. intros p Hp Hin.
      destruct (decide (p = sp_Port defaultPort)) as [->|Hne]; [done|].
      destruct (Hdel p Hp) as (?&?&_); [|done]. split; [unfold bk_pool; simpl; by rewrite Hc1, Hc|].
      split; [|by intros ? ?%elem_of_nil]. simpl. by intros [He%elem_of_singleton%Itoa_inj|?%elem_of_empty]%elem_of_union.
    + intros e w2 [_ Hk2]. apply pair_equal_spec in Hk2 as [[Hi2 Hl2]%pair_equal_spec _]. by rewrite Hi2, Hl2, Hi1, Hl1.
  - intros e w1 [(Hf1&_&Href) Hk1]. unfold f, be_side in Hk1. apply pair_equal_spec in Hk1 as [[Hi1 Hb1]%pair_equal_spec Hl1].
    injection Hb1 as Hbs1 Hhc1 Hbi1 Hc1. destruct (isFirewallSyncError e) eqn:Hsync; [|apply wp_throw; by rewrite Hi1, Hl1].
    assert (delete_refused namer w) as Hrefused by (apply Href; destruct e; try done; eauto).
    apply wp_ret. rewrite Hbs1, Hhc1. split; [done|]. split; [right|by rewrite Hi1, Hl1].
    split; [by exists w|]. split; [by rewrite Hf1, Hf|]. intros p Hp Hne Hno. rewrite Hbs1, Hhc1. by apply Hk.
Qed.

(** C4. The shutdown of the cluster manager, over any cloud that keeps the
    promises of the pools. It never panics. When it returns no error, every
    load balancer of the pool is out of it, with its rules, address, proxies, url
    map and, unless a pre-shared one is set, its current certificate gone from the
    cloud, and the service and the health check of the default backend are gone,
    too. The firewall rule is gone with the services and health checks of all the
    ports of the backend pool, or else the network is a shared one, the API has
    refused to delete the rule, and these are all left. The instance groups are
    left in any case. When it fails, each load balancer is deleted as above or
    still in the pool with what is left of it, so a later shutdown can go on. *)
Theorem cluster_shutdown_spec w :
  keys_wf backends_snap l7s_snap prober namer defaultPort w → port_keyed defaults w → binv w →
  port_range (sp_Port defaultPort) →
  wp (cm_shutdown cluster)
    (λ _ w', lbs_gone w w' ∧ (bsv w' !! be_name backends (sp_Port defaultPort) = None ∧ hcv w' (sp_Port defaultPort) = None) ∧
       (all_gone w w' ∨ all_left w w') ∧ igv w' = igv w)
    (λ _ w', gc_safe l7s [] w w') w.
Proof.
  intros [Hkeys Hnames] Hdkeys Hi Hr. apply wp_bind, wp_bind, wp_bind, wp_getW, wp_bind.
  eapply wp_mono; [by apply delete_all_stage|cbv beta|by intros e w1 [? _]].
  intros [] w1 [[(_&Hgone&_) Hsafe] Hk1].
  apply pair_equal_spec in Hk1 as [[[Hi1 Hb1]%pair_equal_spec Hf1]%pair_equal_spec Hd1].
  unfold be_side in Hb1. injection Hb1 as Hbs1 Hhc1 Hbi1 Hc1. simpl in Hc1.
  assert (∀ w', lb w' = lb w1 → gc_safe l7s [] w w') as Hsafe'.
  { intros w' [Hv Hp]%pair_equal_spec. unfold gc_safe, lb_pool. simpl. by rewrite Hv, Hp. }
  assert (∀ w', rest w' = rest w1 → gc_safe l7s [] w w') as Hsafe2
    by (intros w' [[[_ Hl]%pair_equal_spec _]%pair_equal_spec _]%pair_equal_spec; by apply Hsafe').
  eapply wp_mono; [apply (defaults_stage w1)|cbv beta|]; [by rewrite Hbi1|done| |..].
  { unfold port_keyed, bk_pool. simpl. by rewrite Hd1. }
  2: { intros e w2 Hr2. by apply Hsafe2. }
  intros [] w2 Hwp. eapply wp_mono; [exact Hwp|cbv beta|intros e w3 Hr3; by apply Hsafe2].
  intros [] w3 [Hdef Hr3]. pose proof Hr3 as [[[Hi3 Hl3]%pair_equal_spec Hf3]%pair_equal_spec Hc3]%pair_equal_spec.
  eapply wp_mono; [apply (rest_gone w1 w3)|cbv beta|]; [done|done| |done|done|..].
  { unfold port_keyed, bk_pool. simpl. rewrite Hc3, Hc1. apply Hkeys. }
  - intros [] w4 (Hd4&Hall&[Hi4 Hl4]%pair_equal_spec). rewrite Hl3 in Hl4. rewrite Hi3 in Hi4.
    apply pair_equal_spec in Hl4 as [Hv4 Hp4]. rewrite Hi1 in Hi4. unfold ig_side in Hi4. injection Hi4 as Hg4 _ _.
    split; [|split; [done|split; [|done]]].
    + intros k l Hl. rewrite Hv4, Hp4. apply Hgone; [done|]. apply not_elem_of_empty.
    + unfold all_gone, all_left in *. by rewrite Hc1, Hf1, Hbs1, Hhc1, Hd1 in Hall.
  - intros e w4 [_ Hl4]%pair_equal_spec. apply Hsafe'. by rewrite Hl4.
Qed.
End shutdown.
