(* ===== verification/SyncSpec.v ===== *)
(** * SyncSpec: a sync of the controller, from the ingress to the cloud

    [sync] (pkg/controller/controller.go) over the pools that [NewClusterManager]
    builds (pkg/controller/cluster_manager.go). [ControllerSpec] says which calls
    a successful sync has made; [CheckpointSpec], [TranslatorSpec] and
    [LoadBalancersSpec] say what each of them leaves. Here they meet: after a
    sync that succeeds, the load balancer of the ingress serves it. *)

From S2P Require Import Prelude GoLang GoStrings Compute Utils Annotations Namer HealthChecks Instances InstancesSync Firewalls Backends BackendsSpec.
From S2P Require Import LoadBalancers LoadBalancersSpec Frames LoadBalancersSync K8s TaskQueue Translator TranslatorSpec ClusterManager Tls.
From S2P Require Import Controller ControllerSpec NegControllerSpec CheckpointSpec.

(** A result that was computed satisfies the postcondition. *)
Lemma wp_Ok {W A} (m : M W A) Q E a w w' : m w = (Ok a, w') → wp m Q E w → Q a w'.
Proof. unfold wp. by intros ->. Qed.
Lemma NoDup_fmap_filter {A B} (f : A → B) (P : A → Prop) `{∀ x, Decision (P x)} l : NoDup (f <$> l) → NoDup (f <$> filter P l).
Proof.
  induction l as [|x l IH]; [done|]. rewrite fmap_cons, filter_cons. intros [Hx Hl]%NoDup_cons. case_decide; [|auto].
  apply NoDup_cons. split; [|auto]. intros (y&Heq&[_ Hy]%list_elem_of_filter)%list_elem_of_fmap. apply Hx, list_elem_of_fmap. eauto.
Qed.
Lemma keeps_Ok {W F A} (f : W → F) (m : M W A) r w w' : keeps f m → m w = (r, w') → f w' = f w.
Proof. intros Hm Heq. specialize (Hm w). by rewrite Heq in Hm. Qed.

(** ** Calls that move along a preorder *)

Definition moves {W A} (R : W → W → Prop) (m : M W A) : Prop := ∀ w, R w (m w).2.
Section moves.
Context {W : Type} (R : W → W → Prop) `{!PreOrder R}.

Lemma moves_ret {A} (a : A) : moves R (mret a).
Proof. intros w. simpl. reflexivity. Qed.
Lemma moves_ofOption {A} (o : option A) : moves R (ofOption o).
Proof. intros w. destruct o; simpl; reflexivity. Qed.
Lemma moves_bind {A B} (m : M W A) (f : A → M W B) : moves R m → (∀ a, moves R (f a)) → moves R (m ≫= f).
Proof.
  intros Hm Hf w. unfold mbind, M_bind. specialize (Hm w). destruct (m w) as [[a|e|] w']; simpl in *; [|done..].
  etransitivity; [exact Hm|apply Hf].
Qed.
Lemma moves_try {A} (m : M W A) : moves R m → moves R (try m).
Proof. intros Hm w. unfold try. specialize (Hm w). by destruct (m w) as [[a|e|] w']. Qed.
Lemma moves_forCollect {A B} (f : A → M W B) l : (∀ x, moves R (f x)) → moves R (forCollect f l).
Proof.
  intros Hf. induction l; simpl; [apply moves_ret|]. apply moves_bind; [done|]. intros y.
  apply moves_bind; [done|]. intros ys. apply moves_ret.
Qed.
Lemma moves_wp {A} (m : M W A) : (∀ w, wp m (λ _ w', R w w') (λ _ w', R w w') w) → moves R m.
Proof. intros Hm w. specialize (Hm w). unfold wp in Hm. by destruct (m w) as [[a|e|] w']. Qed.
End moves.

Section sync.
Context {W : Type} `{InstanceGroups W, HealthCheckProvider W, BackendServices W, NEGGetter W, LoadBalancers W, FirewallCloud W}.
Context `{ZoneLister W, MapRange, !KeyRange Z, IngressClient W, TlsLoader W}.
Context (createCmd updateCmd : Firewall → string → string) (deleteCmd : string → string → string).
Context (instances_snap : lens W (gmap string unit)) (backends_snap defaults_snap : lens W (gmap string (option BackendService)))
  (l7s_snap : lens W (gmap string L7)) (glbcDefaultBackend : lens W (option BackendService)).
Context (prober : ServicePort → M W (option Probe)) (namer : Namer) (defaultPort : ServicePort) (path : string).
Context (json_groups : list (string * string) → string) (json_backends : gmap string string → option string).

Local Abbreviation backends := (cp_backends backends_snap prober namer defaultPort).
Local Abbreviation defaults := (cp_defaults defaults_snap namer).
Local Abbreviation l7s := (cp_l7s l7s_snap glbcDefaultBackend namer defaultPort).
Local Abbreviation checker := (NewHealthChecker (MkHealthChecks path namer)).
Local Abbreviation defaultChecker := (NewHealthChecker (MkHealthChecks "/healthz" namer)).

Context `{!GroupLaws W, !MemberLaws W, !BackendWorld W, !BackendLaws (H1 := checker) backends}.
Context `{!BackendLaws (H1 := defaultChecker) defaults, !LBWorld W, !LBLaws W, !FirewallLaws W}.
Context `{!LensLaws instances_snap, !LensLaws l7s_snap}.
Context `{!ClusterFrames instances_snap backends_snap defaults_snap l7s_snap glbcDefaultBackend prober}.
Context `{!GCFrames instances_snap backends_snap l7s_snap glbcDefaultBackend}.

Let cluster := NewClusterManager createCmd updateCmd deleteCmd instances_snap backends_snap defaults_snap l7s_snap
  glbcDefaultBackend prober namer defaultPort path.
(** The controller over these pools. *)
Context (ingLister : lens W (store Ingress)) (t : GCETranslator W) (ingQueue nodeQueue : lens W taskQueue)
  (shutdown : lens W bool) (hasSynced : W → bool) (negEnabled : bool).
Let lbc : LoadBalancerController W := MkController ingLister t cluster ingQueue nodeQueue shutdown hasSynced negEnabled.

Local Abbreviation ig := (ig_side instances_snap).
Local Abbreviation be := (be_side backends_snap).
Local Abbreviation lb := (lb_side l7s_snap).
Local Abbreviation services := (tr_svcLister t).
Local Abbreviation stores := (λ w, (tr_svcLister t w, tr_nodeLister t w)).
Local Abbreviation ingresses := (lget ingLister).

(** ** What the calls share *)

(** The stores of services and nodes are not part of the cloud, the API server is
    not part of it either, and what is read there does not change anything. *)
Class StoreFrames := {
  st_ig :: IGKeeps stores;
  st_members :: MembersKeeps stores;
  st_hc :: HCPKeeps stores;
  st_legacy :: LegacyKeeps stores;
  st_bs :: BSKeeps stores;
  st_lb :: LBKeeps stores;
  st_fw :: FWKeeps stores;
  st_probe sp : keeps stores (prober sp);
  st_instances s w : stores (lset instances_snap s w) = stores w;
  st_backends s w : stores (lset backends_snap s w) = stores w;
  st_defaults s w : stores (lset defaults_snap s w) = stores w;
  st_l7s s w : stores (lset l7s_snap s w) = stores w;
  st_default d w : stores (lset glbcDefaultBackend d w) = stores w;
}.
Class SyncFrames := {
  sy_tls i w : (tl_Load i w).2 = w;
  sy_getbs n : keeps fwv (bsc_GetGlobalBackendService n);
  sy_health n g : keeps (λ w, (ig w, be w, lb w, fwv w)) (bsc_GetGlobalBackendServiceHealth n g);
  sy_Get ns n : keeps (λ w, (ig w, be w, lb w, fwv w)) (igc_Get ns n);
  sy_UpdateStatus i : keeps (λ w, (ig w, be w, lb w, fwv w)) (igc_UpdateStatus i);
  sy_Update i : keeps (λ w, (ig w, be w, lb w, fwv w)) (igc_Update i);
  sy_UpdateUrlMap x : keeps (λ w, (ig w, be w, fwv w, lget l7s_snap w)) (lbc_UpdateUrlMap x);
  sy_GetUrlMap n : keeps (λ w, (ig w, be w, fwv w, lget l7s_snap w)) (lbc_GetUrlMap n);
  sy_GetNEG n z : keeps (λ w, (ig w, lb w, fwv w, stores w)) (ngg_GetNetworkEndpointGroup n z);
  sy_GetAlphaBS n : keeps (λ w, (ig w, lb w, fwv w, stores w)) (bsc_GetAlphaGlobalBackendService n);
  sy_UpdateAlphaBS x : keeps (λ w, (ig w, lb w, fwv w, stores w)) (bsc_UpdateAlphaGlobalBackendService x);
}.
Context `{!StoreFrames, !SyncFrames}.

(** The checkpoint keeps the stores. *)
Lemma EnsureGroups_keeps_stores name ports :
  keeps stores (Instances_EnsureInstanceGroupsAndPorts (cp_instances instances_snap namer) name ports).
Proof. apply (EnsureInstanceGroups_keeps _ (cp_instances instances_snap namer)). intros w. apply st_instances. Qed.
Lemma Checkpoint_keeps_stores lbs nodes svcPorts namedPorts fwPorts :
  keeps stores (Checkpoint cluster lbs nodes svcPorts namedPorts fwPorts).
Proof.
  unfold Checkpoint, checkpoint_rest. apply keeps_bind; [apply keeps_try, EnsureGroups_keeps_stores|].
  intros [err|igs]; [apply keeps_ret|]. apply keeps_bind; [apply keeps_try|intros r; apply keeps_ret].
  pose proof (HealthChecker_keeps stores (MkHealthChecks path namer)) as HK.
  pose proof (HealthChecker_keeps stores (MkHealthChecks "/healthz" namer)) as HK'.
  apply keeps_bind; [|intros _; apply keeps_bind; [|intros _; apply keeps_bind; [|intros _]]].
  - apply (BackendsEnsure_keeps (H1 := checker) _ backends); [apply st_backends|by intros ? sp [= <-]; apply st_probe|].
    intros _ n ps. apply EnsureGroups_keeps_stores.
  - apply (InstancesSync_keeps _ (cp_instances instances_snap namer)).
  - apply keeps_bind; [|intros _; apply keeps_forEach; intros ri; apply (L7sAdd_keeps _ l7s), st_l7s].
    case_decide; [|apply keeps_ret]. apply keeps_bind; [|intros _; apply keeps_bind; [|intros d]].
    + apply (BackendsEnsure_keeps (H1 := defaultChecker) _ defaults); [apply st_defaults|done|].
      intros _ n ps. apply EnsureGroups_keeps_stores.
    + apply (BackendsGet_keeps _ defaults), st_defaults.
    + apply keeps_zoom. intros x w. apply st_default.
  - apply FirewallSync_keeps, st_fw.
Qed.

(** ** Reading backend services *)

(** A call that reads services and may cache what it reads. *)
Definition reads (w w' : W) : Prop :=
  (ig w', lb w', fwv w') = (ig w, lb w, fwv w) ∧ binv w' ∧ bsv w' = bsv w ∧
  (∀ p, port_range p → hcv w' p = hcv w p) ∧
  (port_keyed backends w → port_keyed backends w') ∧
  (∀ k, is_Some (lget backends_snap w !! k) → is_Some (lget backends_snap w' !! k)).
Lemma reads_refl w : binv w → reads w w.
Proof. by repeat split. Qed.
Lemma reads_trans w1 w2 w3 : reads w1 w2 → reads w2 w3 → reads w1 w3.
Proof.
  intros (He&_&Hb&Hh&Hk&Hc) (He'&Hi&Hb'&Hh'&Hk'&Hc'). split; [by rewrite He'|]. split; [done|]. split; [congruence|].
  split; [intros p Hp; by rewrite Hh', Hh|]. split; auto.
Qed.
Lemma reads_same w w' : (ig w', lb w', fwv w') = (ig w, lb w, fwv w) → same backends w w' → reads w w'.
Proof.
  intros He (Hi&Hb&Hh&Hp). unfold bk_pool in Hp. simpl in Hp. split; [done|]. split; [done|]. split; [done|]. split; [done|].
  split; [unfold port_keyed, bk_pool; simpl; by rewrite Hp|by rewrite Hp].
Qed.
(** A call that keeps all we look at. *)
Lemma reads_kept w w' : binv w → (ig w', be w', lb w', fwv w') = (ig w, be w, lb w, fwv w) → reads w w'.
Proof.
  intros Hi [[[He Hb]%pair_equal_spec Hl]%pair_equal_spec Hf]%pair_equal_spec.
  unfold be_side in Hb. injection Hb as Hbs Hh Hbi Hp. apply reads_same; [by rewrite He, Hl, Hf|].
  split; [by rewrite Hbi|]. split; [done|]. split; [by rewrite Hh|done].
Qed.

Lemma set_backends s w : let w' := lset backends_snap s w in (ig w', lb w', fwv w') = (ig w, lb w, fwv w).
Proof.
  destruct GCFrames0 as [_ _ _ _ Hgc]. destruct ClusterFrames0 as [_ _ _ _ _ _ _ _ _ Hcf _ _ _ _].
  destruct (Hcf s w) as [Hi Hl]. simpl. by rewrite Hi, Hl, Hgc.
Qed.
Lemma getbs_keeps n : keeps (λ w, (ig w, lb w, fwv w)) (bsc_GetGlobalBackendService n).
Proof.
  apply (keeps_pair (λ w, (ig w, lb w)) fwv); [|apply sy_getbs].
  apply (keeps_comp fst (λ w, (ig w, lb w, lget backends_snap w))). by eapply keeps_GetBS.
Qed.
Lemma BackendsGet_reads port w :
  binv w → port_range port →
  wp (Backends_Get backends port) (λ be w', (reads w w' ∧ stores w' = stores w) ∧ bsv w !! be_name backends port = Some be)
    (λ _ w', reads w w' ∧ stores w' = stores w) w.
Proof.
  intros Hi Hp. unfold Backends_Get. apply wp_bind.
  eapply wp_mono; [eapply (wp_keeps (λ w, ((ig w, lb w, fwv w), stores w)));
    [apply keeps_pair; [apply getbs_keeps|apply keeps_GetBS]|by apply (GetBS_spec (H1 := checker) backends)]|cbv beta..].
  - intros x w1 [[Hs Hx] [Hk Hst]%pair_equal_spec]. apply wp_bind.
    assert (reads w w1) as Hr by (by apply reads_same).
    eapply wp_mono; [eapply (wp_keeps (λ w, ((ig w, lb w, fwv w), stores w)));
      [|apply (pool_Add_spec (H1 := checker) backends); by destruct Hs]|cbv beta|by intros ?? [[] _]].
    { apply keeps_zoom. intros s w2. simpl. by rewrite st_backends, set_backends. }
    intros _ w2 [(Hi2&Hb2&Hh2&Hp2) [Hk2 Hst2]%pair_equal_spec]. apply wp_ret. split; [|done]. split; [|congruence].
    eapply reads_trans; [exact Hr|]. unfold bk_pool in Hp2. simpl in Hp2. split; [done|]. split; [done|]. split; [done|].
    split; [by intros; rewrite Hh2|]. split.
    + intros Hkeys k. unfold bk_pool. simpl. rewrite Hp2. destruct (decide (k = portKey port)) as [->|Hne]; [by exists port|].
      rewrite lookup_insert_ne by done. apply Hkeys.
    + intros k Hin. rewrite Hp2. destruct (decide (portKey port = k)) as [->|Hne]; [by rewrite lookup_insert_eq|].
      by rewrite lookup_insert_ne.
  - intros e w1 [[Hs _] [Hk Hst]%pair_equal_spec]. split; [by apply reads_same|done].
Qed.

(** The status that is written back. *)
Definition reading (w w' : W) : Prop := binv w → reads w w'.
Local Instance reading_preorder : PreOrder reading.
Proof.
  split; [intros w Hi; by apply reads_refl|]. intros w1 w2 w3 H12 H23 Hi. specialize (H12 Hi). eapply reads_trans; [done|].
  apply H23. by destruct H12 as (_&?&_).
Qed.
Lemma moves_kept {A} (m : M W A) : keeps (λ w, (ig w, be w, lb w, fwv w)) m → moves reading m.
Proof. intros Hm w Hi. apply reads_kept; [done|apply Hm]. Qed.
Lemma getbs_moves n : moves reading (bsc_GetGlobalBackendService n).
Proof.
  intros w Hi. pose proof (getbs_keeps n w) as Hk. apply reads_same; [done|].
  pose proof (GetBS_spec (H1 := checker) backends n w Hi) as Hw. unfold wp in Hw.
  by destruct (bsc_GetGlobalBackendService n w) as [[x|e|] w']; [destruct Hw..|].
Qed.
Lemma Status_moves n : moves reading (Backends_Status backends n).
Proof.
  apply (moves_bind reading); [apply moves_try, getbs_moves|]. intros [e|x]; [apply (moves_ret reading)|].
  destruct (bs_Backends x) as [|b l]; [apply (moves_ret reading)|]. apply (moves_bind reading); [apply moves_try, moves_kept, sy_health|].
  intros [e|[|[state|] ?]]; apply (moves_ret reading).
Qed.
Lemma updateIngressStatus_moves l7 ing : moves reading (updateIngressStatus json_backends lbc l7 ing).
Proof.
  apply (moves_bind reading); [apply moves_kept, sy_Get|]. intros curr. apply (moves_bind reading); [|intros _].
  { case_decide; [case_decide; [apply (moves_ret reading)|apply moves_kept, sy_UpdateStatus]|apply (moves_ret reading)]. }
  apply (moves_bind reading).
  - apply (moves_bind reading).
    { apply (moves_forCollect reading). intros n. apply (moves_bind reading); [apply Status_moves|]. intros st. apply (moves_ret reading). }
    intros states. apply (moves_bind reading); [apply (moves_ofOption reading)|]. intros um. apply (moves_ret reading).
  - intros a. apply (moves_bind reading); [apply moves_kept, sy_Get|]. intros i. case_decide; [apply (moves_ret reading)|apply moves_kept, sy_Update].
Qed.

(** ** The url map *)

Lemma onL7_Ok {A} key (m : M (L7 * W) A) a w w' :
  cm_onL7 cluster key m w = (Ok a, w') → ∃ l l' w1,
    lget l7s_snap w !! Namer_LoadBalancer namer key = Some l ∧ m (l, w) = (Ok a, (l', w1)) ∧
    w' = lset l7s_snap (<[Namer_LoadBalancer namer key := l']> (lget l7s_snap w1)) w1.
Proof.
  intros Hm. simpl in Hm. apply bind_Ok in Hm as (l&w1&Hl&Hm). unfold L7s_Get in Hl. apply bind_Ok in Hl as (o&w2&Ho&Hl).
  injection Ho as <- <-. simpl in Hl. destruct (lget l7s_snap w !! _) as [l0|] eqn:Hin; [|done]. injection Hl as -> ->.
  unfold L7s_run in Hm. destruct (m (l, w1)) as [r [l' w3]] eqn:Hr. injection Hm as -> <-. by exists l, l', w3.
Qed.
(** Reading the load balancer changes nothing. *)
Lemma onL7_self key l w w' :
  cm_onL7 cluster key self w = (Ok l, w') → w' = w ∧ lget l7s_snap w !! Namer_LoadBalancer namer key = Some l.
Proof.
  intros (l0&l'&w1&Hl&Hs&->)%onL7_Ok. injection Hs as <- <- <-. split; [|done]. by rewrite insert_id, lens_set_get.
Qed.

(** There is a default backend to route to. *)
Lemma UpdateUrlMap_default l rules w s : L7_UpdateUrlMap rules (l, w) = (Ok tt, s) → is_Some (defaultService l rules).
Proof.
  intros Hu. unfold L7_UpdateUrlMap in Hu. apply bind_Ok in Hu as (l0&s0&Hs&Hu). injection Hs as <- <-.
  destruct (l7_um l) as [um|]; [|done]. apply bind_Ok in Hu as (um'&s1&Hn&_).
  unfold L7_newUrlMap in Hn. unfold defaultService. destruct (GetDefaultBackend rules) as [[d|] rs]; [done|]. simpl.
  by destruct (l7_glbcDefaultBackend l).
Qed.

(** The load balancer [l] is there and its url map routes by [rules]. *)
Definition routed (ri : L7RuntimeInfo) (rules : GCEURLMap) (w : W) : Prop :=
  ∃ l um d, lget l7s_snap w !! lb_name l7s ri = Some l ∧ l7_um l = Some um ∧ defaultService l rules = Some d ∧
    ∀ host path, route um host path = wanted (GetDefaultBackend rules).2 d host path.

Lemma set_lb s w :
  let w' := lset l7s_snap s w in (ig w', be w', fwv w') = (ig w, be w, fwv w) ∧ lbv w' = lbv w.
Proof.
  destruct GCFrames0 as [_ _ _ Hgc _]. destruct (Hgc s w) as [Hf _]. destruct ClusterFrames0 as [_ _ _ _ _ _ _ _ _ _ _ Hcf _ _].
  destruct (Hcf s w) as (Hi&Hb&Hl). simpl. by rewrite Hi, Hb, Hf.
Qed.

(** The new url map is at the end of the same chain, and breaks no other. *)
Lemma set_um_serves (v : LBView) l um um' :
  l7_um l = Some um → um_Name um = url_map l → um_SelfLink um' = um_SelfLink um → lb_serves v l →
  lb_serves (on_um <[um_Name um := um']> v) (set_um (Some um') l).
Proof.
  intros Hum Hn Hlink (um0&Hum0&_&Hh&Hs). rewrite Hum in Hum0. injection Hum0 as <-. exists um'. split; [done|].
  split; [simpl; rewrite Hn; apply lookup_insert_eq|]. split.
  - intros Ha. destruct (Hh Ha) as (fw&tp&?&?&?&?&?&?). exists fw, tp. by rewrite Hlink.
  - intros Ha. destruct (Hs Ha) as (fw&tps&cert&?&?&?&?&?&?&?). exists fw, tps, cert. by rewrite Hlink.
Qed.
Lemma on_um_frame (v : LBView) l um : lb_frame l v (on_um <[url_map l := um]> v).
Proof. split; [|done]. intros n Hn. simpl. by rewrite lookup_insert_ne. Qed.

Local Abbreviation ready := (lbs_ready l7s_snap glbcDefaultBackend namer defaultPort).
Definition lbs_apart (lbs : list L7RuntimeInfo) : Prop :=
  ∀ a b, a ∈ lbs → b ∈ lbs → a ≠ b → lb_name l7s a ≠ lb_name l7s b ∧ apart (fresh_lb l7s a None) (fresh_lb l7s b None).

Lemma urlmap_stage lbs ri rules w w' :
  lbs_apart lbs → ready lbs w → ri ∈ lbs → translatable (GetDefaultBackend rules).2 →
  cm_onL7 cluster (ri_Name ri) (L7_UpdateUrlMap rules) w = (Ok tt, w') →
  routed ri rules w' ∧ ready lbs w' ∧ (ig w', be w', fwv w') = (ig w, be w, fwv w) ∧
  ∀ k, k ≠ lb_name l7s ri → lget l7s_snap w' !! k = lget l7s_snap w !! k.
Proof.
  intros Hap Hready Hri Htr (l&l'&w1&Hl&Hu&->)%onL7_Ok. change (Namer_LoadBalancer namer (ri_Name ri)) with (lb_name l7s ri) in *.
  destruct (Hready ri Hri) as (l0&Hl0&(Hlri&Hln&Hlnm)&Hserves). rewrite Hl in Hl0. injection Hl0 as <-.
  pose proof Hserves as (um&Hum&Hv&_). pose proof (um_named _ _ _ Hv) as Hn. destruct (UpdateUrlMap_default _ _ _ _ Hu) as [d Hd].
  destruct (wp_Ok _ _ _ _ _ _ Hu (UpdateUrlMap_ok l w um rules d Hum Hd Htr)) as (um'&_&Hroute&Hlbv&Hsync).
  destruct Hsync as [Hl' Hlink]; [by rewrite Hn|]. simpl in Hl', Hlbv. subst l'.
  pose proof (keeps_Ok _ _ _ _ _ (UpdateUrlMap_keeps (λ w, (ig w, be w, fwv w, lget l7s_snap w)) rules sy_UpdateUrlMap sy_GetUrlMap) Hu) as Hk.
  simpl in Hk. apply pair_equal_spec in Hk as [Hside Hpool].
  set (w' := lset l7s_snap _ w1). destruct (set_lb (<[lb_name l7s ri := set_um (Some um') l]> (lget l7s_snap w1)) w1) as [Hs Hlv].
  fold w' in Hs, Hlv. assert (lget l7s_snap w' = <[lb_name l7s ri := set_um (Some um') l]> (lget l7s_snap w)) as Hp
    by (unfold w'; by rewrite lens_get_set, Hpool).
  split; [|split; [|split; [by rewrite Hs, Hside|]]].
  - exists (set_um (Some um') l), um', d. rewrite Hp, lookup_insert_eq. done.
  - intros ri' Hri'. rewrite Hlv, Hlbv, Hp. destruct (Hready ri' Hri') as (l1&Hl1&Hl1is&Hs1).
    destruct (decide (lb_name l7s ri' = lb_name l7s ri)) as [Heq|Hne].
    + assert (l1 = l) as -> by (rewrite Heq in Hl1; congruence). rewrite Heq, lookup_insert_eq.
      exists (set_um (Some um') l). split; [done|]. split; [done|]. by apply set_um_serves.
    + rewrite lookup_insert_ne by done. exists l1. split; [done|]. split; [done|]. rewrite Hn.
      eapply (lb_serves_frame l1 l); [|apply on_um_frame|done]. destruct Hl1is as (_&Hn1&Hnm1).
      eapply (apart_names (fresh_lb l7s ri' None) (fresh_lb l7s ri None)); [done..|]. apply Hap; [done..|]. by intros ->.
  - intros k Hk. by rewrite Hp, lookup_insert_ne.
Qed.

(** ** The translation *)

(** The node ports of the services are ports. *)
Definition ports_wf (w : W) : Prop := ∀ b ns sp, getServiceNodePort t w b ns = inr sp → port_range (sp_Port sp).

Section translation.
Context (ing : Ingress).
(** No two hosts of the rules have the same path matcher name (their MD5 sum). *)
Definition hosts_wf : Prop :=
  ∀ h h', is_Some (lastRule (ing_Rules ing) h) → is_Some (lastRule (ing_Rules ing) h') →
    getNameForPathMatcher h = getNameForPathMatcher h' → h = h'.
Local Abbreviation service_at w := (λ p, bsv w !! be_name backends p).
(** The backend service that the rules choose, with the services of [w] and the
    backend services of [w']. *)
Definition intended (w w' : W) (host p : string) : option BackendService :=
  paths ← lastRule (ing_Rules ing) host;
  q ← lastPath t (ing_Namespace ing) w paths p;
  serviceOf t (ing_Namespace ing) w (service_at w') (hp_Backend q).

Lemma translate_stage w g w' :
  binv w → ports_wf w → toURLMap (H := cm_backendPool cluster) t ing w = (Ok g, w') →
  reads w w' ∧ translates t (ing_Namespace ing) w (service_at w) (λ _, True) ing g.
Proof.
  intros Hi Hp Hg.
  destruct (wp_Ok _ (λ g w', (reads w w' ∧ stores w' = stores w) ∧ translates t (ing_Namespace ing) w (service_at w) (λ _, True) ing g)
    (λ _ _, True) g w w' Hg) as [[? _] ?]; [|done].
  eapply wp_mono; [apply (toURLMap_ok (H := cm_backendPool cluster) t (ing_Namespace ing) (λ w', reads w w' ∧ stores w' = stores w) w
    (service_at w) (λ _, True))|done|done]; [by split; [apply reads_refl|]|by intros ? [_ [? _]%pair_equal_spec]| |done].
  intros b sp w1 Hsp [Hr1 Hs1]. eapply wp_mono; [apply BackendsGet_reads|cbv beta..]; [by destruct Hr1 as (_&?&_)|by eapply Hp|..].
  - intros x w2 [[Hr2 Hs2] Hx]. split; [split; [by eapply reads_trans|congruence]|]. destruct Hr1 as (_&_&<-&_). done.
  - intros e w2 [Hr2 Hs2]. split; [split; [by eapply reads_trans|congruence]|done].
Qed.
Lemma rest_lookup (g : GCEURLMap) host : host ≠ DefaultBackendKey → (GetDefaultBackend g).2 !! host = g !! host.
Proof. intros Hne. unfold GetDefaultBackend. case_match; simpl; [by rewrite lookup_delete_ne|done]. Qed.

Section translated.
Context (w : W) (g : GCEURLMap).
Hypothesis Hg : translates t (ing_Namespace ing) w (service_at w) (λ _, True) ing g.

Lemma translates_wanted d host p :
  host ≠ DefaultBackendKey → wanted (GetDefaultBackend g).2 d host p = default d (bs_SelfLink <$> intended w w host p).
Proof.
  intros Hne. destruct Hg as (_&Hr&_). unfold intended. rewrite <-(Hr host p Hne). unfold wanted. rewrite rest_lookup by done.
  destruct (g !! host) as [m|]; [|done]. simpl. by destruct (m !! p) as [[x|]|].
Qed.
Lemma translates_translatable : hosts_wf → translatable (GetDefaultBackend g).2.
Proof.
  destruct Hg as (Hh&_&Hnil&_). intros Hwf.
  assert (∀ h, is_Some ((GetDefaultBackend g).2 !! h) → h ≠ DefaultBackendKey) as Hne
    by (intros h [x Hx] ->; by rewrite GetDefaultBackend_removed in Hx). split.
  - intros h paths e b Hp He. assert (h ≠ DefaultBackendKey) as Hk by (apply Hne; by exists paths).
    rewrite rest_lookup in Hp by done. by eapply Hnil.
  - intros h h' Hin Hin'. pose proof (Hne _ Hin). pose proof (Hne _ Hin'). rewrite rest_lookup in Hin, Hin' by done.
    apply Hwf; by apply Hh.
Qed.
(** The default is the ingress' own or the cluster's. *)
Lemma translates_default l d :
  defaultService l g = Some d →
  (∃ b x, ing_Backend ing = Some b ∧ serviceOf t (ing_Namespace ing) w (service_at w) b = Some x ∧ d = bs_SelfLink x) ∨
  (∃ x, l7_glbcDefaultBackend l = Some x ∧ d = bs_SelfLink x).
Proof.
  destruct Hg as (_&_&_&Hd). unfold defaultService. destruct (GetDefaultBackend g) as [[x|] rs]; simpl in *.
  - intros [= <-]. destruct Hd as [Hd|[? _]]; [|done]. left. destruct (ing_Backend ing) as [b|]; [|done]. by exists b, x.
  - destruct (l7_glbcDefaultBackend l) as [x|]; [|done]. intros [= <-]. right. by exists x.
Qed.
End translated.

(** The services that the rules choose do not change with what is not asked for. *)
Lemma intended_same_services w1 w2 x host p : services w1 = services w2 → intended w1 x host p = intended w2 x host p.
Proof.
  intros Hs. assert (∀ b, port_of t (ing_Namespace ing) w1 b = port_of t (ing_Namespace ing) w2 b) as Hp
    by (intros b; unfold port_of, getServiceNodePort; by rewrite Hs).
  unfold intended. destruct (lastRule _ _) as [paths|]; [|done]. simpl.
  assert (lastPath t (ing_Namespace ing) w1 paths p = lastPath t (ing_Namespace ing) w2 paths p) as ->.
  { unfold lastPath. f_equal. apply list_filter_iff. intros q. unfold skipped. by rewrite Hp. }
  destruct (lastPath _ _ _ _ _) as [q|]; [|done]. simpl. unfold serviceOf. by rewrite Hp.
Qed.
Lemma serviceOf_same_services w1 w2 f b :
  services w1 = services w2 → serviceOf t (ing_Namespace ing) w1 f b = serviceOf t (ing_Namespace ing) w2 f b.
Proof. intros Hs. unfold serviceOf, port_of, getServiceNodePort. by rewrite Hs. Qed.
Lemma serviceOf_kept w w1 w2 b :
  b ∈ backendsOf ing →
  (∀ b sp, b ∈ backendsOf ing → getServiceNodePort t w b (ing_Namespace ing) = inr sp →
     bsv w2 !! be_name backends (sp_Port sp) = bsv w1 !! be_name backends (sp_Port sp)) →
  serviceOf t (ing_Namespace ing) w (service_at w2) b = serviceOf t (ing_Namespace ing) w (service_at w1) b.
Proof.
  intros Hb Hk. unfold serviceOf, port_of. destruct (getServiceNodePort _ _ _ _) as [e|sp] eqn:Hsp; [done|]. by eapply Hk.
Qed.
Lemma intended_kept w w1 w2 host p :
  (∀ b sp, b ∈ backendsOf ing → getServiceNodePort t w b (ing_Namespace ing) = inr sp →
     bsv w2 !! be_name backends (sp_Port sp) = bsv w1 !! be_name backends (sp_Port sp)) →
  intended w w2 host p = intended w w1 host p.
Proof.
  intros Hk. unfold intended. destruct (lastRule _ _) as [paths|] eqn:Hr; [|done]. simpl.
  destruct (lastPath _ _ _ _ _) as [q|] eqn:Hq; [|done]. simpl. apply serviceOf_kept; [|done].
  apply last_Some_elem_of, list_elem_of_filter in Hq as [_ Hq].
  apply last_Some_elem_of, list_elem_of_omap in Hr as (rule&Hrule&Hhttp). case_decide; [|done].
  unfold backendsOf. apply elem_of_app. right. apply list_elem_of_fmap. exists q. split; [done|].
  apply elem_of_concat_fmap. exists rule. split; [done|]. simpl. by rewrite Hhttp.
Qed.
End translation.

(** ** The ingresses *)

Definition key_of (i : Ingress) : string := metaKey (ing_Namespace i) (ing_Name i).
(** What an ingress asks of its load balancer: a certificate that cannot be loaded
    is left out. *)
Definition wanted_tls (w : W) (i : Ingress) : option TLSCerts :=
  if decide (IngAnnotations_UseNamedTLS (ing_Annotations i) = "")
  then match (tl_Load i w).1 with Ok tls => tls | _ => None end else None.
Definition runtime_of (w : W) (i : Ingress) : L7RuntimeInfo :=
  let a := ing_Annotations i in
  MkL7RuntimeInfo (key_of i) "" (wanted_tls w i) (IngAnnotations_UseNamedTLS a) (IngAnnotations_AllowHTTP a) (IngAnnotations_StaticIPName a).
Lemma runtime_names w (l : list Ingress) : ri_Name <$> (runtime_of w <$> l) = key_of <$> l.
Proof. by rewrite <-list_fmap_compose. Qed.
(** The names of the objects of the load balancer of a key. *)
Definition named (k : string) : L7 := fresh_lb l7s (MkL7RuntimeInfo k "" None "" true "") None.

(** The store is keyed as informers key it, and the names of the load balancers
    tell the ingresses apart. *)
Definition store_wf (w : W) : Prop :=
  (∀ k i, ingresses w !! k = Some i → key_of i = k) ∧
  (∀ k k', is_Some (ingresses w !! k) → is_Some (ingresses w !! k') → k ≠ k' →
     Namer_LoadBalancer namer k ≠ Namer_LoadBalancer namer k' ∧ apart (named k) (named k')) ∧
  (∀ k, is_Some (ingresses w !! k) → Namer_LoadBalancer namer (Namer_LoadBalancer namer k) = Namer_LoadBalancer namer k).
(** The pool of load balancers, and no https proxy without a certificate. *)
Definition pool_wf (w : W) : Prop :=
  (∀ k l, lget l7s_snap w !! k = Some l → lb_entry l7s k l) ∧
  (∀ n tps, v_tps (lbv w) !! n = Some tps → tps_SslCertificates tps ≠ []).

Lemma toRuntimeInfo_is ings lbs w w1 :
  toRuntimeInfo ings w = (Ok lbs, w1) → w1 = w ∧ lbs = runtime_of w <$> ings.
Proof.
  unfold toRuntimeInfo. revert lbs w w1. induction ings as [|i ings IH]; intros lbs w w1 Hr; [by injection Hr as <- <-|].
  simpl in Hr. apply bind_Ok in Hr as (ri&w2&Hri&Hr). apply bind_Ok in Hr as (ris&w3&Hris&Hr). injection Hr as <- <-.
  apply bind_Ok in Hri as (tls&w4&Htls&Hri). injection Hri as <- <-.
  assert (w4 = w ∧ tls = wanted_tls w i) as [-> ->].
  { unfold wanted_tls. case_decide; [|by injection Htls]. apply bind_Ok in Htls as (r&w5&Hload&Htls). injection Htls as <- <-.
    pose proof (sy_tls i w) as Hw. unfold try in Hload. by destruct (tl_Load i w) as [[x|e|] w6]; simplify_eq/=. }
  destruct (IH _ _ _ Hris) as [-> ->]. done.
Qed.
Lemma ri_is w ri k i :
  store_wf w → ri ∈ runtime_of w <$> ingLister_ListGCEIngresses (ingresses w) → ri_Name ri = k →
  ingresses w !! k = Some i → ri = runtime_of w i.
Proof.
  intros (Hk&_) (i'&->&[_ [k' Hi']%elem_of_store_List]%list_elem_of_filter)%list_elem_of_fmap Hn Hi.
  simpl in Hn. rewrite (Hk _ _ Hi') in Hn. subst k'. congruence.
Qed.
Lemma gce_keys w : store_wf w → NoDup (key_of <$> ingLister_ListGCEIngresses (ingresses w)).
Proof.
  intros (Hk&_). unfold ingLister_ListGCEIngresses.
  assert (key_of <$> store_List (ingresses w) = (range (ingresses w)).*1) as Heq.
  { unfold store_List. rewrite <-list_fmap_compose. apply list_fmap_ext. intros n [k i] Hn. simpl. apply Hk, range_lookup.
    by eapply list_elem_of_lookup_2. }
  apply NoDup_fmap_filter. rewrite Heq. apply range_NoDup.
Qed.

Section runtime.
Context (w : W) (lbs : list L7RuntimeInfo).
Hypothesis Hst : store_wf w.
Hypothesis Hnames : ri_Name <$> lbs = key_of <$> ingLister_ListGCEIngresses (ingresses w).

Lemma ri_in_store ri : ri ∈ lbs → is_Some (ingresses w !! ri_Name ri).
Proof.
  intros Hri. assert (ri_Name ri ∈ ri_Name <$> lbs) as Hn by (by apply list_elem_of_fmap_2).
  rewrite Hnames in Hn. apply list_elem_of_fmap in Hn as (i&->&[_ [k Hk]%elem_of_store_List]%list_elem_of_filter).
  destruct Hst as (Hkey&_). rewrite (Hkey _ _ Hk). by exists i.
Qed.
Lemma ri_of_key k i : ingresses w !! k = Some i → isGCEIngress i = true → ∃ ri, ri ∈ lbs ∧ ri_Name ri = k.
Proof.
  intros Hk Hgce. destruct Hst as (Hkey&_). assert (k ∈ ri_Name <$> lbs) as (ri&->&?)%list_elem_of_fmap; [|by exists ri].
  rewrite Hnames. apply list_elem_of_fmap. exists i. split; [by rewrite (Hkey _ _ Hk)|].
  apply list_elem_of_filter. split; [done|]. apply elem_of_store_List. by exists k.
Qed.
Lemma store_lbs_apart : lbs_apart lbs ∧ NoDup lbs.
Proof.
  assert (NoDup (ri_Name <$> lbs)) as Hnd by (rewrite Hnames; by apply gce_keys). split; [|by eapply NoDup_fmap_1].
  intros a b Ha Hb Hne. destruct Hst as (_&Hap&_). apply (Hap (ri_Name a) (ri_Name b)); [by apply ri_in_store..|].
  intros Heq. apply Hne. apply list_elem_of_lookup in Ha as [n Ha], Hb as [m Hb].
  assert (n = m) as -> by (eapply NoDup_lookup; [exact Hnd|by rewrite list_lookup_fmap, Ha|by rewrite list_lookup_fmap, Hb, Heq]).
  congruence.
Qed.
Lemma store_lbs_wf : pool_wf w → lbs_wf l7s_snap glbcDefaultBackend namer defaultPort lbs w.
Proof.
  intros [Hp Ht]. destruct store_lbs_apart as [Hap Hnd]. split; [done|]. split; [done|]. split; [|by split].
  intros ri Hri. destruct Hst as (_&_&Hidem). by apply Hidem, ri_in_store.
Qed.

(** What the collection is given covers what the checkpoint is for. *)
Local Abbreviation names := (lbNames lbc w).
Lemma store_covers :
  ports_wf w → (∀ l, doomed l7s names w l → ∀ k, is_Some (ingresses w !! k) → unrelated l (named k)) →
  gc_covers l7s_snap glbcDefaultBackend namer defaultPort lbs (gcePorts lbc w) names (allPorts lbc w) w.
Proof.
  intros Hp Hu. split; [|split].
  - intros ri Hri. apply elem_of_store_ListKeys. by apply ri_in_store.
  - intros p Hin. apply elem_of_toNodePorts in Hin as (i&b&[Hg Hi]%list_elem_of_filter&Hb&Hsp). split; [by eapply Hp|].
    exists p. split; [|done]. apply elem_of_toNodePorts. exists i, b. split; [|done]. apply list_elem_of_filter. by rewrite Hg.
  - intros l Hl ri Hri. exact (Hu l Hl (ri_Name ri) (ri_in_store ri Hri)).
Qed.
End runtime.

(** ** Linking endpoint groups *)

(** The service port that owns a node port. *)
Definition port_owner (p : ServicePort) : bool * NamespacedName * string := (sp_NEGEnabled p, sp_SvcName p, sp_SvcTargetPort p).
Local Abbreviation zones w := (ListZones (tr_nodeLister t w)).

(** Services may have other groups, but only those of [ports] with endpoint groups do. *)
Definition links (ports : list ServicePort) (w w' : W) : Prop :=
  (ig w', lb w', fwv w', stores w') = (ig w, lb w, fwv w, stores w) ∧ same_but_services backends w w' ∧
  ∀ n be, bsv w !! n = Some be → ∃ be', bsv w' !! n = Some be' ∧ relinked be be' ∧
    ((∀ q, q ∈ ports → sp_NEGEnabled q = true → n ≠ be_name backends (sp_Port q)) → be' = be).
Lemma links_refl ports w : binv w → links ports w w.
Proof. intros Hi. split; [done|]. split; [done|]. intros n be Hbe. by exists be. Qed.
Lemma links_trans l k w1 w2 w3 : links l w1 w2 → links k w2 w3 → links (l ++ k) w1 w3.
Proof.
  intros (He&Hs&Hb) (He'&Hs'&Hb'). split; [by rewrite He'|]. split; [by eapply services_trans|].
  intros n be Hbe. destruct (Hb n be Hbe) as (be2&Hbe2&(?&?&?)&Heq). destruct (Hb' n be2 Hbe2) as (be3&Hbe3&(?&?&?)&Heq').
  exists be3. split; [done|]. split; [split_and!; congruence|]. intros Hq. rewrite Heq', Heq; [done|..]; intros q Hin; apply Hq; set_solver.
Qed.

Lemma Link_links p w w' :
  binv w → sp_NEGEnabled p = true → Backends_Link backends p (zones w) w = (Ok tt, w') →
  links [p] w w' ∧ neg_ready backends (zones w') w' p.
Proof.
  intros Hi Hneg Hl.
  assert (Namer_NEG namer (nn_Namespace (sp_SvcName p)) (nn_Name (sp_SvcName p)) (sp_SvcTargetPort p) ≠ None) as Hname.
  { intros Hn. unfold Backends_Link in Hl. rewrite Hneg in Hl. simpl in Hl. by rewrite Hn in Hl. }
  destruct (wp_Ok _ _ _ _ _ _ Hl (Link_ok (H1 := checker) backends p (zones w) w Hi (λ _, Hname))) as ([Hs Ho]&_&Hok).
  destruct (Hok Hneg) as (Hready&be&be'&Hbe&Hbe'&Hre).
  assert (keeps (λ w, (ig w, lb w, fwv w, stores w)) (Backends_Link backends p (zones w))) as Hk.
  { unfold Backends_Link. destruct (negb _); [apply keeps_ret|]. apply keeps_bind; [apply keeps_ofOption|]. intros name.
    apply keeps_bind; [apply keeps_forCollect; intros z; apply sy_GetNEG|]. intros negs. apply keeps_bind; [apply sy_GetAlphaBS|].
    intros x. case_decide; [apply keeps_ret|apply sy_UpdateAlphaBS]. }
  specialize (Hk w). rewrite Hl in Hk. simpl in Hk. split.
  - split; [done|]. split; [done|]. intros n x Hx. destruct (decide (n = be_name backends (sp_Port p))) as [->|Hne].
    + rewrite Hbe in Hx. injection Hx as <-. exists be'. split; [done|]. split; [done|]. intros Hq.
      destruct (Hq p (list_elem_of_here _ _) Hneg eq_refl).
    + exists x. rewrite Ho by done. done.
  - apply pair_equal_spec in Hk as [_ [_ ->]%pair_equal_spec]. done.
Qed.

(** What a port owns is linked, whichever of the owner's ports was linked last. *)
Lemma neg_ready_owner zs w p q :
  sp_Port p = sp_Port q → port_owner p = port_owner q → neg_ready backends zs w p → neg_ready backends zs w q.
Proof. unfold neg_ready, port_owner. intros Hp [= _ Hn Ht]. by rewrite Hp, Hn, Ht. Qed.
Lemma neg_ready_links zs l w w' q :
  Forall (λ p, port_range (sp_Port p)) (q :: l) → links l w w' →
  (∀ p, p ∈ l → sp_NEGEnabled p = true → sp_Port p ≠ sp_Port q) → neg_ready backends zs w q → neg_ready backends zs w' q.
Proof.
  intros Hr (_&_&Hb) Hne (name&negs&be&Hname&HF&Hbe&Hset). exists name, negs, be. split; [done|]. split; [done|]. split; [|done].
  destruct (Hb _ _ Hbe) as (be'&Hbe'&_&Heq). rewrite Heq in Hbe'; [done|]. intros p Hp Hneg Hn.
  rewrite Forall_cons, Forall_forall in Hr. destruct Hr as [Hq Hr].
  apply Backend_inj in Hn; [|done|by apply Hr]. by apply (Hne p Hp Hneg).
Qed.

Definition linkPort (p : ServicePort) : M W unit :=
  if sp_NEGEnabled p then
    zs ← getW (λ w, zones w); bkp_Link (BackendPool := cm_backendPool cluster) p zs
  else mret tt.
Lemma linkPorts_stage l w w' :
  binv w → Forall (λ p, port_range (sp_Port p)) l →
  (∀ p q, p ∈ l → q ∈ l → sp_Port p = sp_Port q → port_owner p = port_owner q) →
  forEach linkPort l w = (Ok tt, w') →
  links l w w' ∧ ∀ q, q ∈ l → sp_NEGEnabled q = true → neg_ready backends (zones w') w' q.
Proof.
  intros Hi Hr Hown. revert w Hi. induction l as [|p l IH]; intros w Hi Hl.
  { injection Hl as <-. split; [by apply links_refl|by intros ? ?%elem_of_nil]. }
  simpl in Hl. apply bind_Ok in Hl as ([]&w1&Hp&Hl).
  assert (links [p] w w1 ∧ (sp_NEGEnabled p = true → neg_ready backends (zones w1) w1 p)) as [Hl1 Hready1].
  { unfold linkPort in Hp. destruct (sp_NEGEnabled p) eqn:Hneg; [|injection Hp as <-; split; [by apply links_refl|done]].
    back Hp. destruct (Link_links p w w1) as [? ?]; auto. }
  destruct (IH ltac:(by apply Forall_cons in Hr as [_ ?]) ltac:(intros; apply Hown; set_solver) w1) as [Hl2 Hready2]; [by destruct Hl1 as (_&(?&_)&_)|done|].
  split; [exact (links_trans [p] l w w1 w' Hl1 Hl2)|].
  intros q [->|Hq]%elem_of_cons Hneg; [|by apply Hready2].
  destruct (decide (Exists (λ r, sp_NEGEnabled r = true ∧ sp_Port r = sp_Port p) l)) as [(r&Hin&Hrn&Hrp)%Exists_exists|Hno].
  - apply (neg_ready_owner _ _ r); [done| |by apply Hready2]. apply Hown; [set_solver..|done].
  - pose proof Hl2 as ([_ [_ Hz]%pair_equal_spec]%pair_equal_spec&_). rewrite Hz.
    eapply neg_ready_links; [done|done| |by apply Hready1]. intros r Hin Hrn Hrp. apply Hno, Exists_exists. eauto.
Qed.

Lemma linkNEGs_stage ing w w' :
  let l := toNodePorts t w [ing] in
  binv w → Forall (λ p, port_range (sp_Port p)) l →
  (∀ p q, p ∈ l → q ∈ l → sp_Port p = sp_Port q → port_owner p = port_owner q) →
  linkNEGs lbc ing w = (Ok tt, w') →
  links l w w' ∧ (negEnabled = true → ∀ q, q ∈ l → sp_NEGEnabled q = true → neg_ready backends (zones w') w' q).
Proof.
  intros l Hi Hr Hown Hl. unfold linkNEGs in Hl. simpl in Hl. destruct negEnabled; [|injection Hl as <-; split; [by apply links_refl|done]].
  back Hl. destruct (linkPorts_stage l w w' Hi Hr Hown Hl). done.
Qed.

(** A port stays ready when other groups are linked, except that groups of
    instances may not be replaced. *)
Lemma port_ready_links igs p l w w' :
  Forall (λ q, port_range (sp_Port q)) (p :: l) →
  (∀ q, q ∈ l → sp_Port q = sp_Port p → sp_NEGEnabled q = true → sp_NEGEnabled p = true) →
  links l w w' → port_ready backends igs w p → port_ready backends igs w' p.
Proof.
  rewrite Forall_cons, Forall_forall. intros [Hp Hr] Hown (_&(_&Hh&_)&Hb) (hc&be&Hcheck&Hbe&Hprot&Hdesc&Hhc&Hlinked).
  destruct (Hb _ _ Hbe) as (be'&Hbe'&(He1&He2&He3)&Heq). exists hc, be'. split; [by rewrite Hh|]. split; [done|].
  split; [congruence|]. split; [congruence|]. split; [unfold existingHCLink in *; by rewrite He3|].
  intros Hneg. rewrite Heq; [by apply Hlinked|]. intros q Hq Hqn Hn%Backend_inj; [|done|by apply Hr].
  by rewrite (Hown q Hq (eq_sym Hn) Hqn) in Hneg.
Qed.
Lemma neg_ready_at zs w w' q :
  bsv w' !! be_name backends (sp_Port q) = bsv w !! be_name backends (sp_Port q) →
  neg_ready backends zs w q → neg_ready backends zs w' q.
Proof. unfold neg_ready. by intros ->. Qed.

(** ** After the checkpoint *)

Section after.
Context (lbs : list L7RuntimeInfo) (nodes : list string) (svcPorts : list ServicePort) (ports fwPorts : list Z).
Hypothesis (Hports : Forall (λ p, port_range (sp_Port p)) svcPorts) (Hdefault : port_range (sp_Port defaultPort)).
Let done := checkpoint_done backends_snap l7s_snap glbcDefaultBackend prober namer defaultPort lbs nodes svcPorts ports fwPorts.

Lemma port_ready_same igs' p w w' :
  port_range (sp_Port p) → bsv w' = bsv w → (∀ q, port_range q → hcv w' q = hcv w q) →
  port_ready backends igs' w p → port_ready backends igs' w' p.
Proof. intros Hp Hb Hh. unfold port_ready. by rewrite Hb, Hh. Qed.
Lemma done_via w w' :
  (ig w', fwv w') = (ig w, fwv w) →
  (∀ igs' p, p ∈ defaultPort :: svcPorts → port_ready backends igs' w p → port_ready backends igs' w' p) →
  ready lbs w' → done w → done w'.
Proof.
  intros [He Hf]%pair_equal_spec Hb Hr (Hg&Hm&[Hbe Hd]&_&Hfw). unfold ig_side in He. injection He as Hv Hme _.
  split; [unfold groups_ready; by rewrite Hv|]. split; [unfold members_ready; by rewrite Hme|]. split; [|by rewrite Hf].
  assert (zone_groups namer w' = zone_groups namer w) as Hzg by (unfold zone_groups; by rewrite Hv).
  unfold backends_ready. rewrite Hzg. split.
  - intros p Hp Hor. apply Hb; [|by apply Hbe]. apply list_elem_of_further.
    by apply elem_of_uniq, last_Some_elem_of, list_elem_of_filter in Hp as [_ Hp].
  - intros Hne. apply Hb; [apply list_elem_of_here|by apply Hd].
Qed.
Lemma done_same w w' :
  (ig w', fwv w') = (ig w, fwv w) → bsv w' = bsv w → (∀ q, port_range q → hcv w' q = hcv w q) → ready lbs w' → done w → done w'.
Proof.
  intros He Hb Hh. apply done_via; [done|]. intros igs' p Hp. apply port_ready_same; [|done..].
  apply elem_of_cons in Hp as [->|Hp]; [done|]. rewrite Forall_forall in Hports. by apply Hports.
Qed.
Lemma done_reads w w' : reads w w' → done w → done w'.
Proof.
  intros (He&_&Hb&Hh&_) Hd. apply pair_equal_spec in He as [[Hi [Hlv Hlp]%pair_equal_spec]%pair_equal_spec Hf].
  apply (done_same w); [by rewrite Hi, Hf|done..| |done]. unfold lbs_ready. rewrite Hlv, Hlp. by destruct Hd as (_&_&_&?&_).
Qed.

Lemma done_links l w w' :
  Forall (λ q, port_range (sp_Port q)) l →
  (∀ p q, p ∈ defaultPort :: svcPorts → q ∈ l → sp_Port q = sp_Port p → sp_NEGEnabled q = true → sp_NEGEnabled p = true) →
  links l w w' → done w → done w'.
Proof.
  intros Hr Hown Hl Hd. pose proof Hl as ([[[Hi [Hlv Hlp]%pair_equal_spec]%pair_equal_spec Hf]%pair_equal_spec _]%pair_equal_spec&_).
  apply (done_via w); [by rewrite Hi, Hf| | |done].
  - intros igs' p Hp. apply (port_ready_links igs' p l); [|by intros q; apply Hown|done]. constructor; [|done].
    apply elem_of_cons in Hp as [->|Hp]; [done|]. rewrite Forall_forall in Hports. by apply Hports.
  - unfold lbs_ready. rewrite Hlv, Hlp. by destruct Hd as (_&_&_&?&_).
Qed.

(** The rest of a sync, up to the collection. *)
Definition tail_done (ri : L7RuntimeInfo) (g : GCEURLMap) (w w' : W) : Prop :=
  done w' ∧ routed ri g w' ∧ binv w' ∧ bsv w' = bsv w ∧ (port_keyed backends w → port_keyed backends w') ∧
  (∀ k, is_Some (lget backends_snap w !! k) → is_Some (lget backends_snap w' !! k)) ∧
  (∀ k, k ≠ lb_name l7s ri → lget l7s_snap w' !! k = lget l7s_snap w !! k).
Lemma tail_stage ing ri g l7 w w1 w2 w3 w4 :
  binv w → ports_wf w → hosts_wf ing → lbs_apart lbs → ri ∈ lbs → done w →
  toURLMap (H := cm_backendPool cluster) t ing w = (Ok g, w1) →
  cm_onL7 cluster (ri_Name ri) (L7_UpdateUrlMap g) w1 = (Ok tt, w2) →
  cm_onL7 cluster (ri_Name ri) self w2 = (Ok l7, w3) →
  updateIngressStatus json_backends lbc l7 ing w3 = (Ok tt, w4) →
  tail_done ri g w w4 ∧
  translates t (ing_Namespace ing) w (λ p, bsv w !! be_name backends p) (λ _, True) ing g.
Proof.
  intros Hi Hp Hh Hap Hri Hd Hg Hu Hself Hst. destruct (translate_stage ing w g w1 Hi Hp Hg) as [Hr1 Htr].
  pose proof (done_reads _ _ Hr1 Hd) as Hd1. split; [|done].
  destruct (urlmap_stage lbs ri g w1 w2) as (Hroute&Hready&Hside&Hpool); [done|by destruct Hd1 as (_&_&_&?&_)|done| |done|].
  { by eapply translates_translatable. }
  apply onL7_self in Hself as [-> _].
  apply pair_equal_spec in Hside as [[Hi2 Hb2]%pair_equal_spec Hf2]. unfold be_side in Hb2. injection Hb2 as Hbs2 Hh2 Hbi2 Hc2.
  assert (done w2) as Hd2 by (eapply (done_same w1); [by rewrite Hi2, Hf2|done|by rewrite Hh2|done|done]).
  pose proof Hr1 as (He1&Hi1&Hbs1&_&Hk1&Hc1).
  assert (reads w2 w4) as Hr4.
  { pose proof (updateIngressStatus_moves l7 ing w2) as Hm. rewrite Hst in Hm. apply Hm. by rewrite Hbi2. }
  pose proof (done_reads _ _ Hr4 Hd2) as Hd4. destruct Hr4 as (He4&Hi4&Hbs4&_&Hk4&Hc4).
  apply pair_equal_spec in He4 as [[_ [_ Hlp4]%pair_equal_spec]%pair_equal_spec _].
  apply pair_equal_spec in He1 as [[_ [_ Hlp1]%pair_equal_spec]%pair_equal_spec _].
  split; [done|]. split; [unfold routed; by rewrite Hlp4|]. split; [done|]. split; [congruence|]. split; [|split].
  - intros Hk. apply Hk4. unfold port_keyed, bk_pool. simpl. rewrite Hc2. by apply Hk1.
  - intros k Hk. apply Hc4. rewrite Hc2. by apply Hc1.
  - intros k Hk. rewrite Hlp4, Hpool, Hlp1 by done. done.
Qed.
End after.

(** ** The sync *)

Local Abbreviation nodes w := (getReadyNodeNames (tr_nodeLister t w)).
Local Abbreviation fwPorts w lbs := (gatherFirewallPorts t w (gcePorts lbc w) (bool_decide (0 < length lbs))).
Local Abbreviation service_in w := (λ p, bsv w !! be_name backends p).

(** A node port belongs to one port of one service, of which the default backend
    is one. *)
Definition owners_wf (w : W) : Prop :=
  (∀ p q, p ∈ gcePorts lbc w → q ∈ gcePorts lbc w → sp_Port p = sp_Port q → port_owner p = port_owner q) ∧
  (∀ p, p ∈ gcePorts lbc w → sp_Port p = sp_Port defaultPort → sp_NEGEnabled p = sp_NEGEnabled defaultPort).
(** What a running controller relies on: see the parts. The load balancers that
    are left of deleted ingresses have recorded no object of an ingress. *)
Definition sync_wf (w : W) : Prop :=
  store_wf w ∧ pool_wf w ∧ nodes_wf instances_snap namer w ∧ binv w ∧ port_range (sp_Port defaultPort) ∧
  Forall instance_name (nodes w) ∧ keys_wf backends_snap l7s_snap prober namer defaultPort w ∧ ports_wf w ∧ owners_wf w ∧
  (∀ l, doomed l7s (lbNames lbc w) w l → ∀ k, is_Some (ingresses w !! k) → unrelated l (named k)).

(** The load balancer of the ingress serves it: the front ends, http and https as
    the annotations and the TLS section of the ingress ask, lead to the url
    map, which sends each host and path to the backend service the rules choose,
    and all else to the default backend. *)
Definition served (key : string) (ing : Ingress) (w w' : W) : Prop :=
  ∃ l um d, lget l7s_snap w' !! Namer_LoadBalancer namer key = Some l ∧ l7_runtimeInfo l = runtime_of w ing ∧
    lb_serves (lbv w') l ∧ l7_um l = Some um ∧
    ((∃ b x, ing_Backend ing = Some b ∧ serviceOf t (ing_Namespace ing) w (service_in w') b = Some x ∧ d = bs_SelfLink x) ∨
     (∃ x, l7_glbcDefaultBackend l = Some x ∧ d = bs_SelfLink x)) ∧
    ∀ host p, host ≠ DefaultBackendKey → route um host p = default d (bs_SelfLink <$> intended ing w w' host p).
(** The cloud at the end of a sync, for all the ingresses of the controller. *)
Definition cluster_done (w w' : W) : Prop :=
  let lbs := runtime_of w <$> ingLister_ListGCEIngresses (ingresses w) in
  checkpoint_done backends_snap l7s_snap glbcDefaultBackend prober namer defaultPort lbs (nodes w) (gcePorts lbc w)
    (sp_Port <$> all_named defaultPort (allPorts lbc w)) (fwPorts w lbs) w'.

(** The backend services of the ingress' ports with network endpoint groups have
    these groups, of all zones. *)
Definition negs_linked (ing : Ingress) (w w' : W) : Prop :=
  negEnabled = true → ∀ q, q ∈ toNodePorts t w [ing] → sp_NEGEnabled q = true → neg_ready backends (zones w) w' q.

Section final.
Context (key : string) (ing : Ingress) (w : W).
Hypothesis (Hwf : sync_wf w) (Hing : ingresses w !! key = Some ing) (Hgce : isGCEIngress ing = true).

(** A backend of the ingress is among the ports that the collection spares. *)
Lemma backend_spared b sp :
  b ∈ backendsOf ing → getServiceNodePort t w b (ing_Namespace ing) = inr sp → sp ∈ allPorts lbc w.
Proof.
  intros Hb Hsp. apply elem_of_toNodePorts. exists ing, b. split; [|done]. apply list_elem_of_filter. split; [by rewrite Hgce|].
  apply elem_of_store_List. by exists key.
Qed.
Lemma ing_ports_gce w1 q : services w1 = services w → q ∈ toNodePorts t w1 [ing] → q ∈ gcePorts lbc w.
Proof.
  intros Hs (i&b&->%list_elem_of_singleton&Hb&Hsp)%elem_of_toNodePorts. apply elem_of_toNodePorts. exists ing, b.
  split; [apply list_elem_of_filter; split; [done|apply elem_of_store_List; by exists key]|]. split; [done|].
  unfold getServiceNodePort in *. by rewrite Hs in Hsp.
Qed.
Lemma known_name : Namer_LoadBalancer namer key ∈ known l7s (lbNames lbc w).
Proof. apply elem_of_list_to_set, list_elem_of_fmap. exists key. split; [done|]. apply elem_of_store_ListKeys. by exists ing. Qed.

(** The endpoint groups after the checkpoint. *)
Lemma linked_stage lbs w2 w3 :
  let cp_done := checkpoint_done backends_snap l7s_snap glbcDefaultBackend prober namer defaultPort lbs (nodes w) (gcePorts lbc w)
    (sp_Port <$> all_named defaultPort (allPorts lbc w)) (fwPorts w lbs) in
  let kept := caches_kept backends_snap l7s_snap glbcDefaultBackend prober namer defaultPort lbs (gcePorts lbc w) w in
  Forall (λ p, port_range (sp_Port p)) (gcePorts lbc w) → port_range (sp_Port defaultPort) →
  stores w2 = stores w → cp_done w2 → kept w2 → linkNEGs lbc ing w2 = (Ok tt, w3) →
  cp_done w3 ∧ kept w3 ∧ binv w3 ∧ services w3 = services w ∧ negs_linked ing w w3.
Proof.
  intros cp_done kept Hgp Hd [Hsv2 Hno2]%pair_equal_spec Hdone (Hc1&Hc2&Hi) Hlink. pose proof Hwf as (_&_&_&_&_&_&_&_&[Hown Hdef]&_).
  pose proof (λ q, ing_ports_gce w2 q Hsv2) as Hgce2.
  assert (Forall (λ p, port_range (sp_Port p)) (toNodePorts t w2 [ing])) as Hlr.
  { apply Forall_forall. intros q Hq. rewrite Forall_forall in Hgp. by apply Hgp, Hgce2. }
  destruct (linkNEGs_stage ing w2 w3) as [Hlinks Hnegs]; [done|done|auto|done|].
  pose proof Hlinks as ([[[_ [_ Hlp3]%pair_equal_spec]%pair_equal_spec _]%pair_equal_spec [Hsv3 Hno3]%pair_equal_spec]%pair_equal_spec&(Hi3&_&Hbp3)&_).
  unfold bk_pool in Hbp3. simpl in Hbp3. split; [|split; [|split; [done|split; [congruence|]]]].
  - eapply done_links; [done|done|done| |done|done]. intros p q [->|Hp]%elem_of_cons Hq%Hgce2 Heq Hneg.
    + by rewrite <-(Hdef q Hq Heq).
    + assert (port_owner q = port_owner p) as [= <- _ _] by (by apply Hown). done.
  - split; [unfold cached_lbs in *; by rewrite Hlp3|]. split; [|done]. unfold cached_ports, bk_pool in *. simpl in *. by rewrite Hbp3.
  - intros Hneg q (i&b&->%list_elem_of_singleton&Hb&Hsp)%elem_of_toNodePorts Hqn. rewrite <-Hno2, <-Hno3. apply Hnegs; [done| |done].
    apply elem_of_toNodePorts. exists ing, b. split; [apply list_elem_of_here|]. split; [done|]. unfold getServiceNodePort in *. by rewrite Hsv2.
Qed.

(** The collection after the rest of the sync. *)
Section collection.
Context (lbs : list L7RuntimeInfo) (ri : L7RuntimeInfo) (g : GCEURLMap) (w2 w8 w' : W).
Local Abbreviation names := (lbNames lbc w).
Local Abbreviation all := (allPorts lbc w).
Local Abbreviation done := (checkpoint_done backends_snap l7s_snap glbcDefaultBackend prober namer defaultPort lbs (nodes w) (gcePorts lbc w)
  (sp_Port <$> all_named defaultPort all) (fwPorts w lbs)).
Hypothesis Hnames : ri_Name <$> lbs = key_of <$> ingLister_ListGCEIngresses (ingresses w).
Hypothesis (Hri : ri ∈ lbs) (Hkey : ri_Name ri = key) (Hready : ready lbs w2).
Hypothesis Hcaches : caches_kept backends_snap l7s_snap glbcDefaultBackend prober namer defaultPort lbs (gcePorts lbc w) w w2.
Hypothesis Htail : tail_done lbs (nodes w) (gcePorts lbc w) (sp_Port <$> all_named defaultPort all) (fwPorts w lbs) ri g w2 w8.
Hypothesis Hgc : cm_GC cluster names all w8 = (Ok tt, w').

Lemma covers_start : gc_covers l7s_snap glbcDefaultBackend namer defaultPort lbs (gcePorts lbc w) names all w.
Proof. destruct Hwf as (Hst&_&_&_&_&_&_&Hp&_&Hu). by apply store_covers. Qed.
Lemma unknown_pool k : k ∉ known l7s names → lget l7s_snap w8 !! k = lget l7s_snap w2 !! k.
Proof.
  intros Hk. destruct Htail as (_&_&_&_&_&_&Hpool). apply Hpool. intros ->. apply Hk.
  unfold lb_name. rewrite Hkey. apply known_name.
Qed.
Lemma keys_tail : keys_wf backends_snap l7s_snap prober namer defaultPort w8.
Proof.
  destruct Hwf as (Hst&Hpw&_&_&_&_&Hkeys&_).
  destruct (keys_wf_after backends_snap l7s_snap glbcDefaultBackend prober namer defaultPort lbs (gcePorts lbc w) names all w w2) as [Hk2 Hn2];
    [by apply store_lbs_wf|apply covers_start|done|done|].
  destruct Htail as (_&_&_&_&Hk8&_&Hpool). split; [by apply Hk8|]. intros k Hin. apply Hn2.
  destruct (decide (k = lb_name l7s ri)) as [->|Hne]; [|by rewrite <-Hpool].
  destruct (Hready ri Hri) as (l&->&_). by exists l.
Qed.
Lemma covers_tail : gc_covers l7s_snap glbcDefaultBackend namer defaultPort lbs (gcePorts lbc w) names all w8.
Proof.
  destruct (gc_covers_after backends_snap l7s_snap glbcDefaultBackend prober namer defaultPort lbs (gcePorts lbc w) names all w w2)
    as (?&?&Hu); [apply covers_start|done|].
  split; [done|]. split; [done|]. intros l (k&Hk&Hno). apply Hu. exists k. split; [|done]. unfold lb_pool in *. simpl in *.
  by rewrite <-unknown_pool.
Qed.
Lemma collection_stage :
  done w' ∧ collected backends_snap l7s_snap glbcDefaultBackend prober namer defaultPort names all w w' ∧ routed ri g w' ∧
  (∀ q, q ∈ all → port_range (sp_Port q) → bsv w' !! be_name backends (sp_Port q) = bsv w2 !! be_name backends (sp_Port q)).
Proof.
  pose proof Htail as (Hdone&Hroute&Hi&Hbs&_&Hcp&_). destruct Hwf as (_&_&_&_&Hd&_).
  assert (names ≠ []) as Hne.
  { intros He. assert (key ∈ names) as Hin by (apply elem_of_store_ListKeys; by exists ing). rewrite He in Hin. by apply elem_of_nil in Hin. }
  destruct (wp_Ok _ _ _ _ _ _ Hgc (GC_stage createCmd updateCmd deleteCmd instances_snap backends_snap defaults_snap l7s_snap
    glbcDefaultBackend prober namer defaultPort path lbs (nodes w) (gcePorts lbc w) (sp_Port <$> all_named defaultPort all) (fwPorts w lbs)
    names all w8 Hne Hd Hi keys_tail covers_tail Hdone)) as (?&[Hlb Hbe]&Hlk&Hbk).
  split; [done|]. split; [|split].
  - eapply collected_before; [apply covers_start|exact Hcaches|]. split.
    + intros k l Hl Hk. apply Hlb; [by rewrite unknown_pool|done].
    + intros p Hp (Hin&Hg). apply Hbe; [done|]. split; [by apply Hcp|done].
  - destruct Hroute as (l&um&d&Hl&?&?&?). exists l, um, d. split; [|done]. rewrite Hlk; [done|].
    unfold lb_name. rewrite Hkey. apply known_name.
  - intros q Hq Hr. by rewrite Hbk, Hbs.
Qed.
End collection.

(** What the collection leaves is what the rules ask for. *)
Lemma served_after ri g lbs nds svcs ports fws w2 w' :
  ri_Name ri = key → ri = runtime_of w ing → ri ∈ lbs → services w2 = services w →
  translates t (ing_Namespace ing) w2 (service_in w2) (λ _, True) ing g →
  checkpoint_done backends_snap l7s_snap glbcDefaultBackend prober namer defaultPort lbs nds svcs ports fws w' → routed ri g w' →
  (∀ b sp, b ∈ backendsOf ing → getServiceNodePort t w b (ing_Namespace ing) = inr sp →
     bsv w' !! be_name backends (sp_Port sp) = bsv w2 !! be_name backends (sp_Port sp)) →
  served key ing w w'.
Proof.
  intros Hkey Hrun Hri Hs Htr (_&_&_&Hready&_) (l&um&d&Hl&Hum&Hd&Hroute) Hkept. exists l, um, d.
  destruct (Hready ri Hri) as (l1&Hl1&[Hri' _]&Hserves). rewrite Hl in Hl1. injection Hl1 as <-.
  split; [unfold lb_name in Hl; by rewrite Hkey in Hl|]. split; [congruence|]. split; [done|]. split; [done|]. split.
  - destruct (translates_default ing w2 g Htr l d Hd) as [(b&x&Hb&Hx&->)|?]; [left|by right]. exists b, x. split; [done|]. split; [|done].
    rewrite (serviceOf_kept ing w w2 w'); [by rewrite <-(serviceOf_same_services ing w2)| |done].
    unfold backendsOf. rewrite Hb. apply list_elem_of_here.
  - intros host p Hne. rewrite Hroute, (translates_wanted ing w2 g Htr) by done. do 2 f_equal.
    rewrite (intended_kept ing w w2 w') by done. by apply intended_same_services.
Qed.

(** C1. A sync that succeeds makes the cloud follow the cluster, over any cloud
    that keeps the promises of the pools, from a state as a running controller
    has it ([sync_wf]: in particular each node port belongs to one service port,
    the ingresses have load balancer names of their own, and what load balancers
    of deleted ingresses have recorded belongs to no other). For an ingress of the
    controller with translatable hosts, if the checkpoint reports no firewall rule
    that is not its to change: at the end the load balancer of the ingress is
    there, with the front ends the annotations and the TLS section of the ingress
    ask for; its forwarding rules lead through the proxies to its url map, and the
    url map sends every host and path to the backend service of the node port that
    the last rule for it names, and all else to the default backend of the ingress
    or of the cluster. At the same time the load balancers of all the controller's
    ingresses serve; the instance groups of all zones have their named ports and
    exactly the ready nodes as members; the backend services of all the ports of
    the ingresses, and that of the default backend if there is an ingress, point
    to the health checks of their ports and, without network endpoint groups, to
    the groups of all zones that the cloud holds at the end; and the firewall rule
    is as wanted. With network endpoint groups, the services of the ingress that
    ask for them have exactly their endpoint groups of all zones. The load
    balancers and backends that nothing asks for any more are gone (but for the
    certificates that [LB_GC_spec] says are left). *)
Theorem sync_spec w' :
  hosts_wf ing →
  (∀ lbs igs err w2, toRuntimeInfo (ingLister_ListGCEIngresses (ingresses w)) w = (Ok lbs, w) →
     Checkpoint cluster lbs (nodes w) (gcePorts lbc w) (allPorts lbc w) (fwPorts w lbs) w = (Ok (igs, Some err), w2) →
     isFirewallSyncError err = false) →
  lbc_sync json_groups json_backends lbc key w = (Ok tt, w') →
  served key ing w w' ∧ cluster_done w w' ∧ negs_linked ing w w' ∧
  collected backends_snap l7s_snap glbcDefaultBackend prober namer defaultPort (lbNames lbc w) (allPorts lbc w) w w'.
Proof.
  intros Hhosts Hfw Hsync.
  destruct (sync_stages json_groups json_backends lbc key ing w w') as (lbs&igs&e&g&l7&l0&w1&w2&w3&w4&w5&w6&w7&w8&Hri&Hcp&He&Hlink&Hget&Hg&Hu&Hself&Hst&Hgc); [|done| |done|].
  { intros i w1. by rewrite sy_tls. }
  { unfold isGCEIngress, isGCEMultiClusterIngress in *. apply bool_decide_eq_false. intros Hc. by rewrite Hc in Hgce. }
  destruct (toRuntimeInfo_is _ _ _ _ Hri) as [-> Hlbs].
  assert (ri_Name <$> lbs = key_of <$> ingLister_ListGCEIngresses (ingresses w)) as Hnames by (rewrite Hlbs; apply runtime_names).
  destruct Hwf as (Hstore&Hpool&Hnodes&Hi&Hd&Hinst&Hkeys&Hports&_).
  assert (e = None) as ->.
  { destruct e as [err|]; [|done]. specialize (He err eq_refl). by rewrite (Hfw _ _ _ _ Hri Hcp) in He. }
  destruct (store_lbs_apart w lbs Hstore Hnames) as [Hap _].
  assert (Forall (λ p, port_range (sp_Port p)) (gcePorts lbc w)) as Hgp.
  { apply Forall_forall. intros p Hp. apply elem_of_toNodePorts in Hp as (i&b&_&_&Hsp). by eapply Hports. }
  destruct (wp_Ok _ _ _ _ _ _ Hcp (Checkpoint_ok createCmd updateCmd deleteCmd instances_snap backends_snap defaults_snap l7s_snap
    glbcDefaultBackend prober namer defaultPort path lbs (nodes w) (gcePorts lbc w) (allPorts lbc w) (fwPorts w lbs) w
    (store_lbs_wf w lbs Hstore Hnames Hpool) Hnodes Hi Hgp Hd Hinst) eq_refl) as [Hdone Hcaches].
  pose proof (keeps_Ok _ _ _ _ _ (Checkpoint_keeps_stores lbs (nodes w) (gcePorts lbc w) (allPorts lbc w) (fwPorts w lbs)) Hcp) as Hs2.
  destruct (linked_stage lbs w2 w3) as (Hdone3&Hcaches3&Hi3&Hsv3&Hnegs); [done..|].
  assert (w4 = w3) as ->.
  { apply bind_Ok in Hget as (o&w4'&Ho&Hget). injection Ho as _ <-. destruct o; [|done]. by injection Hget. }
  destruct (ri_of_key w lbs Hstore Hnames key ing Hing Hgce) as (ri&Hin&Hkey). rewrite <-Hkey in Hu, Hself.
  destruct (tail_stage lbs (nodes w) (gcePorts lbc w) (sp_Port <$> all_named defaultPort (allPorts lbc w)) (fwPorts w lbs) Hgp Hd
    ing ri g l7 w3 w5 w6 w7 w8) as [Htail Htr]; [done| |done..|].
  { intros b ns sp. unfold getServiceNodePort. rewrite Hsv3. apply Hports. }
  destruct (collection_stage lbs ri g w3 w8 w' Hnames Hin Hkey) as (Hdone'&Hcol&Hroute&Hkept);
    [by destruct Hdone3 as (_&_&_&?&_)|done..|].
  split; [|split; [by rewrite Hlbs in Hdone'|split; [|done]]].
  - assert (ri = runtime_of w ing) by (rewrite Hlbs in Hin; by eapply ri_is).
    eapply (served_after ri g lbs); [done..|]. intros b sp Hb Hsp. apply Hkept; [by eapply backend_spared|by eapply Hports].
  - intros Hneg q Hq Hqn. apply (neg_ready_at _ w3); [|by apply Hnegs].
    apply elem_of_toNodePorts in Hq as (i&b&->%list_elem_of_singleton&Hb&Hsp). apply Hkept; [by eapply backend_spared|by eapply Hports].
Qed.
End final.
End sync.
