(* ===== verification/CheckpointExample.v ===== *)
(** * CheckpointExample: a checkpoint on a cloud that keeps all promises

    One world with the reference cloud of instance groups, the fake backend
    services and health checks, the strict cloud of load balancers and the fake
    firewalls, and the caches of the pools. The theorem of [CheckpointSpec]
    holds of it, and a checkpoint with two ingresses succeeds. So do the
    collection and the shutdown after it. *)

From S2P Require Import Prelude GoLang GoStrings Compute Utils Namer HealthChecks Instances InstancesSync Firewalls Backends BackendsSpec.
From S2P Require Import LoadBalancers Frames BackendsFake LoadBalancersFake LoadBalancersSpec LoadBalancersSync LoadBalancersExample.
From S2P Require Import K8s Translator TranslatorSpec ClusterManager CheckpointSpec ShutdownSpec.

(** ** The world *)

Abbreviation CRest := (RefCloud * (LWorld * fakeFirewallsProvider))%type.
Abbreviation CWorld := (BWorld CRest).

Definition cw_groups : lens CWorld RefCloud := lens_comp bw_rest_lens lens_fst.
Definition cw_lb : lens CWorld LWorld := lens_comp bw_rest_lens (lens_comp lens_snd lens_fst).
Definition cw_fws : lens CWorld fakeFirewallsProvider := lens_comp bw_rest_lens (lens_comp lens_snd lens_snd).
Definition cw_lbs : lens CWorld FakeLoadBalancers := lens_comp cw_lb lw_cloud_lens.
Definition cw_instances : lens CWorld (gmap string unit) := lens_comp cw_groups rc_pool_lens.
Definition cw_l7s : lens CWorld (gmap string L7) := lens_comp cw_lb lw_pool_lens.
Definition cw_default : lens CWorld (option BackendService) := lens_comp cw_lb lw_default_lens.
#[local] Instance rc_pool_lens_laws : LensLaws rc_pool_lens.
Proof. by split; [|intros []|]. Qed.
#[local] Instance cw_groups_laws : LensLaws cw_groups.
Proof. unfold cw_groups. apply _. Qed.
#[local] Instance cw_lb_laws : LensLaws cw_lb.
Proof. unfold cw_lb. apply _. Qed.
#[local] Instance cw_fws_laws : LensLaws cw_fws.
Proof. unfold cw_fws. apply _. Qed.
#[local] Instance cw_lbs_laws : LensLaws cw_lbs.
Proof. unfold cw_lbs. pose proof lw_cloud_laws. apply _. Qed.
#[local] Instance cw_instances_laws : LensLaws cw_instances.
Proof. unfold cw_instances. apply _. Qed.
#[local] Instance cw_l7s_laws : LensLaws cw_l7s.
Proof. unfold cw_l7s. pose proof lw_pool_laws. apply _. Qed.

Section cluster.
Context (namer : Namer) (zones : list string) (zone : string → option string).

#[local] Existing Instances StrictCloud StrictWorld StrictLaws.
#[local] Instance rz : ZoneLister RefCloud := RefZones zones zone.
#[local] Instance rz_members : MemberLaws RefCloud := RefCloud_members zones zone.

#[local] Instance cw_IGs : InstanceGroups CWorld := InstanceGroups_zoom cw_groups.
#[local] Instance cw_IG_laws : GroupLaws CWorld := GroupLaws_zoom cw_groups.
#[local] Instance cw_zones : ZoneLister CWorld := ZoneLister_zoom cw_groups.
#[local] Instance cw_members : MemberLaws CWorld := MemberLaws_zoom cw_groups.
#[local] Instance cw_BSs : BackendServices CWorld := bw_BackendServices.
#[local] Instance cw_HCs : HealthCheckProvider CWorld := bw_HealthChecks.
#[local] Instance cw_NEGs : NEGGetter CWorld := bw_NEGGetter ex_neg.
#[local] Instance cw_backends : BackendWorld CWorld := bw_world namer ex_neg.
#[local] Instance cw_LBs : LoadBalancers CWorld := LoadBalancers_zoom cw_lbs.
#[local] Instance cw_LB_world : LBWorld CWorld := zoom_world cw_lbs.
#[local] Instance cw_LB_laws : LBLaws CWorld.
Proof. exact (zoom_laws cw_lbs). Qed.
#[local] Instance cw_FWs : FirewallCloud CWorld := FirewallCloud_zoom cw_fws.
#[local] Instance cw_FW_laws : FirewallLaws CWorld := FirewallLaws_zoom cw_fws.

(** ** Nothing is shared *)

Lemma ref_get_keeps {F} (f : RefCloud → F) n z : keeps f (ref_get n z).
Proof. unfold ref_get. keeps_go. Qed.

Context (probes : list (ServicePort * Probe)).
Lemma cw_frames :
  ClusterFrames cw_instances bw_pool_lens bw_defaults_lens cw_l7s cw_default (FakeProbeProvider_GetProbe probes).
Proof.
  split; try (split; intros; by apply keeps_zoom).
  - split; intros; (eapply (keeps_zoom_in _ cw_groups (λ r, (rc_members r, rc_pool r)));
      [simpl; keeps_go; eauto using ref_get_keeps; by apply keeps_modW|]).
    all: intros x w; simpl; intros [= Hm Hp]; unfold rc_view, rc_mem, be_side, lb_side; simpl; by rewrite Hm, Hp.
  - intros sp. unfold FakeProbeProvider_GetProbe. keeps_go.
  - done.
  - done.
  - done.
  - done.
  - done.
  - intros w [z n] ig. simpl. unfold rc_named. rewrite map_lookup_imap.
    intros (ig0&_&[= <-])%bind_Some. reflexivity.
Qed.
Lemma cw_gc_frames : GCFrames cw_instances bw_pool_lens cw_l7s cw_default.
Proof. split; [split|..]; try (intros; by apply keeps_zoom); done. Qed.
Lemma cw_shutdown_frames : ShutdownFrames bw_pool_lens bw_defaults_lens cw_l7s cw_default.
Proof. split; [split|..]; try (intros; by apply keeps_zoom); done. Qed.
End cluster.

(** ** A checkpoint *)

Definition cx_port (p : Z) : ServicePort :=
  MkServicePort p "HTTP" (MkNamespacedName "ns" "svc") (FromInt 80) "8080" false.
Definition cx_lbs : list L7RuntimeInfo :=
  [MkL7RuntimeInfo "ns/a" "" None "" true ""; MkL7RuntimeInfo "ns/b" "" (Some (MkTLSCerts "key" "cert" "")) "" true ""].
(** What is left of an ingress that was deleted: a member [old] of the instance
    group that is not a node any more, a backend service and a load balancer. *)
Definition cx_old : L7 := ex_lb "ns-old--uid1" "k8s-um-ns-old--uid1".
Definition cx_start : CWorld :=
  MkBWorld (MkFakeBackendServices {[Namer_Backend ex_namer 30009 := MkBackendService (Namer_Backend ex_namer 30009) "" "HTTP" [] 30009 "" [] ""]} [] None)
    NewFakeHealthCheckProvider {["30009" := None]} ∅
    (MkRefCloud ∅ {[("zone-a", "k8s-ig--uid1") := {["old"]}]} ∅,
     (MkLWorld (flb_set_Um (option_list (l7_um cx_old)) (NewFakeLoadBalancers "uid1")) {["ns-old--uid1" := cx_old]} None false,
      NewFakeFirewallsProvider false false)).
Definition cx_zone (n : string) : option string :=
  if decide (n = "n2") then Some "zone-b" else Some "zone-a".

Section example.
#[local] Existing Instances StrictCloud StrictWorld StrictLaws cw_IGs cw_BSs cw_HCs cw_NEGs cw_LBs cw_LB_world cw_LB_laws
  cw_FWs cw_FW_laws cw_IG_laws.
#[local] Instance cx_zones : ZoneLister CWorld := cw_zones ["zone-a"; "zone-b"] cx_zone.
#[local] Instance cx_members : MemberLaws CWorld := cw_members ["zone-a"; "zone-b"] cx_zone.
#[local] Instance cx_range : MapRange := sortedRange.
#[local] Instance cx_zrange : KeyRange Z := listRange Z.
#[local] Instance cx_world : BackendWorld CWorld := cw_backends ex_namer.

Definition cx_cluster : ClusterManager CWorld :=
  let cmd (f : Firewall) (p : string) := "gcloud" in
  NewClusterManager cmd cmd (λ _ _, "gcloud") cw_instances bw_pool_lens bw_defaults_lens cw_l7s cw_default
    (FakeProbeProvider_GetProbe []) ex_namer (cx_port 30000) "/".
Definition cx_checkpoint : M CWorld (list InstanceGroup * option error) :=
  Checkpoint cx_cluster cx_lbs ["n1"; "n2"] [cx_port 30001; cx_port 30002] [cx_port 30001; cx_port 30002] [30000; 30001; 30002]%Z.

Lemma cx_succeeds : (snd <$> match (cx_checkpoint cx_start).1 with Ok r => Some r | _ => None end) = Some None.
Proof. by vm_compute. Qed.

Definition cx_gc : M CWorld unit := cm_GC cx_cluster ["ns/a"; "ns/b"] [cx_port 30001; cx_port 30002].
Lemma cx_collects : (cx_gc (cx_checkpoint cx_start).2).1 = Ok tt.
Proof. by vm_compute. Qed.

(** The caches and the services at the start, one entry each. *)
Lemma cx_l7s k lb : lget cw_l7s cx_start !! k = Some lb → "ns-old--uid1" = k ∧ cx_old = lb.
Proof. exact (λ Hk, proj1 (lookup_singleton_Some (M := gmap string) _ _ _ _) Hk). Qed.
Lemma cx_services n be : bsv cx_start !! n = Some be → Namer_Backend ex_namer 30009 = n ∧ bs_Name be = n.
Proof. intros Hn. by destruct (proj1 (lookup_singleton_Some (M := gmap string) _ _ _ _) Hn) as [<- <-]. Qed.
Lemma cx_backends k be : lget bw_pool_lens cx_start !! k = Some be → "30009" = k.
Proof. exact (λ Hk, proj1 (proj1 (lookup_singleton_Some (M := gmap string) _ _ _ _) Hk)). Qed.

Lemma cx_lbs_wf : lbs_wf cw_l7s cw_default ex_namer (cx_port 30000) cx_lbs cx_start.
Proof.
  unfold lbs_wf. split; [|split; [|split; [|split]]].
  - apply NoDup_cons. split; [|apply NoDup_singleton]. intros He%list_elem_of_singleton. discriminate He.
  - intros a b [-> | ->%list_elem_of_singleton]%elem_of_cons [-> | ->%list_elem_of_singleton]%elem_of_cons; [done| | |done];
      intros _; split_and!; by vm_compute.
  - intros ri [-> | ->%list_elem_of_singleton]%elem_of_cons; by vm_compute.
  - intros k lb [<- <-]%cx_l7s. by split_and!.
  - intros n tps Hn. discriminate Hn.
Qed.
Lemma cx_nodes_wf : nodes_wf cw_instances ex_namer cx_start.
Proof.
  split; [by vm_compute|]. intros z n [-> | ->%list_elem_of_singleton]%elem_of_cons Hn.
  - assert (mem cx_start "zone-a" (Namer_InstanceGroup ex_namer) = {["old"]}) as Hm by (by vm_compute).
    rewrite Hm in Hn. apply elem_of_singleton in Hn as ->. reflexivity.
  - assert (mem cx_start "zone-b" (Namer_InstanceGroup ex_namer) = ∅) as Hm by (by vm_compute).
    rewrite Hm in Hn. by apply elem_of_empty in Hn.
Qed.
Lemma cx_binv : binv cx_start.
Proof.
  split; [|split; [split|]; intros ?? He; discriminate He]. by intros n be [_ Hn]%cx_services.
Qed.
Lemma cx_keys : keys_wf bw_pool_lens cw_l7s (FakeProbeProvider_GetProbe []) ex_namer (cx_port 30000) cx_start.
Proof.
  split.
  - intros k [be <-%cx_backends]. by exists 30009%Z.
  - intros k [lb [<- _]%cx_l7s]. by vm_compute.
Qed.
Lemma cx_covers : gc_covers cw_l7s cw_default ex_namer (cx_port 30000) cx_lbs [cx_port 30001; cx_port 30002] ["ns/a"; "ns/b"]
  [cx_port 30001; cx_port 30002] cx_start.
Proof.
  split; [|split].
  - intros ri [-> | ->%list_elem_of_singleton]%elem_of_cons; [apply list_elem_of_here|apply list_elem_of_further, list_elem_of_here].
  - intros p Hp. split; [|by exists p]. by apply elem_of_cons in Hp as [-> | ->%list_elem_of_singleton].
  - intros l (k&[_ <-]%cx_l7s&_) ri Hri.
    apply elem_of_cons in Hri as [-> | ->%list_elem_of_singleton];
      (split_and!; [|by intros ?%elem_of_nil..]); intros He%list_elem_of_singleton; vm_compute in He; discriminate He.
Qed.

Lemma Checkpoint_spec_witness :
  ∃ igs w', cx_checkpoint cx_start = (Ok (igs, None), w') ∧
    mem w' "zone-a" (Namer_InstanceGroup ex_namer) = {["n1"]} ∧
    mem w' "zone-b" (Namer_InstanceGroup ex_namer) = {["n2"]} ∧
    lbs_ready cw_l7s cw_default ex_namer (cx_port 30000) cx_lbs w' ∧
    (∃ g be default, igv w' !! ("zone-b", Namer_InstanceGroup ex_namer) = Some g ∧
       bsv w' !! Namer_Backend ex_namer 30002 = Some be ∧ ig_SelfLink g ∈ bk_Group <$> bs_Backends be ∧
       bsv w' !! Namer_Backend ex_namer 30000 = Some default ∧ ig_SelfLink g ∈ bk_Group <$> bs_Backends default) ∧
    ∃ rule, fwv w' !! Namer_FirewallRule ex_namer = Some rule ∧ grants [30000; 30001; 30002]%Z rule.
Proof.
  pose (L1 := @bw_laws CRest ex_namer "/" ex_neg bw_pool_lens (Some []) [30000%Z] _).
  pose (L2 := @bw_laws CRest ex_namer "/healthz" ex_neg bw_defaults_lens None [] _).
  pose proof (Checkpoint_spec (λ _ _, "gcloud") (λ _ _, "gcloud") (λ _ _, "gcloud") cw_instances bw_pool_lens bw_defaults_lens
    cw_l7s cw_default (FakeProbeProvider_GetProbe []) ex_namer (cx_port 30000) "/" (BackendLaws0 := L1) (BackendLaws1 := L2)
    (H7 := cw_frames ex_namer ["zone-a"; "zone-b"] cx_zone [])
    cx_lbs ["n1"; "n2"] [cx_port 30001; cx_port 30002] [cx_port 30001; cx_port 30002] [30000; 30001; 30002]%Z cx_start
    cx_lbs_wf cx_nodes_wf cx_binv ltac:(by repeat constructor) ltac:(done) ltac:(by repeat constructor)) as Hcp.
  pose proof cx_succeeds as Hok.
  match type of Hcp with wp _ ?Q ?E ?w => change (wp cx_checkpoint Q E w) in Hcp end.
  unfold wp in Hcp. destruct (cx_checkpoint cx_start) as [[[igs e]|e|] w']; [|done..].
  injection Hok as ->. destruct (Hcp eq_refl) as (_&Hg&Hm&[Hb Hd]&Hl&_&Hfw). exists igs, w'. split; [done|].
  split; [refine (eq_trans (Hm "zone-a" (list_elem_of_here "zone-a" ["zone-b"])) _); by vm_compute|].
  split; [refine (eq_trans (Hm "zone-b" (list_elem_of_further "zone-b" _ _ (list_elem_of_here "zone-b" []))) _); by vm_compute|]. split; [exact Hl|].
  split; [|exact (Hfw ltac:(done))].
  destruct (Hg ltac:(done) "zone-b" (list_elem_of_further "zone-b" _ _ (list_elem_of_here "zone-b" []))) as (g&Hgrp&_).
  assert (g ∈ zone_groups ex_namer w') as Hin
    by (apply elem_of_zone_groups; exists "zone-b"; split; [apply list_elem_of_further, list_elem_of_here|exact Hgrp]).
  destruct (Hb (cx_port 30002)) as (link&be&_&Hbe&_&_&_&Hlinked); [apply elem_of_uniq; by vm_compute|by right|].
  destruct (Hd ltac:(done)) as (link'&default&_&Hdb&_&_&_&Hdl). exists g, be, default.
  split; [exact Hgrp|]. split; [exact Hbe|]. split; [by apply Hlinked|]. split; [exact Hdb|by apply Hdl].
Defined.

Lemma Checkpoint_GC_spec_witness :
  ∃ igs w1 w', cx_checkpoint cx_start = (Ok (igs, None), w1) ∧ cx_gc w1 = (Ok tt, w') ∧
    lbs_ready cw_l7s cw_default ex_namer (cx_port 30000) cx_lbs w' ∧
    lget cw_l7s w' !! "ns-old--uid1" = None ∧ bsv w' !! Namer_Backend ex_namer 30009 = None.
Proof.
  pose (L1 := @bw_laws CRest ex_namer "/" ex_neg bw_pool_lens (Some []) [30000%Z] _).
  pose (L2 := @bw_laws CRest ex_namer "/healthz" ex_neg bw_defaults_lens None [] _).
  pose proof (Checkpoint_GC_spec (λ _ _, "gcloud") (λ _ _, "gcloud") (λ _ _, "gcloud") cw_instances bw_pool_lens bw_defaults_lens
    cw_l7s cw_default (FakeProbeProvider_GetProbe []) ex_namer (cx_port 30000) "/" (BackendLaws0 := L1) (BackendLaws1 := L2)
    (H7 := cw_frames ex_namer ["zone-a"; "zone-b"] cx_zone []) (H8 := cw_gc_frames ex_namer ["zone-a"; "zone-b"] cx_zone)
    cx_lbs ["n1"; "n2"] [cx_port 30001; cx_port 30002] [cx_port 30001; cx_port 30002] [30000; 30001; 30002]%Z
    ["ns/a"; "ns/b"] [cx_port 30001; cx_port 30002] cx_start
    cx_lbs_wf cx_nodes_wf cx_binv ltac:(done) ltac:(by repeat constructor) ltac:(done) cx_keys cx_covers) as Hcp.
  pose proof cx_succeeds as Hok. pose proof cx_collects as Hgc. cbv zeta in Hcp.
  match type of Hcp with wp _ ?Q ?E ?w => change (wp cx_checkpoint Q E w) in Hcp end.
  unfold wp at 1 in Hcp. destruct (cx_checkpoint cx_start) as [[[igs e]|e|] w1]; [|done..].
  injection Hok as ->. specialize (Hcp eq_refl). simpl in Hgc.
  match type of Hcp with wp _ ?Q ?E ?w => change (wp cx_gc Q E w) in Hcp end.
  unfold wp in Hcp. destruct (cx_gc w1) as [r w'] eqn:Hw'. simpl in Hgc. subst r.
  destruct Hcp as [(_&_&_&Hl&_) [Hlb Hbe]]. exists igs, w1, w'. split; [done|]. split; [done|]. split; [exact Hl|]. split.
  - apply (Hlb "ns-old--uid1" cx_old); [done|]. apply (bool_decide_unpack _). by vm_compute.
  - apply (Hbe 30009%Z); [done|]. split; [by eexists|]. split; [by vm_compute|].
    intros sp [-> | ->%list_elem_of_singleton]%elem_of_cons; done.
Defined.

Lemma cx_shuts_down : (cm_shutdown cx_cluster cx_start).1 = Ok tt.
Proof. by vm_compute. Qed.
Lemma cx_shutdown_services : bsv (cm_shutdown cx_cluster cx_start).2 !! Namer_Backend ex_namer 30009 = None.
Proof. by vm_compute. Qed.
Lemma cluster_shutdown_spec_witness :
  ∃ w', cm_shutdown cx_cluster cx_start = (Ok tt, w') ∧ lget cw_l7s w' !! "ns-old--uid1" = None ∧ cleaned cx_old (lbv w') ∧
    fwv w' !! Namer_FirewallRule ex_namer = None ∧ igv w' = igv cx_start.
Proof.
  pose (L1 := @bw_laws CRest ex_namer "/" ex_neg bw_pool_lens (Some []) [30000%Z] _).
  pose (L2 := @bw_laws CRest ex_namer "/healthz" ex_neg bw_defaults_lens None [] _).
  pose proof (cluster_shutdown_spec (λ _ _, "gcloud") (λ _ _, "gcloud") (λ _ _, "gcloud") cw_instances bw_pool_lens bw_defaults_lens
    cw_l7s cw_default (FakeProbeProvider_GetProbe []) ex_namer (cx_port 30000) "/" (BackendLaws0 := L1) (BackendLaws1 := L2)
    (ClusterFrames0 := cw_frames ex_namer ["zone-a"; "zone-b"] cx_zone []) (GCFrames0 := cw_gc_frames ex_namer ["zone-a"; "zone-b"] cx_zone)
    (H7 := cw_shutdown_frames) cx_start cx_keys ltac:(by intros k [be ?]) cx_binv ltac:(done)) as Hsd.
  pose proof cx_shuts_down as Hok. pose proof cx_shutdown_services as Hbe.
  match type of Hsd with wp _ ?Q ?E ?w => change (wp (cm_shutdown cx_cluster) Q E w) in Hsd end.
  unfold wp in Hsd. destruct (cm_shutdown cx_cluster cx_start) as [r w']. simpl in Hok, Hbe. subst r.
  destruct Hsd as (Hl&_&Hall&Hig). destruct (Hl "ns-old--uid1" cx_old eq_refl) as [? ?]. exists w'. split_and!; try done.
  destruct Hall as [[? _]|(_&_&Hleft)]; [done|]. destruct (Hleft 30009%Z) as [Hb _]; [done..|].
  unfold be_name in Hb. simpl in Hb. rewrite Hbe in Hb. discriminate Hb.
Defined.
End example.
