(* ===== verification/SyncExample.v ===== *)
(** * SyncExample: a sync on a cloud that keeps all promises

    The world of [CheckpointExample] with a controller that has one ingress, its
    two services, one of them with network endpoint groups, and two nodes in its
    stores. The sync succeeds, and the theorem of [SyncSpec] says what is in the
    cloud at its end. *)

From S2P Require Import Prelude GoLang GoStrings Compute Utils Annotations Namer HealthChecks Instances InstancesSync Firewalls Backends BackendsSpec.
From S2P Require Import LoadBalancers Frames BackendsFake LoadBalancersFake LoadBalancersSpec LoadBalancersSync LoadBalancersExample.
From S2P Require Import K8s TaskQueue Translator TranslatorSpec NegControllerSpec ClusterManager Tls Controller ControllerSpec CheckpointSpec CheckpointExample SyncSpec.

(** ** The stores *)

Definition sx_backend : IngressBackend := MkIngressBackend "svc" (FromInt 80).
Definition sx_neg_backend : IngressBackend := MkIngressBackend "neg" (FromInt 80).
Definition sx_ing : Ingress := MkIngress "ns" "ing" ∅ None
  [MkIngressRule "foo.bar" (Some [MkHTTPIngressPath "/a" sx_backend; MkHTTPIngressPath "/b" sx_neg_backend])] [] [].
Definition sx_svc : Service := MkService "ns" "svc" ∅ ∅ [MkSvcPort "http" 80 30001 (FromInt 8080)].
Definition sx_neg : Service := MkService "ns" "neg" {[NetworkEndpointGroupAlphaAnnotation := "true"]} ∅
  [MkSvcPort "http" 80 30002 (FromInt 8080)].
Definition sx_node (n : string) : Node := MkNode n ∅ false [MkNodeCondition "Ready" "True"].
Definition sx_translator : GCETranslator CWorld := MkTranslator (λ _, {["ns/svc" := sx_svc; "ns/neg" := sx_neg]})
  (λ _, {["n1" := sx_node "n1"; "n2" := sx_node "n2"]}) (λ _, ∅) (λ _, ∅) true (λ _, (∅, None)) (cx_port 30000).
Definition sx_ingLister : lens CWorld (store Ingress) := Lens (λ _, {["ns/ing" := sx_ing]}) (λ _ w, w).

Section example.
#[local] Existing Instances StrictCloud StrictWorld StrictLaws cw_IGs cw_BSs cw_HCs cw_NEGs cw_LBs cw_LB_world cw_LB_laws
  cw_FWs cw_FW_laws cw_IG_laws cw_instances_laws cw_l7s_laws cx_zones cx_members cx_range cx_zrange cx_world.
#[local] Instance sx_client : IngressClient CWorld :=
  {| igc_Get := λ _ _, mret sx_ing; igc_UpdateStatus := λ _, mret tt; igc_Update := λ _, mret tt |}.
#[local] Instance sx_loader : TlsLoader CWorld := {| tl_Load := λ _, mret None |}.
Definition sx_queue : lens CWorld taskQueue := Lens (λ _, NewTaskQueue) (λ _ w, w).
Definition sx_lbc : LoadBalancerController CWorld :=
  MkController sx_ingLister sx_translator cx_cluster sx_queue sx_queue (Lens (λ _, false) (λ _ w, w)) (λ _, true) true.
Definition sx_sync : M CWorld unit := lbc_sync (λ _, "") (λ _, None) sx_lbc "ns/ing".
Lemma sx_succeeds : (sx_sync cx_start).1 = Ok tt.
Proof. by vm_compute. Qed.
Lemma sx_service : is_Some (bsv (sx_sync cx_start).2 !! Namer_Backend ex_namer 30001).
Proof. by eexists; vm_compute. Qed.

(** ** What the theorem asks for *)

Lemma sx_store_frames : StoreFrames cw_instances bw_pool_lens bw_defaults_lens cw_l7s cw_default (FakeProbeProvider_GetProbe []) sx_translator.
Proof. by split; try (split; intros; by intros w). Qed.
Lemma sx_sync_frames : SyncFrames cw_instances bw_pool_lens cw_l7s sx_translator.
Proof.
  split; try (intros; by apply keeps_zoom); try done.
  intros n g. apply (keeps_zoom_in _ bw_services_lens fbs_backendServices).
  - unfold FakeBS_GetGlobalBackendServiceHealth, FakeBS_GetGlobalBackendService. simpl. keeps_go. by intros w.
  - intros x w Hx. unfold be_side. simpl. by rewrite Hx.
Qed.
Lemma sx_stored k i : lget sx_ingLister cx_start !! k = Some i → "ns/ing" = k ∧ sx_ing = i.
Proof. exact (λ Hk, proj1 (lookup_singleton_Some (M := gmap string) _ _ _ _) Hk). Qed.
Lemma sx_store_wf : store_wf cw_l7s cw_default ex_namer (cx_port 30000) sx_ingLister cx_start.
Proof.
  split; [|split].
  - by intros k i [<- <-]%sx_stored.
  - by intros k k' [i [<- _]%sx_stored] [i' [<- _]%sx_stored].
  - by intros k [i [<- _]%sx_stored].
Qed.
Lemma sx_pool_wf : pool_wf cw_l7s cw_default ex_namer (cx_port 30000) cx_start.
Proof. by destruct cx_lbs_wf as (_&_&_&?&?). Qed.
Lemma sx_ports_wf : ports_wf sx_translator cx_start.
Proof.
  intros b ns sp. unfold getServiceNodePort. simpl.
  destruct (decide ("ns/svc" = metaKey ns (ib_ServiceName b))) as [<-|Hne].
  { rewrite lookup_insert_eq. simpl. destruct (SvcAnnotations_ApplicationProtocols _ _); [done|]. intros Hsp. repeat case_match; by simplify_eq/=. }
  rewrite lookup_insert_ne by done. destruct (decide ("ns/neg" = metaKey ns (ib_ServiceName b))) as [<-|Hne'].
  { rewrite lookup_singleton_eq. simpl. destruct (SvcAnnotations_ApplicationProtocols _ _); [done|]. intros Hsp. repeat case_match; by simplify_eq/=. }
  by rewrite lookup_singleton_ne.
Qed.
(** The node ports have different owners. *)
Definition sx_ports : list ServicePort := gcePorts sx_lbc cx_start.
Lemma sx_owners : owners_wf (λ _ _, "gcloud") (λ _ _, "gcloud") (λ _ _, "gcloud") cw_instances bw_pool_lens bw_defaults_lens
  cw_l7s cw_default (FakeProbeProvider_GetProbe []) ex_namer (cx_port 30000) "/" sx_ingLister sx_translator sx_queue sx_queue
  (Lens (λ _, false) (λ _ w, w)) (λ _, true) true cx_start.
Proof.
  assert (sp_Port <$> sx_ports = [30001; 30002]%Z) as Hp by (by vm_compute). split.
  - intros p q Hin Hin'. apply list_elem_of_lookup in Hin as [i Hi], Hin' as [j Hj]. intros Heq.
    assert (NoDup (sp_Port <$> sx_ports)) as Hnd by (rewrite Hp; apply (bool_decide_unpack _); by vm_compute).
    assert (i = j) as -> by (eapply NoDup_lookup; [exact Hnd|rewrite list_lookup_fmap; exact (f_equal (fmap sp_Port) Hi)|
      rewrite list_lookup_fmap, Heq; exact (f_equal (fmap sp_Port) Hj)]).
    rewrite Hi in Hj. by injection Hj as <-.
  - intros p Hin%(list_elem_of_fmap_2 sp_Port) He. change (sp_Port p ∈ sp_Port <$> sx_ports) in Hin. rewrite Hp, He in Hin.
    clear -Hin. by apply elem_of_cons in Hin as [?|[?|?%elem_of_nil]%elem_of_cons].
Qed.
Lemma sx_keys_apart l :
  doomed (cp_l7s cw_l7s cw_default ex_namer (cx_port 30000)) (lbNames sx_lbc cx_start) cx_start l →
  ∀ k, is_Some (lget sx_ingLister cx_start !! k) → unrelated l (named cw_l7s cw_default ex_namer (cx_port 30000) k).
Proof.
  intros (k0&[_ <-]%cx_l7s&_) k [i [<- _]%sx_stored].
  split_and!; [|by intros ?%elem_of_nil..]. intros He%list_elem_of_singleton. vm_compute in He. discriminate He.
Qed.
Lemma sx_wf : sync_wf (λ _ _, "gcloud") (λ _ _, "gcloud") (λ _ _, "gcloud") cw_instances bw_pool_lens bw_defaults_lens
  cw_l7s cw_default (FakeProbeProvider_GetProbe []) ex_namer (cx_port 30000) "/" sx_ingLister sx_translator sx_queue sx_queue
  (Lens (λ _, false) (λ _ w, w)) (λ _, true) true cx_start.
Proof.
  split; [exact sx_store_wf|]. split; [exact sx_pool_wf|]. split; [exact cx_nodes_wf|]. split; [exact cx_binv|].
  split; [done|]. split; [by repeat constructor|]. split; [exact cx_keys|]. split; [exact sx_ports_wf|]. split; [exact sx_owners|exact sx_keys_apart].
Qed.

Definition sx_checkpoint (lbs : list L7RuntimeInfo) : M CWorld (list InstanceGroup * option error) :=
  Checkpoint cx_cluster lbs (getReadyNodeNames (tr_nodeLister sx_translator cx_start)) (gcePorts sx_lbc cx_start) (allPorts sx_lbc cx_start)
    (gatherFirewallPorts sx_translator cx_start (gcePorts sx_lbc cx_start) (bool_decide (0 < length lbs))).
Lemma sx_firewall lbs igs err w2 :
  toRuntimeInfo (ingLister_ListGCEIngresses (lget sx_ingLister cx_start)) cx_start = (Ok lbs, cx_start) →
  sx_checkpoint lbs cx_start = (Ok (igs, Some err), w2) → isFirewallSyncError err = false.
Proof.
  intros Hri%(f_equal fst) Hcp. vm_compute in Hri. injection Hri as <-.
  assert ((snd <$> match (sx_checkpoint [MkL7RuntimeInfo "ns/ing" "" None "" true ""] cx_start).1 with Ok r => Some r | _ => None end) = Some None)
    as Hok by (by vm_compute).
  rewrite Hcp in Hok. discriminate Hok.
Qed.
Lemma sx_hosts : hosts_wf sx_ing.
Proof.
  assert (∀ h, is_Some (lastRule (ing_Rules sx_ing) h) → h = "foo.bar") as Hh.
  { intros h. unfold lastRule. simpl. case_decide as Hd; [by intros _|by intros []]. }
  by intros h h' ->%Hh ->%Hh.
Qed.

Definition sx_neg_port : ServicePort :=
  MkServicePort 30002 ProtocolHTTP (MkNamespacedName "ns" "neg") (FromInt 80) "8080" true.
Lemma sx_neg_in : sx_neg_port ∈ toNodePorts sx_translator cx_start [sx_ing].
Proof. apply elem_of_toNodePorts. exists sx_ing, sx_neg_backend. split; [apply list_elem_of_here|]. split; [|by vm_compute].
  unfold backendsOf. simpl. apply list_elem_of_further, list_elem_of_here. Qed.
Lemma sx_zones : ListZones (tr_nodeLister sx_translator cx_start) = [DefaultZone].
Proof. by vm_compute. Qed.

Lemma sx_has_lbs : runtime_of cx_start <$> ingLister_ListGCEIngresses (lget sx_ingLister cx_start) ≠ [].
Proof. intros He%(f_equal length). by vm_compute in He. Qed.

Lemma sync_spec_witness :
  ∃ w' l um x, sx_sync cx_start = (Ok tt, w') ∧ lget cw_l7s w' !! "ns-ing--uid1" = Some l ∧ lb_serves (lbv w') l ∧
    l7_um l = Some um ∧ bsv w' !! Namer_Backend ex_namer 30001 = Some x ∧ route um "foo.bar" "/a" = bs_SelfLink x ∧
    lget cw_l7s w' !! "ns-old--uid1" = None ∧
    (∃ default, bsv w' !! Namer_Backend ex_namer 30000 = Some default ∧
       ∀ g, igv w' !! ("zone-b", Namer_InstanceGroup ex_namer) = Some g → ig_SelfLink g ∈ bk_Group <$> bs_Backends default) ∧
    ∃ be, bsv w' !! Namer_Backend ex_namer 30002 = Some be ∧
      (list_to_set (bk_Group <$> bs_Backends be) : gset string) = {["neg-in-" +:+ DefaultZone]}.
Proof.
  pose (L1 := @bw_laws CRest ex_namer "/" ex_neg bw_pool_lens (Some []) [30000%Z] _).
  pose (L2 := @bw_laws CRest ex_namer "/healthz" ex_neg bw_defaults_lens None [] _).
  pose proof sx_succeeds as Hok. pose proof sx_service as Hsvc.
  destruct (sx_sync cx_start) as [r w'] eqn:Hw. simpl in Hok, Hsvc. subst r. destruct Hsvc as [x Hx].
  destruct (sync_spec (λ _ _, "gcloud") (λ _ _, "gcloud") (λ _ _, "gcloud") cw_instances bw_pool_lens bw_defaults_lens
    cw_l7s cw_default (FakeProbeProvider_GetProbe []) ex_namer (cx_port 30000) "/" (λ _, "") (λ _, None)
    (BackendLaws0 := L1) (BackendLaws1 := L2)
    (ClusterFrames0 := cw_frames ex_namer ["zone-a"; "zone-b"] cx_zone []) (GCFrames0 := cw_gc_frames ex_namer ["zone-a"; "zone-b"] cx_zone)
    sx_ingLister sx_translator sx_queue sx_queue (Lens (λ _, false) (λ _ w, w)) (λ _, true) true
    (H9 := sx_store_frames) (H10 := sx_sync_frames) "ns/ing" sx_ing cx_start sx_wf eq_refl eq_refl w')
    as ((l&um&d&Hl&_&Hs&Hum&_&Hroute)&(_&_&[_ Hdef]&_)&Hneg&Hcol&_); [| |exact Hw|].
  - exact sx_hosts.
  - exact sx_firewall.
  - exists w', l, um, x. split; [reflexivity|]. split; [exact Hl|]. split; [exact Hs|]. split; [exact Hum|]. split; [exact Hx|]. split.
    + refine (eq_trans (Hroute "foo.bar" "/a" _) _); [discriminate|].
      exact (f_equal (λ o, default d (bs_SelfLink <$> o)) Hx).
    + split; [apply (Hcol "ns-old--uid1" cx_old); [reflexivity|]; apply (bool_decide_unpack _); by vm_compute|]. split.
      { destruct Hdef as (link&default&_&Hdb&_&_&_&Hdl); [exact sx_has_lbs|]. exists default. split; [exact Hdb|].
        intros g Hgrp. apply (Hdl eq_refl g), elem_of_zone_groups. exists "zone-b".
        split; [apply list_elem_of_further, list_elem_of_here|exact Hgrp]. }
      destruct (Hneg eq_refl sx_neg_port sx_neg_in eq_refl) as (name&negs&be&_&HF&Hbe&Hset). exists be. split; [exact Hbe|].
      rewrite Hset. rewrite sx_zones in HF. apply Forall2_cons_inv_l in HF as (n1&r1&[= <-]&HF&->).
      apply Forall2_nil_inv_l in HF as ->. vm_compute. reflexivity.
Defined.
End example.
