(* ===== verification/FakeCluster.v ===== *)
(** * FakeCluster: pkg/controller/fakes.go

    The cluster manager of the tests: the modelled pools over the fakes of
    their components, in one world. A whole sync of the controller runs on it:
    an ingress is created, synced again and deleted, and the objects in the
    fake cloud are what each step should leave. *)

From S2P Require Import Prelude GoLang GoStrings Compute Utils Annotations Namer HealthChecks Instances Firewalls Backends.
From S2P Require Import BackendsFake LoadBalancers LoadBalancersFake LoadBalancersExample K8s TaskQueue Translator ClusterManager Tls.
From S2P Require Import Controller ControllerSpec LoadBalancersSpec NegFakes.

(** ** The fakes and the caches of the pools *)

Record FakeClouds := MkFakeClouds {
  fc_lbs : FakeLoadBalancers;
  fc_backends : FakeBackendServices;
  fc_igs : FakeInstanceGroups;
  fc_hcs : FakeHealthCheckProvider;
  fc_negs : FakeNEGCloud;
  fc_fws : fakeFirewallsProvider;
}.
Record Caches := MkCaches {
  ca_instances : gmap string unit;
  ca_backends : gmap string (option BackendService);
  ca_l7s : gmap string L7;
  ca_default : option BackendService;
}.
Definition fc_lbs_lens : lens FakeClouds FakeLoadBalancers := Lens fc_lbs
  (λ x c, MkFakeClouds x (fc_backends c) (fc_igs c) (fc_hcs c) (fc_negs c) (fc_fws c)).
Definition fc_backends_lens : lens FakeClouds FakeBackendServices := Lens fc_backends
  (λ x c, MkFakeClouds (fc_lbs c) x (fc_igs c) (fc_hcs c) (fc_negs c) (fc_fws c)).
Definition fc_igs_lens : lens FakeClouds FakeInstanceGroups := Lens fc_igs
  (λ x c, MkFakeClouds (fc_lbs c) (fc_backends c) x (fc_hcs c) (fc_negs c) (fc_fws c)).
Definition fc_hcs_lens : lens FakeClouds FakeHealthCheckProvider := Lens fc_hcs
  (λ x c, MkFakeClouds (fc_lbs c) (fc_backends c) (fc_igs c) x (fc_negs c) (fc_fws c)).
Definition fc_negs_lens : lens FakeClouds FakeNEGCloud := Lens fc_negs
  (λ x c, MkFakeClouds (fc_lbs c) (fc_backends c) (fc_igs c) (fc_hcs c) x (fc_fws c)).
Definition fc_fws_lens : lens FakeClouds fakeFirewallsProvider := Lens fc_fws
  (λ x c, MkFakeClouds (fc_lbs c) (fc_backends c) (fc_igs c) (fc_hcs c) (fc_negs c) x).
Definition ca_instances_lens : lens Caches (gmap string unit) := Lens ca_instances
  (λ x c, MkCaches x (ca_backends c) (ca_l7s c) (ca_default c)).
Definition ca_backends_lens : lens Caches (gmap string (option BackendService)) := Lens ca_backends
  (λ x c, MkCaches (ca_instances c) x (ca_l7s c) (ca_default c)).
Definition ca_l7s_lens : lens Caches (gmap string L7) := Lens ca_l7s
  (λ x c, MkCaches (ca_instances c) (ca_backends c) x (ca_default c)).
Definition ca_default_lens : lens Caches (option BackendService) := Lens ca_default
  (λ x c, MkCaches (ca_instances c) (ca_backends c) (ca_l7s c) x).

(** ** NewFakeClusterManager *)

Definition testDefaultBeNodePort : ServicePort :=
  MkServicePort 3000 ProtocolHTTP (MkNamespacedName "" "") (FromInt 0) "" false.
(** The zero value: the fake leaves the field of the cluster manager unset. *)
Definition zeroServicePort : ServicePort := MkServicePort 0 "" (MkNamespacedName "" "") (FromInt 0) "" false.

Definition NewFakeClouds (clusterName : string) : FakeClouds :=
  MkFakeClouds (NewFakeLoadBalancers clusterName) (NewFakeBackendServices (Some (λ _ _, None)))
    (NewFakeInstanceGroups ∅) NewFakeHealthCheckProvider
    (NewFakeNetworkEndpointGroupCloud "test-subnet" "test-network") (NewFakeFirewallsProvider false false).

Section manager.
Context {W : Type} (clouds : lens W FakeClouds) (caches : lens W Caches) `{MapRange}.
Context (createCmd updateCmd : Firewall → string → string) (deleteCmd : string → string → string).

Definition NewFakeClusterManager (clusterName firewallName : string) : ClusterManager W :=
  let lbs := LoadBalancers_zoom (lens_comp clouds fc_lbs_lens) in
  let backends := BackendServices_zoom (lens_comp clouds fc_backends_lens) in
  let igs := InstanceGroups_zoom (lens_comp clouds fc_igs_lens) in
  let hcs := HealthCheckProvider_zoom (lens_comp clouds fc_hcs_lens) in
  let negs := {| ngg_GetNetworkEndpointGroup := λ name zone,
    zoom (lens_comp clouds fc_negs_lens) (FakeNEG_Get name zone) |} in
  let fws := FirewallCloud_zoom (lens_comp clouds fc_fws_lens) in
  let zones := FakeZoneLister ["zone-a"] in
  let namer := NewNamer clusterName firewallName in
  let nodePool := NewNodePool (MkInstances (lens_comp caches ca_instances_lens) namer) in
  let healthChecker := NewHealthChecker (MkHealthChecks "/" namer) in
  let backendPool := Backends_pool (H1 := healthChecker) (H2 := nodePool)
    (NewBackendPool (lens_comp caches ca_backends_lens) namer []) in
  let l7s := MkL7s (lens_comp caches ca_l7s_lens) (lens_comp caches ca_default_lens) testDefaultBeNodePort namer in
  let frPool := NewFirewallPool namer in
  MkClusterManager namer zeroServicePort nodePool backendPool (NewLoadBalancerPool (H0 := backendPool) l7s)
    (λ A key m, lb ← L7s_Get l7s key; L7s_run l7s (Namer_LoadBalancer namer key) lb m)
    {| fwp_Sync := FirewallRules_Sync createCmd updateCmd deleteCmd frPool;
       fwp_Shutdown := FirewallRules_Shutdown deleteCmd frPool |}.
End manager.

(** ** The controller on the fake cluster *)

(** The Kubernetes side: the informers' stores, the ingresses at the API server,
    and the controller's own state. *)
Record Kube := MkKube {
  ku_ingresses : store Ingress;
  ku_services : store Service;
  ku_nodes : store Node;
  ku_api : store Ingress;
  ku_ingQueue : taskQueue;
  ku_nodeQueue : taskQueue;
  ku_shutdown : bool;
}.
Definition ku_ingresses_lens : lens Kube (store Ingress) := Lens ku_ingresses
  (λ x k, MkKube x (ku_services k) (ku_nodes k) (ku_api k) (ku_ingQueue k) (ku_nodeQueue k) (ku_shutdown k)).
Definition ku_api_lens : lens Kube (store Ingress) := Lens ku_api
  (λ x k, MkKube (ku_ingresses k) (ku_services k) (ku_nodes k) x (ku_ingQueue k) (ku_nodeQueue k) (ku_shutdown k)).
Definition ku_ingQueue_lens : lens Kube taskQueue := Lens ku_ingQueue
  (λ x k, MkKube (ku_ingresses k) (ku_services k) (ku_nodes k) (ku_api k) x (ku_nodeQueue k) (ku_shutdown k)).
Definition ku_nodeQueue_lens : lens Kube taskQueue := Lens ku_nodeQueue
  (λ x k, MkKube (ku_ingresses k) (ku_services k) (ku_nodes k) (ku_api k) (ku_ingQueue k) x (ku_shutdown k)).
Definition ku_shutdown_lens : lens Kube bool := Lens ku_shutdown
  (λ x k, MkKube (ku_ingresses k) (ku_services k) (ku_nodes k) (ku_api k) (ku_ingQueue k) (ku_nodeQueue k) x).

Abbreviation FakeWorld := (FakeClouds * (Caches * Kube))%type.
Definition kube_lens : lens FakeWorld Kube := lens_comp lens_snd lens_snd.

#[local] Instance fw_range : MapRange := sortedRange.
#[local] Instance fw_zrange : KeyRange Z := listRange Z.
#[local] Instance fw_lbs : LoadBalancers FakeWorld := LoadBalancers_zoom (lens_comp lens_fst fc_lbs_lens).
#[local] Instance fw_client : IngressClient FakeWorld := {|
  igc_Get := λ ns name,
    o ← zoom (lens_comp kube_lens ku_api_lens) (getW (λ s : store Ingress, s !! metaKey ns name));
    match o with Some ing => mret ing | None => throw FakeGoogleAPINotFoundErr end;
  igc_UpdateStatus := λ ing, zoom (lens_comp kube_lens ku_api_lens) (modW <[metaKey (ing_Namespace ing) (ing_Name ing) := ing]>);
  igc_Update := λ ing, zoom (lens_comp kube_lens ku_api_lens) (modW <[metaKey (ing_Namespace ing) (ing_Name ing) := ing]>);
|}.
#[local] Instance fw_tls : TlsLoader FakeWorld := {| tl_Load := λ _, mret None |}.

Definition fakeManager : ClusterManager FakeWorld :=
  NewFakeClusterManager lens_fst (lens_comp lens_snd lens_fst) (λ _ _, "") (λ _ _, "") (λ _ _, "") "uid1" "".
Definition fakeController : LoadBalancerController FakeWorld := MkController
  (lens_comp kube_lens ku_ingresses_lens)
  (MkTranslator (λ w, ku_services (lget kube_lens w)) (λ w, ku_nodes (lget kube_lens w)) (λ _, ∅) (λ _, ∅) true
    (λ _, (∅, None)) zeroServicePort)
  fakeManager (lens_comp kube_lens ku_ingQueue_lens) (lens_comp kube_lens ku_nodeQueue_lens)
  (lens_comp kube_lens ku_shutdown_lens) (λ _, true) true.
Definition fakeSync : string → M FakeWorld unit :=
  lbc_sync (λ _, "groups") (λ _, None) fakeController.

(** An ingress with one rule, its service and a ready node. *)
Definition fk_ing : Ingress := MkIngress "default" "web" ∅ None
  [MkIngressRule "foo.example.com" (Some [MkHTTPIngressPath "/foo1" (MkIngressBackend "foo1svc" (FromInt 80))])] [] [].
Definition fk_svc : Service := MkService "default" "foo1svc" ∅ ∅ [MkSvcPort "http" 80 30001 (FromInt 8080)].
Definition fk_node : Node := MkNode "node1" {[ZoneKey := "zone-a"]} false [MkNodeCondition "Ready" "True"].
Definition fk_kube (ings : store Ingress) : Kube :=
  MkKube ings {["default/foo1svc" := fk_svc]} {["node1" := fk_node]} ings NewTaskQueue NewTaskQueue false.
Definition fk_start : FakeWorld := (NewFakeClouds "uid1", (MkCaches ∅ ∅ ∅ None, fk_kube {["default/web" := fk_ing]})).

(** What the clouds hold: the names of the forwarding rules, url maps, proxies,
    backend services, health checks and firewall rules, and the instance groups. *)
Definition cloudNames (w : FakeWorld) : list (list string) :=
  let c := w.1 in
  [fw_Name <$> flb_Fw (fc_lbs c); um_Name <$> flb_Um (fc_lbs c); tp_Name <$> flb_Tp (fc_lbs c);
   (map_to_list (fbs_backendServices (fc_backends c))).*1; (map_to_list (fhc_generic (fc_hcs c))).*1;
   (map_to_list (ff_fw (fc_fws c))).*1; ig_Name <$> fig_instanceGroups (fc_igs c)].
Definition created : FakeWorld := (fakeSync "default/web" fk_start).2.
Definition resynced : FakeWorld := (fakeSync "default/web" created).2.
Definition withoutIngress (w : FakeWorld) : FakeWorld := (w.1, (w.2.1, fk_kube ∅)).

(** Creating the ingress makes every object, the rule's path is routed to the
    service's backend, which listens on the instance group, the traffic to the
    node port is allowed, and the address is in the status of the ingress. *)
Example fake_create :
  (fakeSync "default/web" fk_start).1 = Ok tt ∧
  cloudNames created = [["k8s-fw-default-web--uid1"]; ["k8s-um-default-web--uid1"]; ["k8s-tp-default-web--uid1"];
    ["k8s-be-30001--uid1"]; ["k8s-be-30001--uid1"]; ["k8s-fw-l7--uid1"]; ["k8s-ig--uid1"]] ∧
  ((λ um, route um "foo.example.com" "/foo1") <$> flb_Um (fc_lbs created.1)) = ["k8s-be-30001--uid1"] ∧
  ((λ be, (bs_Port be, bk_Group <$> bs_Backends be)) <$> fbs_backendServices (fc_backends created.1) !! "k8s-be-30001--uid1")
    = Some (30001%Z, ["k8s-ig--uid1"]) ∧
  (ing_StatusIPs <$> ku_api created.2.2 !! "default/web") = Some ["0.0.0.1"].
Proof. split_and!; by vm_compute. Qed.
(** A second sync changes none of them. *)
Example fake_resync :
  (fakeSync "default/web" created).1 = Ok tt ∧ cloudNames resynced = cloudNames created ∧
  flb_Um (fc_lbs resynced.1) = flb_Um (fc_lbs created.1).
Proof. split_and!; by vm_compute. Qed.
(** The sync of the deleted ingress takes everything away. *)
Example fake_delete :
  let r := fakeSync "default/web" (withoutIngress resynced) in
  r.1 = Ok tt ∧ cloudNames r.2 = [[]; []; []; []; []; []; []].
Proof. split; by vm_compute. Qed.
