(* ===== verification/Glbc.v ===== *)
(** * Glbc: cmd/glbc/main.go

    The start of the process: the names of the cluster and of its firewall rule,
    which are kept in a config map across restarts and polled while the process
    runs; the node port of the default backend; the cloud client; and what the
    health and shutdown end points do; and [main] up to the point where the
    controllers run. Flag parsing and the HTTP server are left out; [glog.Fatal]
    ends the process, as a panic does. *)

From S2P Require Import Prelude GoLang GoStrings Md5 Compute Utils Namer ConfigMaps Instances Backends.
From S2P Require Import LoadBalancers K8s TaskQueue Translator ClusterManager Tls Controller.

Definition uidConfigMapName : string := "ingress-uid".
(** The vault of [storage.NewConfigMapVault(kubeClient, metav1.NamespaceSystem, uidConfigMapName)]. *)
Definition uidVault : ConfigMapVault := MkConfigMapVault "kube-system" uidConfigMapName.

(** The calls of the Kubernetes client, and the eight bytes that a successful
    read of /dev/urandom leaves in the buffer. *)
Class GlbcEnv (W : Type) := {
  ge_Ingresses_List : M W (list Ingress); (* all namespaces, all labels *)
  ge_Services_Get : string → string → M W Service; (* namespace, name *)
  ge_urandom : M W (list N);
}.
(** The cloud provider: its construction from a configuration text and the call
    that tells whether the client works. *)
Class CloudProvider (W Cloud : Type) := {
  cp_GetCloudProvider : option string → M W Cloud;
  cp_ListGlobalBackendServices : Cloud → M W unit;
}.

(** ** The names of the cluster *)

Section names.
Context {W : Type} `{ConfigMapStore W, GlbcEnv W}.

Definition useDefaultOrLookupVault (cfgVault : ConfigMapVault) (cm_key default_name : string) : M W string :=
  if decide (default_name ≠ "") then mret default_name else
  r ← try (ConfigMapVault_Get cfgVault cm_key);
  match r with
  | inl err => throw (Errorf "failed to retrieve %v: %v, returning empty name" [cm_key] [err])
  | inr None => mret ""
  | inr (Some val) => mret val
  end.

Definition getFirewallName (name cluster_uid : string) : M W string :=
  fw_name ← useDefaultOrLookupVault uidVault ProviderDataKey name;
  if decide (fw_name ≠ "") then
    _ ← ConfigMapVault_Put uidVault ProviderDataKey fw_name;
    mret fw_name
  else
    _ ← ConfigMapVault_Put uidVault ProviderDataKey cluster_uid;
    mret cluster_uid.

(** The first ingress with an address decides; its forwarding rule's name carries
    the uid. *)
Definition workingIngress (ings : list Ingress) : option Ingress :=
  List.find (λ ing, bool_decide (length (ing_StatusIPs ing) ≠ 0)) ings.
Definition getClusterUID (name : string) : M W string :=
  name ← useDefaultOrLookupVault uidVault UidDataKey name;
  if decide (name ≠ "") then mret name else
  ings ← ge_Ingresses_List;
  match workingIngress ings with
  | Some ing =>
      let c := Namer_ParseName (MkNamer "" "") (GCEResourceName (ing_Annotations ing) "forwarding-rule") in
      if decide (nc_ClusterName c ≠ "") then
        _ ← ConfigMapVault_Put uidVault UidDataKey (nc_ClusterName c);
        mret (nc_ClusterName c)
      else
        _ ← ConfigMapVault_Put uidVault UidDataKey "";
        mret ""
  | None =>
      b ← ge_urandom;
      let uid := hex_EncodeToString b in
      _ ← ConfigMapVault_Put uidVault UidDataKey uid;
      mret uid
  end.

Definition newNamer (clusterName fwName : string) : M W Namer :=
  name ← getClusterUID clusterName;
  fw_name ← getFirewallName fwName name;
  mret (NewNamer name fw_name).

(** One round of the go routine that polls the config map, on the namer that
    every pool shares. *)
Definition pollKey (namer : lens W Namer) (key : string) (change : string → Namer → Namer) : M W unit :=
  r ← try (ConfigMapVault_Get uidVault key);
  match r with
  | inr (Some val) => zoom namer (modW (change val))
  | _ => mret tt
  end.
Definition pollUid (namer : lens W Namer) : M W unit :=
  _ ← pollKey namer UidDataKey (λ val n, if decide (Namer_UID n ≠ val) then Namer_SetUID val n else n);
  pollKey namer ProviderDataKey
    (λ val n, if decide (Namer_Firewall n ≠ val) then Namer_SetFirewall val n else n).

End names.

(** ** The default backend *)

Section backend.
Context {W : Type} `{GlbcEnv W}.

(** [wait.Poll] asks [ticks] times before its timeout; the named result [err] is
    the one of the last answer. *)
Fixpoint getNodePort (ticks : nat) (ns name : string) : M W (Z * Z) :=
  match ticks with
  | 0 => mret (0, 0)%Z
  | S ticks' =>
      r ← try (ge_Services_Get ns name);
      match r with
      | inl err => if decide (ticks' = 0) then throw err else getNodePort ticks' ns name
      | inr svc =>
          mret (match List.find (λ p, bool_decide (kp_NodePort p ≠ 0%Z)) (svc_Ports svc) with
                | Some p => (kp_Port p, kp_NodePort p)
                | None => (0, 0)%Z
                end)
      end
  end.

(** The part of [main] that makes the port of the default backend. *)
Definition defaultBackendNodePort (ticks : nat) (defaultSvc : string) : M W ServicePort :=
  match Split defaultSvc "/" with
  | [ns; name] =>
      r ← try (getNodePort ticks ns name);
      match r with
      | inl _ => panic
      | inr (port, nodePort) =>
          mret (MkServicePort nodePort ProtocolHTTP (MkNamespacedName ns name) (FromInt port) "" false)
      end
  | _ => panic
  end.

End backend.

(** ** The cloud client *)

Section cloud.
Context {W Cloud : Type} `{CloudProvider W Cloud}.

(** A round of the loop of [getGCEClient]; [None] when it has to try again. *)
Definition tryGCEClient (allConfig : option string) : M W (option Cloud) :=
  r ← try (cp_GetCloudProvider allConfig);
  match r with
  | inl _ => mret None
  | inr cloud =>
      l ← try (cp_ListGlobalBackendServices cloud);
      match l with
      | inr _ => mret (Some cloud)
      | inl err => mret (if IsHTTPErrorCode err StatusForbidden then Some cloud else None)
      end
  end.
Fixpoint retryGCEClient (rounds : nat) (allConfig : option string) : M W (option Cloud) :=
  match rounds with
  | 0 => mret None
  | S rounds =>
      r ← tryGCEClient allConfig;
      match r with Some cloud => mret (Some cloud) | None => retryGCEClient rounds allConfig end
  end.
(** [config] is what reading the whole configuration file gives. The loop has no
    bound in the source: [None] is that it still runs after [rounds] rounds. *)
Definition getGCEClient (rounds : nat) (config : option (error + string)) : M W (option Cloud) :=
  match config with
  | Some (inl _) => panic
  | Some (inr text) => retryGCEClient rounds (Some text)
  | None => retryGCEClient rounds None
  end.

End cloud.

(** ** main *)

(** The flags, and their values when they are not given; the period is in seconds. *)
Record Flags := MkFlags {
  fl_clusterName : string;
  fl_inCluster : bool;
  fl_apiServerHost : string;
  fl_kubeConfigFile : string;
  fl_useRealCloud : bool;
  fl_resyncPeriod : Z;
  fl_deleteAllOnQuit : bool;
  fl_defaultSvc : string;
  fl_healthCheckPath : string;
  fl_watchNamespace : string;
  fl_verbose : bool;
  fl_configFilePath : string;
  fl_healthzPort : Z;
}.
Definition lbAPIPort : Z := 8081.
Definition defaultFlags : Flags :=
  MkFlags "" true "" "" false 30 false "kube-system/default-http-backend" "/" "" false "" lbAPIPort.
(** The calls that make a Kubernetes client, the configuration file of the
    cloud, and the gate of the cloud for network endpoint groups. *)
Class MainEnv (W Config Cloud : Type) := {
  me_InClusterConfig : M W Config;
  me_ClientConfig : string → string → M W Config; (* kubeconfig path, server *)
  me_NewForConfig : Config → M W unit;
  me_ReadFile : string → M W (error + string);
  me_AlphaFeatureNEG : Cloud → bool;
}.
Arguments MainEnv W Config Cloud : clear implicits.

(** What runs in the end: the cluster manager of [NewClusterManager] or the fake
    one, whether the controller of network endpoint groups is started next to the
    load balancer controller, and the values that the informers, the handler of
    the signal and the HTTP server get. *)
Inductive glbcManager :=
  | RealManager (namer : Namer) (defaultBackendNodePort : ServicePort) (healthCheckPath : string)
  | FakeManager (clusterName firewallName : string).
Record glbcRun (Cloud : Type) := MkGlbcRun {
  gr_cloud : Cloud;
  gr_manager : glbcManager;
  gr_neg : bool;
  gr_watchNamespace : string;
  gr_resyncPeriod : Z;
  gr_deleteAllOnQuit : bool;
  gr_healthzPort : Z;
}.
Arguments MkGlbcRun {Cloud} _ _ _ _ _ _ _.
Arguments gr_cloud {Cloud} _.
Arguments gr_manager {Cloud} _.
Arguments gr_neg {Cloud} _.
Arguments gr_watchNamespace {Cloud} _.
Arguments gr_resyncPeriod {Cloud} _.
Arguments gr_deleteAllOnQuit {Cloud} _.
Arguments gr_healthzPort {Cloud} _.

Section main.
Context {W Config Cloud : Type} `{ConfigMapStore W, GlbcEnv W, CloudProvider W Cloud, MainEnv W Config Cloud}.

(** [glog.Fatalf] when the call fails. *)
Definition orFatal {A} (m : M W A) : M W A :=
  r ← try m; match r with inl _ => panic | inr a => mret a end.

Definition kubeConfig (fl : Flags) : M W Config :=
  if fl_inCluster fl then orFatal me_InClusterConfig
  else if decide (fl_apiServerHost fl = "") then panic
  else orFatal (me_ClientConfig (fl_kubeConfigFile fl) (fl_apiServerHost fl)).
(** The cluster manager and the cloud; the first [None] is that the cloud client
    is still being tried after [rounds] rounds, the second the nil pointer. *)
Definition makeManager (rounds : nat) (fl : Flags) (port : ServicePort) : M W (option (glbcManager * option Cloud)) :=
  if fl_inCluster fl || fl_useRealCloud fl then
    namer ← orFatal (newNamer (fl_clusterName fl) "");
    cloud ← (if decide (fl_configFilePath fl ≠ "")
             then text ← orFatal (me_ReadFile (fl_configFilePath fl)); getGCEClient rounds (Some text)
             else getGCEClient rounds None);
    mret ((λ c, (RealManager namer port (fl_healthCheckPath fl), Some c)) <$> cloud)
  else mret (Some (FakeManager (fl_clusterName fl) "", None)).
(** [enableNEG] is a field of the cloud. *)
Definition glbc_main (ticks rounds : nat) (fl : Flags) : M W (option (glbcRun Cloud)) :=
  if decide (fl_defaultSvc fl = "") then panic else
  config ← kubeConfig fl;
  _ ← orFatal (me_NewForConfig config);
  port ← defaultBackendNodePort ticks (fl_defaultSvc fl);
  r ← makeManager rounds fl port;
  match r with
  | None => mret None
  | Some (manager, cloud) =>
      cloud ← ofOption cloud;
      mret (Some (MkGlbcRun cloud manager (me_AlphaFeatureNEG cloud) (fl_watchNamespace fl) (fl_resyncPeriod fl)
        (fl_deleteAllOnQuit fl) (fl_healthzPort fl)))
  end.

End main.

(** ** End points *)

Section endpoints.
Context {W : Type}.
Implicit Types lbc : LoadBalancerController W.

(** The status and, when unhealthy, the error in the body. *)
Definition healthz lbc : M W (Z * option error) :=
  r ← try (IsHealthy (lbc_CloudClusterManager lbc));
  mret (match r with inl err => (500%Z, Some err) | inr _ => (200%Z, None) end).
Definition deleteAllAndQuit lbc : M W unit :=
  r ← try (lbc_Stop lbc true); mret tt.
(** The exit code after a SIGTERM. *)
Definition handleSigterm lbc (deleteAll : bool) : M W Z :=
  r ← try (lbc_Stop lbc deleteAll);
  mret (match r with inl _ => 1%Z | inr _ => 0%Z end).

End endpoints.

(** ** The dry run *)

Section dry_run.
Context {W Config Cloud : Type} `{ConfigMapStore W, GlbcEnv W, CloudProvider W Cloud, MainEnv W Config Cloud}.

(** A call that returns no error, and one that ends the process. *)
Definition no_error {A} (m : M W A) : Prop := ∀ w e, (m w).1 ≠ Err e.
Definition fatal {A} (m : M W A) : Prop := ∀ w, (m w).1 = Panic.

Lemma fatal_bind {A B} (m : M W A) (k : A → M W B) : no_error m → (∀ a, fatal (k a)) → fatal (m ≫= k).
Proof.
  intros Hm Hk w. unfold mbind, M_bind. specialize (Hm w). destruct (m w) as [[a|e|] w']; [apply Hk|by destruct (Hm e)|done].
Qed.
Lemma orFatal_no_error {A} (m : M W A) : no_error (orFatal m).
Proof. intros w e. unfold orFatal, mbind, M_bind, try. by destruct (m w) as [[] ?]. Qed.
Lemma kubeConfig_no_error fl : no_error (kubeConfig fl).
Proof. unfold kubeConfig. destruct (fl_inCluster fl); [apply orFatal_no_error|]. case_decide; [done|apply orFatal_no_error]. Qed.
Lemma defaultBackend_no_error ticks svc : no_error (defaultBackendNodePort ticks svc).
Proof.
  intros w e. unfold defaultBackendNodePort, mbind, M_bind, try. repeat (case_match; simplify_eq; try done).
Qed.

(** The dry run with the fake cluster manager, which the usage comment of main.go
    offers, never runs: without a cloud [cloud.AlphaFeatureGate] dereferences nil. *)
Theorem dry_run_fatal ticks rounds fl :
  fl_inCluster fl = false → fl_useRealCloud fl = false → fatal (glbc_main ticks rounds fl).
Proof.
  intros Hin Hreal. unfold glbc_main, makeManager. rewrite Hin, Hreal. case_decide; [done|].
  apply fatal_bind; [apply kubeConfig_no_error|]. intros config.
  apply fatal_bind; [apply orFatal_no_error|]. intros _.
  by apply fatal_bind; [apply defaultBackend_no_error|].
Qed.
End dry_run.

(** ** The names survive a restart *)

(** What is relied on: reading ingresses and random bytes does not touch the
    config map, and creating a config map that exists fails. *)
Class GlbcLaws (W : Type) `{ConfigMapStore W, GlbcEnv W} `{!ConfigMapStoreLaws uidVault} := {
  gl_List w :
    wp ge_Ingresses_List (λ _ w', cms_view w' = cms_view w) (λ _ _, True) w;
  gl_urandom w :
    wp ge_urandom (λ b w', length b = 8 ∧ cms_view w' = cms_view w) (λ _ _, True) w;
  gl_Add_fresh d w :
    wp (cms_Add (MkConfigMap (cmv_namespace uidVault) (cmv_name uidVault) d))
      (λ _ _, cms_view w = None) (λ _ _, True) w;
}.

Section laws.
Context {W : Type} `{GlbcLaws W}.
Local Abbreviation value := (vault_value uidVault).

(** The name a flag and the recorded value give. *)
Definition resolve (flag : string) (recorded : option string) : string :=
  if decide (flag ≠ "") then flag else default "" recorded.

Lemma lookup_ok key flag w :
  wp (useDefaultOrLookupVault uidVault key flag)
    (λ r w', r = resolve flag (value w key) ∧ cms_view w' = cms_view w) (λ _ _, True) w.
Proof.
  unfold useDefaultOrLookupVault, resolve. case_decide; [by apply wp_ret|].
  apply wp_bind, wp_try. wp_use (ConfigMapVault_Get_spec uidVault); simpl.
  - intros r w' [-> Hv]. destruct (value w key); by apply wp_ret.
  - intros. by apply wp_throw.
Qed.

Lemma value_view w w' key : cms_view w' = cms_view w → value w' key = value w key.
Proof. unfold vault_value. by intros ->. Qed.
Lemma has_data_view w w' : cms_view w' = cms_view w → has_data uidVault w → has_data uidVault w'.
Proof. unfold has_data. by intros ->. Qed.

(** A write to the vault keeps the other key. *)
Lemma Put_kept key val w :
  has_data uidVault w →
  wp (ConfigMapVault_Put uidVault key val)
    (λ _ w', value w' key = Some val ∧ has_data uidVault w' ∧ ∀ k, k ≠ key → value w' k = value w k)
    (λ _ _, True) w.
Proof.
  intros Hd. wp_use (Put_ok uidVault); [done| |done].
  intros _ w' (Hv&Hd'&[Hk|(e&w1&r&_&Hv1&Hadd)]); [done|]. split_and!; [done..|].
  pose proof (gl_Add_fresh (Some {[key := val]}) w1) as Hf. unfold wp in Hf. rewrite Hadd in Hf.
  pose proof (cms_Add_spec (Some {[key := val]}) w1) as Ha. unfold wp in Ha. rewrite Hadd in Ha.
  intros k Hk. unfold vault_value, cm_get. rewrite Ha, <-Hv1, Hf. simpl. by apply lookup_singleton_ne.
Qed.

Lemma keys_differ : UidDataKey ≠ ProviderDataKey.
Proof. discriminate. Qed.

Lemma getClusterUID_ok flag w :
  has_data uidVault w →
  wp (getClusterUID flag) (λ uid w', has_data uidVault w' ∧ value w' ProviderDataKey = value w ProviderDataKey ∧
    (resolve flag (value w UidDataKey) ≠ "" → uid = resolve flag (value w UidDataKey) ∧ cms_view w' = cms_view w) ∧
    (flag = "" → value w' UidDataKey = Some uid)) (λ _ _, True) w.
Proof.
  intros Hd. unfold getClusterUID. apply wp_bind. wp_use lookup_ok; [|done].
  intros r w1 [-> Hv1]. pose proof (value_view w w1) as Hval. pose proof (has_data_view _ _ Hv1 Hd) as Hd1.
  case_decide as Hr.
  { apply wp_ret. split_and!; [done|by apply Hval|done|]. intros ->. rewrite (Hval _ Hv1).
    unfold resolve in *. simpl in *. by destruct (value w UidDataKey). }
  apply wp_bind. wp_use gl_List; [|done]. intros ings w2 Hv2. cbv beta in Hv2.
  assert (∀ uid w3, cms_view w3 = cms_view w2 →
    wp (_ ← ConfigMapVault_Put uidVault UidDataKey uid; mret uid) (λ uid w', has_data uidVault w' ∧
      value w' ProviderDataKey = value w ProviderDataKey ∧
      (resolve flag (value w UidDataKey) ≠ "" → uid = resolve flag (value w UidDataKey) ∧ cms_view w' = cms_view w) ∧
      (flag = "" → value w' UidDataKey = Some uid)) (λ _ _, True) w3) as Hput.
  { intros uid w3 Hv3. rewrite Hv2, Hv1 in Hv3. apply wp_bind. wp_use Put_kept; [by eapply has_data_view| |done].
    intros _ w4 (Hu&Hd4&Hk). apply wp_ret. split_and!; [done| |done|done].
    rewrite Hk by (symmetry; apply keys_differ). by apply value_view. }
  destruct (workingIngress ings) as [ing|].
  - cbv zeta. case_decide; by apply Hput.
  - apply wp_bind. wp_use gl_urandom; [|done]. intros b w3 [_ Hv3]. by apply Hput.
Qed.

Lemma getFirewallName_ok flag uid w :
  has_data uidVault w →
  wp (getFirewallName flag uid) (λ fw w', has_data uidVault w' ∧ value w' UidDataKey = value w UidDataKey ∧
    fw = resolve (resolve flag (value w ProviderDataKey)) (Some uid) ∧ value w' ProviderDataKey = Some fw)
    (λ _ _, True) w.
Proof.
  intros Hd. unfold getFirewallName. apply wp_bind. wp_use lookup_ok; [|done].
  intros r w1 [-> Hv1]. pose proof (has_data_view _ _ Hv1 Hd) as Hd1.
  generalize (resolve flag (value w ProviderDataKey)). intros r. unfold resolve.
  case_decide; apply wp_bind; (wp_use Put_kept; [done| |done]); intros _ w2 (Hv&Hd2&Hk); apply wp_ret;
    (split_and!; [done| |done|done]); rewrite Hk by apply keys_differ; by apply value_view.
Qed.

(** C27. The names of the cluster. The uid is the flag if it is set, else the recorded
    one if it is not empty; without the flag the uid is recorded, and so is
    the name of the firewall rule, which is the flag, the recorded one, or the uid.
    If the uid is not empty, a restart finds the same names: a later start with
    the same flags and the config map as it was left either fails or makes the
    same namer. *)
Theorem newNamer_stable uidFlag fwFlag w :
  has_data uidVault w →
  wp (newNamer uidFlag fwFlag) (λ n w', ∃ uid fw, n = NewNamer uid fw ∧
    (resolve uidFlag (value w UidDataKey) ≠ "" → uid = resolve uidFlag (value w UidDataKey)) ∧
    (uidFlag = "" → value w' UidDataKey = Some uid) ∧
    fw = resolve (resolve fwFlag (value w ProviderDataKey)) (Some uid) ∧
    value w' ProviderDataKey = Some fw ∧
    (uid ≠ "" → ∀ w2, cms_view w2 = cms_view w' →
      wp (newNamer uidFlag fwFlag) (λ n' _, n' = n) (λ _ _, True) w2)) (λ _ _, True) w.
Proof.
  intros Hd. unfold newNamer at 1. apply wp_bind. wp_use getClusterUID_ok; [done| |done].
  intros uid w1 (Hd1&Hp1&Hres&Hrec). apply wp_bind. wp_use getFirewallName_ok; [done| |done].
  intros fw w2 (Hd2&Hu2&Hfw&Hp2). rewrite Hp1 in Hfw. apply wp_ret. exists uid, fw.
  split_and!; [done|naive_solver|by rewrite Hu2|done|done|].
  intros Hne w3 Hv3. pose proof (has_data_view _ _ Hv3 Hd2) as Hd3.
  assert (resolve uidFlag (value w3 UidDataKey) = uid) as Hsame.
  { rewrite (value_view _ _ _ Hv3), Hu2. unfold resolve. case_decide as Hf.
    - unfold resolve in Hres. rewrite decide_True in Hres by done. by destruct (Hres Hf).
    - rewrite Hrec; [done|]. by destruct (decide (uidFlag = "")). }
  unfold newNamer. apply wp_bind. wp_use getClusterUID_ok; [done| |done].
  intros uid' w4 (Hd4&Hp4&Hres4&_). destruct Hres4 as [-> Hv4]; [congruence|]. rewrite Hsame in *.
  apply wp_bind. wp_use getFirewallName_ok; [done| |done].
  intros fw' w5 (_&_&->&_). apply wp_ret. f_equal. rewrite Hp4, (value_view _ _ _ Hv3), Hp2, Hfw.
  unfold resolve. repeat case_decide; simpl in *; congruence.
Qed.

Lemma hex_nonempty bs : bs ≠ [] → hex_EncodeToString bs ≠ "".
Proof. by destruct bs. Qed.

(** The uid [""] is recorded when a working ingress has no uid in its names, but
    it is not remembered: the recorded [""] counts as none, and once no ingress
    has an address the next start allocates another uid. *)
Theorem empty_uid_forgotten w :
  has_data uidVault w → value w UidDataKey = Some "" →
  (∀ w1, wp ge_Ingresses_List (λ ings _, workingIngress ings = None) (λ _ _, True) w1) →
  wp (getClusterUID "") (λ uid _, uid ≠ "") (λ _ _, True) w.
Proof.
  intros Hd Hrec Hnone. unfold getClusterUID. apply wp_bind. wp_use lookup_ok; [|done].
  intros r w1 [-> Hv1]. rewrite Hrec. simpl. apply wp_bind.
  eapply wp_mono; [eapply wp_and; [apply Hnone|apply gl_List]|simpl|done]. intros ings w2 [-> Hv2].
  apply wp_bind. wp_use gl_urandom; [|done]. intros b w3 [Hb Hv3]. apply wp_bind.
  wp_use Put_kept; [eapply has_data_view, Hd; congruence| |done]. intros _ w4 _. apply wp_ret.
  apply hex_nonempty. by destruct b.
Qed.

(** The flag does not override the recorded uid for long: the first round of the
    poll that can read the config map sets the uid of the namer to the recorded
    one. *)
Theorem poll_undoes_flag (namer : lens W Namer) `{!LensLaws namer} uid w :
  (∀ w, (cms_GetByKey (ConfigMapVault_key uidVault) w).1 ≠ Panic) →
  (∃ item w1, cms_GetByKey (ConfigMapVault_key uidVault) w = (Ok item, w1)) →
  keeps (lget namer) (cms_GetByKey (ConfigMapVault_key uidVault)) →
  value w UidDataKey = Some uid → Contains uid clusterNameDelimiter = false →
  wp (pollUid namer) (λ _ w', Namer_UID (lget namer w') = uid) (λ _ _, False) w.
Proof.
  intros Hnp (item&w1&Hget) Hk Hrec Hc. unfold pollUid. apply wp_bind. unfold pollKey at 1.
  assert (ConfigMapVault_Get uidVault UidDataKey w = (Ok (Some uid), w1)) as Hg.
  { pose proof (cms_GetByKey_spec w) as Hs. unfold ConfigMapVault_Get, wp, mbind, M_bind in *. rewrite Hget in *.
    destruct Hs as [-> _]. unfold vault_value in Hrec. by rewrite <-Hrec. }
  apply wp_bind, wp_try. unfold wp at 1. rewrite Hg. apply wp_zoom, wp_modW.
  assert (∀ w2, Namer_UID (lget namer w2) = uid →
    wp (pollKey namer ProviderDataKey (λ val n, if decide (Namer_Firewall n ≠ val) then Namer_SetFirewall val n else n))
      (λ _ w', Namer_UID (lget namer w') = uid) (λ _ _, False) w2) as Hrest.
  { intros w2 Hu. unfold pollKey. apply wp_bind, wp_try. pose proof (Hnp w2) as Hp2. specialize (Hk w2).
    unfold wp at 1, ConfigMapVault_Get, mbind at 1, M_bind at 1.
    destruct (cms_GetByKey _ w2) as [[i|e|] w3]; cbn [fst snd] in *; [|apply wp_ret; by rewrite Hk|done].
    destruct (i ← i; cm_get i ProviderDataKey) as [val|] eqn:Hi; simpl; [|apply wp_ret; by rewrite Hk].
    apply wp_zoom, wp_modW. rewrite lens_get_set, Hk. unfold Namer_SetFirewall. by repeat case_decide. }
  apply Hrest. rewrite lens_get_set. unfold Namer_SetUID. rewrite Hc. case_decide as Hu; [done|]. destruct (decide (Namer_UID (lget namer w1) = uid)); [done|by destruct Hu].
Qed.

End laws.

(** ** An API server with the config maps in one map *)

(** As [fakeConfigMapClient], but creating an object that exists fails. *)
Definition strictClient : ConfigMapClient (gmap (string * string) ConfigMap) := {|
  kcm_Create := λ ns o m,
    match m !! (ns, cm_Name o) with
    | Some _ => (Err (GoogleAPIError StatusConflict ""), m)
    | None => (Ok tt, <[(ns, cm_Name o) := o]> m)
    end;
  kcm_Update := kcm_Update (ConfigMapClient := fakeConfigMapClient);
  kcm_Delete := kcm_Delete (ConfigMapClient := fakeConfigMapClient);
  kcm_Get := kcm_Get (ConfigMapClient := fakeConfigMapClient);
  errors_IsNotFound := errors_IsNotFound (ConfigMapClient := fakeConfigMapClient);
|}.
Definition strictClientLaws : @ConfigMapClientLaws _ strictClient.
Proof.
  unshelve refine (@Build_ConfigMapClientLaws _ strictClient (λ m, m) _ _ _).
  - intros ns name w. unfold wp. simpl. by destruct (w !! (ns, name)) eqn:E.
  - intros ns o w. unfold wp. simpl. by destruct (w !! (ns, cm_Name o)) eqn:E.
  - intros ns o w. by apply wp_modW.
Defined.
Definition strictEnv : GlbcEnv (gmap (string * string) ConfigMap) := {|
  ge_Ingresses_List := mret [];
  ge_Services_Get := λ _ _, throw notFound;
  ge_urandom := mret [1; 35; 69; 103; 137; 171; 205; 239]%N;
|}.
Definition strictStoreLaws : @ConfigMapStoreLaws _ (APIServerConfigMapStore (H := strictClient)) uidVault :=
  APIServerConfigMapStoreLaws (H := strictClient) (H0 := strictClientLaws) uidVault eq_refl eq_refl.
Definition strictLaws :
  @GlbcLaws _ (APIServerConfigMapStore (H := strictClient)) strictEnv strictStoreLaws.
Proof.
  split.
  - intros w. by apply wp_ret.
  - intros w. by apply wp_ret.
  - intros d w. unfold wp. simpl. by destruct (w !! _) eqn:E.
Defined.

Lemma newNamer_stable_witness :
  let S := APIServerConfigMapStore (H := strictClient) in let E := strictEnv in
  let L := strictStoreLaws in
  newNamer "" "" ∅ = (Ok (NewNamer "0123456789abcdef" "0123456789abcdef"), (newNamer "" "" ∅).2) ∧
  wp (newNamer "" "") (λ n w', ∃ uid fw, n = NewNamer uid fw ∧
    (uid ≠ "" → wp (newNamer "" "") (λ n' _, n' = n) (λ _ _, True) w')) (λ _ _, True) ∅.
Proof.
  intros S E L. split; [reflexivity|]. pose (G := strictLaws).
  eapply wp_mono; [apply (newNamer_stable "" "" ∅)|..].
  - intros item Hi. discriminate Hi.
  - intros n w' (uid&fw&->&_&_&_&_&Hr). exists uid, fw. split; [done|]. intros Hne. by apply Hr.
  - done.
Defined.

(** The recorded empty uid, on this server. *)
Example empty_uid_forgotten_ex :
  let S := APIServerConfigMapStore (H := strictClient) in let E := strictEnv in
  ∃ w', getClusterUID "" {[("kube-system", "ingress-uid") :=
      MkConfigMap "kube-system" "ingress-uid" (Some {[UidDataKey := ""]})]} = (Ok "0123456789abcdef", w').
Proof. intros S E. eexists. vm_compute. reflexivity. Qed.
